(** * Protocol translation of the relay gateway: a shallow embedding

    The development follows the three source files that carry the
    translation engine:

    - [src/services/codexToOpenAI.js]  (module [Codex]),
    - the Gemini converter, class [GeminiToOpenAIConverter] (module [Gemini]),
    - the unified router, function [routeToBackend] (module [Router]).

    JavaScript strings are modelled as lists of code units; the code units
    are taken below 256, so that [ascii] holds one.  Numbers that the code
    only counts with (token counts, indices, clock readings) are integers;
    where the code adds two of them the sum is the one of the language,
    rounded as a double is ([JS.plus]).  A chunk of a stream is a string
    or a [Buffer]; the interceptions read a [Buffer] through [toString()],
    the UTF-8 decoder of module [Buffer].
    A plain object used as a dictionary is a finite map of its own
    properties, with the members inherited from [Object.prototype] made
    explicit where the code reads the object by a computed key. *)

From Stdlib Require Import ZArith NArith List Ascii String Lia Bool.
From Stdlib Require Import Strings.Byte.
From stdpp Require Import base option gmap sets list strings.

Local Open Scope Z_scope.

Abbreviation str := (list ascii).

(** A literal of the source text. *)
Definition lit (x : string) : str := list_ascii_of_string x.

(** ** String primitives of the language runtime *)
Module JS.

Definition LF : ascii := ascii_of_nat 10.
Definition CR : ascii := ascii_of_nat 13.

(** [String.prototype.startsWith] *)
Fixpoint startsWith (p s : str) : bool :=
  match p, s with
  | [], _ => true
  | _ :: _, [] => false
  | a :: p', b :: s' => if decide (a = b) then startsWith p' s' else false
  end.

(** [String.prototype.indexOf]: the first position where [p] occurs;
    [None] stands for the result [-1]. *)
Fixpoint indexOf (p s : str) : option nat :=
  if startsWith p s then Some O
  else match s with
       | [] => None
       | _ :: s' => S <$> indexOf p s'
       end.

(** [String.prototype.lastIndexOf]: the last position where [p] occurs. *)
Fixpoint lastIndexOf (p s : str) : option nat :=
  match s with
  | [] => if startsWith p [] then Some O else None
  | _ :: s' =>
      match lastIndexOf p s' with
      | Some i => Some (S i)
      | None => if startsWith p s then Some O else None
      end
  end.

(** [s.slice(from)] and [s.slice(0, to)] for indices that are not
    negative. *)
Definition slice_from (from : nat) (s : str) : str := skipn from s.
Definition slice_to (to : nat) (s : str) : str := firstn to s.

(** [s.slice(0, e)] for an end index of either sign: a negative end
    counts from the end of the string. *)
Definition slice0 (s : str) (e : Z) : str :=
  if e <? 0 then firstn (Z.to_nat (Z.max (Z.of_nat (length s) + e) 0)) s
  else firstn (Z.to_nat e) s.

(** [s.split(c)] for a one-character separator. *)
Fixpoint split (c : ascii) (s : str) : list str :=
  match s with
  | [] => [[]]
  | a :: s' =>
      if decide (a = c) then [] :: split c s'
      else match split c s' with
           | [] => [[a]]
           | l :: ls => (a :: l) :: ls
           end
  end.

(** White space and line terminators among the code units below 256:
    TAB, LF, VT, FF, CR, SP and NBSP. *)
Definition is_space (c : ascii) : bool :=
  let n := nat_of_ascii c in
  ((9 <=? n)%nat && (n <=? 13)%nat) || (n =? 32)%nat || (n =? 160)%nat.

Fixpoint trimStart (s : str) : str :=
  match s with
  | [] => []
  | c :: s' => if is_space c then trimStart s' else s
  end.

(** [String.prototype.trim] *)
Definition trim (s : str) : str := rev (trimStart (rev (trimStart s))).

(** A string is falsy exactly when it is empty. *)
Definition nonempty (s : str) : bool :=
  match s with [] => false | _ => true end.

(** [s.replace(/\r\n/g, '\n')] *)
Fixpoint replace_crlf (s : str) : str :=
  match s with
  | [] => []
  | a :: s' =>
      match s' with
      | b :: s'' =>
          if decide (a = CR) then
            if decide (b = LF) then LF :: replace_crlf s''
            else a :: replace_crlf s'
          else a :: replace_crlf s'
      | [] => [a]
      end
  end.

(** [String.prototype.toLowerCase] on code units below 256: the letters
    A-Z and the accented capitals 192-222 (215, the multiplication sign,
    apart) move up by 32. *)
Definition lower_char (c : ascii) : ascii :=
  let n := nat_of_ascii c in
  if ((65 <=? n)%nat && (n <=? 90)%nat)
     || ((192 <=? n)%nat && (n <=? 222)%nat && negb (n =? 215)%nat)
  then ascii_of_nat (n + 32) else c.

Definition toLowerCase (s : str) : str := map lower_char s.

(** Decimal rendering of a natural number, as a template literal
    renders it. *)
Definition digit (n : N) : ascii := ascii_of_N (48 + n).

Fixpoint dec_fuel (fuel : nat) (n : N) : str :=
  match fuel with
  | O => [digit (n mod 10)]
  | S f =>
      if (n <? 10)%N then [digit n]
      else dec_fuel f (n / 10) ++ [digit (n mod 10)]
  end.

Definition dec (n : N) : str := dec_fuel (N.to_nat (N.log2 n)) n.

(** Values a property read can produce in the fragment modelled here. *)
Inductive value : Type :=
| VStr (s : str)
| VInherited (k : str)   (* a member found on [Object.prototype] *)
| VUndefined.

Definition truthy (v : value) : bool :=
  match v with
  | VStr s => nonempty s
  | VInherited _ => true
  | VUndefined => false
  end.

(** The property names every plain object inherits. *)
Definition Object_prototype_keys : list str :=
  map lit
    [ "constructor"; "__proto__"; "hasOwnProperty"; "isPrototypeOf";
      "propertyIsEnumerable"; "toLocaleString"; "toString"; "valueOf";
      "__defineGetter__"; "__defineSetter__"; "__lookupGetter__";
      "__lookupSetter__" ]%string.

(** [o[k]] on a plain object whose own properties hold strings. *)
Definition get (o : gmap str str) (k : str) : value :=
  match o !! k with
  | Some v => VStr v
  | None =>
      if decide (k ∈ Object_prototype_keys) then VInherited k
      else VUndefined
  end.

(** [o[k] = v] for a string [v]: the inherited setter of [__proto__]
    ignores a value that is not an object, every other key becomes an own
    property. *)
Definition set (o : gmap str str) (k v : str) : gmap str str :=
  if decide (k = lit "__proto__") then o else <[k := v]> o.

(** [!s.trim()] *)
Definition blank (s : str) : bool := negb (nonempty (trim s)).

(** The value of a decimal numeral, read digit by digit. *)
Definition undigit (c : ascii) : N := (N_of_ascii c - 48)%N.

Definition undec (s : str) : N :=
  fold_left (fun acc c => (acc * 10 + undigit c)%N) s 0%N.

Definition underscore : ascii := "_"%char.

(** [a + b] on two numbers that hold integers: the sum, rounded to the 53
    bits a double keeps, a tie going to the neighbour whose last bit is
    0.  Below 2^53 every integer is a double and the sum is exact.  (A
    sum of 2^1024 or more, which is [Infinity], is outside.) *)
Definition round53 (z : Z) : Z :=
  let a := Z.abs z in
  if a <? 2 ^ 53 then z
  else
    let ulp := 2 ^ (Z.log2 a - 52) in
    let q := a / ulp in
    let r := a mod ulp in
    let q' := if 2 * r <? ulp then q
              else if ulp <? 2 * r then q + 1
              else if Z.even q then q else q + 1 in
    Z.sgn z * (q' * ulp).

Definition plus (a b : Z) : Z := round53 (a + b).

End JS.

(** ** [Buffer.prototype.toString()]

  A chunk that is not a string is a [Buffer], and the interceptions read
  it through [toString()]: the bytes decoded as UTF-8, a sequence that is
  not well formed giving U+FFFD.  The result is a string over all code
  units, which are numbers here; [wide] is a string of this development
  among them. *)
Module Buffer.

(** The decoder between two bytes: the code point gathered so far, the
    bytes still to come for it, and the range the next byte must lie
    in. *)
Record pending : Type := {
  code_point : N;
  needed : nat;
  lower : N;
  upper : N
}.

Definition idle : pending :=
  {| code_point := 0; needed := 0; lower := 128; upper := 191 |}.

Definition replacement : N := 65533.

(** A code point as UTF-16 code units. *)
Definition units (cp : N) : list N :=
  if (cp <? 65536)%N then [cp]
  else [ (55296 + (cp - 65536) / 1024)%N; (56320 + (cp - 65536) mod 1024)%N ].

(** A byte that opens a character. *)
Definition first_byte (b : N) : pending * list N :=
  if (b <=? 127)%N then (idle, [b])
  else if ((194 <=? b) && (b <=? 223))%N then
    ({| code_point := (b mod 32)%N; needed := 1;
        lower := 128; upper := 191 |}, [])
  else if ((224 <=? b) && (b <=? 239))%N then
    ({| code_point := (b mod 16)%N; needed := 2;
        lower := if (b =? 224)%N then 160%N else 128%N;
        upper := if (b =? 237)%N then 159%N else 191%N |}, [])
  else if ((240 <=? b) && (b <=? 244))%N then
    ({| code_point := (b mod 8)%N; needed := 3;
        lower := if (b =? 240)%N then 144%N else 128%N;
        upper := if (b =? 244)%N then 143%N else 191%N |}, [])
  else (idle, [replacement]).

(** One byte: a byte outside the range ends the character with U+FFFD
    and is read again as a first byte. *)
Definition byte_step (p : pending) (b : N) : pending * list N :=
  match needed p with
  | O => first_byte b
  | S more =>
      if ((lower p <=? b) && (b <=? upper p))%N then
        let cp := (code_point p * 64 + b mod 64)%N in
        match more with
        | O => (idle, units cp)
        | S _ => ({| code_point := cp; needed := more;
                     lower := 128; upper := 191 |}, [])
        end
      else
        let '(p', out) := first_byte b in (p', replacement :: out)
  end.

Fixpoint decode_from (p : pending) (bytes : list byte) : list N :=
  match bytes with
  | [] => match needed p with O => [] | S _ => [replacement] end
  | b :: rest =>
      let '(p', out) := byte_step p (Byte.to_N b) in
      out ++ decode_from p' rest
  end.

(** [buf.toString()] *)
Definition toString (bytes : list byte) : list N := decode_from idle bytes.

(** A string of this development among the strings over all code
    units, and a text written as bytes, one for each code unit below
    128. *)
Definition wide (s : str) : list N := map N_of_ascii s.

Definition bytes_of (s : str) : list byte := map byte_of_ascii s.

End Buffer.

(** ** The tool-name table of [codexToOpenAI.js] *)
Module ToolNames.

Definition LIMIT : nat := 64.

(** The closure [baseCandidate] of [_buildShortNameMap]. *)
Definition baseCandidate (n : str) : str :=
  if (length n <=? LIMIT)%nat then n
  else
    let truncated := JS.slice_to LIMIT n in
    if JS.startsWith (lit "mcp__") n then
      match JS.lastIndexOf (lit "__") n with
      | Some idx =>
          if (0 <? idx)%nat then
            let cand := lit "mcp__" ++ JS.slice_from (idx + 2) n in
            if (LIMIT <? length cand)%nat then JS.slice_to LIMIT cand
            else cand
          else truncated
      | None => truncated
      end
    else truncated.

(** One candidate of the loop of [makeUnique]: the base, cut to leave
    room for the suffix, followed by the suffix. *)
Definition suffixed (base : str) (i : N) : str :=
  let suffix := lit "_" ++ JS.dec i in
  let allowed := Z.of_nat LIMIT - Z.of_nat (length suffix) in
  (if allowed <? Z.of_nat (length base) then JS.slice0 base allowed
   else base) ++ suffix.

(** [for (let i = 1; ; i++)]: the loop has no exit but its [return];
    [None] is a run that is still going when the fuel is spent. *)
Fixpoint makeUnique_loop (used : gset str) (base : str)
    (fuel : nat) (i : N) : option str :=
  match fuel with
  | O => None
  | S fuel' =>
      let tmp := suffixed base i in
      if decide (tmp ∈ used) then makeUnique_loop used base fuel' (i + 1)
      else Some tmp
  end.

(** The closure [makeUnique] of [_buildShortNameMap]; the loop is given
    one round more than there are names in use. *)
Definition makeUnique (used : gset str) (cand : str) : option str :=
  if decide (cand ∈ used) then makeUnique_loop used cand (S (size used)) 1
  else Some cand.

(** The body of [for (const n of names)]. *)
Definition assign (acc : gset str * gmap str str) (n : str)
    : option (gset str * gmap str str) :=
  let '(used, map) := acc in
  short ← makeUnique used (baseCandidate n);
  Some ({[ short ]} ∪ used, JS.set map n short).

Fixpoint assign_all (acc : gset str * gmap str str) (names : list str)
    : option (gset str * gmap str str) :=
  match names with
  | [] => Some acc
  | n :: rest => acc' ← assign acc n; assign_all acc' rest
  end.

(** [_buildShortNameMap(names)] *)
Definition _buildShortNameMap (names : list str) : option (gmap str str) :=
  snd <$> assign_all (∅, ∅) names.

(** The reverse map of [buildRequestFromOpenAI]:
    [for (const [orig, short] of Object.entries(map))
       if (orig !== short) reverse[short] = orig].
    The entries are taken in the order of [map_to_list]; the order
    matters only when two originals share a short name. *)
Definition reverse_entry (rev : gmap str str) (e : str * str)
    : gmap str str :=
  let '(orig, short) := e in
  if decide (orig = short) then rev else JS.set rev short orig.

Definition reverseMap (map : gmap str str) : gmap str str :=
  fold_left reverse_entry (map_to_list map) ∅.

(** [_restoreToolName(shortName)]:
    [this._reverseToolNameMap[shortName] || shortName]. *)
Definition _restoreToolName (rev : gmap str str) (shortName : str)
    : JS.value :=
  let found := JS.get rev shortName in
  if JS.truthy found then found else JS.VStr shortName.

(** The lookup of [_shortenToolName] for a name of the table. *)
Definition forward (map : gmap str str) (name : str) : option str :=
  map !! name.

(** What holds of the set of names in use and of the map between two
    rounds of the loop over the names. *)
Record table_ok (acc : gset str * gmap str str) : Prop := {
  ok_used : forall n s, acc.2 !! n = Some s -> s ∈ acc.1;
  ok_inj : forall n1 n2 s,
    acc.2 !! n1 = Some s -> acc.2 !! n2 = Some s -> n1 = n2;
  ok_length : forall n s, acc.2 !! n = Some s -> (length s <= LIMIT)%nat;
  ok_shape : forall n s, acc.2 !! n = Some s ->
    s = baseCandidate n \/
    exists i, (1 <= i)%N /\ s = suffixed (baseCandidate n) i
}.

End ToolNames.

(** ** The canonical (OpenAI-style) streaming and response objects *)
Module Canonical.

(** The canonical finish reasons. *)
Inductive finish_reason : Type :=
| stop | length_limit | tool_calls | content_filter.

#[global] Instance finish_reason_eq_dec : EqDecision finish_reason.
Proof. solve_decision. Defined.

(** The string a finish reason is serialised as. *)
Definition finish_reason_text (r : finish_reason) : str :=
  match r with
  | stop => lit "stop"
  | length_limit => lit "length"
  | tool_calls => lit "tool_calls"
  | content_filter => lit "content_filter"
  end.

(** One entry of [delta.tool_calls] / [message.tool_calls]; a field the
    code leaves out of the object literal is [None]. *)
Record tool_call : Type := {
  tc_index : option Z;
  tc_id : option str;
  tc_type : option str;
  tc_name : option JS.value;
  tc_arguments : str
}.

Record image : Type := {
  img_type : str;
  img_index : Z;
  img_url : str
}.

(** The fields a converter puts into a delta before the role is added. *)
Inductive delta_body : Type :=
| NoFields                            (* [{}] *)
| Content (text : str)                (* [{ content }] *)
| Reasoning (text : str)              (* [{ reasoning_content }] *)
| ToolCalls (calls : list tool_call)  (* [{ tool_calls }] *)
| Images (imgs : list image).         (* [{ images }] *)

Record delta : Type := {
  role : option str;
  body : delta_body
}.

Record usage : Type := {
  prompt_tokens : Z;
  completion_tokens : Z;
  total_tokens : Z;
  reasoning_tokens : option Z;   (* [completion_tokens_details] *)
  cached_tokens : option Z       (* [prompt_tokens_details] *)
}.

Record choice : Type := {
  index : Z;
  choice_delta : delta;
  finish : option finish_reason
}.

(** [chat.completion.chunk] *)
Record chunk : Type := {
  id : str;
  created : Z;
  model : str;
  choices : list choice;
  chunk_usage : option usage
}.

Record message : Type := {
  msg_role : str;
  msg_content : option str;
  msg_reasoning_content : option str;
  msg_tool_calls : option (list tool_call);
  msg_images : option (list image)
}.

Record message_choice : Type := {
  mc_index : Z;
  mc_message : message;
  mc_finish : finish_reason
}.

(** [chat.completion] *)
Record completion : Type := {
  c_id : str;
  c_created : Z;
  c_model : str;
  c_choices : list message_choice;
  c_usage : option usage
}.

(** [chunk.choices[0] = f (chunk.choices[0])] *)
Definition on_choice0 (f : choice -> choice) (c : chunk) : chunk :=
  {| id := id c; created := created c; model := model c;
     choices := match choices c with
                | [] => []
                | ch :: rest => f ch :: rest
                end;
     chunk_usage := chunk_usage c |}.

Definition set_index (i : Z) (ch : choice) : choice :=
  {| index := i; choice_delta := choice_delta ch; finish := finish ch |}.

Definition set_delta (d : delta) (ch : choice) : choice :=
  {| index := index ch; choice_delta := d; finish := finish ch |}.

Definition set_finish (r : finish_reason) (ch : choice) : choice :=
  {| index := index ch; choice_delta := choice_delta ch; finish := Some r |}.

Definition set_usage (u : option usage) (c : chunk) : chunk :=
  {| id := id c; created := created c; model := model c;
     choices := choices c; chunk_usage := u |}.

(** What a converter hands to the transport: a canonical chunk, to be
    sent as [data: <JSON>\n\n], or a payload forwarded as it came. *)
Inductive frame : Type :=
| Chunk (c : chunk)
| Raw (jsonStr : str)
| ErrorEvent (message type : str) (code : option str).

End Canonical.

(** ** The frame loop shared by the two streaming interceptions

  [convertStreamChunk] of the Gemini converter and the patched
  [res.write] of the router's Codex branch run the same loop over their
  text buffer; they differ in what they do with one line of an event. *)
Module SSE.
Section Loop.

Context {St Out : Type}.

(** The body of [for (const line of lines)]. *)
Variable on_line : St -> str -> St * list Out.

Fixpoint for_lines (st : St) (lines : list str) : St * list Out :=
  match lines with
  | [] => (st, [])
  | line :: rest =>
      let '(st1, o1) := on_line st line in
      let '(st2, o2) := for_lines st1 rest in
      (st2, o1 ++ o2)
  end.

Definition separator : str := [JS.LF; JS.LF].

(** [while ((idx = buffer.indexOf('\n\n')) !== -1)]: one round cuts the
    event before the separator off the buffer.  The result is the state,
    what is left in the buffer and the output, in order. *)
Fixpoint drain (fuel : nat) (st : St) (buffer : str) : St * str * list Out :=
  match fuel with
  | O => (st, buffer, [])
  | S fuel' =>
      match JS.indexOf separator buffer with
      | None => (st, buffer, [])
      | Some idx =>
          let event := JS.slice_to idx buffer in
          let buffer' := JS.slice_from (idx + 2) buffer in
          if negb (JS.nonempty (JS.trim event)) then drain fuel' st buffer'
          else
            let '(st1, o1) := for_lines st (JS.split JS.LF event) in
            let '(st2, rest, o2) := drain fuel' st1 buffer' in
            (st2, rest, o1 ++ o2)
      end
  end.

(** The loop run to its end: every round shortens the buffer, so its
    length is fuel enough. *)
Definition events (st : St) (buffer : str) : St * str * list Out :=
  drain (length buffer) st buffer.

(** One round of the loop, spelled without fuel: [again] is the rest of
    the run. *)
Definition round (again : St -> str -> St * str * list Out)
    (st : St) (buffer : str) : St * str * list Out :=
  match JS.indexOf separator buffer with
  | None => (st, buffer, [])
  | Some idx =>
      let event := JS.slice_to idx buffer in
      let buffer' := JS.slice_from (idx + 2) buffer in
      if negb (JS.nonempty (JS.trim event)) then again st buffer'
      else
        let '(st1, o1) := for_lines st (JS.split JS.LF event) in
        let '(st2, rest, o2) := again st1 buffer' in
        (st2, rest, o1 ++ o2)
  end.

End Loop.

(** The same loop around a body that may throw: the exception leaves the
    loop at once.  The event it came from has been cut off the buffer,
    the lines and events after it are not looked at, and the output
    gathered so far is gone with the local variable that held it;
    [None] is that outcome. *)
Section Throwing.

Context {St Out : Type}.

Variable on_line : St -> str -> St * option (list Out).

Fixpoint try_lines (st : St) (lines : list str) : St * option (list Out) :=
  match lines with
  | [] => (st, Some [])
  | line :: rest =>
      match on_line st line with
      | (st1, None) => (st1, None)
      | (st1, Some o1) =>
          match try_lines st1 rest with
          | (st2, None) => (st2, None)
          | (st2, Some o2) => (st2, Some (o1 ++ o2))
          end
      end
  end.

Fixpoint try_drain (fuel : nat) (st : St) (buffer : str)
    : St * str * option (list Out) :=
  match fuel with
  | O => (st, buffer, Some [])
  | S fuel' =>
      match JS.indexOf separator buffer with
      | None => (st, buffer, Some [])
      | Some idx =>
          let event := JS.slice_to idx buffer in
          let buffer' := JS.slice_from (idx + 2) buffer in
          if negb (JS.nonempty (JS.trim event)) then try_drain fuel' st buffer'
          else
            match try_lines st (JS.split JS.LF event) with
            | (st1, None) => (st1, buffer', None)
            | (st1, Some o1) =>
                match try_drain fuel' st1 buffer' with
                | (st2, rest, None) => (st2, rest, None)
                | (st2, rest, Some o2) => (st2, rest, Some (o1 ++ o2))
                end
            end
      end
  end.

Definition try_events (st : St) (buffer : str)
    : St * str * option (list Out) :=
  try_drain (length buffer) st buffer.

(** The body made total: where it throws it gives the mark [None] and
    goes on.  The loop above and the loop [events] around this body
    agree as long as no mark comes out. *)
Definition marked (st : St) (line : str) : St * list (option Out) :=
  match on_line st line with
  | (st1, None) => (st1, [None])
  | (st1, Some o1) => (st1, map Some o1)
  end.

End Throwing.
End SSE.

(** ** The Gemini converter, class [GeminiToOpenAIConverter] *)
Module Gemini.
Import Canonical.

(** *** Native response objects *)

Record functionCall : Type := {
  fc_name : str;
  fc_args : option str     (* [JSON.stringify(args)] when [args] is truthy *)
}.

Record inlineData : Type := {
  data : option str;
  mimeType : option str;
  mime_type : option str
}.

Record part : Type := {
  thoughtSignature : option str;
  text : option str;
  thought : bool;
  part_functionCall : option functionCall;
  part_inlineData : option inlineData;
  part_inline_data : option inlineData
}.

Record candidate : Type := {
  cand_index : option Z;
  parts : list part;             (* [content?.parts || []] *)
  finishReason : option str
}.

Record usageMetadata : Type := {
  promptTokenCount : option Z;
  candidatesTokenCount : option Z;
  thoughtsTokenCount : option Z;
  totalTokenCount : option Z;
  cachedContentTokenCount : option Z
}.

Record response : Type := {
  responseId : option str;
  modelVersion : option str;
  createTime : option str;
  candidates : list candidate;   (* [candidates || []] *)
  meta : option usageMetadata    (* [usageMetadata] *)
}.

(** A parsed payload: the response itself, or the [v1internal] envelope
    [{ response: {...} }]; [error] is the truthiness of its [error]
    field. *)
Record geminiData : Type := {
  error : bool;
  wrapped : option response;     (* [geminiData.response] *)
  direct : response
}.

(** [geminiData.response || geminiData] *)
Definition unwrap (g : geminiData) : response :=
  match wrapped g with Some r => r | None => direct g end.

(** *** Payloads as [JSON.parse] returns them

    The records above are payloads with an object wherever the
    converter reads one.  What [JSON.parse] returns may also be [null],
    and its arrays [candidates] and [parts] may hold [null] for an
    element; reading a property of [null] throws a [TypeError].  [None]
    in a list below is such an element. *)
Record candidate_in : Type := {
  in_index : option Z;
  in_parts : list (option part);
  in_finishReason : option str
}.

Record response_in : Type := {
  in_responseId : option str;
  in_modelVersion : option str;
  in_createTime : option str;
  in_candidates : list (option candidate_in);
  in_meta : option usageMetadata
}.

Inductive parsed : Type :=
| Null
| Object (error : bool) (wrapped : option response_in) (direct : response_in).

(** The fields of a response apart from its candidates. *)
Definition head_of (d : response_in) : response :=
  {| responseId := in_responseId d; modelVersion := in_modelVersion d;
     createTime := in_createTime d; candidates := [];
     meta := in_meta d |}.

(** A payload without [null] among the parsed ones. *)
Definition candidate_as (c : candidate) : candidate_in :=
  {| in_index := cand_index c; in_parts := map Some (parts c);
     in_finishReason := finishReason c |}.

Definition response_as (d : response) : response_in :=
  {| in_responseId := responseId d; in_modelVersion := modelVersion d;
     in_createTime := createTime d;
     in_candidates := map (fun c => Some (candidate_as c)) (candidates d);
     in_meta := meta d |}.

Definition whole (g : geminiData) : parsed :=
  Object (error g) (option_map response_as (wrapped g))
         (response_as (direct g)).

(** Truthiness of an optional string field. *)
Definition given (o : option str) : bool :=
  match o with Some s => JS.nonempty s | None => false end.

(** [x || 0] on an optional count. *)
Definition or0 (o : option Z) : Z :=
  match o with Some n => n | None => 0 end.

(** [x > 0] on an optional count. *)
Definition positive (o : option Z) : option Z :=
  match o with Some n => if 0 <? n then Some n else None | None => None end.

(** *** Stream state *)

Record state : Type := {
  buffer : str;
  st_id : str;
  st_created : Z;
  st_model : option str;
  functionIndex : N;
  candidatesWithFunctionCalls : gset Z;
  roleSent : bool
}.

Definition with_buffer (b : str) (s : state) : state :=
  {| buffer := b; st_id := st_id s; st_created := st_created s;
     st_model := st_model s; functionIndex := functionIndex s;
     candidatesWithFunctionCalls := candidatesWithFunctionCalls s;
     roleSent := roleSent s |}.

(** [_mapFinishReason] *)
Definition _mapFinishReason (geminiReason : str) : finish_reason :=
  let fr := JS.toLowerCase geminiReason in
  if decide (fr = lit "stop") then stop
  else if decide (fr = lit "max_tokens") then length_limit
  else if decide (fr = lit "malformed_function_call"
                  \/ fr = lit "too_many_tool_calls"
                  \/ fr = lit "unexpected_tool_call") then stop
  else if decide (fr = lit "safety" \/ fr = lit "recitation"
                  \/ fr = lit "blocklist" \/ fr = lit "prohibited_content"
                  \/ fr = lit "spii" \/ fr = lit "image_safety"
                  \/ fr = lit "language") then content_filter
  else stop.

(** [_mapUsage] *)
Definition _mapUsage (m : option usageMetadata) : option usage :=
  match m with
  | None => None
  | Some meta =>
      let completionTokens :=
        JS.plus (or0 (candidatesTokenCount meta))
                (or0 (thoughtsTokenCount meta)) in
      Some {| prompt_tokens := or0 (promptTokenCount meta);
              completion_tokens := completionTokens;
              total_tokens := or0 (totalTokenCount meta);
              reasoning_tokens := positive (thoughtsTokenCount meta);
              cached_tokens := positive (cachedContentTokenCount meta) |}
  end.

(** [_makeChunk] *)
Definition _makeChunk (s : state) (model : str) : chunk :=
  {| id := st_id s;
     created := st_created s;
     model := match st_model s with
              | Some m => if JS.nonempty m then m else model
              | None => model
              end;
     choices := [ {| index := 0;
                     choice_delta := {| role := None; body := NoFields |};
                     finish := None |} ];
     chunk_usage := None |}.

Definition with_roleSent (s : state) : state :=
  {| buffer := buffer s; st_id := st_id s; st_created := st_created s;
     st_model := st_model s; functionIndex := functionIndex s;
     candidatesWithFunctionCalls := candidatesWithFunctionCalls s;
     roleSent := true |}.

(** [_injectRole] *)
Definition _injectRole (s : state) (d : delta) : state * delta :=
  if negb (roleSent s)
  then (with_roleSent s, {| role := Some (lit "assistant"); body := body d |})
  else (s, d).

(** The test that drops a part carrying a signature and nothing else. *)
Definition signature_only (p : part) : bool :=
  given (thoughtSignature p) && negb (given (text p))
  && negb (bool_decide (is_Some (part_functionCall p)))
  && negb (bool_decide (is_Some (part_inlineData p)))
  && negb (bool_decide (is_Some (part_inline_data p))).

(** [part.inlineData || part.inline_data] *)
Definition inline_of (p : part) : option inlineData :=
  match part_inlineData p with
  | Some d => Some d
  | None => part_inline_data p
  end.

(** [data:${mimeType};base64,${imgData}] *)
Definition data_url (d : inlineData) (imgData : str) : str :=
  let mime :=
    if given (mimeType d) then default [] (mimeType d)
    else if given (mime_type d) then default [] (mime_type d)
    else lit "image/png" in
  lit "data:" ++ mime ++ lit ";base64," ++ imgData.

(** [JSON.stringify(part.functionCall.args || {})] *)
Definition args_text (f : functionCall) : str :=
  default (lit "{}") (fc_args f).

Definition with_id (i : str) (s : state) : state :=
  {| buffer := buffer s; st_id := i; st_created := st_created s;
     st_model := st_model s; functionIndex := functionIndex s;
     candidatesWithFunctionCalls := candidatesWithFunctionCalls s;
     roleSent := roleSent s |}.

Definition with_model (m : str) (s : state) : state :=
  {| buffer := buffer s; st_id := st_id s; st_created := st_created s;
     st_model := Some m; functionIndex := functionIndex s;
     candidatesWithFunctionCalls := candidatesWithFunctionCalls s;
     roleSent := roleSent s |}.

Definition with_created (t : Z) (s : state) : state :=
  {| buffer := buffer s; st_id := st_id s; st_created := t;
     st_model := st_model s; functionIndex := functionIndex s;
     candidatesWithFunctionCalls := candidatesWithFunctionCalls s;
     roleSent := roleSent s |}.

(** [state.candidatesWithFunctionCalls.add(candidateIndex)] *)
Definition with_call_of (candidateIndex : Z) (s : state) : state :=
  {| buffer := buffer s; st_id := st_id s; st_created := st_created s;
     st_model := st_model s; functionIndex := functionIndex s;
     candidatesWithFunctionCalls :=
       {[ candidateIndex ]} ∪ candidatesWithFunctionCalls s;
     roleSent := roleSent s |}.

(** [state.functionIndex++] *)
Definition next_function (s : state) : state :=
  {| buffer := buffer s; st_id := st_id s; st_created := st_created s;
     st_model := st_model s; functionIndex := (functionIndex s + 1)%N;
     candidatesWithFunctionCalls := candidatesWithFunctionCalls s;
     roleSent := roleSent s |}.

(** How a call of [convertStreamChunk] ends: it returns the chunk
    itself for a heartbeat, or the frames it appended to [output] (no
    frame at all is the result [null]); or a [TypeError] of the
    conversion leaves it, and nothing is returned. *)
Inductive converted : Type :=
| Passthrough (s : str)
| Output (frames : list frame)
| TypeError.

(** What the non-streaming conversion gathers from the parts of one
    candidate. *)
Record collected : Type := {
  textParts : list str;
  thoughtParts : list str;
  toolCalls : list tool_call;
  images : list image;
  fnIndex : N
}.

Section Converter.

(** [Date.now()], read as one value along an exchange. *)
Variable now : N.
(** [new Date(s).getTime()]; [None] is the result [NaN]. *)
Variable Date_parse : str -> option Z.
(** [JSON.parse] on a payload; [None] is a thrown [SyntaxError]. *)
Variable JSON_parse : str -> option parsed.

Definition now_seconds : Z := Z.of_N now / 1000.

(** [createStreamState] *)
Definition createStreamState : state :=
  {| buffer := [];
     st_id := lit "chatcmpl-" ++ JS.dec now;
     st_created := now_seconds;
     st_model := None;
     functionIndex := 0%N;
     candidatesWithFunctionCalls := ∅;
     roleSent := false |}.

(** [_parseCreateTime] *)
Definition _parseCreateTime (createTime : option str) : Z :=
  if negb (given createTime) then now_seconds
  else match Date_parse (default [] createTime) with
       | Some ms => ms / 1000
       | None => now_seconds
       end.

(** The metadata update at the head of [_convertGeminiChunkToOpenAI]. *)
Definition update_metadata (d : response) (s : state) : state :=
  let s1 := if given (responseId d)
            then with_id (default [] (responseId d)) s else s in
  let s2 := if given (modelVersion d)
            then with_model (default [] (modelVersion d)) s1 else s1 in
  if given (createTime d) then
    let ts := _parseCreateTime (createTime d) in
    if decide (ts <> now_seconds) then with_created ts s2 else s2
  else s2.

(** The body of [for (const part of parts)] in the streaming path. *)
Definition convert_part (model : str) (candidateIndex : Z)
    (acc : state * list chunk) (p : part) : state * list chunk :=
  let '(s, results) := acc in
  if signature_only p then acc
  else
    let chunk := on_choice0 (set_index candidateIndex) (_makeChunk s model) in
    match part_functionCall p with
    | Some f =>
        let s1 := with_call_of candidateIndex s in
        let d :=
          {| role := None;
             body := ToolCalls
               [ {| tc_index := Some (Z.of_N (functionIndex s1));
                    tc_id := Some (fc_name f ++ lit "-" ++ JS.dec now
                                   ++ lit "-" ++ JS.dec (functionIndex s1));
                    tc_type := Some (lit "function");
                    tc_name := Some (JS.VStr (fc_name f));
                    tc_arguments := args_text f |} ] |} in
        let '(s2, d') := _injectRole s1 d in
        (next_function s2, results ++ [on_choice0 (set_delta d') chunk])
    | None =>
        match text p with
        | Some t =>
            let d := {| role := None;
                        body := if thought p then Reasoning t
                                else Content t |} in
            let '(s1, d') := _injectRole s d in
            (s1, results ++ [on_choice0 (set_delta d') chunk])
        | None =>
            match inline_of p with
            | Some inlined =>
                if given (data inlined) then
                  let d :=
                    {| role := None;
                       body := Images
                         [ {| img_type := lit "image_url";
                              img_index := 0;
                              img_url :=
                                data_url inlined (default [] (data inlined)) |} ] |} in
                  let '(s1, d') := _injectRole s d in
                  (s1, results ++ [on_choice0 (set_delta d') chunk])
                else acc
            | None => acc
            end
        end
    end.

(** The body of [for (let i = 0; i < candidates.length; i++)]. *)
Definition convert_candidate (model : str) (d : response)
    (acc : state * list chunk) (i : nat) (c : candidate)
    : state * list chunk :=
  let candidateIndex :=
    match cand_index c with Some k => k | None => Z.of_nat i end in
  let '(s, results) :=
    fold_left (convert_part model candidateIndex) (parts c) acc in
  if given (finishReason c) then
    let chunk := on_choice0 (set_index candidateIndex) (_makeChunk s model) in
    let reason :=
      if decide (candidateIndex ∈ candidatesWithFunctionCalls s)
      then tool_calls
      else _mapFinishReason (default [] (finishReason c)) in
    let chunk := on_choice0 (set_finish reason) chunk in
    let chunk := match meta d with
                 | Some _ => set_usage (_mapUsage (meta d)) chunk
                 | None => chunk
                 end in
    (s, results ++ [chunk])
  else (s, results).

Fixpoint for_candidates (model : str) (d : response) (i : nat)
    (cs : list candidate) (acc : state * list chunk) : state * list chunk :=
  match cs with
  | [] => acc
  | c :: rest =>
      for_candidates model d (S i) rest (convert_candidate model d acc i c)
  end.

(** [_convertGeminiChunkToOpenAI] *)
Definition _convertGeminiChunkToOpenAI (g : geminiData) (model : str)
    (s : state) : state * list chunk :=
  let d := unwrap g in
  let s := update_metadata d s in
  match candidates d, meta d with
  | [], Some _ =>
      let chunk := on_choice0 (set_finish stop) (_makeChunk s model) in
      (s, [set_usage (_mapUsage (meta d)) chunk])
  | cs, _ => for_candidates model d 0 cs (s, [])
  end.

(** [_convertGeminiChunkToOpenAI] on a payload as [JSON.parse] returns it.
    The loop over the parts throws at a part that is [null]
    ([part.thoughtSignature]), the loop over the candidates at a
    candidate that is [null] ([candidate.index]); the state keeps what
    was done before, and [None] stands for the exception. *)
Fixpoint parts_in (model : str) (candidateIndex : Z)
    (ps : list (option part)) (acc : state * list chunk)
    : state * option (list chunk) :=
  match ps with
  | [] => (fst acc, Some (snd acc))
  | None :: _ => (fst acc, None)
  | Some p :: rest =>
      parts_in model candidateIndex rest
        (convert_part model candidateIndex acc p)
  end.

Definition candidate_in_step (model : str) (usageMetadata : option usageMetadata)
    (acc : state * list chunk) (i : nat) (c : candidate_in)
    : state * option (list chunk) :=
  let candidateIndex :=
    match in_index c with Some k => k | None => Z.of_nat i end in
  match parts_in model candidateIndex (in_parts c) acc with
  | (s, None) => (s, None)
  | (s, Some results) =>
      if given (in_finishReason c) then
        let chunk :=
          on_choice0 (set_index candidateIndex) (_makeChunk s model) in
        let reason :=
          if decide (candidateIndex ∈ candidatesWithFunctionCalls s)
          then tool_calls
          else _mapFinishReason (default [] (in_finishReason c)) in
        let chunk := on_choice0 (set_finish reason) chunk in
        let chunk := match usageMetadata with
                     | Some _ => set_usage (_mapUsage usageMetadata) chunk
                     | None => chunk
                     end in
        (s, Some (results ++ [chunk]))
      else (s, Some results)
  end.

Fixpoint candidates_in (model : str) (usageMetadata : option usageMetadata)
    (i : nat) (cs : list (option candidate_in)) (acc : state * list chunk)
    : state * option (list chunk) :=
  match cs with
  | [] => (fst acc, Some (snd acc))
  | None :: _ => (fst acc, None)
  | Some c :: rest =>
      match candidate_in_step model usageMetadata acc i c with
      | (s, None) => (s, None)
      | (s, Some results) =>
          candidates_in model usageMetadata (S i) rest (s, results)
      end
  end.

Definition convert_parsed (p : parsed) (model : str) (s : state)
    : state * option (list chunk) :=
  match p with
  | Null => (s, None)
  | Object _ wrapped direct =>
      let d := match wrapped with Some r => r | None => direct end in
      let s := update_metadata (head_of d) s in
      match in_candidates d, in_meta d with
      | [], Some _ =>
          let chunk := on_choice0 (set_finish stop) (_makeChunk s model) in
          (s, Some [set_usage (_mapUsage (in_meta d)) chunk])
      | cs, _ => candidates_in model (in_meta d) 0 cs (s, [])
      end
  end.

(** The body of [for (const line of lines)] in [convertStreamChunk].
    Only [JSON.parse] is inside the [try]: reading [geminiData.error] of
    [null] throws, and so may the conversion. *)
Definition on_line (model : str) (s : state) (line : str)
    : state * option (list frame) :=
  if negb (JS.startsWith (lit "data: ") line) then (s, Some [])
  else
    let jsonStr := JS.trim (JS.slice_from 6 line) in
    if negb (JS.nonempty jsonStr) then (s, Some [])
    else if decide (jsonStr = lit "[DONE]") then (s, Some [])
    else match JSON_parse jsonStr with
         | None => (s, Some [Raw jsonStr])
         | Some Null => (s, None)
         | Some (Object error _ _ as geminiData) =>
             if error then (s, Some [Raw jsonStr])
             else
               match convert_parsed geminiData model s with
               | (s', Some chunks) => (s', Some (map Chunk chunks))
               | (s', None) => (s', None)
               end
         end.

(** [convertStreamChunk], on the text of the chunk: the chunk itself when
    it is a string, [toString()] of it when it is a [Buffer]. *)
Definition convertStreamChunk (rawChunk : str) (model : str) (s : state)
    : state * converted :=
  let str := JS.replace_crlf rawChunk in
  if negb (JS.nonempty (JS.trim str)) && negb (JS.nonempty (buffer s))
  then (s, Passthrough str)
  else
    match SSE.try_events (on_line model) s (buffer s ++ str) with
    | (s', rest, Some output) => (with_buffer rest s', Output output)
    | (s', rest, None) => (with_buffer rest s', TypeError)
    end.

(** The body of [for (const part of parts)] in [convertResponse]. *)
Definition collect_part (acc : collected) (p : part) : collected :=
  if signature_only p then acc
  else
    match part_functionCall p with
    | Some f =>
        {| textParts := textParts acc; thoughtParts := thoughtParts acc;
           toolCalls := toolCalls acc ++
             [ {| tc_index := None;
                  tc_id := Some (fc_name f ++ lit "-" ++ JS.dec now
                                 ++ lit "-" ++ JS.dec (fnIndex acc));
                  tc_type := Some (lit "function");
                  tc_name := Some (JS.VStr (fc_name f));
                  tc_arguments := args_text f |} ];
           images := images acc; fnIndex := (fnIndex acc + 1)%N |}
    | None =>
        match text p with
        | Some t =>
            if thought p then
              {| textParts := textParts acc;
                 thoughtParts := thoughtParts acc ++ [t];
                 toolCalls := toolCalls acc; images := images acc;
                 fnIndex := fnIndex acc |}
            else
              {| textParts := textParts acc ++ [t];
                 thoughtParts := thoughtParts acc;
                 toolCalls := toolCalls acc; images := images acc;
                 fnIndex := fnIndex acc |}
        | None =>
            match inline_of p with
            | Some inlined =>
                if given (data inlined) then
                  {| textParts := textParts acc;
                     thoughtParts := thoughtParts acc;
                     toolCalls := toolCalls acc;
                     images := images acc ++
                       [ {| img_type := lit "image_url";
                            img_index := Z.of_nat (length (images acc));
                            img_url :=
                              data_url inlined (default [] (data inlined)) |} ];
                     fnIndex := fnIndex acc |}
                else acc
            | None => acc
            end
        end
    end.

(** [xs.length > 0 ? v : absent] *)
Definition unless_empty {A B : Type} (xs : list A) (v : B) : option B :=
  match xs with [] => None | _ => Some v end.

(** The callback of [candidates.map((candidate, i) => ...)]. *)
Definition convert_choice (i : nat) (c : candidate) : message_choice :=
  let got :=
    fold_left collect_part (parts c)
      {| textParts := []; thoughtParts := []; toolCalls := [];
         images := []; fnIndex := 0%N |} in
  let message :=
    {| msg_role := lit "assistant";
       msg_content := unless_empty (textParts got) (concat (textParts got));
       msg_reasoning_content :=
         unless_empty (thoughtParts got) (concat (thoughtParts got));
       msg_tool_calls := unless_empty (toolCalls got) (toolCalls got);
       msg_images := unless_empty (images got) (images got) |} in
  let finishReason' :=
    match toolCalls got with
    | _ :: _ => tool_calls
    | [] => if given (finishReason c)
            then _mapFinishReason (default [] (finishReason c))
            else stop
    end in
  {| mc_index := match cand_index c with Some k => k | None => Z.of_nat i end;
     mc_message := message;
     mc_finish := finishReason' |}.

(** [convertResponse] *)
Definition convertResponse (g : geminiData) (model : str) : completion :=
  let d := unwrap g in
  {| c_id := if given (responseId d) then default [] (responseId d)
             else lit "chatcmpl-" ++ JS.dec now;
     c_created := _parseCreateTime (createTime d);
     c_model := if given (modelVersion d) then default [] (modelVersion d)
                else model;
     c_choices := imap convert_choice (candidates d);
     c_usage := _mapUsage (meta d) |}.

(** The stream as the router drives it: every chunk of the backend goes
    through [convertStreamChunk], also after a call that threw, as for a
    caller that catches the exception and goes on; [frames_of] keeps
    the frames and leaves the heartbeats out. *)
Fixpoint feed (model : str) (s : state) (chunks : list str)
    : state * list converted :=
  match chunks with
  | [] => (s, [])
  | c :: rest =>
      let '(s1, r) := convertStreamChunk c model s in
      let '(s2, rs) := feed model s1 rest in
      (s2, r :: rs)
  end.

Definition frames_of (rs : list converted) : list frame :=
  concat (map (fun r => match r with
                        | Output frames => frames
                        | _ => []
                        end) rs).

(** The heartbeats among the results. *)
Definition heartbeats_of (rs : list converted) : list str :=
  concat (map (fun r => match r with
                        | Passthrough s => [s]
                        | _ => []
                        end) rs).

(** Some call threw. *)
Definition thrown (rs : list converted) : bool :=
  existsb (fun r => match r with TypeError => true | _ => false end) rs.

(** The parsed payloads of a stream taken one after the other from a
    state. *)
Fixpoint convert_all (model : str) (s : state) (gs : list geminiData)
    : state * list chunk :=
  match gs with
  | [] => (s, [])
  | g :: rest =>
      let '(s1, out1) := _convertGeminiChunkToOpenAI g model s in
      let '(s2, out2) := convert_all model s1 rest in
      (s2, out1 ++ out2)
  end.

End Converter.
End Gemini.

(** ** The Responses-style converter, class [CodexToOpenAIConverter] *)
Module Codex.
Import Canonical.

(** *** Events of the backend *)

Record item : Type := {
  item_type : option str;
  call_id : option str;
  item_id : option str;
  item_name : str;
  item_arguments : option str
}.

(** [created_at]: a number of seconds, or a date in text. *)
Inductive timestamp : Type :=
| Seconds (n : Z)
| DateText (s : str).

Record error_info : Type := {
  err_message : option str;
  err_type : option str;
  err_code : option str
}.

Record usage_in : Type := {
  input_tokens : option Z;
  output_tokens : option Z;
  total_tokens_in : option Z;
  cached_in : option Z;          (* [input_tokens_details?.cached_tokens] *)
  reasoning_out : option Z       (* [output_tokens_details?.reasoning_tokens] *)
}.

Record response : Type := {
  resp_id : option str;
  created_at : option timestamp;
  resp_model : option str;
  status : option str;
  incomplete_reason : option str;   (* [incomplete_details?.reason] *)
  resp_error : option error_info;
  resp_usage : option usage_in
}.

(** One parsed event.  [output_index] is the position the backend gives
    the item; [ev_error] is the truthiness of the field [error], which
    the router looks at. *)
Record event : Type := {
  type : option str;
  ev_delta : str;
  ev_item : option item;
  ev_response : option response;
  ev_arguments : option str;
  ev_message : option str;
  ev_code : option str;
  output_index : option Z;
  ev_error : bool
}.

(** [eventData.response || {}] *)
Definition no_response : response :=
  {| resp_id := None; created_at := None; resp_model := None;
     status := None; incomplete_reason := None; resp_error := None;
     resp_usage := None |}.

Definition no_error : error_info :=
  {| err_message := None; err_type := None; err_code := None |}.

(** Truthiness of an optional string field, and [x || fallback]. *)
Definition given (o : option str) : bool :=
  match o with Some s => JS.nonempty s | None => false end.

Definition or_else (o : option str) (fallback : str) : str :=
  match o with
  | Some s => if JS.nonempty s then s else fallback
  | None => fallback
  end.

(** [a || b] on two optional strings. *)
Definition first_given (a b : option str) : option str :=
  if given a then a else b.

(** [x || null] *)
Definition or_null (o : option str) : option str :=
  if given o then o else None.

Definition or0 (o : option Z) : Z :=
  match o with Some n => n | None => 0 end.

Definition positive (o : option Z) : option Z :=
  match o with Some n => if 0 <? n then Some n else None | None => None end.

(** *** Stream state *)

Record state : Type := {
  responseId : str;
  createdAt : Z;
  st_model : str;
  functionCallIndex : Z;
  hasReceivedArgumentsDelta : bool;
  hasToolCallAnnounced : bool;
  roleSent : bool
}.

(** [createStreamState] *)
Definition createStreamState : state :=
  {| responseId := []; createdAt := 0; st_model := [];
     functionCallIndex := -1;
     hasReceivedArgumentsDelta := false;
     hasToolCallAnnounced := false;
     roleSent := false |}.

(** [_mapResponseStatus] *)
Definition _mapResponseStatus (resp : response) : finish_reason :=
  if negb (given (status resp)) then stop
  else if decide (status resp = Some (lit "completed")) then stop
  else if decide (status resp = Some (lit "incomplete")) then
    if decide (incomplete_reason resp = Some (lit "max_output_tokens"))
    then length_limit
    else if decide (incomplete_reason resp = Some (lit "content_filter"))
    then content_filter
    else length_limit
  else stop.

(** [_mapUsage] *)
Definition _mapUsage (u : option usage_in) : option usage :=
  match u with
  | None => None
  | Some usage =>
      Some {| prompt_tokens := or0 (input_tokens usage);
              completion_tokens := or0 (output_tokens usage);
              total_tokens := or0 (total_tokens_in usage);
              reasoning_tokens := positive (reasoning_out usage);
              cached_tokens := positive (cached_in usage) |}
  end.

Section Converter.

(** [Date.now()], read as one value along an exchange. *)
Variable now : N.
(** [new Date(s).getTime()]; [None] is the result [NaN]. *)
Variable Date_parse : str -> option Z.
(** The field [this._reverseToolNameMap] of the converter. *)
Variable _reverseToolNameMap : gmap str str.

Definition now_seconds : Z := Z.of_N now / 1000.

(** [_parseCreatedAt] *)
Definition _parseCreatedAt (createdAt : option timestamp) : Z :=
  match createdAt with
  | None => now_seconds
  | Some (Seconds n) => if decide (n = 0) then now_seconds else n
  | Some (DateText s) =>
      if negb (JS.nonempty s) then now_seconds
      else match Date_parse s with
           | Some ms => ms / 1000
           | None => now_seconds
           end
  end.

(** Truthiness of [resp.created_at]. *)
Definition timestamp_given (t : option timestamp) : bool :=
  match t with
  | None => false
  | Some (Seconds n) => negb (bool_decide (n = 0))
  | Some (DateText s) => JS.nonempty s
  end.

(** [_makeChunk] *)
Definition _makeChunk (s : state) (model : str) : chunk :=
  {| id := if JS.nonempty (responseId s) then responseId s
           else lit "chatcmpl-" ++ JS.dec now;
     created := if decide (createdAt s = 0) then now_seconds
                else createdAt s;
     model := if JS.nonempty (st_model s) then st_model s else model;
     choices := [ {| index := 0;
                     choice_delta := {| role := None; body := NoFields |};
                     finish := None |} ];
     chunk_usage := None |}.

Definition with_roleSent (s : state) : state :=
  {| responseId := responseId s; createdAt := createdAt s;
     st_model := st_model s; functionCallIndex := functionCallIndex s;
     hasReceivedArgumentsDelta := hasReceivedArgumentsDelta s;
     hasToolCallAnnounced := hasToolCallAnnounced s;
     roleSent := true |}.

(** [_emitChunk] *)
Definition _emitChunk (s : state) (model : str) (fields : delta_body)
    : state * list frame :=
  let chunk := _makeChunk s model in
  let '(s', d) :=
    if negb (roleSent s)
    then (with_roleSent s,
          {| role := Some (lit "assistant"); body := fields |})
    else (s, {| role := None; body := fields |}) in
  (s', [Chunk (on_choice0 (set_delta d) chunk)]).

(** [_handleResponseCreated] *)
Definition _handleResponseCreated (eventData : event) (s : state)
    : state * list frame :=
  let resp := default no_response (ev_response eventData) in
  ({| responseId := or_else (resp_id resp) [];
      createdAt := if timestamp_given (created_at resp)
                   then _parseCreatedAt (created_at resp)
                   else createdAt s;
      st_model := or_else (resp_model resp) [];
      functionCallIndex := functionCallIndex s;
      hasReceivedArgumentsDelta := hasReceivedArgumentsDelta s;
      hasToolCallAnnounced := hasToolCallAnnounced s;
      roleSent := roleSent s |}, []).

(** [!item || item.type !== 'function_call'] fails: the item, if it is a
    function call. *)
Definition function_call_item (eventData : event) : option item :=
  match ev_item eventData with
  | Some it =>
      if decide (item_type it = Some (lit "function_call")) then Some it
      else None
  | None => None
  end.

(** [_handleOutputItemAdded] *)
Definition _handleOutputItemAdded (eventData : event) (model : str)
    (s : state) : state * list frame :=
  match function_call_item eventData with
  | None => (s, [])
  | Some it =>
      let s1 :=
        {| responseId := responseId s; createdAt := createdAt s;
           st_model := st_model s;
           functionCallIndex := functionCallIndex s + 1;
           hasReceivedArgumentsDelta := false;
           hasToolCallAnnounced := true;
           roleSent := roleSent s |} in
      _emitChunk s1 model
        (ToolCalls
           [ {| tc_index := Some (functionCallIndex s1);
                tc_id := first_given (call_id it) (item_id it);
                tc_type := Some (lit "function");
                tc_name := Some (ToolNames._restoreToolName
                                   _reverseToolNameMap (item_name it));
                tc_arguments := [] |} ])
  end.

(** [_handleArgumentsDelta] *)
Definition _handleArgumentsDelta (eventData : event) (model : str)
    (s : state) : state * list frame :=
  let s1 :=
    {| responseId := responseId s; createdAt := createdAt s;
       st_model := st_model s; functionCallIndex := functionCallIndex s;
       hasReceivedArgumentsDelta := true;
       hasToolCallAnnounced := hasToolCallAnnounced s;
       roleSent := roleSent s |} in
  _emitChunk s1 model
    (ToolCalls
       [ {| tc_index := Some (functionCallIndex s1);
            tc_id := None; tc_type := None; tc_name := None;
            tc_arguments := ev_delta eventData |} ]).

(** [_handleArgumentsDone] *)
Definition _handleArgumentsDone (eventData : event) (model : str)
    (s : state) : state * list frame :=
  if hasReceivedArgumentsDelta s then (s, [])
  else
    _emitChunk s model
      (ToolCalls
         [ {| tc_index := Some (functionCallIndex s);
              tc_id := None; tc_type := None; tc_name := None;
              tc_arguments :=
                or_else (ev_arguments eventData) (lit "{}") |} ]).

(** [_handleOutputItemDone] *)
Definition _handleOutputItemDone (eventData : event) (model : str)
    (s : state) : state * list frame :=
  match function_call_item eventData with
  | None => (s, [])
  | Some it =>
      if hasToolCallAnnounced s then
        ({| responseId := responseId s; createdAt := createdAt s;
            st_model := st_model s;
            functionCallIndex := functionCallIndex s;
            hasReceivedArgumentsDelta := hasReceivedArgumentsDelta s;
            hasToolCallAnnounced := false;
            roleSent := roleSent s |}, [])
      else
        let s1 :=
          {| responseId := responseId s; createdAt := createdAt s;
             st_model := st_model s;
             functionCallIndex := functionCallIndex s + 1;
             hasReceivedArgumentsDelta := hasReceivedArgumentsDelta s;
             hasToolCallAnnounced := hasToolCallAnnounced s;
             roleSent := roleSent s |} in
        _emitChunk s1 model
          (ToolCalls
             [ {| tc_index := Some (functionCallIndex s1);
                  tc_id := first_given (call_id it) (item_id it);
                  tc_type := Some (lit "function");
                  tc_name := Some (ToolNames._restoreToolName
                                     _reverseToolNameMap (item_name it));
                  tc_arguments :=
                    or_else (item_arguments it) (lit "{}") |} ])
  end.

(** The terminal chunk of [_handleResponseCompleted] and of
    [_handleResponseError]. *)
Definition terminal_chunk (resp : response) (model : str) (s : state)
    : chunk :=
  let chunk := _makeChunk s model in
  let reason := if 0 <=? functionCallIndex s then tool_calls
                else _mapResponseStatus resp in
  let chunk := on_choice0 (set_finish reason) chunk in
  match _mapUsage (resp_usage resp) with
  | Some u => set_usage (Some u) chunk
  | None => chunk
  end.

(** [_handleResponseCompleted] *)
Definition _handleResponseCompleted (eventData : event) (model : str)
    (s : state) : state * list frame :=
  let resp := default no_response (ev_response eventData) in
  (s, [Chunk (terminal_chunk resp model s)]).

(** [_handleResponseError] *)
Definition _handleResponseError (eventData : event) (model : str)
    (s : state) : state * list frame :=
  let resp := default no_response (ev_response eventData) in
  if decide (status resp = Some (lit "failed")) then
    let err := default no_error (resp_error resp) in
    (s, [ErrorEvent (or_else (err_message err) (lit "Response failed"))
                    (or_else (err_type err) (lit "server_error"))
                    (or_null (err_code err))])
  else (s, [Chunk (terminal_chunk resp model s)]).

(** [_handleStreamError] *)
Definition _handleStreamError (eventData : event) : list frame :=
  [ErrorEvent (or_else (ev_message eventData) (lit "Unknown error"))
              (lit "server_error")
              (or_null (ev_code eventData))].

(** [convertStreamChunk]: the [switch] over [eventData.type]. *)
Definition convertStreamChunk (eventData : event) (model : str) (s : state)
    : state * list frame :=
  if negb (given (type eventData)) then (s, [])
  else
    let t := default [] (type eventData) in
    if decide (t = lit "response.created") then
      _handleResponseCreated eventData s
    else if decide (t = lit "response.reasoning_summary_text.delta") then
      _emitChunk s model (Reasoning (ev_delta eventData))
    else if decide (t = lit "response.reasoning_summary_text.done") then
      (s, [])
    else if decide (t = lit "response.output_text.delta") then
      _emitChunk s model (Content (ev_delta eventData))
    else if decide (t = lit "response.output_item.added") then
      _handleOutputItemAdded eventData model s
    else if decide (t = lit "response.function_call_arguments.delta") then
      _handleArgumentsDelta eventData model s
    else if decide (t = lit "response.function_call_arguments.done") then
      _handleArgumentsDone eventData model s
    else if decide (t = lit "response.output_item.done") then
      _handleOutputItemDone eventData model s
    else if decide (t = lit "response.completed") then
      _handleResponseCompleted eventData model s
    else if decide (t = lit "response.failed"
                    \/ t = lit "response.incomplete") then
      _handleResponseError eventData model s
    else if decide (t = lit "error") then
      (s, _handleStreamError eventData)
    else (s, []).

(** The events of a stream taken one after the other from a state. *)
Fixpoint convert_all (model : str) (s : state) (evs : list event)
    : state * list frame :=
  match evs with
  | [] => (s, [])
  | e :: rest =>
      let '(s1, out1) := convertStreamChunk e model s in
      let '(s2, out2) := convert_all model s1 rest in
      (s2, out1 ++ out2)
  end.

(** The value of the slot counter after each event of a stream. *)
Fixpoint counters (model : str) (s : state) (evs : list event) : list Z :=
  match evs with
  | [] => []
  | e :: rest =>
      let s1 := fst (convertStreamChunk e model s) in
      functionCallIndex s1 :: counters model s1 rest
  end.

End Converter.
End Codex.

(** ** The interceptions installed by [routeToBackend] *)
Module Router.
Import Canonical.

(** What reaches the client through the original [res.write] and
    [res.end]. *)
Inductive written : Type :=
| Forward (chunk : str)          (* bytes of the backend, as they came *)
| Send (f : frame)               (* one [data: ...\n\n] unit *)
| Done                           (* [data: [DONE]\n\n] *)
| End (chunk : option str)       (* [originalEnd(chunk, ...)] *)
| Raised.                        (* the exception of the conversion leaves
                                    the patched method: it does nothing
                                    after it *)

(** The state of the Codex interception: [streamState] and
    [sseBuffer.data]. *)
Record codex_stream : Type := {
  streamState : Codex.state;
  sseBuffer : str
}.

(** How a patched [res.json] ends: with a body handed to the original
    [res.json], or with the exception of the conversion leaving it. *)
Inductive outcome (Payload Exn : Type) : Type :=
| Replied (body : Payload)
| Thrown (e : Exn).
Arguments Replied {Payload Exn} body.
Arguments Thrown {Payload Exn} e.

(** A conversion either returns or throws. *)
Inductive attempt (Payload Exn : Type) : Type :=
| Returns (body : Payload)
| Throws (e : Exn).
Arguments Returns {Payload Exn} body.
Arguments Throws {Payload Exn} e.

Section Streaming.

Variable now : N.
Variable Date_parse : str -> option Z.
Variable _reverseToolNameMap : gmap str str.
(** [JSON.parse] on the payload of a line, for each backend.  In the
    Codex branch the whole of the handling is inside the [try]: [None]
    is an exception of whatever kind.  In the Gemini branch [None] is a
    thrown [SyntaxError]. *)
Variable parse_event : str -> option Codex.event.
Variable parse_gemini : str -> option Gemini.parsed.
Variable requestedModel : str.

(** The body of [for (const line of lines)] in the Codex branch. *)
Definition codex_on_line (s : Codex.state) (line : str)
    : Codex.state * list frame :=
  if JS.startsWith (lit "data: ") line then
    let jsonStr := JS.slice_from 6 line in
    if negb (JS.nonempty jsonStr) || bool_decide (jsonStr = lit "[DONE]")
    then (s, [])
    else match parse_event jsonStr with
         | Some eventData =>
             if Codex.ev_error eventData then (s, [Raw jsonStr])
             else Codex.convertStreamChunk now Date_parse
                    _reverseToolNameMap eventData requestedModel s
         | None => (s, [Raw jsonStr])
         end
  else (s, []).

(** The patched [res.write] of the Codex branch. *)
Definition codex_write (statusCode : Z) (chunk : str) (st : codex_stream)
    : codex_stream * list written :=
  if 400 <=? statusCode then (st, [Forward chunk])
  else
    let str := JS.replace_crlf chunk in
    let '(s', rest, out) :=
      SSE.events codex_on_line (streamState st) (sseBuffer st ++ str) in
    ({| streamState := s'; sseBuffer := rest |}, map Send out).

(** The patched [res.end] of the Codex branch. *)
Definition codex_end (statusCode : Z) (chunk : option str)
    (st : codex_stream) : codex_stream * list written :=
  if statusCode <? 400 then
    let buffered :=
      match chunk with
      | Some c => if JS.nonempty c then sseBuffer st ++ JS.replace_crlf c
                  else sseBuffer st
      | None => sseBuffer st
      end in
    let chunk' :=
      match chunk with
      | Some c => if JS.nonempty c then None else chunk
      | None => None
      end in
    if JS.nonempty (JS.trim buffered) then
      let remaining := buffered ++ SSE.separator in
      let '(s', out) :=
        SSE.for_lines codex_on_line (streamState st)
          (JS.split JS.LF remaining) in
      ({| streamState := s'; sseBuffer := [] |},
       map Send out ++ [Done; End chunk'])
    else
      ({| streamState := streamState st; sseBuffer := buffered |},
       [Done; End chunk'])
  else (st, [End chunk]).

(** The Codex interception over the chunks of a successful exchange. *)
Fixpoint codex_feed (st : codex_stream) (chunks : list str)
    : codex_stream * list written :=
  match chunks with
  | [] => (st, [])
  | c :: rest =>
      let '(st1, w1) := codex_write 200 c st in
      let '(st2, w2) := codex_feed st1 rest in
      (st2, w1 ++ w2)
  end.

Definition codex_start : codex_stream :=
  {| streamState := Codex.createStreamState; sseBuffer := [] |}.

(** [if (converted) geminiOriginalWrite(converted)], or the exception
    of [convertStreamChunk] on its way out. *)
Definition gemini_forward (r : Gemini.converted) : list written :=
  match r with
  | Gemini.Passthrough s => if JS.nonempty s then [Forward s] else []
  | Gemini.Output frames => map Send frames
  | Gemini.TypeError => [Raised]
  end.

(** The patched [res.write] of the Gemini branch. *)
Definition gemini_write (statusCode : Z) (chunk : str) (s : Gemini.state)
    : Gemini.state * list written :=
  if 400 <=? statusCode then (s, [Forward chunk])
  else
    let '(s', converted) :=
      Gemini.convertStreamChunk now Date_parse parse_gemini
        chunk requestedModel s in
    (s', gemini_forward converted).

(** The patched [res.end] of the Gemini branch: an exception of either
    conversion leaves it before [data: [DONE]] and the original
    [res.end]. *)
Definition gemini_end (statusCode : Z) (chunk : option str)
    (s : Gemini.state) : Gemini.state * list written :=
  if statusCode <? 400 then
    let '(s1, r1) :=
      match chunk with
      | Some c =>
          if JS.nonempty c then
            let '(s', converted) :=
              Gemini.convertStreamChunk now Date_parse parse_gemini
                c requestedModel s in
            (s', Some converted)
          else (s, None)
      | None => (s, None)
      end in
    let chunk' :=
      match chunk with
      | Some c => if JS.nonempty c then None else chunk
      | None => None
      end in
    match r1 with
    | Some Gemini.TypeError => (s1, [Raised])
    | _ =>
        let w1 := match r1 with
                  | Some converted => gemini_forward converted
                  | None => []
                  end in
        if JS.nonempty (JS.trim (Gemini.buffer s1)) then
          let '(s2, remaining) :=
            Gemini.convertStreamChunk now Date_parse parse_gemini
              SSE.separator requestedModel s1 in
          match remaining with
          | Gemini.TypeError => (s2, w1 ++ [Raised])
          | _ => (s2, w1 ++ gemini_forward remaining ++ [Done; End chunk'])
          end
        else (s1, w1 ++ [Done; End chunk'])
    end
  else (s, [End chunk]).

End Streaming.

Section Json.

Context {Payload Exn : Type}.

(** [codexConverter.convertResponse(data, requestedModel)] and
    [geminiConverter.convertResponse(data, requestedModel)]. *)
Variable codex_convertResponse : Payload -> attempt Payload Exn.
Variable gemini_convertResponse : Payload -> attempt Payload Exn.
(** [data && (data.type === 'response.completed' ||
              data.object === 'response')] *)
Variable is_codex_response : Payload -> bool.
(** [data && (data.candidates || data.response?.candidates)] *)
Variable is_gemini_response : Payload -> bool.

(** The patched [res.json] of the Codex branch. *)
Definition codex_json (statusCode : Z) (data : Payload)
    : outcome Payload Exn :=
  if 400 <=? statusCode then Replied data
  else if is_codex_response data then
    match codex_convertResponse data with
    | Returns converted => Replied converted
    | Throws _ => Replied data
    end
  else Replied data.

(** The patched [res.json] of the Gemini branch. *)
Definition gemini_json (statusCode : Z) (data : Payload)
    : outcome Payload Exn :=
  if 400 <=? statusCode then Replied data
  else if is_gemini_response data then
    match gemini_convertResponse data with
    | Returns converted => Replied converted
    | Throws e => Thrown e
    end
  else Replied data.

End Json.
End Router.

(** ** What the properties below observe of a converter's output *)
Module Observe.
Import Canonical.

(** The chunks among the frames of a stream. *)
Definition chunks_of (frames : list frame) : list chunk :=
  omap (fun f => match f with Chunk c => Some c | _ => None end) frames.

(** The delta of the chunk names a role. *)
Definition has_role (c : chunk) : bool :=
  match choices c with
  | ch :: _ => bool_decide (is_Some (role (choice_delta ch)))
  | [] => false
  end.

(** The delta of the chunk carries content: text, reasoning, a tool call
    or an image. *)
Definition bearing (c : chunk) : bool :=
  match choices c with
  | ch :: _ => match body (choice_delta ch) with
               | NoFields => false
               | _ => true
               end
  | [] => false
  end.

(** The chunk has a [finish_reason] that is not [null]. *)
Definition terminal (c : chunk) : bool :=
  match choices c with
  | ch :: _ => bool_decide (is_Some (finish ch))
  | [] => false
  end.

(** ... and is a chunk of choice [k]. *)
Definition terminal_for (k : Z) (c : chunk) : bool :=
  match choices c with
  | ch :: _ => bool_decide (index ch = k) && bool_decide (is_Some (finish ch))
  | [] => false
  end.

Definition finishes_of (k : Z) (chunks : list chunk) : nat :=
  length (List.filter (terminal_for k) chunks).

Definition roles_in (chunks : list chunk) : nat :=
  length (List.filter has_role chunks).

(** The role flag along a stream: [sent] is the flag before the chunks;
    the result is the flag after them, or [None] when a chunk breaks the
    rule that the role goes with the first delta that carries content
    and with no other chunk. *)
Fixpoint role_rule (sent : bool) (chunks : list chunk) : option bool :=
  match chunks with
  | [] => Some sent
  | c :: rest =>
      if bearing c then
        if bool_decide (has_role c = negb sent) then role_rule true rest
        else None
      else if has_role c then None else role_rule sent rest
  end.

(** The slots of the tool calls a list of frames announces: an entry of
    [tool_calls] announces a call when it names the call's type. *)
Definition announced_in (c : chunk) : list Z :=
  match choices c with
  | ch :: _ =>
      match body (choice_delta ch) with
      | ToolCalls calls =>
          omap (fun tc => match tc_type tc with
                          | Some _ => tc_index tc
                          | None => None
                          end) calls
      | _ => []
      end
  | [] => []
  end.

Definition announced_slots (frames : list frame) : list Z :=
  concat (map announced_in (chunks_of frames)).

(** The candidate entries of a parsed Gemini payload that end choice [k]:
    those that carry a finish reason, by their index or their position;
    a payload with usage metadata and no candidate counts once for
    choice 0. *)
Fixpoint ending_entries (k : Z) (i : nat) (cs : list Gemini.candidate) : nat :=
  match cs with
  | [] => O
  | c :: rest =>
      let candidateIndex :=
        match Gemini.cand_index c with Some j => j | None => Z.of_nat i end in
      ((if Gemini.given (Gemini.finishReason c)
           && bool_decide (candidateIndex = k) then 1 else 0)
       + ending_entries k (S i) rest)%nat
  end.

Definition endings_in (k : Z) (g : Gemini.geminiData) : nat :=
  let d := Gemini.unwrap g in
  match Gemini.candidates d, Gemini.meta d with
  | [], Some _ => if bool_decide (k = 0) then 1%nat else 0%nat
  | cs, _ => ending_entries k 0 cs
  end.

(** [e] with another [output_index]. *)
Definition with_output_index (i : option Z) (e : Codex.event) : Codex.event :=
  {| Codex.type := Codex.type e; Codex.ev_delta := Codex.ev_delta e;
     Codex.ev_item := Codex.ev_item e;
     Codex.ev_response := Codex.ev_response e;
     Codex.ev_arguments := Codex.ev_arguments e;
     Codex.ev_message := Codex.ev_message e;
     Codex.ev_code := Codex.ev_code e;
     Codex.output_index := i;
     Codex.ev_error := Codex.ev_error e |}.

(** The event makes the converter take a new slot in state [s]: a
    function call is added, or one is done while the flag
    [hasToolCallAnnounced] is clear (no [added] is waiting for its
    [done]). *)
Definition takes_slot (e : Codex.event) (s : Codex.state) : bool :=
  Codex.given (Codex.type e)
  && bool_decide (is_Some (Codex.function_call_item e))
  && (bool_decide (Codex.type e = Some (lit "response.output_item.added"))
      || (bool_decide (Codex.type e = Some (lit "response.output_item.done"))
          && negb (Codex.hasToolCallAnnounced s))).

(** The calls a list of frames announces, each with its slot: the
    entries of [tool_calls] that name the call's type, by their [id] and
    their [index], in order. *)
Definition announcement (tc : tool_call) : option (option str * Z) :=
  match tc_type tc, tc_index tc with
  | Some _, Some i => Some (tc_id tc, i)
  | _, _ => None
  end.

Definition announcements_in (c : chunk) : list (option str * Z) :=
  match choices c with
  | ch :: _ =>
      match body (choice_delta ch) with
      | ToolCalls calls => omap announcement calls
      | _ => []
      end
  | [] => []
  end.

Definition announced_calls (frames : list frame) : list (option str * Z) :=
  concat (map announcements_in (chunks_of frames)).

(** The role goes with the first delta that carries content, and with no
    other chunk. *)
Definition role_once (out : list chunk) : Prop :=
  (roles_in out <= 1)%nat /\
  (forall c, c ∈ out -> bearing c = false -> has_role c = false) /\
  (forall pre c post, out = pre ++ c :: post ->
     Forall (fun x => bearing x = false) pre -> bearing c = true ->
     has_role c = true).

(** What holds of the state and the chunks gathered so far, while one
    Gemini payload is converted: the chunks keep the role rule from the
    flag [sent0], and [n] of them end choice [k]. *)
Definition gathered (sent0 : bool) (k : Z) (n : nat)
    (acc : Gemini.state * list chunk) : Prop :=
  role_rule sent0 acc.2 = Some (Gemini.roleSent acc.1) /\
  finishes_of k acc.2 = n.

(** The chunk of a Gemini part: [_makeChunk], the index, then the
    delta. *)
Definition part_chunk (model : str) (s : Gemini.state) (ci : Z) (d : delta)
    : chunk :=
  on_choice0 (set_delta d)
    (on_choice0 (set_index ci) (Gemini._makeChunk s model)).

(** The chunk that ends a Gemini candidate. *)
Definition end_chunk (model : str) (s : Gemini.state) (ci : Z)
    (r : finish_reason) (u : option Gemini.usageMetadata) : chunk :=
  let chunk :=
    on_choice0 (set_finish r)
      (on_choice0 (set_index ci) (Gemini._makeChunk s model)) in
  match u with
  | Some _ => set_usage (Gemini._mapUsage u) chunk
  | None => chunk
  end.

(** Every chunk that ends a choice carries the usage [u]. *)
Definition ends_with_usage (u : option usage) (chunks : list chunk) : Prop :=
  Forall (fun c => terminal c = true -> chunk_usage c = u) chunks.

End Observe.

(** ** Inputs of the examples *)
Module Examples.
Import Canonical.

Definition LF2 : str := [JS.LF; JS.LF].

(** A clock reading, and a date reader and payload readers under which
    nothing is a date and nothing is JSON, as [oops] is not. *)
Definition clock : N := 1700000000000%N.
Definition no_date : str -> option Z := fun _ => None.
Definition not_json {A : Type} : str -> option A := fun _ => None.

(** Two names that differ past the limit only. *)
Definition colliding_names : list str :=
  [ lit "aaaaaaaaaabbbbbbbbbbccccccccccddddddddddeeeeeeeeeeffffffffffgggg_X";
    lit "aaaaaaaaaabbbbbbbbbbccccccccccddddddddddeeeeeeeeeeffffffffffgggg_Y" ].

(** The finish reasons of the Gemini enumeration. *)
Definition gemini_reasons : list str :=
  map lit [ "STOP"; "MAX_TOKENS"; "MALFORMED_FUNCTION_CALL";
            "TOO_MANY_TOOL_CALLS"; "UNEXPECTED_TOOL_CALL"; "SAFETY";
            "RECITATION"; "BLOCKLIST"; "PROHIBITED_CONTENT"; "SPII";
            "IMAGE_SAFETY"; "LANGUAGE"; "OTHER";
            "FINISH_REASON_UNSPECIFIED" ]%string.

(** The lower-case spellings [_mapFinishReason] sends elsewhere than to
    [stop]. *)
Definition gemini_mapped_apart : list str :=
  map lit [ "max_tokens"; "safety"; "recitation"; "blocklist";
            "prohibited_content"; "spii"; "image_safety"; "language" ]%string.

(** The lower-case spellings [_mapFinishReason] sends to
    [content_filter]. *)
Definition gemini_filtered : list str :=
  map lit [ "safety"; "recitation"; "blocklist"; "prohibited_content";
            "spii"; "image_safety"; "language" ]%string.

(** A response of the Responses API with a status and a reason only. *)
Definition with_status (status reason : option str) : Codex.response :=
  {| Codex.resp_id := None; Codex.created_at := None;
     Codex.resp_model := None; Codex.status := status;
     Codex.incomplete_reason := reason; Codex.resp_error := None;
     Codex.resp_usage := None |}.

(** Streams of chunks: a separator split over two chunks, the second
    being white space only; a CR LF pair split over two chunks; and a
    heartbeat ahead of a frame. *)
Definition split_separator : list str :=
  [ lit "data: oops" ++ [JS.LF]; [JS.LF]; lit "data: more" ++ LF2 ].

Definition split_crlf : list str :=
  [ lit "data: oops" ++ [JS.CR]; LF2 ].

Definition heartbeat_then_frame : list str :=
  [ lit " "; lit "data: oops" ++ LF2 ].

(** Parsed Gemini payloads. *)
Definition text_part (t : str) : Gemini.part :=
  {| Gemini.thoughtSignature := None; Gemini.text := Some t;
     Gemini.thought := false; Gemini.part_functionCall := None;
     Gemini.part_inlineData := None; Gemini.part_inline_data := None |}.

Definition payload (cs : list Gemini.candidate)
    (m : option Gemini.usageMetadata) : Gemini.geminiData :=
  {| Gemini.error := false; Gemini.wrapped := None;
     Gemini.direct :=
       {| Gemini.responseId := None; Gemini.modelVersion := None;
          Gemini.createTime := None; Gemini.candidates := cs;
          Gemini.meta := m |} |}.

Definition counts (prompt candidates thoughts total : option Z)
    : Gemini.usageMetadata :=
  {| Gemini.promptTokenCount := prompt;
     Gemini.candidatesTokenCount := candidates;
     Gemini.thoughtsTokenCount := thoughts;
     Gemini.totalTokenCount := total;
     Gemini.cachedContentTokenCount := None |}.

(** [{"candidates":[{"content":{"parts":[{"text":"Hi"}]}}]}] *)
Definition hi_payload : Gemini.geminiData :=
  payload [ {| Gemini.cand_index := None;
               Gemini.parts := [text_part (lit "Hi")];
               Gemini.finishReason := None |} ] None.

(** [{"candidates":[{"finishReason":"STOP"}],"usageMetadata":
      {"promptTokenCount":5,"candidatesTokenCount":2,"totalTokenCount":7}}] *)
Definition stop_payload : Gemini.geminiData :=
  payload [ {| Gemini.cand_index := None; Gemini.parts := [];
               Gemini.finishReason := Some (lit "STOP") |} ]
          (Some (counts (Some 5) (Some 2) None (Some 7))).

(** [{"candidates":[{"finishReason":"STOP"}]}] *)
Definition finish_payload : Gemini.geminiData :=
  payload [ {| Gemini.cand_index := None; Gemini.parts := [];
               Gemini.finishReason := Some (lit "STOP") |} ] None.

(** [{"usageMetadata":{"promptTokenCount":5,"candidatesTokenCount":2,
      "totalTokenCount":7}}] *)
Definition usage_only_payload : Gemini.geminiData :=
  payload [] (Some (counts (Some 5) (Some 2) None (Some 7))).

(** The two payloads as text; [json] writes the double quote for each
    single one. *)
Definition json (x : string) : str :=
  map (fun c => if decide (c = "'"%char) then ascii_of_nat 34 else c) (lit x).

Definition hi_json : str :=
  json "{'candidates':[{'content':{'parts':[{'text':'Hi'}]}}]}".

Definition stop_json : str :=
  json ("{'candidates':[{'finishReason':'STOP'}],'usageMetadata':"
        ++ "{'promptTokenCount':5,'candidatesTokenCount':2,'totalTokenCount':7}}").

Definition scenario_stream : list str :=
  [ lit "data: " ++ hi_json ++ LF2; lit "data: " ++ stop_json ++ LF2 ].

(** A reader that knows the two payloads of the scenario. *)
Definition scenario_parse (s : str) : option Gemini.parsed :=
  if decide (s = hi_json) then Some (Gemini.whole hi_payload)
  else if decide (s = stop_json) then Some (Gemini.whole stop_payload)
  else None.

(** The payload [null] in a frame ahead of the first frame of the
    scenario, and a reader that knows both. *)
Definition null_then_hi : list str :=
  [ lit "data: null" ++ LF2; lit "data: " ++ hi_json ++ LF2 ].

Definition null_parse (s : str) : option Gemini.parsed :=
  if decide (s = lit "null") then Some Gemini.Null
  else if decide (s = hi_json) then Some (Gemini.whole hi_payload)
  else None.

(** The bytes of [data: é] and a separator, cut inside the two bytes of
    [é]. *)
Definition e_acute_cut : list (list byte) :=
  [ Buffer.bytes_of (lit "data: ") ++ [xc3]; [xa9; x0a; x0a] ].

(** The two chunks the scenario asks for. *)
Definition scenario_chunks (now : N) (model : str) : list frame :=
  [ Chunk {| id := lit "chatcmpl-" ++ JS.dec now;
             created := Z.of_N now / 1000;
             model := model;
             choices :=
               [ {| index := 0;
                    choice_delta := {| role := Some (lit "assistant");
                                       body := Content (lit "Hi") |};
                    finish := None |} ];
             chunk_usage := None |};
    Chunk {| id := lit "chatcmpl-" ++ JS.dec now;
             created := Z.of_N now / 1000;
             model := model;
             choices :=
               [ {| index := 0;
                    choice_delta := {| role := None; body := NoFields |};
                    finish := Some stop |} ];
             chunk_usage :=
               Some {| prompt_tokens := 5; completion_tokens := 2;
                       total_tokens := 7; reasoning_tokens := None;
                       cached_tokens := None |} |} ].

(** Events of the Responses API: a function call that is added and done,
    then one that is only done; the backend numbers them 7 and 3. *)
Definition call_item (id name : str) : Codex.item :=
  {| Codex.item_type := Some (lit "function_call");
     Codex.call_id := Some id; Codex.item_id := None;
     Codex.item_name := name; Codex.item_arguments := Some (lit "{}") |}.

Definition item_event (t : str) (it : Codex.item) (i : Z) : Codex.event :=
  {| Codex.type := Some t; Codex.ev_delta := [];
     Codex.ev_item := Some it; Codex.ev_response := None;
     Codex.ev_arguments := None; Codex.ev_message := None;
     Codex.ev_code := None; Codex.output_index := Some i;
     Codex.ev_error := false |}.

Definition two_calls : list Codex.event :=
  [ item_event (lit "response.output_item.added")
      (call_item (lit "call_a") (lit "lookup")) 7;
    item_event (lit "response.output_item.done")
      (call_item (lit "call_a") (lit "lookup")) 7;
    item_event (lit "response.output_item.done")
      (call_item (lit "call_b") (lit "search")) 3 ].

(** A conversion that throws on every payload, and a test that takes
    every payload for a response of the backend. *)
Definition always_throws : str -> Router.attempt str str :=
  fun _ => Router.Throws (lit "TypeError").

Definition any_response : str -> bool := fun _ => true.

(** [{"candidates":[null]}] *)
Definition null_candidate : str := json "{'candidates':[null]}".

(** An event that carries a fragment of arguments, or the whole of
    them. *)
Definition arguments_event (t : str) (fragment : str) (whole : option str)
    : Codex.event :=
  {| Codex.type := Some t; Codex.ev_delta := fragment;
     Codex.ev_item := None; Codex.ev_response := None;
     Codex.ev_arguments := whole; Codex.ev_message := None;
     Codex.ev_code := None; Codex.output_index := Some 0;
     Codex.ev_error := false |}.

(** A call that is added, streams the fragment [x] and is done; and a
    call that is added and done with no fragment in between. *)
Definition call_with_delta : list Codex.event :=
  [ item_event (lit "response.output_item.added")
      (call_item (lit "call_a") (lit "lookup")) 0;
    arguments_event (lit "response.function_call_arguments.delta")
      (lit "x") None;
    arguments_event (lit "response.function_call_arguments.done")
      [] (Some (lit "x")) ].

Definition call_without_delta : list Codex.event :=
  [ item_event (lit "response.output_item.added")
      (call_item (lit "call_a") (lit "lookup")) 0;
    arguments_event (lit "response.function_call_arguments.done")
      [] (Some (lit "x")) ].

(** The arguments of the tool calls in the chunks of a list of frames. *)
Definition arguments_of (frames : list frame) : list str :=
  concat
    (map (fun c => match choices c with
                   | ch :: _ =>
                       match body (choice_delta ch) with
                       | ToolCalls calls => map tc_arguments calls
                       | _ => []
                       end
                   | [] => []
                   end)
         (omap (fun f => match f with Chunk c => Some c | _ => None end)
               frames)).

(** A part that carries a signature and nothing else, and a part that
    calls a function. *)
Definition signature_part : Gemini.part :=
  {| Gemini.thoughtSignature := Some (lit "c2ln");
     Gemini.text := None; Gemini.thought := false;
     Gemini.part_functionCall := None;
     Gemini.part_inlineData := None; Gemini.part_inline_data := None |}.

Definition call_part : Gemini.part :=
  {| Gemini.thoughtSignature := None; Gemini.text := None;
     Gemini.thought := false;
     Gemini.part_functionCall :=
       Some {| Gemini.fc_name := lit "lookup"; Gemini.fc_args := None |};
     Gemini.part_inlineData := None; Gemini.part_inline_data := None |}.

Definition signature_payload : Gemini.geminiData :=
  payload [ {| Gemini.cand_index := None;
               Gemini.parts := [signature_part];
               Gemini.finishReason := Some (lit "STOP") |} ] None.

Definition call_payload : Gemini.geminiData :=
  payload [ {| Gemini.cand_index := None;
               Gemini.parts := [call_part];
               Gemini.finishReason := Some (lit "STOP") |} ] None.

End Examples.
(** ** What reaches the transport at the end of a stream *)
Module Transport.
Import Canonical.

(** The last chunk, if [res.end] is given one that is not empty. *)
Definition pending (chunk : option str) : list str :=
  match chunk with
  | Some c => if JS.nonempty c then [c] else []
  | None => []
  end.

(** A payload forwarded as it came is neither empty nor the termination
    token. *)
Definition forwardable (f : frame) : Prop :=
  match f with
  | Raw jsonStr => jsonStr <> [] /\ jsonStr <> lit "[DONE]"
  | _ => True
  end.

(** A text cut into events and what is left behind them: every event
    ends at the first separator behind its start, so that the cut is the
    one the loop makes. *)
Definition cut_into (events : list str) (rest text : str) : Prop :=
  text = concat (map (fun e => e ++ SSE.separator) events) ++ rest /\
  Forall (fun e => JS.indexOf SSE.separator (e ++ SSE.separator)
                   = Some (length e)) events.

(** A payload the Gemini converter forwards as it came has been
    trimmed. *)
Definition trimmed (f : frame) : Prop :=
  match f with
  | Raw jsonStr => exists text, jsonStr = JS.trim text
  | _ => True
  end.

End Transport.

(** ** The tool-call entries of a stream *)
Module Entries.
Import Canonical.

(** The fields of the delta of a chunk. *)
Definition body_of (c : chunk) : delta_body :=
  match choices c with
  | ch :: _ => body (choice_delta ch)
  | [] => NoFields
  end.

(** The entries of [delta.tool_calls] in a chunk, and in the frames of a
    stream, in order. *)
Definition entries_in (c : chunk) : list tool_call :=
  match body_of c with
  | ToolCalls calls => calls
  | _ => []
  end.

Definition calls_in (chunks : list chunk) : list tool_call :=
  concat (map entries_in chunks).

Definition tool_entries (frames : list frame) : list tool_call :=
  calls_in (Observe.chunks_of frames).

(** The slot and the arguments of an entry; its function and its
    arguments. *)
Definition fragment (tc : tool_call) : option Z * str :=
  (tc_index tc, tc_arguments tc).

Definition called (tc : tool_call) : option JS.value * str :=
  (tc_name tc, tc_arguments tc).

(** The text, the reasoning and the images that the deltas of a list of
    chunks carry, in order. *)
Definition texts_in (chunks : list chunk) : list str :=
  omap (fun c => match body_of c with Content t => Some t | _ => None end)
       chunks.

Definition thoughts_in (chunks : list chunk) : list str :=
  omap (fun c => match body_of c with Reasoning t => Some t | _ => None end)
       chunks.

Definition urls_in (chunks : list chunk) : list str :=
  concat (map (fun c => match body_of c with
                        | Images imgs => map img_url imgs
                        | _ => []
                        end) chunks).

(** The chunk carries a tool call of choice [k]. *)
Definition carries_call (k : Z) (c : chunk) : bool :=
  match choices c with
  | ch :: _ =>
      bool_decide (index ch = k)
      && match body (choice_delta ch) with ToolCalls _ => true | _ => false end
  | [] => false
  end.

(** The finish reason of a chunk; [None] is [null]. *)
Definition finish_of (c : chunk) : option finish_reason :=
  match choices c with
  | ch :: _ => finish ch
  | [] => None
  end.

(** The choices that have called a tool, along a list of chunks from the
    set [called0]; [None] when a chunk ends such a choice with another
    reason than [tool_calls]. *)
Fixpoint call_rule (called0 : gset Z) (chunks : list chunk)
    : option (gset Z) :=
  match chunks with
  | [] => Some called0
  | c :: rest =>
      match choices c with
      | ch :: _ =>
          let called1 :=
            match body (choice_delta ch) with
            | ToolCalls _ => {[ index ch ]} ∪ called0
            | _ => called0
            end in
          if bool_decide (is_Some (finish ch))
             && bool_decide (index ch ∈ called1)
             && negb (bool_decide (finish ch = Some tool_calls))
          then None
          else call_rule called1 rest
      | [] => call_rule called0 rest
      end
  end.

(** The entries of a Gemini stream from the counter [i0] to the counter
    [next]: they are numbered in order, and the identifier of each ends
    with its number. *)
Definition numbered (now : N) (i0 : Z) (next : N) (calls : list tool_call)
    : Prop :=
  map tc_index calls = map Some (seqZ i0 (Z.of_N next - i0)) /\
  i0 <= Z.of_N next /\
  Forall (fun tc => exists name k,
            tc_index tc = Some (Z.of_N k) /\
            tc_id tc = Some (name ++ lit "-" ++ JS.dec now
                             ++ lit "-" ++ JS.dec k)) calls.

(** The chunk carries the metadata of the chunks the Codex converter
    makes from the state [s]. *)
Definition made_from (now : N) (model : str) (s : Codex.state) (c : chunk)
    : Prop :=
  id c = id (Codex._makeChunk now s model) /\
  created c = created (Codex._makeChunk now s model) /\
  Canonical.model c = Canonical.model (Codex._makeChunk now s model).

End Entries.

(** ** The choice of a backend, function [detectBackendFromModel] *)
Module Dispatch.

(** [detectBackendFromModel]; [None] is a model name that is absent. *)
Definition detectBackendFromModel (modelName : option str) : str :=
  match modelName with
  | None => lit "claude"
  | Some m =>
      if negb (JS.nonempty m) then lit "claude"
      else
        let model := JS.toLowerCase m in
        if JS.startsWith (lit "claude-") model then lit "claude"
        else if JS.startsWith (lit "gemini-") model then lit "gemini"
        else if JS.startsWith (lit "gpt-") model then lit "openai"
        else lit "claude"
  end.

(** Where [routeToBackend] sends a request: to one of the three
    handlers, or to an answer of its own with a status and a code. *)
Inductive route : Type :=
| ToClaude        (* [handleChatCompletion] *)
| ToCodex         (* [openaiRoutes.handleResponses], after the interceptions *)
| ToGemini        (* the standard Gemini handlers, after the interceptions *)
| Answer (status : Z) (code : str).

Section Routing.

(** [apiKeyService.hasPermission(permissions, backend)] for the key of
    the request. *)
Variable hasPermission : str -> bool.

(** The branches of [routeToBackend]. *)
Definition routeToBackend (requestedModel : option str) : route :=
  let backend := detectBackendFromModel requestedModel in
  if decide (backend = lit "claude") then
    if negb (hasPermission (lit "claude"))
    then Answer 403 (lit "permission_denied")
    else ToClaude
  else if decide (backend = lit "openai") then
    if negb (hasPermission (lit "openai"))
    then Answer 403 (lit "permission_denied")
    else ToCodex
  else if decide (backend = lit "gemini") then
    if negb (hasPermission (lit "gemini"))
    then Answer 403 (lit "permission_denied")
    else ToGemini
  else Answer 500 (lit "unsupported_backend").

(** The handler of [POST /v1/chat/completions], up to the call of
    [routeToBackend]: [messages] is the array [req.body.messages] by its
    length, [None] when the field is no array or is falsy. *)
Definition chat_completions (messages : option nat) (model : option str)
    : route :=
  match messages with
  | None => Answer 400 (lit "invalid_request")
  | Some O => Answer 400 (lit "invalid_request")
  | Some (S _) =>
      let requestedModel :=
        match model with
        | Some m => if JS.nonempty m then m
                    else lit "claude-3-5-sonnet-20241022"
        | None => lit "claude-3-5-sonnet-20241022"
        end in
      routeToBackend (Some requestedModel)
  end.

(** The handler of [POST /v1/completions], up to the call of
    [routeToBackend]; [prompt] is the truthiness of [req.body.prompt]. *)
Definition completions (prompt : bool) (model : option str) : route :=
  if negb prompt then Answer 400 (lit "invalid_request")
  else
    let requestedModel :=
      match model with
      | Some m => if JS.nonempty m then m
                  else lit "claude-3-5-sonnet-20241022"
      | None => lit "claude-3-5-sonnet-20241022"
      end in
    routeToBackend (Some requestedModel).

End Routing.
End Dispatch.

(** ** Requests in the Chat Completions format *)
Module Chat.

(** The field [image_url] of an element of an array [content]. *)
Inductive image_ref : Type :=
| ImageAbsent
| ImageText (s : str)                (* a string *)
| ImageObject (url : option str).    (* an object, by its [url] *)

Record item : Type := {
  item_type : option str;
  item_text : option str;
  image_url : image_ref
}.

(** A value that is neither a string nor an array, by what the code
    observes of it. *)
Record opaque : Type := {
  truthy : bool;
  as_String : str;         (* [String(v)] *)
  as_JSON : option str     (* [JSON.stringify(v)]; [None] is [undefined] *)
}.

Inductive content : Type :=
| Text (s : str)
| Items (items : list item)
| Other (v : opaque).

(** [function] of an entry of [tool_calls]; the arguments are a string
    or absent. *)
Record fn : Type := {
  fn_name : option str;
  fn_arguments : option str
}.

Record call : Type := {
  call_id : option str;
  call_type : option str;
  call_function : option fn
}.

Record message : Type := {
  role : option str;
  msg_content : content;
  tool_calls : option (list call);   (* [None]: absent or [null] *)
  tool_call_id : option str;
  name : option str
}.

(** [function] of an entry of [tools]; a schema is kept as its text. *)
Record tool_fn : Type := {
  tf_name : option str;
  tf_description : option str;
  tf_parameters : option str;
  tf_strict : option bool
}.

Record tool : Type := {
  tool_type : option str;
  tool_function : option tool_fn;
  tool_settings : option str         (* [tool[tool.type]], by its text *)
}.

Inductive tool_choice : Type :=
| ChoiceText (s : str)
| ChoiceObject (type : option str) (function_name : option str)
| ChoiceNull.

Record json_schema : Type := {
  js_name : option str;
  js_strict : option bool;
  js_schema : option str
}.

Record response_format : Type := {
  rf_type : option str;
  rf_json_schema : option json_schema
}.

Record image_config : Type := {
  aspect_ratio : option str;
  image_size : option str
}.

Inductive stop_value : Type :=
| StopText (s : str)
| StopList (l : list str).

(** The request body.  A number the code only copies is kept as its
    text; the counts it compares are integers. *)
Record body : Type := {
  model : option str;
  stream : option bool;
  messages : option (list message);
  reasoning_effort : option str;
  tools : option (list tool);
  choice : option tool_choice;       (* [tool_choice] *)
  format : option response_format;   (* [response_format] *)
  session_id : option str;
  conversation_id : option str;
  prompt_cache_key : option str;
  temperature : option str;
  max_completion_tokens : option Z;
  max_tokens : option Z;
  top_p : option str;
  top_k : option str;
  n : option Z;
  stop : option stop_value;
  modalities : option (list str);
  image : option image_config        (* [image_config] *)
}.

(** Truthiness of an optional string, and of a content. *)
Definition given (o : option str) : bool :=
  match o with Some s => JS.nonempty s | None => false end.

Definition content_truthy (c : content) : bool :=
  match c with
  | Text s => JS.nonempty s
  | Items _ => true
  | Other v => truthy v
  end.

(** [body.messages || []] *)
Definition messages_of (b : body) : list message := default [] (messages b).

(** [set.add(x)] on a set kept in insertion order. *)
Definition add (seen : list str) (x : str) : list str :=
  if decide (x ∈ seen) then seen else seen ++ [x].

End Chat.

(** ** The request side of [codexToOpenAI.js] *)
Module CodexRequest.
Import Chat.

(** The value of [image_url] in an [input_image]. *)
Inductive image_out : Type :=
| UrlText (s : str)
| UrlObject (url : option str)
| UrlAbsent.

Inductive wrapped : Type :=
| WText (type : str) (text : option str)
| WImage (image_url : image_out)
| WItem (it : item).

Inductive input_item : Type :=
| Message (role : str) (content : list wrapped)
| FunctionCall (call_id : option str) (name : JS.value) (arguments : str)
| FunctionCallOutput (call_id : option str) (output : option str).

Inductive tool_out : Type :=
| FunctionTool (name : JS.value) (description : option str)
    (parameters : option str) (strict : option bool)
| AsGiven (t : tool).

Inductive choice_out : Type :=
| KeptChoice (tc : tool_choice)
| FunctionChoice (name : JS.value).

Inductive text_format : Type :=
| TextFormat
| JsonSchemaFormat (name : option str) (strict : option bool)
    (schema : option str).

(** The request in the Responses format; [store] is [false],
    [parallel_tool_calls] is [true], [include] is
    [['reasoning.encrypted_content']] and [reasoning.summary] is ['auto']
    in every result. *)
Record request : Type := {
  r_model : option str;
  r_stream : option bool;
  input : list input_item;
  effort : str;                       (* [reasoning.effort] *)
  r_tools : option (list tool_out);
  r_tool_choice : option choice_out;
  r_text : option text_format;
  r_session_id : option str;
  r_conversation_id : option str;
  r_prompt_cache_key : option str
}.

(** The fields [_toolNameMap] and [_reverseToolNameMap] of the
    converter; a converter that has built no request has no
    [_toolNameMap]. *)
Record converter : Type := {
  _toolNameMap : option (gmap str str);
  _reverseToolNameMap : gmap str str
}.

(** The converter that [new CodexToOpenAIConverter()] gives. *)
Definition fresh : converter :=
  {| _toolNameMap := None; _reverseToolNameMap := ∅ |}.

(** The truncation at the end of [_shortenToolName]. *)
Definition truncated (name : str) : str :=
  if (length name <=? 64)%nat then name
  else
    if JS.startsWith (lit "mcp__") name then
      match JS.lastIndexOf (lit "__") name with
      | Some idx =>
          if (0 <? idx)%nat then
            let candidate := lit "mcp__" ++ JS.slice_from (idx + 2) name in
            if (64 <? length candidate)%nat then JS.slice_to 64 candidate
            else candidate
          else JS.slice_to 64 name
      | None => JS.slice_to 64 name
      end
    else JS.slice_to 64 name.

(** [_shortenToolName] *)
Definition _shortenToolName (c : converter) (name : option str) : JS.value :=
  match name with
  | None => JS.VUndefined
  | Some n =>
      if negb (JS.nonempty n) then JS.VStr n
      else
        let found :=
          match _toolNameMap c with
          | Some m => JS.get m n
          | None => JS.VUndefined
          end in
        if JS.truthy found then found else JS.VStr (truncated n)
  end.

(** [item.image_url?.url || item.image_url] *)
Definition image_of (i : image_ref) : image_out :=
  match i with
  | ImageAbsent => UrlAbsent
  | ImageText s => UrlText s
  | ImageObject url => if given url then UrlText (default [] url)
                       else UrlObject url
  end.

(** [_wrapContent] *)
Definition _wrapContent (c : content) (role : str) : list wrapped :=
  let textType :=
    if decide (role = lit "assistant") then lit "output_text"
    else lit "input_text" in
  match c with
  | Text s => [WText textType (Some s)]
  | Items items =>
      map (fun it =>
             if decide (item_type it = Some (lit "text"))
             then WText textType (item_text it)
             else if decide (item_type it = Some (lit "image_url"))
             then WImage (image_of (image_url it))
             else WItem it) items
  | Other v => [WText textType (Some (if truthy v then as_String v else []))]
  end.

(** [_convertToolChoice] *)
Definition _convertToolChoice (c : converter) (tc : tool_choice)
    : choice_out :=
  match tc with
  | ChoiceObject type function_name =>
      if bool_decide (type = Some (lit "function")) && given function_name
      then FunctionChoice (_shortenToolName c function_name)
      else KeptChoice tc
  | _ => KeptChoice tc
  end.

(** [_convertResponseFormat]; [None] is the result [{}]. *)
Definition _convertResponseFormat (rf : response_format)
    : option text_format :=
  if negb (given (rf_type rf)) then None
  else if decide (rf_type rf = Some (lit "text")) then Some TextFormat
  else if decide (rf_type rf = Some (lit "json_schema")) then
    match rf_json_schema rf with
    | Some js =>
        Some (JsonSchemaFormat
                (if given (js_name js) then js_name js else None)
                (js_strict js)
                (if given (js_schema js) then js_schema js else None))
    | None => None
    end
  else None.

(** [_convertTools] *)
Definition _convertTools (c : converter) (tools : list tool)
    : list tool_out :=
  omap (fun t =>
          if negb (given (tool_type t)) then None
          else if negb (bool_decide (tool_type t = Some (lit "function")))
          then Some (AsGiven t)
          else match tool_function t with
               | None => None
               | Some f =>
                   Some (FunctionTool
                           (_shortenToolName c (tf_name f))
                           (if given (tf_description f) then tf_description f
                            else None)
                           (if given (tf_parameters f) then tf_parameters f
                            else None)
                           (tf_strict f))
               end) tools.

Section Builder.

(** [JSON.stringify] of an array [content]. *)
Variable JSON_stringify : list item -> str.

(** The function calls of [msg.tool_calls], in the [assistant] case. *)
Definition replayed (c : converter) (calls : list call) : list input_item :=
  omap (fun tc =>
          if bool_decide (call_type tc = Some (lit "function")) then
            let name :=
              match call_function tc with
              | Some f => if given (fn_name f) then fn_name f else Some []
              | None => Some []
              end in
            let arguments :=
              match call_function tc with
              | Some f => default (lit "{}") (fn_arguments f)
              | None => lit "{}"
              end in
            Some (FunctionCall (call_id tc) (_shortenToolName c name)
                    arguments)
          else None) calls.

(** The body of [for (const msg of chatBody.messages || [])]: the items
    a message adds to [input]. *)
Definition items_of (c : converter) (msg : message) : list input_item :=
  if decide (role msg = Some (lit "system")
             \/ role msg = Some (lit "developer")) then
    [Message (lit "developer") (_wrapContent (msg_content msg) (lit "user"))]
  else if decide (role msg = Some (lit "user")) then
    [Message (lit "user") (_wrapContent (msg_content msg) (lit "user"))]
  else if decide (role msg = Some (lit "assistant")) then
    (if content_truthy (msg_content msg)
     then [Message (lit "assistant")
             (_wrapContent (msg_content msg) (lit "assistant"))]
     else [])
    ++ match tool_calls msg with
       | Some calls => replayed c calls
       | None => []
       end
  else if decide (role msg = Some (lit "tool")) then
    [FunctionCallOutput (tool_call_id msg)
       match msg_content msg with
       | Text s => Some s
       | Items items => Some (JSON_stringify items)
       | Other v => as_JSON v
       end]
  else [].

(** The names that go into [allToolNames], in the order of their first
    insertion. *)
Definition declared_names (tools : list tool) : list str :=
  omap (fun t =>
          if bool_decide (tool_type t = Some (lit "function")) then
            match tool_function t with
            | Some f => if given (tf_name f) then tf_name f else None
            | None => None
            end
          else None) tools.

Definition called_names (msgs : list message) : list str :=
  concat
    (map (fun msg =>
            if bool_decide (role msg = Some (lit "assistant")) then
              match tool_calls msg with
              | Some calls =>
                  omap (fun tc =>
                          if bool_decide (call_type tc = Some (lit "function"))
                          then match call_function tc with
                               | Some f => if given (fn_name f) then fn_name f
                                           else None
                               | None => None
                               end
                          else None) calls
              | None => []
              end
            else []) msgs).

Definition allToolNames (chatBody : body) : list str :=
  fold_left add
    (default [] (declared_names <$> tools chatBody)
     ++ called_names (messages_of chatBody)) [].

(** The converter after the tables are built; [None] is a run of
    [_buildShortNameMap] that has not returned. *)
Definition with_tables (c : converter) (names : list str)
    : option converter :=
  match names with
  | [] => Some c
  | _ =>
      map ← ToolNames._buildShortNameMap names;
      Some {| _toolNameMap := Some map;
              _reverseToolNameMap := ToolNames.reverseMap map |}
  end.

(** [buildRequestFromOpenAI]: the request, and the converter with the
    tables the call leaves in it. *)
Definition buildRequestFromOpenAI (c : converter) (chatBody : body)
    : option (request * converter) :=
  let input := concat (map (items_of c) (messages_of chatBody)) in
  c' ← with_tables c (allToolNames chatBody);
  Some
    ({| r_model := if given (model chatBody) then model chatBody else None;
        r_stream := stream chatBody;
        input := input;
        effort := if given (reasoning_effort chatBody)
                  then default [] (reasoning_effort chatBody)
                  else lit "medium";
        r_tools :=
          match tools chatBody with
          | Some (t :: ts) => Some (_convertTools c' (t :: ts))
          | _ => None
          end;
        r_tool_choice := _convertToolChoice c' <$> choice chatBody;
        r_text := format chatBody ≫= _convertResponseFormat;
        r_session_id := if given (session_id chatBody)
                        then session_id chatBody else None;
        r_conversation_id := if given (conversation_id chatBody)
                             then conversation_id chatBody else None;
        r_prompt_cache_key := if given (prompt_cache_key chatBody)
                              then prompt_cache_key chatBody else None |},
     c').

End Builder.

(** The names under which the request declares its function tools, and
    those under which it replays the calls of the conversation. *)
Definition declared_as (r : request) : list JS.value :=
  omap (fun t => match t with
                 | FunctionTool name _ _ _ => Some name
                 | AsGiven _ => None
                 end) (default [] (r_tools r)).

Definition picked_name (i : input_item) : option JS.value :=
  match i with
  | FunctionCall _ name _ => Some name
  | _ => None
  end.

Definition replayed_as (r : request) : list JS.value :=
  omap picked_name (input r).

(** The function tools of a body, and the function calls of its
    [assistant] messages, as [_convertTools] and the loop over the
    messages meet them. *)
Definition function_tools (chatBody : body) : list tool_fn :=
  omap (fun t =>
          if bool_decide (tool_type t = Some (lit "function"))
          then tool_function t else None)
       (default [] (tools chatBody)).

Definition function_calls (chatBody : body) : list call :=
  concat
    (map (fun msg =>
            if bool_decide (role msg = Some (lit "assistant")) then
              List.filter
                (fun tc => bool_decide (call_type tc = Some (lit "function")))
                (default [] (tool_calls msg))
            else []) (messages_of chatBody)).

(** A name as it came: [undefined] when it is absent. *)
Definition name_value (o : option str) : JS.value :=
  match o with
  | Some n => JS.VStr n
  | None => JS.VUndefined
  end.

(** [tc.function?.name || ''] *)
Definition called_name (tc : call) : str :=
  match call_function tc with
  | Some f => if given (fn_name f) then default [] (fn_name f) else []
  | None => []
  end.

End CodexRequest.

(** ** The whole response of the Responses API, [convertResponse] *)
Module CodexResponse.
Import Canonical.

(** An element of [summary] or of [content]. *)
Record entry : Type := {
  entry_type : option str;
  entry_text : option str
}.

Record output_item : Type := {
  base : Codex.item;
  summary : list entry;       (* [item.summary || []] *)
  content : list entry        (* [item.content || []] *)
}.

Record response : Type := {
  head : Codex.response;
  output : list output_item   (* [resp.output || []] *)
}.

(** What [convertResponse] is given: the response itself, or the event
    [response.completed] around it. *)
Record responseData : Type := {
  rd_type : option str;
  rd_response : option response;    (* [responseData.response] *)
  rd_self : response                (* [responseData], read as a response *)
}.

(** What [convertResponse] returns. *)
Inductive converted : Type :=
| Completion (c : completion)
| ErrorObject (message type : str) (code : option str).

(** [xs.filter((x) => x.type === kind).map((x) => x.text)], each text as
    [join] renders it. *)
Definition texts_of (kind : str) (es : list entry) : list str :=
  map (fun e => default [] (entry_text e))
      (List.filter (fun e => bool_decide (entry_type e = Some kind)) es).

(** [message] and [toolCalls] while the loop over [output] runs. *)
Record gathered : Type := {
  g_content : option str;
  g_reasoning : option str;
  g_calls : list tool_call
}.

Section Converter.

Variable now : N.
Variable Date_parse : str -> option Z.
Variable _reverseToolNameMap : gmap str str.

(** The body of [for (const item of output)]. *)
Definition collect (acc : gathered) (it : output_item) : gathered :=
  let t := Codex.item_type (base it) in
  if decide (t = Some (lit "reasoning")) then
    match texts_of (lit "summary_text") (summary it) with
    | [] => acc
    | summaryTexts =>
        {| g_content := g_content acc;
           g_reasoning :=
             Some (default [] (g_reasoning acc) ++ concat summaryTexts);
           g_calls := g_calls acc |}
    end
  else if decide (t = Some (lit "message")) then
    match texts_of (lit "output_text") (content it) with
    | [] => acc
    | contentTexts =>
        {| g_content :=
             Some (default [] (g_content acc) ++ concat contentTexts);
           g_reasoning := g_reasoning acc;
           g_calls := g_calls acc |}
    end
  else if decide (t = Some (lit "function_call")) then
    {| g_content := g_content acc;
       g_reasoning := g_reasoning acc;
       g_calls := g_calls acc ++
         [ {| tc_index := None;
              tc_id := Codex.first_given (Codex.call_id (base it))
                         (Codex.item_id (base it));
              tc_type := Some (lit "function");
              tc_name := Some (ToolNames._restoreToolName
                                 _reverseToolNameMap
                                 (Codex.item_name (base it)));
              tc_arguments :=
                Codex.or_else (Codex.item_arguments (base it)) (lit "{}") |} ] |}
  else acc.

(** [convertResponse]; [None] is the [TypeError] of reading [output] of
    a response that is not there. *)
Definition convertResponse (data : responseData) (model : str)
    : option converted :=
  resp ← (if decide (rd_type data = Some (lit "response.completed"))
          then rd_response data else Some (rd_self data));
  let got :=
    fold_left collect (output resp)
      {| g_content := None; g_reasoning := None; g_calls := [] |} in
  let message :=
    {| msg_role := lit "assistant";
       msg_content := g_content got;
       msg_reasoning_content := g_reasoning got;
       msg_tool_calls := Gemini.unless_empty (g_calls got) (g_calls got);
       msg_images := None |} in
  if decide (Codex.status (head resp) = Some (lit "failed")) then
    let err := default Codex.no_error (Codex.resp_error (head resp)) in
    Some (ErrorObject
            (Codex.or_else (Codex.err_message err) (lit "Response failed"))
            (Codex.or_else (Codex.err_type err) (lit "server_error"))
            (Codex.or_null (Codex.err_code err)))
  else
    let finishReason :=
      match g_calls got with
      | _ :: _ => tool_calls
      | [] => Codex._mapResponseStatus (head resp)
      end in
    Some (Completion
            {| c_id := Codex.or_else (Codex.resp_id (head resp))
                         (lit "chatcmpl-" ++ JS.dec now);
               c_created :=
                 Codex._parseCreatedAt now Date_parse
                   (Codex.created_at (head resp));
               c_model := Codex.or_else (Codex.resp_model (head resp)) model;
               c_choices := [ {| mc_index := 0; mc_message := message;
                                 mc_finish := finishReason |} ];
               c_usage := Codex._mapUsage (Codex.resp_usage (head resp)) |}).

End Converter.

(** The texts of one kind in the items of one type, in the order of the
    output. *)
Definition texts_among (type kind : str) (pick : output_item -> list entry)
    (items : list output_item) : list str :=
  concat
    (map (fun it =>
            if bool_decide (Codex.item_type (base it) = Some type)
            then texts_of kind (pick it) else []) items).

(** [(before || '') + texts.join('')] when there are texts, [before]
    when there is none. *)
Definition joined (before : option str) (texts : list str) : option str :=
  match texts with
  | [] => before
  | _ => Some (default [] before ++ concat texts)
  end.

(** The items that are function calls. *)
Definition function_calls (items : list output_item) : list Codex.item :=
  omap (fun it =>
          if bool_decide (Codex.item_type (base it)
                          = Some (lit "function_call"))
          then Some (base it) else None) items.

(** The entry of [tool_calls] that a function call of the output
    gives. *)
Definition call_of (rev : gmap str str) (it : Codex.item) : tool_call :=
  {| tc_index := None;
     tc_id := Codex.first_given (Codex.call_id it) (Codex.item_id it);
     tc_type := Some (lit "function");
     tc_name := Some (ToolNames._restoreToolName rev (Codex.item_name it));
     tc_arguments := Codex.or_else (Codex.item_arguments it) (lit "{}") |}.

(** A response that is given as it is, with no event around it. *)
Definition direct (r : response) : responseData :=
  {| rd_type := None; rd_response := None; rd_self := r |}.

End CodexResponse.

(** ** Requests of the examples *)
Module Shapes.
Import Chat.

Definition function_tool (name : str) : tool :=
  {| tool_type := Some (lit "function");
     tool_function :=
       Some {| tf_name := Some name; tf_description := None;
               tf_parameters := None; tf_strict := None |};
     tool_settings := None |}.

Definition call_to (id name arguments : str) : call :=
  {| call_id := Some id; call_type := Some (lit "function");
     call_function :=
       Some {| fn_name := Some name; fn_arguments := Some arguments |} |}.

(** An [assistant] message that calls tools and says nothing. *)
Definition assistant_calling (calls : list call) : message :=
  {| role := Some (lit "assistant");
     msg_content := Other {| truthy := false; as_String := lit "null";
                             as_JSON := Some (lit "null") |};
     tool_calls := Some calls; tool_call_id := None; name := None |}.

Definition said (who : str) (text : str) : message :=
  {| role := Some who; msg_content := Text text; tool_calls := None;
     tool_call_id := None; name := None |}.

(** The answer of a tool to the call [id]. *)
Definition tool_answer (id : str) (text : str) : message :=
  {| role := Some (lit "tool"); msg_content := Text text;
     tool_calls := None; tool_call_id := Some id; name := None |}.

(** A body with tools and messages and no other field. *)
Definition body_with (ts : option (list tool)) (msgs : list message) : body :=
  {| model := None; stream := None; messages := Some msgs;
     reasoning_effort := None; tools := ts; choice := None; format := None;
     session_id := None; conversation_id := None; prompt_cache_key := None;
     temperature := None; max_completion_tokens := None; max_tokens := None;
     top_p := None; top_k := None; n := None; stop := None;
     modalities := None; image := None |}.

End Shapes.

(** ** The request side of the Gemini branch,
       function [buildGeminiRequestFromOpenAI] *)
Module GeminiRequest.
Import Chat.

(** [args] of a [functionCall]: the value [JSON.parse] reads from a
    text, the object [{}], or the object [{ _raw: text }]. *)
Inductive call_args : Type :=
| ArgsParsed (text : str)
| ArgsEmpty
| ArgsRaw (text : str).

(** [response] of a [functionResponse]: the value [JSON.parse] reads
    from a text, the content as it came, the object [{}], or the object
    [{ result: content }]. *)
Inductive response_content : Type :=
| ResponseParsed (text : str)
| ResponseGiven (c : content)
| ResponseEmpty
| ResponseResult (c : content).

Inductive part : Type :=
| PText (text : option str)
| PInlineData (mimeType data : str)
| PFunctionCall (name : option str) (args : call_args)
| PFunctionResponse (name : str) (response : response_content).

Record content_out : Type := {
  c_role : str;
  c_parts : list part
}.

Inductive thinking : Type :=
| ThinkingLevel (thinkingLevel : str) (includeThoughts : bool)
| ThinkingBudget (thinkingBudget : Z) (includeThoughts : bool).

Record generationConfig : Type := {
  g_temperature : option str;
  maxOutputTokens : option Z;
  topP : option str;
  topK : option str;
  candidateCount : option Z;
  stopSequences : option (list str);
  responseModalities : option (list JS.value);
  imageConfig : option (option str * option str);  (* ratio, size *)
  thinkingConfig : option thinking;
  responseMimeType : option str;
  responseSchema : option str
}.

(** [parametersJsonSchema]: the parameters without their key [strict],
    or [{ type: 'object', properties: {} }]. *)
Inductive schema : Type :=
| WithoutStrict (parameters : str)
| EmptyObject.

Record declaration : Type := {
  d_name : option str;
  d_description : str;
  parametersJsonSchema : schema
}.

Inductive tool_out : Type :=
| FunctionDeclarations (l : list declaration)
| ExtraTool (geminiType : str) (settings : option str).  (* [None]: [{}] *)

(** [functionCallingConfig] *)
Record toolConfig : Type := {
  mode : str;
  allowedFunctionNames : option (list str)
}.

Record request : Type := {
  system_instruction : option (list part);
  contents : list content_out;
  r_generationConfig : option generationConfig;
  r_tools : option (list tool_out);
  r_toolConfig : option toolConfig;
  safetySettings : list (str * str)
}.

(** The first pass: [toolCallNames], an object without a prototype, so
    a map of its own keys and nothing else. *)
Definition record_call (names : gmap str str) (tc : call) : gmap str str :=
  match call_function tc with
  | Some f =>
      if given (call_id tc) && given (fn_name f)
      then <[default [] (call_id tc) := default [] (fn_name f)]> names
      else names
  | None => names
  end.

Definition record_message (names : gmap str str) (msg : message)
    : gmap str str :=
  if bool_decide (role msg = Some (lit "assistant")) then
    match tool_calls msg with
    | Some calls => fold_left record_call calls names
    | None => names
    end
  else names.

Definition toolCallNames (messages : list message) : gmap str str :=
  fold_left record_message messages ∅.

(** [extractTextContent] *)
Definition extractTextContent (c : content) : str :=
  match c with
  | Text s => s
  | Items items =>
      concat
        (map (fun it => default [] (item_text it))
           (List.filter
              (fun it => bool_decide (item_type it = Some (lit "text")))
              items))
  | Other _ => []
  end.

(** The line terminators below 256, which [.] does not match. *)
Definition line_terminator (c : ascii) : bool :=
  bool_decide (c = JS.LF) || bool_decide (c = JS.CR).

(** The longest run without [;] at the head of a text, and what
    follows it. *)
Fixpoint until_semicolon (s : str) : str * str :=
  match s with
  | [] => ([], [])
  | c :: s' =>
      if decide (c = ";"%char) then ([], s)
      else let '(run, rest) := until_semicolon s' in (c :: run, rest)
  end.

(** [url.match(/^data:([^;]+);base64,(.+)$/)]: the two groups of the
    match. *)
Definition match_data_url (url : str) : option (str * str) :=
  if JS.startsWith (lit "data:") url then
    let '(mime, rest) := until_semicolon (JS.slice_from 5 url) in
    if JS.nonempty mime && JS.startsWith (lit ";base64,") rest then
      let data := JS.slice_from 8 rest in
      if JS.nonempty data && forallb (fun c => negb (line_terminator c)) data
      then Some (mime, data)
      else None
    else None
  else None.

(** The body of [for (const item of content)] in [buildContentParts]. *)
Definition part_of (it : item) : list part :=
  if decide (item_type it = Some (lit "text")) then [PText (item_text it)]
  else if decide (item_type it = Some (lit "image_url")) then
    match image_url it with
    | ImageObject (Some url) =>
        if JS.nonempty url && JS.startsWith (lit "data:") url then
          match match_data_url url with
          | Some (mime, data) => [PInlineData mime data]
          | None => []
          end
        else []
    | _ => []
    end
  else [].

(** [buildContentParts] *)
Definition buildContentParts (c : content) : list part :=
  match c with
  | Text s => [PText (Some s)]
  | Items items => concat (map part_of items)
  | Other v => if truthy v then [PText (Some (as_String v))] else []
  end.

Section Builder.

(** [JSON.parse] returns on the text. *)
Variable JSON_valid : str -> bool.
(** [{ ...parameters }] without the key [strict], as text. *)
Variable without_strict : str -> str.

(** The [functionCall] parts of [msg.tool_calls]. *)
Definition call_parts (calls : list call) : list part :=
  omap (fun tc =>
          match call_function tc with
          | Some f =>
              Some (PFunctionCall (fn_name f)
                      (if given (fn_arguments f) then
                         if JSON_valid (default [] (fn_arguments f))
                         then ArgsParsed (default [] (fn_arguments f))
                         else ArgsRaw (default [] (fn_arguments f))
                       else ArgsEmpty))
          | None => None
          end) calls.

(** [toolCallNames[msg.tool_call_id] || msg.name || 'unknown'] *)
Definition response_name (names : gmap str str) (msg : message) : str :=
  match names !! default (lit "undefined") (tool_call_id msg) with
  | Some recorded =>
      if JS.nonempty recorded then recorded
      else if given (name msg) then default [] (name msg)
      else lit "unknown"
  | None =>
      if given (name msg) then default [] (name msg) else lit "unknown"
  end.

(** [responseContent] of a [tool] message. *)
Definition response_of (c : content) : response_content :=
  match c with
  | Text s => if JSON_valid s then ResponseParsed s else ResponseResult c
  | Items _ => ResponseGiven c
  | Other v => if truthy v then ResponseGiven c else ResponseEmpty
  end.

(** The body of the second [for (const msg of messages)]:
    [systemParts] and [contents] after one message. *)
Definition second_pass (names : gmap str str)
    (acc : list part * list content_out) (msg : message)
    : list part * list content_out :=
  let '(systemParts, contents) := acc in
  if decide (role msg = Some (lit "system")
             \/ role msg = Some (lit "developer")) then
    let text := extractTextContent (msg_content msg) in
    if JS.nonempty text then (systemParts ++ [PText (Some text)], contents)
    else acc
  else if decide (role msg = Some (lit "user")) then
    match buildContentParts (msg_content msg) with
    | [] => acc
    | parts =>
        (systemParts, contents ++ [ {| c_role := lit "user";
                                       c_parts := parts |} ])
    end
  else if decide (role msg = Some (lit "assistant")) then
    match buildContentParts (msg_content msg)
          ++ match tool_calls msg with
             | Some calls => call_parts calls
             | None => []
             end with
    | [] => acc
    | parts =>
        (systemParts, contents ++ [ {| c_role := lit "model";
                                       c_parts := parts |} ])
    end
  else if decide (role msg = Some (lit "tool")) then
    (systemParts,
     contents ++
       [ {| c_role := lit "user";
            c_parts := [PFunctionResponse (response_name names msg)
                          (response_of (msg_content msg))] |} ])
  else acc.

(** [a || b] on two optional counts. *)
Definition first_count (a b : option Z) : option Z :=
  match a with
  | Some x => if decide (x = 0) then b else a
  | None => b
  end.

(** [modalityMap[m.toLowerCase()]]: the object literal inherits from
    [Object.prototype]. *)
Definition modalityMap : gmap str str :=
  <[lit "text" := lit "TEXT"]>
    (<[lit "image" := lit "IMAGE"]>
       (<[lit "audio" := lit "AUDIO"]> ∅)).

(** The generation config of a body. *)
Definition config_of (b : body) : generationConfig :=
  {| g_temperature := temperature b;
     maxOutputTokens := first_count (max_completion_tokens b) (max_tokens b);
     topP := top_p b;
     topK := top_k b;
     candidateCount :=
       match n b with
       | Some k => if 1 <? k then Some k else None
       | None => None
       end;
     stopSequences :=
       match stop b with
       | Some (StopText s) => if JS.nonempty s then Some [s] else None
       | Some (StopList l) => Some l
       | None => None
       end;
     responseModalities :=
       match modalities b with
       | Some ms =>
           match List.filter JS.truthy
                   (map (fun m => JS.get modalityMap (JS.toLowerCase m)) ms)
           with
           | [] => None
           | mapped => Some mapped
           end
       | None => None
       end;
     imageConfig :=
       match image b with
       | Some ic =>
           let ratio := if given (aspect_ratio ic) then aspect_ratio ic
                        else None in
           let size := if given (image_size ic) then image_size ic
                       else None in
           match ratio, size with
           | None, None => None
           | _, _ => Some (ratio, size)
           end
       | None => None
       end;
     thinkingConfig :=
       if given (reasoning_effort b) then
         let effort := JS.toLowerCase (default [] (reasoning_effort b)) in
         if decide (effort = lit "none")
         then Some (ThinkingLevel (lit "none") false)
         else if decide (effort = lit "auto")
         then Some (ThinkingBudget (-1) true)
         else Some (ThinkingLevel effort true)
       else None;
     responseMimeType :=
       match format b with
       | Some rf =>
           if decide (rf_type rf = Some (lit "json_object"))
           then Some (lit "application/json")
           else if bool_decide (rf_type rf = Some (lit "json_schema"))
                   && given (rf_json_schema rf ≫= js_schema)
           then Some (lit "application/json")
           else None
       | None => None
       end;
     responseSchema :=
       match format b with
       | Some rf =>
           if decide (rf_type rf = Some (lit "json_object")) then None
           else if bool_decide (rf_type rf = Some (lit "json_schema"))
                   && given (rf_json_schema rf ≫= js_schema)
           then rf_json_schema rf ≫= js_schema
           else None
       | None => None
       end |}.

(** [Object.keys(generationConfig).length > 0] *)
Definition config_set (g : generationConfig) : bool :=
  bool_decide (is_Some (g_temperature g))
  || bool_decide (is_Some (maxOutputTokens g))
  || bool_decide (is_Some (topP g))
  || bool_decide (is_Some (topK g))
  || bool_decide (is_Some (candidateCount g))
  || bool_decide (is_Some (stopSequences g))
  || bool_decide (is_Some (responseModalities g))
  || bool_decide (is_Some (imageConfig g))
  || bool_decide (is_Some (thinkingConfig g))
  || bool_decide (is_Some (responseMimeType g))
  || bool_decide (is_Some (responseSchema g)).

(** [tool[tool.type] || {}]; [None] is [{}]. *)
Definition settings_of (t : tool) : option str :=
  if given (tool_settings t) then tool_settings t else None.

(** The body of [for (const tool of body.tools)]. *)
Definition declare (acc : list declaration * list tool_out) (t : tool)
    : list declaration * list tool_out :=
  let '(functionDeclarations, extraTools) := acc in
  match (if bool_decide (tool_type t = Some (lit "function"))
         then tool_function t else None) with
  | Some f =>
      (functionDeclarations ++
         [ {| d_name := tf_name f;
              d_description := if given (tf_description f)
                               then default [] (tf_description f) else [];
              parametersJsonSchema :=
                if given (tf_parameters f)
                then WithoutStrict
                       (without_strict (default [] (tf_parameters f)))
                else EmptyObject |} ],
       extraTools)
  | None =>
      if decide (tool_type t = Some (lit "google_search")) then
        (functionDeclarations,
         extraTools ++ [ExtraTool (lit "googleSearch") (settings_of t)])
      else if decide (tool_type t = Some (lit "code_execution")) then
        (functionDeclarations,
         extraTools ++ [ExtraTool (lit "codeExecution") (settings_of t)])
      else if decide (tool_type t = Some (lit "url_context")) then
        (functionDeclarations,
         extraTools ++ [ExtraTool (lit "urlContext") (settings_of t)])
      else acc
  end.

(** [request.tools] *)
Definition tools_of (b : body) : option (list tool_out) :=
  match tools b with
  | Some (t :: ts) =>
      let '(functionDeclarations, extraTools) :=
        fold_left declare (t :: ts) ([], []) in
      match match functionDeclarations with
            | [] => []
            | _ => [FunctionDeclarations functionDeclarations]
            end ++ extraTools with
      | [] => None
      | toolsArray => Some toolsArray
      end
  | _ => None
  end.

(** [request.toolConfig] *)
Definition toolConfig_of (b : body) : option toolConfig :=
  match choice b with
  | Some (ChoiceText s) =>
      if decide (s = lit "none")
      then Some {| mode := lit "NONE"; allowedFunctionNames := None |}
      else if decide (s = lit "auto")
      then Some {| mode := lit "AUTO"; allowedFunctionNames := None |}
      else if decide (s = lit "required")
      then Some {| mode := lit "ANY"; allowedFunctionNames := None |}
      else None
  | Some (ChoiceObject _ function_name) =>
      if given function_name
      then Some {| mode := lit "ANY";
                   allowedFunctionNames := Some [default [] function_name] |}
      else None
  | _ => None
  end.

(** [buildGeminiRequestFromOpenAI] *)
Definition buildGeminiRequestFromOpenAI (b : body) : request :=
  let messages := messages_of b in
  let names := toolCallNames messages in
  let '(systemParts, contents) :=
    fold_left (second_pass names) messages ([], []) in
  {| system_instruction :=
       match systemParts, contents with
       | _ :: _, _ :: _ => Some systemParts
       | _, _ => None
       end;
     contents :=
       match systemParts, contents with
       | _ :: _, [] => [ {| c_role := lit "user"; c_parts := systemParts |} ]
       | _, _ => contents
       end;
     r_generationConfig :=
       if config_set (config_of b) then Some (config_of b) else None;
     r_tools := tools_of b;
     r_toolConfig := toolConfig_of b;
     safetySettings :=
       [ (lit "HARM_CATEGORY_HARASSMENT", lit "OFF");
         (lit "HARM_CATEGORY_HATE_SPEECH", lit "OFF");
         (lit "HARM_CATEGORY_SEXUALLY_EXPLICIT", lit "OFF");
         (lit "HARM_CATEGORY_DANGEROUS_CONTENT", lit "OFF");
         (lit "HARM_CATEGORY_CIVIC_INTEGRITY", lit "BLOCK_NONE") ] |}.

End Builder.

(** The calls of a list of messages that the first pass records: those
    of the [assistant] messages that have an identifier and a name, as
    pairs, in order. *)
Definition recorded_calls (messages : list message) : list (str * str) :=
  concat
    (map (fun msg =>
            if bool_decide (role msg = Some (lit "assistant")) then
              omap (fun tc =>
                      match call_function tc with
                      | Some f =>
                          if given (call_id tc) && given (fn_name f)
                          then Some (default [] (call_id tc),
                                     default [] (fn_name f))
                          else None
                      | None => None
                      end) (default [] (tool_calls msg))
            else []) messages).

(** One entry of [toolCallNames]. *)
Definition enter (m : gmap str str) (p : str * str) : gmap str str :=
  <[p.1 := p.2]> m.

(** The mime type [data_url] of the response converter writes. *)
Definition mime_of (d : Gemini.inlineData) : str :=
  if Gemini.given (Gemini.mimeType d) then default [] (Gemini.mimeType d)
  else if Gemini.given (Gemini.mime_type d)
       then default [] (Gemini.mime_type d)
       else lit "image/png".

(** An element of [content] that carries an image by its address. *)
Definition image_item (url : str) : item :=
  {| item_type := Some (lit "image_url"); item_text := None;
     image_url := ImageObject (Some url) |}.

(** The text of the [system] and [developer] messages that have some. *)
Definition system_texts (messages : list message) : list str :=
  omap (fun msg =>
          if bool_decide (role msg = Some (lit "system")
                          \/ role msg = Some (lit "developer"))
          then let text := extractTextContent (msg_content msg) in
               if JS.nonempty text then Some text else None
          else None) messages.

End GeminiRequest.

(** ** Inputs for the Responses API and the request builders *)
(** ** The slots of the calls, as the specification words them

    The counter starts at -1 and moves by one on [output_item.added] for
    a function call, and on [output_item.done] for a function call when
    no [added] event announced the call.  A call is known by the id the
    converter announces it under, [item.call_id || item.id]. *)
Module Worded.

Inductive item_step : Type :=
  | Added (call : option str)
  | Done (call : option str).

(** The event, if it adds or ends a function call. *)
Definition item_step_of (e : Codex.event) : option item_step :=
  match Codex.function_call_item e with
  | Some it =>
      let call := Codex.first_given (Codex.call_id it) (Codex.item_id it) in
      if decide (Codex.type e = Some (lit "response.output_item.added"))
      then Some (Added call)
      else if decide (Codex.type e = Some (lit "response.output_item.done"))
      then Some (Done call)
      else None
  | None => None
  end.

(** The announcements of a stream: [added] holds the calls that [added]
    events have announced so far, [counter] is the slot given last. *)
Fixpoint slots_from (added : list (option str)) (counter : Z)
    (evs : list Codex.event) : list (option str * Z) :=
  match evs with
  | [] => []
  | e :: rest =>
      match item_step_of e with
      | Some (Added call) =>
          (call, counter + 1) :: slots_from (call :: added) (counter + 1) rest
      | Some (Done call) =>
          if bool_decide (call ∈ added) then slots_from added counter rest
          else (call, counter + 1) :: slots_from added (counter + 1) rest
      | None => slots_from added counter rest
      end
  end.

Definition slots (evs : list Codex.event) : list (option str * Z) :=
  slots_from [] (-1) evs.

(** The calls of a stream are ended in step: a [done] that comes
    straight after an [added] (no other function-call item between the
    two) ends the call of that [added], and every other [done] is for a
    call that no [added] announced.  [open] is the call of the [added]
    that waits for its [done]. *)
Fixpoint in_step_from (open : option (option str))
    (added : list (option str)) (evs : list Codex.event) : bool :=
  match evs with
  | [] => true
  | e :: rest =>
      match item_step_of e with
      | Some (Added call) => in_step_from (Some call) (call :: added) rest
      | Some (Done call) =>
          match open with
          | Some waiting => bool_decide (call = waiting)
          | None => negb (bool_decide (call ∈ added))
          end
          && in_step_from None added rest
      | None => in_step_from open added rest
      end
  end.

Definition in_step (evs : list Codex.event) : bool :=
  in_step_from None [] evs.

End Worded.

Module Samples.

(** A response of the Responses API that has an id, a time and a model,
    and the events that open and close its stream. *)
Definition finished : Codex.response :=
  {| Codex.resp_id := Some (lit "resp_1");
     Codex.created_at := Some (Codex.Seconds 1700000000);
     Codex.resp_model := Some (lit "gpt-5");
     Codex.status := Some (lit "completed");
     Codex.incomplete_reason := None; Codex.resp_error := None;
     Codex.resp_usage :=
       Some {| Codex.input_tokens := Some 12; Codex.output_tokens := Some 4;
               Codex.total_tokens_in := Some 16; Codex.cached_in := None;
               Codex.reasoning_out := None |} |}.

Definition response_event (t : str) (r : Codex.response) : Codex.event :=
  {| Codex.type := Some t; Codex.ev_delta := [];
     Codex.ev_item := None; Codex.ev_response := Some r;
     Codex.ev_arguments := None; Codex.ev_message := None;
     Codex.ev_code := None; Codex.output_index := None;
     Codex.ev_error := false |}.

Definition created_event : Codex.event :=
  response_event (lit "response.created") finished.

(** The response as [response.created] carries it: in progress, with no
    usage yet. *)
Definition opened : Codex.response :=
  {| Codex.resp_id := Some (lit "resp_1");
     Codex.created_at := Some (Codex.Seconds 1700000000);
     Codex.resp_model := Some (lit "gpt-5");
     Codex.status := Some (lit "in_progress");
     Codex.incomplete_reason := None; Codex.resp_error := None;
     Codex.resp_usage := None |}.

Definition opened_event : Codex.event :=
  response_event (lit "response.created") opened.

Definition completed_event : Codex.event :=
  response_event (lit "response.completed") finished.

(** The same response as a whole: one function call in its output. *)
Definition finished_whole : CodexResponse.response :=
  {| CodexResponse.head := finished;
     CodexResponse.output :=
       [ {| CodexResponse.base :=
              Examples.call_item (lit "call_a") (lit "lookup");
            CodexResponse.summary := []; CodexResponse.content := [] |} ] |}.

(** A response that failed, as a whole and as the event of a stream. *)
Definition failed : Codex.response :=
  {| Codex.resp_id := Some (lit "resp_2"); Codex.created_at := None;
     Codex.resp_model := None; Codex.status := Some (lit "failed");
     Codex.incomplete_reason := None;
     Codex.resp_error :=
       Some {| Codex.err_message := Some (lit "quota");
               Codex.err_type := Some (lit "rate_limit_error");
               Codex.err_code := None |};
     Codex.resp_usage := None |}.

Definition failed_whole : CodexResponse.response :=
  {| CodexResponse.head := failed; CodexResponse.output := [] |}.

Definition failed_event : Codex.event :=
  response_event (lit "response.failed") failed.

(** A request that declares the tool [lookup] and replays a call of
    it, and the answer of the tool. *)
Definition lookup_call : Chat.call :=
  Shapes.call_to (lit "call_1") (lit "lookup") (lit "{}").

Definition lookup_answer : Chat.message :=
  Shapes.tool_answer (lit "call_1") (lit "42").

Definition lookup_body : Chat.body :=
  Shapes.body_with (Some [Shapes.function_tool (lit "lookup")])
    [Shapes.assistant_calling [lookup_call]; lookup_answer].

(** The two names that differ past the limit only. *)
Definition long_x : str := nth 0 Examples.colliding_names [].
Definition long_y : str := nth 1 Examples.colliding_names [].

(** Two calls whose events are interleaved, and a call that ends while
    another waits for its end. *)
Definition interleaved_calls : list Codex.event :=
  [ Examples.item_event (lit "response.output_item.added")
      (Examples.call_item (lit "call_a") (lit "lookup")) 0;
    Examples.item_event (lit "response.output_item.added")
      (Examples.call_item (lit "call_b") (lit "search")) 1;
    Examples.item_event (lit "response.output_item.done")
      (Examples.call_item (lit "call_a") (lit "lookup")) 0;
    Examples.item_event (lit "response.output_item.done")
      (Examples.call_item (lit "call_b") (lit "search")) 1 ].

Definition unannounced_call : list Codex.event :=
  [ Examples.item_event (lit "response.output_item.added")
      (Examples.call_item (lit "call_a") (lit "lookup")) 0;
    Examples.item_event (lit "response.output_item.done")
      (Examples.call_item (lit "call_b") (lit "search")) 1 ].

(** A chunk that holds a frame and the start of the next. *)
Definition frame_and_a_half : str :=
  lit "data: oops" ++ Examples.LF2 ++ lit "data: mo".

(** A candidate that says [Hi] and stops, and an image. *)
Definition hi_candidate : Gemini.candidate :=
  {| Gemini.cand_index := None;
     Gemini.parts := [Examples.text_part (lit "Hi")];
     Gemini.finishReason := Some (lit "STOP") |}.

Definition png : Gemini.inlineData :=
  {| Gemini.data := Some (lit "aGk="); Gemini.mimeType := None;
     Gemini.mime_type := Some (lit "image/png") |}.

End Samples.

(** * Properties *)

Import Canonical Observe.


(** * Decimal rendering *)
Section Decimal.
Import JS.

Lemma undigit_digit (n : N) : (n < 10)%N -> undigit (digit n) = n.
Proof.
  intros H. unfold undigit, digit.
  rewrite N_ascii_embedding by lia. lia.
Qed.

Lemma undec_snoc (s : str) (c : ascii) :
  undec (s ++ [c]) = (undec s * 10 + undigit c)%N.
Proof. unfold undec. now rewrite fold_left_app. Qed.

Lemma undec_dec_fuel (f : nat) :
  forall n : N, (n < 10 ^ N.of_nat (S f))%N -> undec (dec_fuel f n) = n.
Proof.
  induction f as [|f IH]; intros n Hn.
  - simpl in *. change (10 ^ 1)%N with 10%N in Hn.
    rewrite N.mod_small by lia. unfold undec; simpl.
    rewrite undigit_digit; lia.
  - cbn [dec_fuel]. destruct (N.ltb_spec n 10).
    + unfold undec; simpl. rewrite undigit_digit; lia.
    + rewrite undec_snoc, IH, undigit_digit.
      * pose proof (N.div_mod n 10). lia.
      * apply N.mod_lt; lia.
      * apply N.Div0.div_lt_upper_bound.
        rewrite Nat2N.inj_succ, N.pow_succ_r' in Hn. lia.
Qed.

Lemma lt_pow10_log2 (n : N) : (n < 10 ^ N.of_nat (S (N.to_nat (N.log2 n))))%N.
Proof.
  rewrite Nat2N.inj_succ, N2Nat.id.
  destruct (N.eq_dec n 0%N) as [->|Hn]; [reflexivity|].
  assert (n < 2 ^ N.succ (N.log2 n))%N by (apply N.log2_spec; lia).
  eapply N.lt_le_trans; [eassumption|].
  apply N.pow_le_mono_l. lia.
Qed.

Lemma undec_dec (n : N) : undec (dec n) = n.
Proof. apply undec_dec_fuel, lt_pow10_log2. Qed.

Lemma dec_inj (n m : N) : dec n = dec m -> n = m.
Proof. intros H. rewrite <- (undec_dec n), <- (undec_dec m). now rewrite H. Qed.

Lemma length_dec_fuel (f : nat) (n : N) : (length (dec_fuel f n) <= S f)%nat.
Proof.
  revert n. induction f as [|f IH]; intros n; cbn [dec_fuel]; [simpl; lia|].
  destruct (n <? 10)%N; [simpl; lia|].
  rewrite length_app. specialize (IH (n / 10)%N). simpl. lia.
Qed.

Lemma length_dec (n : N) : (length (dec n) <= S (N.to_nat (N.log2 n)))%nat.
Proof. apply length_dec_fuel. Qed.

Lemma digit_not_underscore (n : N) : (n < 10)%N -> digit n <> JS.underscore.
Proof.
  intros H E. apply (f_equal N_of_ascii) in E.
  unfold digit in E. rewrite N_ascii_embedding in E by lia.
  vm_compute (N_of_ascii JS.underscore) in E. lia.
Qed.

Lemma dec_fuel_no_underscore (f : nat) (n : N) :
  JS.underscore ∉ dec_fuel f n.
Proof.
  revert n. induction f as [|f IH]; intros n; cbn [dec_fuel].
  - intros H%list_elem_of_singleton. symmetry in H. revert H.
    apply digit_not_underscore, N.mod_lt; lia.
  - destruct (N.ltb_spec n 10).
    + intros E%list_elem_of_singleton. symmetry in E. revert E.
      now apply digit_not_underscore.
    + intros [E|E%list_elem_of_singleton]%elem_of_app.
      * now apply (IH (n / 10)%N).
      * symmetry in E. revert E. apply digit_not_underscore, N.mod_lt; lia.
Qed.

Lemma dec_no_underscore (n : N) : JS.underscore ∉ dec n.
Proof. apply dec_fuel_no_underscore. Qed.

End Decimal.

(** * The tool-name table *)
Section Table.
Import ToolNames.

Lemma length_baseCandidate (n : str) : (length (baseCandidate n) <= LIMIT)%nat.
Proof.
  unfold baseCandidate, JS.slice_to.
  destruct (Nat.leb_spec (length n) LIMIT); [lia|].
  assert (length (firstn LIMIT n) <= LIMIT)%nat by (rewrite length_firstn; lia).
  destruct (JS.startsWith _ n); [|assumption].
  destruct (JS.lastIndexOf _ n) as [idx|]; [|assumption].
  destruct (0 <? idx)%nat; [|assumption].
  destruct (Nat.ltb_spec LIMIT (length (lit "mcp__" ++ JS.slice_from (idx + 2) n))).
  - rewrite length_firstn. lia.
  - lia.
Qed.

Lemma suffixed_split (base : str) (i : N) :
  exists p, suffixed base i = p ++ JS.underscore :: JS.dec i.
Proof. unfold suffixed. eexists. reflexivity. Qed.

Lemma suffixed_inj (base : str) (i j : N) :
  suffixed base i = suffixed base j -> i = j.
Proof.
  destruct (suffixed_split base i) as [p ->].
  destruct (suffixed_split base j) as [q ->].
  intros H. apply not_elem_of_app_cons_inv_r in H as (_ & _ & H);
    auto using dec_no_underscore, dec_inj.
Qed.

Lemma length_suffixed (base : str) (i : N) :
  (length base <= LIMIT)%nat -> (N.log2 i <= 61)%N ->
  (length (suffixed base i) <= LIMIT)%nat.
Proof.
  intros Hb Hi. unfold suffixed.
  pose proof (length_dec i) as Hd.
  set (suffix := lit "_" ++ JS.dec i).
  assert (Hs : (length suffix <= 63)%nat).
  { subst suffix. rewrite length_app. simpl. lia. }
  rewrite length_app. unfold LIMIT in *.
  destruct (Z.ltb_spec (Z.of_nat 64 - Z.of_nat (length suffix))
              (Z.of_nat (length base))).
  - unfold JS.slice0.
    destruct (Z.ltb_spec (Z.of_nat 64 - Z.of_nat (length suffix)) 0); [lia|].
    rewrite length_firstn. lia.
  - lia.
Qed.

Lemma loop_none (used : gset str) (base : str) (fuel : nat) :
  forall i, makeUnique_loop used base fuel i = None ->
  forall k, (k < fuel)%nat -> suffixed base (i + N.of_nat k) ∈ used.
Proof.
  induction fuel as [|fuel IH]; intros i H k Hk; [lia|].
  cbn [makeUnique_loop] in H.
  destruct (decide (suffixed base i ∈ used)) as [Hin|]; [|discriminate].
  destruct k as [|k].
  - now replace (i + N.of_nat 0)%N with i by lia.
  - replace (i + N.of_nat (S k))%N with (i + 1 + N.of_nat k)%N by lia.
    apply IH; [assumption|lia].
Qed.

Lemma loop_some (used : gset str) (base : str) (fuel : nat) :
  forall i t, makeUnique_loop used base fuel i = Some t ->
  (t ∉ used) /\ exists k, (k < fuel)%nat /\ t = suffixed base (i + N.of_nat k).
Proof.
  induction fuel as [|fuel IH]; intros i t H; [discriminate|].
  cbn [makeUnique_loop] in H.
  destruct (decide (suffixed base i ∈ used)) as [Hin|Hout].
  - apply IH in H as (Ht & k & Hk & ->). split; [assumption|].
    exists (S k). split; [lia|]. f_equal. lia.
  - injection H as <-. split; [assumption|].
    exists O. split; [lia|]. f_equal. lia.
Qed.

(** The loop of [makeUnique] ends: its candidates are pairwise distinct,
    so they cannot all be in use. *)
Lemma loop_total (used : gset str) (base : str) (fuel : nat) (i : N) :
  (size used < fuel)%nat -> is_Some (makeUnique_loop used base fuel i).
Proof.
  intros Hfuel.
  destruct (makeUnique_loop used base fuel i) as [t|] eqn:E; [eauto|].
  exfalso.
  set (l := (fun k => suffixed base (i + N.of_nat k)) <$> seq 0 fuel).
  assert (Hnd : NoDup l).
  { apply NoDup_fmap_2_strong; [|apply NoDup_seq].
    intros a b _ _ Hab. apply suffixed_inj in Hab. lia. }
  assert (Hsub : (list_to_set l : gset str) ⊆ used).
  { intros x Hx. apply elem_of_list_to_set in Hx.
    apply list_elem_of_fmap in Hx as (k & -> & Hk).
    apply elem_of_seq in Hk. eapply loop_none; [eassumption|lia]. }
  apply subseteq_size in Hsub.
  rewrite size_list_to_set in Hsub by assumption.
  subst l. rewrite length_fmap, length_seq in Hsub. lia.
Qed.

Lemma makeUnique_spec (used : gset str) (cand : str) :
  exists t, makeUnique used cand = Some t /\ (t ∉ used) /\
    (t = cand \/
     exists j, (1 <= j <= N.of_nat (size used) + 1)%N /\ t = suffixed cand j).
Proof.
  unfold makeUnique. destruct (decide (cand ∈ used)) as [Hin|Hout].
  - destruct (loop_total used cand (S (size used)) 1) as [t Ht]; [lia|].
    exists t. split; [assumption|].
    apply loop_some in Ht as (Hfresh & k & Hk & ->).
    split; [assumption|]. right. eexists. split; [|reflexivity]. lia.
  - exists cand. auto.
Qed.

Lemma table_ok_empty : ToolNames.table_ok (∅, ∅).
Proof. split; simpl; intros *; rewrite lookup_empty; discriminate. Qed.

Lemma lookup_set (m : gmap str str) (k v n s : str) :
  JS.set m k v !! n = Some s ->
  (n = k /\ s = v) \/ m !! n = Some s.
Proof.
  unfold JS.set. destruct (decide (k = lit "__proto__")); [auto|].
  destruct (decide (k = n)) as [->|Hne].
  - rewrite lookup_insert_eq. intros [= <-]. auto.
  - rewrite lookup_insert_ne by assumption. auto.
Qed.

Lemma log2_small (j : N) : (j <= 2 ^ 32)%N -> (N.log2 j <= 61)%N.
Proof.
  intros H. apply N.log2_le_mono in H.
  rewrite N.log2_pow2 in H by lia. lia.
Qed.

Lemma assign_ok (acc : gset str * gmap str str) (n : str) :
  ToolNames.table_ok acc -> Z.of_nat (size acc.1) < 2 ^ 32 ->
  exists acc', assign acc n = Some acc' /\ ToolNames.table_ok acc' /\
               (size acc'.1 <= S (size acc.1))%nat.
Proof.
  destruct acc as [used map]. simpl. intros Hok Hsize.
  destruct (makeUnique_spec used (baseCandidate n)) as (t & Ht & Hfresh & Hshape).
  unfold assign. rewrite Ht. simpl. eexists. split; [reflexivity|].
  assert (Hlen : (length t <= LIMIT)%nat).
  { destruct Hshape as [->|(j & Hj & ->)].
    - apply length_baseCandidate.
    - apply length_suffixed; [apply length_baseCandidate|].
      apply log2_small. lia. }
  split; [split; simpl|].
  - intros n0 s [[-> ->]|H]%lookup_set.
    + apply elem_of_union. left. now apply elem_of_singleton.
    + apply (ToolNames.ok_used _ Hok) in H. apply elem_of_union. now right.
  - intros n1 n2 s [[-> ->]|H1]%lookup_set [[-> E]|H2]%lookup_set.
    + reflexivity.
    + apply (ToolNames.ok_used _ Hok) in H2. contradiction.
    + subst s. apply (ToolNames.ok_used _ Hok) in H1. contradiction.
    + exact (ToolNames.ok_inj _ Hok _ _ _ H1 H2).
  - intros n0 s [[-> ->]|H]%lookup_set; [assumption|].
    exact (ToolNames.ok_length _ Hok _ _ H).
  - intros n0 s [[-> ->]|H]%lookup_set.
    + destruct Hshape as [->|(j & Hj & ->)]; [auto|].
      right. exists j. split; [lia|reflexivity].
    + exact (ToolNames.ok_shape _ Hok _ _ H).
  - simpl. rewrite size_union by now apply disjoint_singleton_l.
    rewrite size_singleton. lia.
Qed.

Lemma assign_all_ok (names : list str) :
  forall acc, ToolNames.table_ok acc ->
  Z.of_nat (size acc.1) + Z.of_nat (length names) <= 2 ^ 32 ->
  exists acc', assign_all acc names = Some acc' /\ ToolNames.table_ok acc'.
Proof.
  induction names as [|n names IH]; intros acc Hok Hsize.
  - exists acc. auto.
  - simpl in Hsize.
    destruct (assign_ok acc n Hok) as (acc1 & E1 & Hok1 & Hs1); [lia|].
    destruct (IH acc1 Hok1) as (acc' & E' & Hok'); [lia|].
    exists acc'. split; [|assumption].
    cbn [assign_all]. rewrite E1. exact E'.
Qed.

Lemma assign_all_dom (names : list str) :
  forall acc acc' n, assign_all acc names = Some acc' ->
  n <> lit "__proto__" -> n ∈ names \/ is_Some (acc.2 !! n) ->
  is_Some (acc'.2 !! n).
Proof.
  induction names as [|n0 names IH]; intros acc acc' n E Hn Hin.
  - injection E as <-. destruct Hin as [Hin|]; [|assumption].
    now apply elem_of_nil in Hin.
  - cbn [assign_all] in E.
    destruct (assign acc n0) as [acc1|] eqn:E1; [|discriminate].
    simpl in E. apply (IH acc1 acc' n E Hn).
    destruct acc as [used map]. unfold assign in E1.
    destruct (makeUnique used (baseCandidate n0)) as [t|]; [|discriminate].
    injection E1 as <-. simpl.
    destruct (decide (n = n0)) as [->|Hne].
    + right. unfold JS.set. rewrite decide_False by assumption.
      rewrite lookup_insert_eq. eauto.
    + destruct Hin as [Hin|Hin].
      * apply elem_of_cons in Hin as [?|?]; [contradiction|auto].
      * right. unfold JS.set. destruct (decide (n0 = lit "__proto__")); [assumption|].
        now rewrite lookup_insert_ne.
Qed.

Lemma build_ok (names : list str) :
  Z.of_nat (length names) <= 2 ^ 32 - 1 ->
  exists acc, assign_all (∅, ∅) names = Some acc /\ ToolNames.table_ok acc /\
              _buildShortNameMap names = Some acc.2.
Proof.
  intros Hn.
  destruct (assign_all_ok names (∅, ∅) table_ok_empty) as (acc & E & Hok).
  { change (size (∅, ∅).1) with (size (∅ : gset str)). rewrite size_empty. lia. }
  exists acc. unfold _buildShortNameMap. rewrite E. auto.
Qed.

End Table.

(** C2. For every list of tool names a JavaScript array can hold,
    [_buildShortNameMap] returns a map; the map is injective, every short
    name in it has at most 64 characters and is the base candidate of its
    original or that candidate cut and followed by [_<i>], and every name
    but [__proto__] has an entry. *)
Theorem short_name_map_injective_bounded (names : list str) :
  Z.of_nat (length names) <= 2 ^ 32 - 1 ->
  exists m, ToolNames._buildShortNameMap names = Some m /\
    (forall n1 n2 s, m !! n1 = Some s -> m !! n2 = Some s -> n1 = n2) /\
    (forall n s, m !! n = Some s ->
       (length s <= ToolNames.LIMIT)%nat /\
       (s = ToolNames.baseCandidate n \/
        exists i, (1 <= i)%N /\
                  s = ToolNames.suffixed (ToolNames.baseCandidate n) i)) /\
    (forall n, n ∈ names -> n <> lit "__proto__" -> is_Some (m !! n)).
Proof.
  intros Hn. destruct (build_ok names Hn) as (acc & E & Hok & Hm).
  exists acc.2. split; [assumption|]. split; [|split].
  - exact (ToolNames.ok_inj _ Hok).
  - intros n s H. split; [exact (ToolNames.ok_length _ Hok _ _ H)|exact (ToolNames.ok_shape _ Hok _ _ H)].
  - intros n Hin Hp. eapply assign_all_dom; eauto.
Qed.

Lemma short_name_map_injective_bounded_witness :
  Z.of_nat (length Examples.colliding_names) <= 2 ^ 32 - 1 /\
  exists m, ToolNames._buildShortNameMap Examples.colliding_names = Some m /\
    (forall n1 n2 s, m !! n1 = Some s -> m !! n2 = Some s -> n1 = n2) /\
    (forall n s, m !! n = Some s ->
       (length s <= ToolNames.LIMIT)%nat /\
       (s = ToolNames.baseCandidate n \/
        exists i, (1 <= i)%N /\
                  s = ToolNames.suffixed (ToolNames.baseCandidate n) i)) /\
    (forall n, n ∈ Examples.colliding_names -> n <> lit "__proto__" -> is_Some (m !! n)).
Proof.
  assert (H : Z.of_nat (length Examples.colliding_names) <= 2 ^ 32 - 1) by (simpl; lia).
  split; [exact H|].
  exact (short_name_map_injective_bounded Examples.colliding_names H).
Defined.

Example colliding_table :
  map_to_list <$> ToolNames._buildShortNameMap Examples.colliding_names =
  Some [ (lit "aaaaaaaaaabbbbbbbbbbccccccccccddddddddddeeeeeeeeeeffffffffffgggg_Y",
          lit "aaaaaaaaaabbbbbbbbbbccccccccccddddddddddeeeeeeeeeeffffffffffgg_1");
         (lit "aaaaaaaaaabbbbbbbbbbccccccccccddddddddddeeeeeeeeeeffffffffffgggg_X",
          lit "aaaaaaaaaabbbbbbbbbbccccccccccddddddddddeeeeeeeeeeffffffffffgggg") ].
Proof. vm_compute. reflexivity. Qed.

(** * The reverse map *)
Section Reverse.
Import ToolNames.

(** The entries of the reverse map, for a list of entries in which a
    short name belongs to one original. *)
Lemma fold_reverse_entry (l : list (str * str)) :
  forall (acc : gmap str str) (s : str),
  (forall o1 o2, (o1, s) ∈ l -> (o2, s) ∈ l -> o1 = o2) ->
  (forall o, (o, s) ∈ l -> o <> s -> s <> lit "__proto__" ->
             fold_left reverse_entry l acc !! s = Some o) /\
  ((forall o, (o, s) ∈ l -> o = s \/ s = lit "__proto__") ->
   fold_left reverse_entry l acc !! s = acc !! s).
Proof.
  induction l as [|[o' s'] l IH]; intros acc s Hinj.
  - split; [intros o H; now apply elem_of_nil in H|reflexivity].
  - assert (Hinj' : forall o1 o2, (o1, s) ∈ l -> (o2, s) ∈ l -> o1 = o2).
    { intros o1 o2 H1 H2. apply Hinj; now apply list_elem_of_further. }
    destruct (IH (reverse_entry acc (o', s')) s Hinj') as [IH1 IH2].
    cbn [fold_left]. split.
    + intros o Hin Hne Hp.
      destruct (decide ((o, s) ∈ l)) as [Hl|Hl]; [now apply IH1|].
      apply elem_of_cons in Hin as [[= <- <-]|Hin]; [|contradiction].
      rewrite IH2.
      * unfold reverse_entry, JS.set.
        rewrite decide_False by assumption.
        rewrite decide_False by assumption.
        apply lookup_insert_eq.
      * intros o2 H2. exfalso. apply Hl.
        replace o with o2; [assumption|].
        apply Hinj; [now apply list_elem_of_further|apply list_elem_of_here].
    + intros Htriv. rewrite IH2.
      * unfold reverse_entry, JS.set.
        destruct (decide (o' = s')); [reflexivity|].
        destruct (decide (s' = lit "__proto__")); [reflexivity|].
        destruct (decide (s' = s)) as [->|Hne].
        -- destruct (Htriv o' (list_elem_of_here _ _)); contradiction.
        -- now rewrite lookup_insert_ne.
      * intros o Hin. apply Htriv. now apply list_elem_of_further.
Qed.

Lemma dec_fuel_nonempty (f : nat) (n : N) : JS.dec_fuel f n <> [].
Proof.
  destruct f; cbn [JS.dec_fuel]; [discriminate|].
  destruct (n <? 10)%N; [discriminate|].
  intros H. apply app_eq_nil in H as [_ H]. discriminate.
Qed.

Lemma suffixed_not_proto (base : str) (i : N) :
  suffixed base i <> lit "__proto__".
Proof.
  destruct (suffixed_split base i) as [p ->].
  change (lit "__proto__") with (lit "__proto_" ++ JS.underscore :: []).
  intros H. apply not_elem_of_app_cons_inv_r in H as (_ & _ & H).
  - revert H. apply dec_fuel_nonempty.
  - apply not_elem_of_nil.
  - apply dec_no_underscore.
Qed.

Lemma baseCandidate_not_proto (n : str) :
  baseCandidate n <> n -> baseCandidate n <> lit "__proto__".
Proof.
  unfold baseCandidate, JS.slice_to, JS.slice_from, LIMIT.
  destruct (Nat.leb_spec (length n) 64); [congruence|].
  intros _.
  assert (Ht : firstn 64 n <> lit "__proto__").
  { intros E. apply (f_equal length) in E.
    rewrite length_firstn in E.
    change (length (lit "__proto__")) with 9%nat in E. lia. }
  destruct (JS.startsWith _ n); [|assumption].
  destruct (JS.lastIndexOf _ n) as [idx|]; [|assumption].
  destruct (0 <? idx)%nat; [|assumption].
  set (cand := lit "mcp__" ++ skipn (idx + 2) n).
  destruct (Nat.ltb_spec 64 (length cand)) as [Hlong|Hshort].
  - intros E. apply (f_equal length) in E.
    rewrite length_firstn in E.
    change (length (lit "__proto__")) with 9%nat in E. lia.
  - subst cand. discriminate.
Qed.

Lemma reverseMap_lookup (m : gmap str str) (orig short : str) :
  (forall n1 n2 s, m !! n1 = Some s -> m !! n2 = Some s -> n1 = n2) ->
  m !! orig = Some short ->
  reverseMap m !! short =
    if decide (orig = short) then None
    else if decide (short = lit "__proto__") then None
    else Some orig.
Proof.
  intros Hinj Hm. unfold reverseMap.
  destruct (fold_reverse_entry (map_to_list m) ∅ short) as [H1 H2].
  { intros o1 o2 Ho1%elem_of_map_to_list Ho2%elem_of_map_to_list. eauto. }
  destruct (decide (orig = short)) as [E|E];
    [|destruct (decide (short = lit "__proto__")) as [E'|E']].
  - rewrite H2; [apply lookup_empty|].
    intros o Ho%elem_of_map_to_list. left.
    rewrite <- E. eauto.
  - rewrite H2; [apply lookup_empty|]. auto.
  - apply H1; [now apply elem_of_map_to_list|assumption..].
Qed.

End Reverse.

(** X1. The round trip through the tables of a request, for a name that
    is not empty and is not one of the members every object inherits:
    restoring the short name of an original gives the original back. *)
Theorem restore_forward_round_trip (names : list str) (m : gmap str str)
    (orig short : str) :
  Z.of_nat (length names) <= 2 ^ 32 - 1 ->
  ToolNames._buildShortNameMap names = Some m ->
  ToolNames.forward m orig = Some short ->
  orig <> [] -> orig ∉ JS.Object_prototype_keys ->
  ToolNames._restoreToolName (ToolNames.reverseMap m) short = JS.VStr orig.
Proof.
  intros Hn Hb Hf Hne Hproto.
  destruct (build_ok names Hn) as (acc & _ & Hok & Hm).
  rewrite Hb in Hm. injection Hm as ->.
  unfold ToolNames.forward in Hf.
  unfold ToolNames._restoreToolName, JS.get.
  rewrite (reverseMap_lookup _ orig short (ToolNames.ok_inj _ Hok) Hf).
  destruct (decide (orig = short)) as [<-|Hdiff].
  - rewrite decide_False by assumption. reflexivity.
  - rewrite decide_False.
    + simpl. destruct orig; [contradiction|reflexivity].
    + destruct (ToolNames.ok_shape _ Hok _ _ Hf) as [->|(i & _ & ->)].
      * apply baseCandidate_not_proto. congruence.
      * apply suffixed_not_proto.
Qed.

Lemma restore_forward_round_trip_witness :
  ToolNames._restoreToolName
    (ToolNames.reverseMap
       (default ∅ (ToolNames._buildShortNameMap Examples.colliding_names)))
    (lit "aaaaaaaaaabbbbbbbbbbccccccccccddddddddddeeeeeeeeeeffffffffffgg_1") =
  JS.VStr (lit "aaaaaaaaaabbbbbbbbbbccccccccccddddddddddeeeeeeeeeeffffffffffgggg_Y").
Proof.
  apply (restore_forward_round_trip Examples.colliding_names).
  - simpl; lia.
  - destruct (build_ok Examples.colliding_names) as (acc & _ & _ & E); [simpl; lia|].
    rewrite E. reflexivity.
  - vm_compute. reflexivity.
  - discriminate.
  - vm_compute. intros H. repeat (apply elem_of_cons in H as [H|H]; [discriminate H|]).
    now apply elem_of_nil in H.
Defined.

(** C3, at a tool named [constructor]: the name is its own short name, the
    reverse map has no entry for it, and the lookup finds the member of
    that name which every object inherits. *)
Lemma restore_inherited_name :
  exists m,
    ToolNames._buildShortNameMap [lit "constructor"] = Some m /\
    ToolNames.forward m (lit "constructor") = Some (lit "constructor") /\
    ToolNames.reverseMap m = ∅ /\
    ToolNames._restoreToolName (ToolNames.reverseMap m) (lit "constructor")
      = JS.VInherited (lit "constructor") /\
    ToolNames._restoreToolName (ToolNames.reverseMap m) (lit "constructor")
      <> JS.VStr (lit "constructor").
Proof.
  eexists. split; [vm_compute; reflexivity|].
  split; [vm_compute; reflexivity|].
  split; [vm_compute; reflexivity|].
  split; [vm_compute; reflexivity|].
  vm_compute. discriminate.
Qed.


(** * Searching and cutting strings *)
Section Search.
Import JS.

Lemma startsWith_app (p s t : str) :
  startsWith p s = true -> startsWith p (s ++ t) = true.
Proof.
  revert s. induction p as [|a p IH]; intros [|b s]; simpl; try easy.
  destruct (decide (a = b)); [apply IH|easy].
Qed.

Lemma startsWith_length (p s : str) :
  startsWith p s = true -> (length p <= length s)%nat.
Proof.
  revert s. induction p as [|a p IH]; intros [|b s]; simpl.
  - lia.
  - lia.
  - discriminate.
  - destruct (decide (a = b)); [|discriminate]. intros H%IH. lia.
Qed.

Lemma startsWith_false_app (p s t : str) :
  startsWith p s = false -> (length p <= length s)%nat ->
  startsWith p (s ++ t) = false.
Proof.
  revert s. induction p as [|a p IH]; intros [|b s]; simpl.
  - discriminate.
  - discriminate.
  - intros _ H. lia.
  - destruct (decide (a = b)); [|reflexivity].
    intros H Hl. apply IH; [assumption|lia].
Qed.

Lemma indexOf_unfold (p s : str) :
  indexOf p s =
    if startsWith p s then Some O
    else match s with [] => None | _ :: s' => S <$> indexOf p s' end.
Proof. destruct s; reflexivity. Qed.

Lemma indexOf_length (p s : str) (k : nat) :
  indexOf p s = Some k -> (k + length p <= length s)%nat.
Proof.
  revert k. induction s as [|a s IH]; intros k; rewrite indexOf_unfold.
  - destruct (startsWith p []) eqn:E; [|easy].
    intros [= <-]. apply startsWith_length in E. simpl in *. lia.
  - destruct (startsWith p (a :: s)) eqn:E.
    + intros [= <-]. apply startsWith_length in E. simpl in *. lia.
    + destruct (indexOf p s) as [k'|]; [|easy].
      intros [= <-]. specialize (IH k' eq_refl). simpl. lia.
Qed.

Lemma indexOf_app (p s t : str) (k : nat) :
  indexOf p s = Some k -> indexOf p (s ++ t) = Some k.
Proof.
  revert k. induction s as [|a s IH]; intros k; rewrite indexOf_unfold.
  - destruct (startsWith p []) eqn:E; [|easy].
    intros [= <-]. rewrite indexOf_unfold.
    now rewrite (startsWith_app p [] t E).
  - destruct (startsWith p (a :: s)) eqn:E.
    + intros [= <-]. rewrite indexOf_unfold.
      now rewrite (startsWith_app p (a :: s) t E).
    + destruct (indexOf p s) as [k'|] eqn:Ei; [|easy].
      intros [= <-]. rewrite indexOf_unfold.
      rewrite startsWith_false_app; [|assumption|].
      * simpl. now rewrite (IH k' eq_refl).
      * apply indexOf_length in Ei. simpl. lia.
Qed.

Lemma slice_to_app (s t : str) (k : nat) :
  (k <= length s)%nat -> slice_to k (s ++ t) = slice_to k s.
Proof.
  intros H. unfold slice_to. rewrite firstn_app.
  replace (k - length s)%nat with O by lia. simpl. apply app_nil_r.
Qed.

Lemma slice_from_app (s t : str) (k : nat) :
  (k <= length s)%nat -> slice_from k (s ++ t) = slice_from k s ++ t.
Proof.
  intros H. unfold slice_from. rewrite skipn_app.
  replace (k - length s)%nat with O by lia. reflexivity.
Qed.

End Search.

(** * The frame loop *)
Section LoopFacts.

Context {St Out : Type}.
Variable on_line : St -> str -> St * list Out.

Local Abbreviation drain := (SSE.drain on_line).
Local Abbreviation events := (SSE.events on_line).
Local Abbreviation for_lines := (SSE.for_lines on_line).
Local Abbreviation round := (SSE.round on_line).

Lemma cut_shorter (buffer : str) (idx : nat) :
  JS.indexOf SSE.separator buffer = Some idx ->
  (length (JS.slice_from (idx + 2) buffer) < length buffer)%nat.
Proof.
  intros H%indexOf_length. unfold JS.slice_from.
  rewrite length_skipn. simpl in H. lia.
Qed.

(** The loop stops by its own condition: fuel beyond the length of the
    buffer changes nothing. *)
Lemma drain_enough (fuel : nat) :
  forall st buffer, (length buffer <= fuel)%nat ->
  drain fuel st buffer = events st buffer.
Proof.
  induction fuel as [fuel IH] using lt_wf_ind. intros st buffer Hlen.
  unfold SSE.events.
  destruct fuel as [|fuel].
  - destruct buffer; [reflexivity|simpl in Hlen; lia].
  - destruct (length buffer) as [|n] eqn:En.
    + destruct buffer; [reflexivity|discriminate].
    + cbn [SSE.drain].
      destruct (JS.indexOf SSE.separator buffer) as [idx|] eqn:Ei; [|reflexivity].
      pose proof (cut_shorter _ _ Ei) as Hcut.
      destruct (negb _).
      * rewrite (IH fuel), (IH n); auto; lia.
      * destruct (for_lines _ _) as [st1 o1].
        rewrite (IH fuel), (IH n); auto; lia.
Qed.

Lemma events_unfold (st : St) (buffer : str) :
  events st buffer = round events st buffer.
Proof.
  unfold SSE.round.
  destruct (JS.indexOf SSE.separator buffer) as [idx|] eqn:Ei.
  - pose proof (cut_shorter _ _ Ei) as Hcut.
    unfold SSE.events at 1.
    destruct (length buffer) as [|n] eqn:En; [lia|].
    cbn [SSE.drain]. rewrite Ei.
    destruct (negb _).
    + apply drain_enough. lia.
    + destruct (for_lines _ _) as [st1 o1].
      rewrite drain_enough by lia. reflexivity.
  - unfold SSE.events. destruct (length buffer); cbn [SSE.drain];
      [reflexivity|now rewrite Ei].
Qed.

(** What the loop leaves in the buffer holds no separator. *)
Lemma events_drained (n : nat) :
  forall st buffer, (length buffer <= n)%nat ->
  JS.indexOf SSE.separator (events st buffer).1.2 = None.
Proof.
  induction n as [n IH] using lt_wf_ind. intros st buffer Hlen.
  rewrite events_unfold. unfold SSE.round.
  destruct (JS.indexOf SSE.separator buffer) as [idx|] eqn:Ei; [|assumption].
  pose proof (cut_shorter _ _ Ei) as Hcut.
  destruct (negb _).
  - apply (IH (length (JS.slice_from (idx + 2) buffer))); lia.
  - destruct (for_lines _ _) as [st1 o1].
    specialize (IH (length (JS.slice_from (idx + 2) buffer)) ltac:(lia)
                  st1 _ (Nat.le_refl _)).
    destruct (events st1 _) as [[st2 rest] o2]. exact IH.
Qed.

Lemma events_idle (st : St) (buffer : str) :
  JS.indexOf SSE.separator buffer = None ->
  events st buffer = (st, buffer, []).
Proof. intros H. rewrite events_unfold. unfold SSE.round. now rewrite H. Qed.

(** Text appended to the buffer: the loop over the whole is the loop over
    the first part, followed by the loop over what that left and the
    rest. *)
Lemma events_app (n : nat) :
  forall st buffer more, (length buffer <= n)%nat ->
  events st (buffer ++ more) =
    let '(st1, rest1, o1) := events st buffer in
    let '(st2, rest2, o2) := events st1 (rest1 ++ more) in
    (st2, rest2, o1 ++ o2).
Proof.
  induction n as [n IH] using lt_wf_ind. intros st buffer more Hlen.
  rewrite (events_unfold st buffer). unfold SSE.round.
  destruct (JS.indexOf SSE.separator buffer) as [idx|] eqn:Ei.
  - pose proof (cut_shorter _ _ Ei) as Hcut.
    pose proof (indexOf_length _ _ _ Ei) as Hidx. simpl in Hidx.
    rewrite (events_unfold st (buffer ++ more)). unfold SSE.round.
    rewrite (indexOf_app _ _ more _ Ei).
    rewrite slice_to_app, slice_from_app by lia.
    destruct (negb _).
    + apply (IH (length (JS.slice_from (idx + 2) buffer))); lia.
    + destruct (for_lines _ _) as [st1 o1].
      rewrite (IH (length (JS.slice_from (idx + 2) buffer)) ltac:(lia)
                 st1 _ more (Nat.le_refl _)).
      destruct (events st1 (JS.slice_from _ buffer)) as [[st2 rest2] o2].
      destruct (events st2 (rest2 ++ more)) as [[st3 rest3] o3].
      now rewrite app_assoc.
  - simpl. destruct (events st (buffer ++ more)) as [[st2 rest2] o2].
    reflexivity.
Qed.

(** A change of the state that no line looks at goes through the loop. *)
Lemma for_lines_commute (f : St -> St) :
  (forall st line, on_line (f st) line =
                   (f (on_line st line).1, (on_line st line).2)) ->
  forall lines st,
    for_lines (f st) lines = (f (for_lines st lines).1, (for_lines st lines).2).
Proof.
  intros Hf. induction lines as [|l lines IH]; intros st; [reflexivity|].
  cbn [SSE.for_lines]. rewrite Hf.
  destruct (on_line st l) as [st1 o1]. simpl. rewrite IH.
  destruct (for_lines st1 lines) as [st2 o2]. reflexivity.
Qed.

Lemma events_commute (f : St -> St) :
  (forall st line, on_line (f st) line =
                   (f (on_line st line).1, (on_line st line).2)) ->
  forall n st buffer, (length buffer <= n)%nat ->
    events (f st) buffer =
      (f (events st buffer).1.1, (events st buffer).1.2, (events st buffer).2).
Proof.
  intros Hf. induction n as [n IH] using lt_wf_ind. intros st buffer Hlen.
  rewrite (events_unfold st buffer), (events_unfold (f st) buffer).
  unfold SSE.round.
  destruct (JS.indexOf SSE.separator buffer) as [idx|] eqn:Ei; [|reflexivity].
  pose proof (cut_shorter _ _ Ei) as Hcut.
  destruct (negb _).
  - apply (IH (length (JS.slice_from (idx + 2) buffer))); lia.
  - rewrite (for_lines_commute f Hf).
    destruct (for_lines st _) as [st1 o1]. simpl.
    rewrite (IH (length (JS.slice_from (idx + 2) buffer)) ltac:(lia)
               st1 _ (Nat.le_refl _)).
    destruct (events st1 _) as [[st2 rest2] o2]. reflexivity.
Qed.

End LoopFacts.

(** * White space *)
Section Blank.
Import JS.

Lemma trimStart_nil (s : str) :
  trimStart s = [] <-> forallb is_space s = true.
Proof.
  induction s as [|c s IH]; simpl; [tauto|].
  destruct (is_space c); simpl; [exact IH|split; discriminate].
Qed.

Lemma trimStart_spaces (s : str) :
  forallb is_space (trimStart s) = true -> trimStart s = [].
Proof.
  induction s as [|c s IH]; simpl; [reflexivity|].
  destruct (is_space c) eqn:E; [exact IH|].
  simpl. rewrite E. discriminate.
Qed.

Lemma forallb_rev (s : str) :
  forallb is_space (rev s) = forallb is_space s.
Proof.
  induction s as [|c s IH]; [reflexivity|].
  simpl. rewrite forallb_app, IH. simpl.
  rewrite andb_true_r. apply andb_comm.
Qed.

Lemma trim_nil (s : str) : trim s = [] <-> forallb is_space s = true.
Proof.
  unfold trim. split.
  - intros H. apply (f_equal (@rev ascii)) in H.
    rewrite rev_involutive in H. simpl in H.
    apply trimStart_nil in H. rewrite forallb_rev in H.
    apply trimStart_spaces in H. now apply trimStart_nil.
  - intros H. apply trimStart_nil in H. now rewrite H.
Qed.

Lemma blank_spaces (s : str) : blank s = forallb is_space s.
Proof.
  unfold blank. destruct (forallb is_space s) eqn:E.
  - apply trim_nil in E. now rewrite E.
  - destruct (trim s) eqn:Et; [|reflexivity].
    apply trim_nil in Et. congruence.
Qed.

Lemma blank_app (a b : str) : blank (a ++ b) = blank a && blank b.
Proof. rewrite !blank_spaces. apply forallb_app. Qed.

End Blank.

(** * The loop around a body that may throw *)
Section ThrowingFacts.

Context {St Out : Type}.
Variable on_line : St -> str -> St * option (list Out).

Local Abbreviation total := (SSE.marked on_line).

Lemma map_Some_app_inv (x : list Out) (o2 : list (option Out))
    (o : list Out) :
  map Some x ++ o2 = map Some o ->
  exists o', o = x ++ o' /\ o2 = map Some o'.
Proof.
  revert o. induction x as [|a x IH]; intros o H; simpl in H.
  - now exists o.
  - destruct o as [|b o]; [discriminate|]. simpl in H.
    injection H as -> H. destruct (IH o H) as (o' & -> & ->).
    now exists o'.
Qed.

Lemma marked_eq (st : St) (l : str) :
  total st l = match on_line st l with
               | (st1, None) => (st1, [None])
               | (st1, Some o1) => (st1, map Some o1)
               end.
Proof. reflexivity. Qed.

(** A run that returns is the run of the total body, and that one has
    no mark. *)
Lemma try_lines_returns (lines : list str) :
  forall st st' o,
  SSE.try_lines on_line st lines = (st', Some o) ->
  SSE.for_lines total st lines = (st', map Some o).
Proof.
  induction lines as [|l lines IH]; intros st st' o H;
    cbn [SSE.try_lines SSE.for_lines] in *.
  - now injection H as <- <-.
  - rewrite marked_eq.
    destruct (on_line st l) as [st1 [o1|]]; [|discriminate].
    destruct (SSE.try_lines on_line st1 lines) as [st2 [o2|]] eqn:E;
      [|discriminate].
    injection H as <- <-. rewrite (IH _ _ _ E). now rewrite map_app.
Qed.

(** A run of the total body without a mark is the run that returns. *)
Lemma try_lines_unmarked (lines : list str) :
  forall st o,
  (SSE.for_lines total st lines).2 = map Some o ->
  SSE.try_lines on_line st lines
  = ((SSE.for_lines total st lines).1, Some o).
Proof.
  induction lines as [|l lines IH]; intros st o H;
    cbn [SSE.try_lines SSE.for_lines] in *.
  - destruct o; [reflexivity|discriminate].
  - rewrite marked_eq in H |- *.
    destruct (on_line st l) as [st1 [o1|]].
    + destruct (SSE.for_lines total st1 lines) as [st2 o2] eqn:E.
      cbn [fst snd] in H |- *.
      destruct (map_Some_app_inv _ _ _ H) as (o' & -> & ->).
      specialize (IH st1 o'). rewrite E in IH. cbn [fst snd] in IH.
      now rewrite (IH eq_refl).
    + destruct (SSE.for_lines total st1 lines) as [st2 o2].
      cbn [fst snd] in H. destruct o; discriminate.
Qed.

Lemma try_drain_returns (fuel : nat) :
  forall st buffer st' rest o,
  SSE.try_drain on_line fuel st buffer = (st', rest, Some o) ->
  SSE.drain total fuel st buffer = (st', rest, map Some o).
Proof.
  induction fuel as [|fuel IH]; intros st buffer st' rest o H;
    cbn [SSE.try_drain SSE.drain] in *.
  - now injection H as <- <- <-.
  - destruct (JS.indexOf SSE.separator buffer) as [idx|].
    2:{ now injection H as <- <- <-. }
    destruct (negb _); [now apply IH|].
    destruct (SSE.try_lines on_line st _) as [st1 [o1|]] eqn:El;
      [|discriminate].
    rewrite (try_lines_returns _ _ _ _ El).
    destruct (SSE.try_drain on_line fuel st1 _) as [[st2 rest2] [o2|]] eqn:Ed;
      [|discriminate].
    injection H as <- <- <-. rewrite (IH _ _ _ _ _ Ed).
    now rewrite map_app.
Qed.

Lemma try_drain_unmarked (fuel : nat) :
  forall st buffer o,
  (SSE.drain total fuel st buffer).2 = map Some o ->
  SSE.try_drain on_line fuel st buffer
  = ((SSE.drain total fuel st buffer).1.1,
     (SSE.drain total fuel st buffer).1.2, Some o).
Proof.
  induction fuel as [|fuel IH]; intros st buffer o H;
    cbn [SSE.try_drain SSE.drain] in *.
  - destruct o; [reflexivity|discriminate].
  - destruct (JS.indexOf SSE.separator buffer) as [idx|].
    2:{ destruct o; [reflexivity|discriminate]. }
    destruct (negb _); [now apply IH|].
    destruct (SSE.for_lines total st _) as [st1 o1] eqn:El.
    destruct (SSE.drain total fuel st1 _) as [[st2 rest2] o2] eqn:Ed.
    cbn [fst snd] in H |- *.
    assert (Hsplit : exists x o', o = x ++ o' /\ o1 = map Some x
                                  /\ o2 = map Some o').
    { clear -H. revert o H. induction o1 as [|a o1 IHo]; intros o H.
      - exists [], o. now simpl in *.
      - destruct o as [|b o]; [discriminate|]. simpl in H.
        injection H as -> H. destruct (IHo o H) as (x & o' & -> & -> & ->).
        now exists (b :: x), o'. }
    destruct Hsplit as (x & o' & -> & -> & ->).
    pose proof (try_lines_unmarked (JS.split JS.LF (JS.slice_to idx buffer))
                  st x) as Hl.
    rewrite El in Hl. cbn [fst snd] in Hl. rewrite (Hl eq_refl).
    specialize (IH st1 (JS.slice_from (idx + 2) buffer) o').
    rewrite Ed in IH. cbn [fst snd] in IH. now rewrite (IH eq_refl).
Qed.

Lemma try_events_returns (st : St) (buffer : str) (st' : St) (rest : str)
    (o : list Out) :
  SSE.try_events on_line st buffer = (st', rest, Some o) ->
  SSE.events total st buffer = (st', rest, map Some o).
Proof. apply try_drain_returns. Qed.

Lemma try_events_unmarked (st : St) (buffer : str) (o : list Out) :
  (SSE.events total st buffer).2 = map Some o ->
  SSE.try_events on_line st buffer
  = ((SSE.events total st buffer).1.1,
     (SSE.events total st buffer).1.2, Some o).
Proof. apply try_drain_unmarked. Qed.

(** A body that does not throw: the loop is the loop of module [SSE]
    around it. *)
Lemma try_events_safe (f : St -> str -> St * list Out) :
  (forall st l, on_line st l = ((f st l).1, Some (f st l).2)) ->
  forall st buffer,
  SSE.try_events on_line st buffer
  = ((SSE.events f st buffer).1.1, (SSE.events f st buffer).1.2,
     Some (SSE.events f st buffer).2).
Proof.
  intros Hf.
  assert (Hl : forall lines st,
    SSE.try_lines on_line st lines
    = ((SSE.for_lines f st lines).1, Some (SSE.for_lines f st lines).2)).
  { induction lines as [|l lines IH]; intros st; [reflexivity|].
    cbn [SSE.try_lines SSE.for_lines]. rewrite Hf.
    destruct (f st l) as [st1 o1]. cbn [fst snd]. rewrite IH.
    destruct (SSE.for_lines f st1 lines) as [st2 o2]. reflexivity. }
  intros st buffer. unfold SSE.try_events, SSE.events.
  generalize (length buffer) as fuel. intros fuel. revert st buffer.
  induction fuel as [|fuel IH]; intros st buffer;
    cbn [SSE.try_drain SSE.drain]; [reflexivity|].
  destruct (JS.indexOf SSE.separator buffer) as [idx|]; [|reflexivity].
  destruct (negb _); [apply IH|].
  rewrite Hl. destruct (SSE.for_lines f st _) as [st1 o1]. cbn [fst snd].
  rewrite IH.
  destruct (SSE.drain f fuel st1 _) as [[st2 rest2] o2]. reflexivity.
Qed.

End ThrowingFacts.

(** * The two interceptions over a stream of chunks *)
Section Codex_stream.

Variable now : N.
Variable Date_parse : str -> option Z.
Variable rev_map : gmap str str.
Variable parse_event : str -> option Codex.event.
Variable model : str.

Local Abbreviation on_line :=
  (Router.codex_on_line now Date_parse rev_map parse_event model).
Local Abbreviation feed :=
  (Router.codex_feed now Date_parse rev_map parse_event model).

Lemma codex_feed_events (chunks : list str) :
  forall st : Router.codex_stream,
  JS.indexOf SSE.separator (Router.sseBuffer st) = None ->
  feed st chunks =
    let '(s', rest, out) :=
      SSE.events on_line (Router.streamState st)
        (Router.sseBuffer st ++ concat (map JS.replace_crlf chunks)) in
    ({| Router.streamState := s'; Router.sseBuffer := rest |},
     map Router.Send out).
Proof.
  induction chunks as [|c chunks IH]; intros [s buf] Hbuf; simpl in *.
  - rewrite app_nil_r, events_idle by assumption. reflexivity.
  - unfold Router.codex_write. simpl.
    rewrite (app_assoc buf).
    rewrite (events_app on_line _ s (buf ++ JS.replace_crlf c) _ (Nat.le_refl _)).
    pose proof (events_drained on_line _ s (buf ++ JS.replace_crlf c)
                  (Nat.le_refl _)) as Hd.
    destruct (SSE.events on_line s (buf ++ JS.replace_crlf c))
      as [[s1 rest1] o1]. simpl in Hd.
    rewrite (IH {| Router.streamState := s1; Router.sseBuffer := rest1 |} Hd).
    simpl.
    destruct (SSE.events on_line s1 _) as [[s2 rest2] o2].
    now rewrite map_app.
Qed.

Lemma codex_at_once (chunks : list str) :
  JS.replace_crlf (concat chunks) = concat (map JS.replace_crlf chunks) ->
  feed Router.codex_start chunks = feed Router.codex_start [concat chunks].
Proof.
  intros Hcr.
  rewrite !codex_feed_events by reflexivity.
  simpl. now rewrite app_nil_r, Hcr.
Qed.

End Codex_stream.

Section Gemini_stream.
Import Gemini.

Variable now : N.
Variable Date_parse : str -> option Z.
Variable JSON_parse : str -> option parsed.
Variable model : str.

Local Abbreviation convert := (_convertGeminiChunkToOpenAI now Date_parse).
Local Abbreviation line := (on_line now Date_parse JSON_parse model).
Local Abbreviation total := (SSE.marked line).
Local Abbreviation stream := (feed now Date_parse JSON_parse model).

Lemma with_buffer_same (s : state) : with_buffer (buffer s) s = s.
Proof. now destruct s. Qed.

Lemma with_buffer_twice (a b : str) (s : state) :
  with_buffer a (with_buffer b s) = with_buffer a s.
Proof. reflexivity. Qed.

Lemma update_metadata_buffer (b : str) (d : response) (s : state) :
  update_metadata now Date_parse d (with_buffer b s) =
  with_buffer b (update_metadata now Date_parse d s).
Proof.
  unfold update_metadata.
  destruct (given (responseId d)), (given (modelVersion d)),
    (given (createTime d)); try reflexivity;
    destruct (decide _); reflexivity.
Qed.

Lemma convert_part_buffer (b : str) (ci : Z) (p : part) :
  forall s results,
  convert_part now model ci (with_buffer b s, results) p =
    (with_buffer b (convert_part now model ci (s, results) p).1,
     (convert_part now model ci (s, results) p).2).
Proof.
  intros s results. unfold convert_part.
  destruct (signature_only p); [reflexivity|].
  destruct (part_functionCall p) as [f|].
  { unfold _injectRole. simpl. destruct (roleSent s); reflexivity. }
  destruct (text p) as [t|].
  { unfold _injectRole. simpl. destruct (roleSent s); reflexivity. }
  destruct (inline_of p) as [i|]; [|reflexivity].
  destruct (given (data i)); [|reflexivity].
  unfold _injectRole. simpl. destruct (roleSent s); reflexivity.
Qed.

Lemma fold_parts_buffer (b : str) (ci : Z) (ps : list part) :
  forall s results,
  fold_left (convert_part now model ci) ps (with_buffer b s, results) =
    (with_buffer b
       (fold_left (convert_part now model ci) ps (s, results)).1,
     (fold_left (convert_part now model ci) ps (s, results)).2).
Proof.
  induction ps as [|p ps IH]; intros s results; [reflexivity|].
  cbn [fold_left]. rewrite convert_part_buffer.
  destruct (convert_part now model ci (s, results) p) as [s1 r1].
  apply IH.
Qed.

Lemma convert_candidate_buffer (b : str) (d : response) (i : nat)
    (c : candidate) (s : state) (results : list Canonical.chunk) :
  convert_candidate now model d (with_buffer b s, results) i c =
    (with_buffer b (convert_candidate now model d (s, results) i c).1,
     (convert_candidate now model d (s, results) i c).2).
Proof.
  unfold convert_candidate. rewrite fold_parts_buffer.
  destruct (fold_left _ (parts c) (s, results)) as [s1 r1]. simpl.
  destruct (given (finishReason c)); reflexivity.
Qed.

Lemma for_candidates_buffer (b : str) (d : response) (cs : list candidate) :
  forall i s results,
  for_candidates now model d i cs (with_buffer b s, results) =
    (with_buffer b (for_candidates now model d i cs (s, results)).1,
     (for_candidates now model d i cs (s, results)).2).
Proof.
  induction cs as [|c cs IH]; intros i s results; [reflexivity|].
  cbn [for_candidates]. rewrite convert_candidate_buffer.
  destruct (convert_candidate now model d (s, results) i c) as [s1 r1].
  apply IH.
Qed.

Lemma convert_buffer (b : str) (g : geminiData) (s : state) :
  convert g model (with_buffer b s) =
    (with_buffer b (convert g model s).1, (convert g model s).2).
Proof.
  unfold _convertGeminiChunkToOpenAI. rewrite update_metadata_buffer.
  destruct (candidates (unwrap g)) as [|c cs].
  - destruct (meta (unwrap g)); reflexivity.
  - apply for_candidates_buffer.
Qed.

Lemma parts_in_buffer (b : str) (ci : Z) (ps : list (option part)) :
  forall s results,
  parts_in now model ci ps (with_buffer b s, results) =
    (with_buffer b (parts_in now model ci ps (s, results)).1,
     (parts_in now model ci ps (s, results)).2).
Proof.
  induction ps as [|[p|] ps IH]; intros s results; [reflexivity| |reflexivity].
  cbn [parts_in]. rewrite convert_part_buffer.
  destruct (convert_part now model ci (s, results) p) as [s1 r1].
  apply IH.
Qed.

Lemma candidate_in_step_buffer (b : str) (m : option usageMetadata)
    (i : nat) (c : candidate_in) (s : state) (results : list Canonical.chunk) :
  candidate_in_step now model m (with_buffer b s, results) i c =
    (with_buffer b (candidate_in_step now model m (s, results) i c).1,
     (candidate_in_step now model m (s, results) i c).2).
Proof.
  unfold candidate_in_step. rewrite parts_in_buffer.
  destruct (parts_in now model _ (in_parts c) (s, results)) as [s1 [r1|]];
    [|reflexivity].
  cbn [fst snd]. destruct (given (in_finishReason c)); reflexivity.
Qed.

Lemma candidates_in_buffer (b : str) (m : option usageMetadata)
    (cs : list (option candidate_in)) :
  forall i s results,
  candidates_in now model m i cs (with_buffer b s, results) =
    (with_buffer b (candidates_in now model m i cs (s, results)).1,
     (candidates_in now model m i cs (s, results)).2).
Proof.
  induction cs as [|[c|] cs IH]; intros i s results;
    [reflexivity| |reflexivity].
  cbn [candidates_in]. rewrite candidate_in_step_buffer.
  destruct (candidate_in_step now model m (s, results) i c) as [s1 [r1|]];
    [|reflexivity].
  cbn [fst snd]. apply IH.
Qed.

Lemma convert_parsed_buffer (b : str) (p : parsed) (s : state) :
  convert_parsed now Date_parse p model (with_buffer b s) =
    (with_buffer b (convert_parsed now Date_parse p model s).1,
     (convert_parsed now Date_parse p model s).2).
Proof.
  destruct p as [|e w d]; [reflexivity|].
  unfold convert_parsed. rewrite update_metadata_buffer.
  destruct (in_candidates _) as [|c cs].
  - destruct (in_meta _); reflexivity.
  - apply candidates_in_buffer.
Qed.

Lemma on_line_buffer (b : str) (s : state) (l : str) :
  line (with_buffer b s) l = (with_buffer b (line s l).1, (line s l).2).
Proof.
  unfold on_line.
  destruct (negb (JS.startsWith _ l)); [reflexivity|].
  destruct (negb (JS.nonempty _)); [reflexivity|].
  destruct (decide _); [reflexivity|].
  destruct (JSON_parse _) as [[|e w d]|]; [reflexivity| |reflexivity].
  destruct e; [reflexivity|].
  rewrite convert_parsed_buffer.
  destruct (convert_parsed now Date_parse (Object false w d) model s)
    as [s1 [chunks|]]; reflexivity.
Qed.

Lemma marked_buffer (b : str) (s : state) (l : str) :
  total (with_buffer b s) l = (with_buffer b (total s l).1, (total s l).2).
Proof.
  unfold SSE.marked. rewrite on_line_buffer.
  destruct (line s l) as [s1 [o1|]]; reflexivity.
Qed.

(** A payload without [null]: the conversion is the one of the payload
    read by its fields. *)
Lemma parts_in_whole (ci : Z) (ps : list part) :
  forall acc,
  parts_in now model ci (map Some ps) acc =
    ((fold_left (convert_part now model ci) ps acc).1,
     Some (fold_left (convert_part now model ci) ps acc).2).
Proof.
  induction ps as [|p ps IH]; intros acc; [reflexivity|].
  cbn [map parts_in fold_left]. apply IH.
Qed.

Lemma candidates_in_whole (d : response) (cs : list candidate) :
  forall i acc,
  candidates_in now model (meta d) i
    (map (fun c => Some (candidate_as c)) cs) acc =
    ((for_candidates now model d i cs acc).1,
     Some (for_candidates now model d i cs acc).2).
Proof.
  induction cs as [|c cs IH]; intros i acc; [reflexivity|].
  cbn [map candidates_in for_candidates].
  assert (E : candidate_in_step now model (meta d) acc i (candidate_as c)
              = ((convert_candidate now model d acc i c).1,
                 Some (convert_candidate now model d acc i c).2)).
  { unfold candidate_in_step, convert_candidate, candidate_as.
    cbn [in_index in_parts in_finishReason].
    rewrite parts_in_whole.
    destruct (fold_left _ (parts c) acc) as [s1 r1]. cbn [fst snd].
    destruct (given (finishReason c)); reflexivity. }
  rewrite E.
  destruct (convert_candidate now model d acc i c) as [s1 r1].
  cbn [fst snd]. apply IH.
Qed.

Lemma convert_parsed_whole (g : geminiData) (s : state) :
  convert_parsed now Date_parse (whole g) model s =
    ((convert g model s).1, Some (convert g model s).2).
Proof.
  unfold convert_parsed, whole, _convertGeminiChunkToOpenAI, unwrap.
  assert (Hd : match option_map response_as (wrapped g) with
               | Some r => r
               | None => response_as (direct g)
               end
               = response_as match wrapped g with
                             | Some r => r
                             | None => direct g
                             end) by (destruct (wrapped g); reflexivity).
  rewrite Hd.
  set (d := match wrapped g with Some r => r | None => direct g end).
  assert (Hu : update_metadata now Date_parse (head_of (response_as d)) s
               = update_metadata now Date_parse d s) by reflexivity.
  rewrite Hu. cbn [response_as in_candidates in_meta].
  destruct (candidates d) as [|c cs] eqn:Ec.
  - cbn [map]. destruct (meta d); reflexivity.
  - rewrite <- Ec at 1.
    change (map (fun c0 => Some (candidate_as c0)) (candidates d))
      with (map (fun c0 => Some (candidate_as c0)) (candidates d)).
    rewrite Ec. cbn [map].
    pose proof (candidates_in_whole d (c :: cs) 0
                  (update_metadata now Date_parse d s, [])) as H.
    cbn [map] in H. exact H.
Qed.

(** A line whose payload has no [null]. *)
Lemma on_line_whole (s : state) (l : str) (g : geminiData) :
  JS.startsWith (lit "data: ") l = true ->
  JS.trim (JS.slice_from 6 l) <> [] ->
  JS.trim (JS.slice_from 6 l) <> lit "[DONE]" ->
  JSON_parse (JS.trim (JS.slice_from 6 l)) = Some (whole g) ->
  line s l =
    if error g then (s, Some [Raw (JS.trim (JS.slice_from 6 l))])
    else ((convert g model s).1, Some (map Chunk (convert g model s).2)).
Proof.
  intros Hd Hn Hdone Hp. unfold on_line. rewrite Hd. cbn [negb].
  destruct (JS.trim (JS.slice_from 6 l)) as [|a t] eqn:Et; [congruence|].
  cbn [JS.nonempty negb].
  destruct (decide (a :: t = lit "[DONE]")); [contradiction|].
  rewrite Hp.
  pose proof (convert_parsed_whole g s) as Hw. unfold whole in Hw |- *.
  destruct (error g); [reflexivity|].
  cbv iota beta. rewrite Hw. reflexivity.
Qed.

(** A stream in which no chunk is passed through and no call throws: the
    frames and the final state are those of the loop over all the text
    at once. *)
Lemma gemini_feed_events (chunks : list str) :
  forall s : state,
  JS.indexOf SSE.separator (buffer s) = None ->
  heartbeats_of (stream s chunks).2 = [] ->
  thrown (stream s chunks).2 = false ->
  let '(s', rest, out) :=
    SSE.events total s (buffer s ++ concat (map JS.replace_crlf chunks)) in
  (stream s chunks).1 = with_buffer rest s' /\
  map Some (frames_of (stream s chunks).2) = out.
Proof.
  induction chunks as [|c chunks IH]; intros s Hbuf Hhb Hth.
  - simpl. rewrite app_nil_r, events_idle by assumption.
    now rewrite with_buffer_same.
  - cbn [feed concat map] in *. unfold convertStreamChunk in *.
    destruct (negb (JS.nonempty (JS.trim (JS.replace_crlf c)))
              && negb (JS.nonempty (buffer s))).
    { destruct (feed _ _ _ _ s chunks) as [s2 rs]. discriminate Hhb. }
    rewrite (app_assoc (buffer s)).
    rewrite (events_app total _ s (buffer s ++ JS.replace_crlf c) _
               (Nat.le_refl _)).
    pose proof (events_drained total _ s (buffer s ++ JS.replace_crlf c)
                  (Nat.le_refl _)) as Hd.
    destruct (SSE.try_events line s (buffer s ++ JS.replace_crlf c))
      as [[s1 rest1] [o1|]] eqn:Et.
    2:{ destruct (feed _ _ _ _ (with_buffer rest1 s1) chunks) as [s2 rs].
        discriminate Hth. }
    rewrite (try_events_returns line _ _ _ _ _ Et) in Hd |- *.
    cbn [fst snd] in Hd.
    specialize (IH (with_buffer rest1 s1) Hd).
    destruct (feed _ _ _ _ (with_buffer rest1 s1) chunks) as [s2 rs] eqn:Ef.
    cbn [fst snd frames_of heartbeats_of thrown existsb map concat orb]
      in Hhb, Hth, IH |- *.
    specialize (IH Hhb Hth).
    rewrite (events_commute total (with_buffer rest1) (marked_buffer rest1)
               _ s1 _ (Nat.le_refl _)) in IH.
    destruct (SSE.events total s1 _) as [[s3 rest3] o3].
    cbn [fst snd] in IH. destruct IH as [-> <-]. split; [reflexivity|].
    now rewrite map_app.
Qed.

Lemma gemini_at_once (chunks : list str) :
  JS.replace_crlf (concat chunks) = concat (map JS.replace_crlf chunks) ->
  heartbeats_of (stream (createStreamState now) chunks).2 = [] ->
  thrown (stream (createStreamState now) chunks).2 = false ->
  (stream (createStreamState now) chunks).1 =
    (stream (createStreamState now) [concat chunks]).1 /\
  frames_of (stream (createStreamState now) chunks).2 =
    frames_of (stream (createStreamState now) [concat chunks]).2 /\
  thrown (stream (createStreamState now) [concat chunks]).2 = false.
Proof.
  intros Hcr Hhb Hth.
  pose proof (gemini_feed_events chunks (createStreamState now) eq_refl
                Hhb Hth) as Hinc.
  destruct chunks as [|c chunks]; [repeat split; reflexivity|].
  assert (Hnb : JS.blank (JS.replace_crlf (concat (c :: chunks))) = false).
  { rewrite Hcr. cbn [map concat]. rewrite blank_app.
    cbn [feed] in Hhb. unfold convertStreamChunk in Hhb.
    fold (JS.blank (JS.replace_crlf c)) in Hhb.
    destruct (JS.blank (JS.replace_crlf c)); [|reflexivity].
    simpl in Hhb.
    destruct (feed _ _ _ _ (createStreamState now) chunks). discriminate Hhb. }
  assert (Eone : stream (createStreamState now) [concat (c :: chunks)]
    = match SSE.try_events line (createStreamState now)
              (JS.replace_crlf (concat (c :: chunks))) with
      | (s', rest, Some o) => (with_buffer rest s', [Output o])
      | (s', rest, None) => (with_buffer rest s', [TypeError])
      end).
  { cbn [feed]. unfold convertStreamChunk.
    fold (JS.blank (JS.replace_crlf (concat (c :: chunks)))).
    rewrite Hnb. cbn [andb].
    change (buffer (createStreamState now)
            ++ JS.replace_crlf (concat (c :: chunks)))
      with (JS.replace_crlf (concat (c :: chunks))).
    destruct (SSE.try_events line _ _) as [[s' rest] [o|]]; reflexivity. }
  rewrite Eone, Hcr. clear Eone.
  change (buffer (createStreamState now)
          ++ concat (map JS.replace_crlf (c :: chunks)))
    with (concat (map JS.replace_crlf (c :: chunks))) in Hinc.
  destruct (SSE.events total (createStreamState now) _)
    as [[s' rest] out] eqn:Ee.
  destruct Hinc as [Hs Hout].
  rewrite (try_events_unmarked line _ _ _
             (eq_trans (f_equal snd Ee) (eq_sym Hout))).
  rewrite Ee. cbn [fst snd]. rewrite Hs. repeat split.
  unfold frames_of at 2. cbn [map concat]. now rewrite app_nil_r.
Qed.

End Gemini_stream.


Section FinishReasons.
Import Examples.

Lemma gemini_unrecognized (r : str) :
  JS.toLowerCase r ∉ gemini_mapped_apart ->
  Gemini._mapFinishReason r = stop.
Proof.
  intros H. unfold Gemini._mapFinishReason.
  destruct (decide (JS.toLowerCase r = lit "stop")); [reflexivity|].
  destruct (decide (JS.toLowerCase r = lit "max_tokens")) as [E|_].
  { exfalso. apply H. rewrite E. apply list_elem_of_here. }
  destruct (decide (_ \/ _ \/ _)); [reflexivity|].
  destruct (decide (_ \/ _)) as [E|_]; [|reflexivity].
  exfalso. apply H. unfold gemini_mapped_apart. simpl.
  repeat (destruct E as [->|E]; [set_solver|]). rewrite E. set_solver.
Qed.

Lemma gemini_max_tokens (r : str) :
  JS.toLowerCase r = lit "max_tokens" ->
  Gemini._mapFinishReason r = length_limit.
Proof.
  intros E. unfold Gemini._mapFinishReason. rewrite E.
  vm_compute. reflexivity.
Qed.

Lemma gemini_filter (r : str) :
  JS.toLowerCase r ∈ gemini_filtered ->
  Gemini._mapFinishReason r = content_filter.
Proof.
  intros H. unfold Gemini._mapFinishReason, gemini_filtered in *.
  simpl in H.
  repeat (apply elem_of_cons in H as [->|H]; [vm_compute; reflexivity|]).
  now apply elem_of_nil in H.
Qed.

Lemma gemini_by_lower_case (r r' : str) :
  JS.toLowerCase r = JS.toLowerCase r' ->
  Gemini._mapFinishReason r = Gemini._mapFinishReason r'.
Proof. intros E. unfold Gemini._mapFinishReason. now rewrite E. Qed.

Lemma status_table (resp : Codex.response) :
  Codex._mapResponseStatus resp =
    if negb (Codex.given (Codex.status resp)) then stop
    else if bool_decide (Codex.status resp = Some (lit "completed")) then stop
    else if bool_decide (Codex.status resp = Some (lit "incomplete")) then
      if bool_decide (Codex.incomplete_reason resp = Some (lit "content_filter"))
      then content_filter else length_limit
    else stop.
Proof.
  unfold Codex._mapResponseStatus.
  destruct (negb _); [reflexivity|].
  repeat case_decide; repeat case_bool_decide; try congruence;
    exfalso; unfold lit in *; simpl in *; congruence.
Qed.

End FinishReasons.

(** C6. The finish reasons of the two backends.  [_mapFinishReason] sends
    each reason of the Gemini enumeration to [stop], [length] or
    [content_filter] as listed, and reads a reason through its lower-case
    form only: whatever the case of its letters, a reason spelt
    [max_tokens] maps to [length], one spelt as one of the seven filter
    reasons maps to [content_filter], and every other reason maps to
    [stop]; two reasons that differ in case only map alike.
    [_mapResponseStatus] sends a missing status and [completed]
    to [stop]; [incomplete] to [content_filter] for that reason and to
    [length] for [max_output_tokens] and for every other or missing
    reason; every other status to [stop]. *)
Theorem finish_reason_mapping :
  map Gemini._mapFinishReason Examples.gemini_reasons =
    [ stop; length_limit; stop; stop; stop; content_filter; content_filter;
      content_filter; content_filter; content_filter; content_filter;
      content_filter; stop; stop ] /\
  (forall r, JS.toLowerCase r ∉ Examples.gemini_mapped_apart ->
             Gemini._mapFinishReason r = stop) /\
  (forall r, Gemini._mapFinishReason r ∈ [stop; length_limit; content_filter]) /\
  (forall r, JS.toLowerCase r = lit "max_tokens" ->
             Gemini._mapFinishReason r = length_limit) /\
  (forall r, JS.toLowerCase r ∈ Examples.gemini_filtered ->
             Gemini._mapFinishReason r = content_filter) /\
  (forall r r', JS.toLowerCase r = JS.toLowerCase r' ->
                Gemini._mapFinishReason r = Gemini._mapFinishReason r') /\
  (forall resp,
     Codex._mapResponseStatus resp =
       if negb (Codex.given (Codex.status resp)) then stop
       else if bool_decide (Codex.status resp = Some (lit "completed"))
       then stop
       else if bool_decide (Codex.status resp = Some (lit "incomplete")) then
         if bool_decide
              (Codex.incomplete_reason resp = Some (lit "content_filter"))
         then content_filter else length_limit
       else stop).
Proof.
  split; [vm_compute; reflexivity|].
  split; [exact gemini_unrecognized|].
  split.
  { intros r. unfold Gemini._mapFinishReason.
    repeat case_decide; set_solver. }
  split; [exact gemini_max_tokens|].
  split; [exact gemini_filter|].
  split; [exact gemini_by_lower_case|exact status_table].
Qed.

(** C6 as stated fails at an [incomplete] response whose reason is not
    one the converter knows: it maps to [length]. *)
Lemma incomplete_unknown_reason_is_length :
  Codex._mapResponseStatus
    (Examples.with_status (Some (lit "incomplete")) (Some (lit "unknown_reason")))
  = length_limit /\
  Codex._mapResponseStatus (Examples.with_status (Some (lit "incomplete")) None)
  = length_limit.
Proof. split; vm_compute; reflexivity. Qed.

(** * The slot counter of the Responses-style converter *)
Section Slots.
Import Codex.

Variable now : N.
Variable Date_parse : str -> option Z.
Variable rev_map : gmap str str.
Variable model : str.

Local Arguments lit : simpl never.

Local Abbreviation step := (convertStreamChunk now Date_parse rev_map).
Local Abbreviation run := (convert_all now Date_parse rev_map model).

Lemma emit_counter (s : state) (fields : delta_body) :
  functionCallIndex (_emitChunk now s model fields).1 = functionCallIndex s.
Proof. unfold _emitChunk. destruct (roleSent s); reflexivity. Qed.

Lemma emit_frames (s : state) (fields : delta_body) :
  exists r, (_emitChunk now s model fields).2 =
    [Chunk (on_choice0 (set_delta {| role := r; body := fields |})
              (_makeChunk now s model))].
Proof. unfold _emitChunk. destruct (roleSent s); eexists; reflexivity. Qed.

Lemma announced_emit (s : state) (fields : delta_body) :
  announced_slots (_emitChunk now s model fields).2 =
    match fields with
    | ToolCalls calls =>
        omap (fun tc => match tc_type tc with
                        | Some _ => tc_index tc
                        | None => None
                        end) calls
    | _ => []
    end.
Proof.
  destruct (emit_frames s fields) as [r ->].
  unfold announced_slots. simpl. rewrite app_nil_r.
  destruct fields; reflexivity.
Qed.

Lemma announced_terminal (resp : response) (s : state) :
  announced_slots [Chunk (terminal_chunk now resp model s)] = [].
Proof.
  unfold terminal_chunk. destruct (_mapUsage (resp_usage resp)); reflexivity.
Qed.

Lemma takes_slot_added (e : event) (s : state) :
  type e = Some (lit "response.output_item.added") ->
  takes_slot e s = bool_decide (is_Some (function_call_item e)).
Proof.
  intros E. unfold takes_slot. rewrite E. simpl. apply andb_true_r.
Qed.

Lemma takes_slot_done (e : event) (s : state) :
  type e = Some (lit "response.output_item.done") ->
  takes_slot e s =
    bool_decide (is_Some (function_call_item e))
    && negb (hasToolCallAnnounced s).
Proof. intros E. unfold takes_slot. rewrite E. reflexivity. Qed.

Lemma takes_slot_other (e : event) (s : state) :
  type e <> Some (lit "response.output_item.added") ->
  type e <> Some (lit "response.output_item.done") ->
  takes_slot e s = false.
Proof.
  intros H1 H2. unfold takes_slot.
  rewrite !(bool_decide_eq_false_2 (type e = Some _)) by assumption.
  simpl. apply andb_false_r.
Qed.

Local Ltac unmoved :=
  rewrite takes_slot_other
    by (match goal with H : type _ = _ |- _ => rewrite H end;
        unfold lit; simpl; congruence);
  simpl; rewrite ?emit_counter, ?announced_emit, ?announced_terminal; simpl;
  split; [lia|reflexivity].

(** One event: the counter moves by one exactly when the event takes a
    slot, and the slot it announces is then the new value. *)
Lemma step_slot (e : event) (s : state) :
  functionCallIndex (step e model s).1 =
    functionCallIndex s + (if takes_slot e s then 1 else 0) /\
  announced_slots (step e model s).2 =
    if takes_slot e s then [functionCallIndex s + 1] else [].
Proof.
  unfold convertStreamChunk.
  destruct (type e) as [t|] eqn:Et; simpl;
    [|rewrite takes_slot_other by congruence; split; [lia|reflexivity]].
  destruct (JS.nonempty t) eqn:Hne; simpl.
  2: { destruct t; [|discriminate]. unmoved. }
  destruct (decide (t = lit "response.created")) as [->|_]; [unmoved|].
  destruct (decide (t = lit "response.reasoning_summary_text.delta"))
    as [->|_]; [unmoved|].
  destruct (decide (t = lit "response.reasoning_summary_text.done"))
    as [->|_]; [unmoved|].
  destruct (decide (t = lit "response.output_text.delta"))
    as [->|_]; [unmoved|].
  destruct (decide (t = lit "response.output_item.added")) as [->|Nadded].
  { rewrite takes_slot_added by assumption. unfold _handleOutputItemAdded.
    destruct (function_call_item e) as [it|]; simpl.
    - rewrite emit_counter, announced_emit. simpl. split; [lia|reflexivity].
    - split; [lia|reflexivity]. }
  destruct (decide (t = lit "response.function_call_arguments.delta"))
    as [->|_].
  { unfold _handleArgumentsDelta. unmoved. }
  destruct (decide (t = lit "response.function_call_arguments.done"))
    as [->|_].
  { unfold _handleArgumentsDone.
    destruct (hasReceivedArgumentsDelta s); unmoved. }
  destruct (decide (t = lit "response.output_item.done")) as [->|Ndone].
  { rewrite takes_slot_done by assumption. unfold _handleOutputItemDone.
    destruct (function_call_item e) as [it|]; simpl;
      [|split; [lia|reflexivity]].
    destruct (hasToolCallAnnounced s); simpl.
    - split; [lia|reflexivity].
    - rewrite emit_counter, announced_emit. simpl. split; [lia|reflexivity]. }
  destruct (decide (t = lit "response.completed")) as [->|_].
  { unfold _handleResponseCompleted. unmoved. }
  destruct (decide (t = lit "response.failed" \/ t = lit "response.incomplete"))
    as [[->| ->]|_].
  { unfold _handleResponseError. destruct (decide _); unmoved. }
  { unfold _handleResponseError. destruct (decide _); unmoved. }
  destruct (decide (t = lit "error")) as [->|_]; [unmoved|].
  rewrite takes_slot_other by congruence. split; [simpl; lia|reflexivity].
Qed.

Lemma announced_app (f1 f2 : list frame) :
  announced_slots (f1 ++ f2) = announced_slots f1 ++ announced_slots f2.
Proof.
  unfold announced_slots, chunks_of.
  now rewrite omap_app, map_app, concat_app.
Qed.

(** A stream from any state: the slots announced are the values that
    follow the counter, in order, and the counter ends on the last. *)
Lemma run_slots (evs : list event) :
  forall s,
  announced_slots (run s evs).2 =
    seqZ (functionCallIndex s + 1)
         (Z.of_nat (length (announced_slots (run s evs).2))) /\
  functionCallIndex (run s evs).1 =
    functionCallIndex s + Z.of_nat (length (announced_slots (run s evs).2)).
Proof.
  induction evs as [|e evs IH]; intros s.
  - simpl. split; [reflexivity|lia].
  - cbn [convert_all].
    destruct (step_slot e s) as [Hc Ha].
    destruct (step e model s) as [s1 out1]. simpl in Hc, Ha.
    destruct (IH s1) as [IH1 IH2].
    destruct (run s1 evs) as [s2 out2]. simpl in IH1, IH2 |- *.
    rewrite announced_app, length_app, Ha.
    set (rest := announced_slots out2) in *.
    rewrite IH2, Hc.
    destruct (takes_slot e s); simpl.
    + split; [|lia]. rewrite seqZ_cons by lia. f_equal.
      rewrite IH1 at 1. f_equal; lia.
    + split; [|lia]. rewrite IH1 at 1. f_equal; lia.
Qed.

(** *** The announcements against the specification's wording *)

Lemma emit_flag (s : state) (fields : delta_body) :
  hasToolCallAnnounced (_emitChunk now s model fields).1
  = hasToolCallAnnounced s.
Proof. unfold _emitChunk. destruct (roleSent s); reflexivity. Qed.

Lemma calls_emit (s : state) (fields : delta_body) :
  announced_calls (_emitChunk now s model fields).2 =
    match fields with
    | ToolCalls calls => omap announcement calls
    | _ => []
    end.
Proof.
  destruct (emit_frames s fields) as [r ->].
  unfold announced_calls. simpl. rewrite app_nil_r.
  destruct fields; reflexivity.
Qed.

Lemma calls_terminal (resp : response) (s : state) :
  announced_calls [Chunk (terminal_chunk now resp model s)] = [].
Proof.
  unfold terminal_chunk. destruct (_mapUsage (resp_usage resp)); reflexivity.
Qed.

Lemma calls_app (f1 f2 : list frame) :
  announced_calls (f1 ++ f2) = announced_calls f1 ++ announced_calls f2.
Proof.
  unfold announced_calls, chunks_of.
  now rewrite omap_app, map_app, concat_app.
Qed.

Lemma item_step_other (e : event) :
  type e <> Some (lit "response.output_item.added") ->
  type e <> Some (lit "response.output_item.done") ->
  Worded.item_step_of e = None.
Proof.
  intros H1 H2. unfold Worded.item_step_of.
  destruct (function_call_item e); [|reflexivity].
  destruct (decide _); [contradiction|].
  destruct (decide _); [contradiction|reflexivity].
Qed.

Local Ltac still :=
  rewrite item_step_other
    by (match goal with H : type _ = _ |- _ => rewrite H end;
        unfold lit; simpl; congruence);
  simpl; rewrite ?emit_counter, ?emit_flag, ?calls_emit, ?calls_terminal;
  simpl; repeat split; reflexivity.

(** What one event does to the counter, to the flag and to the calls
    announced. *)
Lemma step_worded (e : event) (s : state) :
  let next := step e model s in
  match Worded.item_step_of e with
  | Some (Worded.Added call) =>
      hasToolCallAnnounced next.1 = true /\
      functionCallIndex next.1 = functionCallIndex s + 1 /\
      announced_calls next.2 = [(call, functionCallIndex s + 1)]
  | Some (Worded.Done call) =>
      hasToolCallAnnounced next.1 = false /\
      if hasToolCallAnnounced s
      then functionCallIndex next.1 = functionCallIndex s /\
           announced_calls next.2 = []
      else functionCallIndex next.1 = functionCallIndex s + 1 /\
           announced_calls next.2 = [(call, functionCallIndex s + 1)]
  | None =>
      hasToolCallAnnounced next.1 = hasToolCallAnnounced s /\
      functionCallIndex next.1 = functionCallIndex s /\
      announced_calls next.2 = []
  end.
Proof.
  cbv zeta. unfold convertStreamChunk.
  destruct (type e) as [t|] eqn:Et; simpl;
    [|rewrite item_step_other by congruence;
      repeat split; reflexivity].
  destruct (JS.nonempty t) eqn:Hne; simpl.
  2: { destruct t; [|discriminate]. still. }
  destruct (decide (t = lit "response.created")) as [->|_]; [still|].
  destruct (decide (t = lit "response.reasoning_summary_text.delta"))
    as [->|_]; [still|].
  destruct (decide (t = lit "response.reasoning_summary_text.done"))
    as [->|_]; [still|].
  destruct (decide (t = lit "response.output_text.delta"))
    as [->|_]; [still|].
  destruct (decide (t = lit "response.output_item.added")) as [->|Nadded].
  { unfold Worded.item_step_of, _handleOutputItemAdded.
    destruct (function_call_item e) as [it|]; [|repeat split; reflexivity].
    rewrite decide_True by assumption.
    rewrite emit_counter, emit_flag, calls_emit. repeat split; reflexivity. }
  destruct (decide (t = lit "response.function_call_arguments.delta"))
    as [->|_].
  { unfold _handleArgumentsDelta. still. }
  destruct (decide (t = lit "response.function_call_arguments.done"))
    as [->|_].
  { unfold _handleArgumentsDone.
    destruct (hasReceivedArgumentsDelta s); still. }
  destruct (decide (t = lit "response.output_item.done")) as [->|Ndone].
  { unfold Worded.item_step_of, _handleOutputItemDone.
    destruct (function_call_item e) as [it|]; [|repeat split; reflexivity].
    rewrite decide_False by (rewrite Et; unfold lit; simpl; congruence).
    rewrite decide_True by assumption.
    destruct (hasToolCallAnnounced s) eqn:Hf.
    - repeat split; reflexivity.
    - rewrite emit_counter, emit_flag, calls_emit. simpl.
      repeat split; reflexivity. }
  destruct (decide (t = lit "response.completed")) as [->|_].
  { unfold _handleResponseCompleted. still. }
  destruct (decide (t = lit "response.failed" \/ t = lit "response.incomplete"))
    as [[->| ->]|_].
  { unfold _handleResponseError. destruct (decide _); still. }
  { unfold _handleResponseError. destruct (decide _); still. }
  destruct (decide (t = lit "error")) as [->|_]; [still|].
  rewrite item_step_other by congruence.
  repeat split; reflexivity.
Qed.

(** On a stream whose calls are ended in step, the converter announces
    the calls the specification's wording announces, under the same
    slots. *)
Lemma run_worded (evs : list event) :
  forall s open added,
  hasToolCallAnnounced s = bool_decide (is_Some open) ->
  (forall call, open = Some call -> call ∈ added) ->
  Worded.in_step_from open added evs = true ->
  announced_calls (run s evs).2
  = Worded.slots_from added (functionCallIndex s) evs.
Proof.
  induction evs as [|e evs IH]; intros s open added Hflag Hopen Hstep;
    [reflexivity|].
  cbn [convert_all Worded.slots_from Worded.in_step_from] in *.
  pose proof (step_worded e s) as Hs. cbv zeta in Hs.
  destruct (step e model s) as [s1 out1]. simpl in Hs.
  specialize (IH s1).
  destruct (run s1 evs) as [s2 out2]. simpl in IH |- *.
  rewrite calls_app.
  destruct (Worded.item_step_of e) as [[call|call]|].
  - destruct Hs as (Hf & Hc & Ha). rewrite Ha, <- Hc. simpl. f_equal.
    apply (IH (Some call)); [rewrite Hf; reflexivity| |exact Hstep].
    intros c [= <-]. apply list_elem_of_here.
  - destruct Hs as (Hf & Hs).
    apply andb_true_iff in Hstep as [Hcall Hstep].
    rewrite Hflag in Hs. destruct open as [waiting|]; simpl in Hs.
    + destruct Hs as (Hc & Ha). rewrite Ha, <- Hc.
      apply bool_decide_eq_true_1 in Hcall. subst waiting.
      rewrite bool_decide_eq_true_2 by (now apply Hopen). simpl.
      apply (IH None); [rewrite Hf; reflexivity|discriminate|exact Hstep].
    + destruct Hs as (Hc & Ha). rewrite Ha, <- Hc.
      apply negb_true_iff in Hcall. rewrite Hcall. simpl. f_equal.
      apply (IH None); [rewrite Hf; reflexivity|discriminate|exact Hstep].
  - destruct Hs as (Hf & Hc & Ha). rewrite Ha, <- Hc. simpl.
    apply (IH open); [now rewrite Hf|exact Hopen|exact Hstep].
Qed.

Lemma step_ignores_output_index (i : option Z) (e : event) (s : state) :
  step (with_output_index i e) model s = step e model s.
Proof. reflexivity. Qed.

Lemma run_ignores_output_index (f : event -> option Z) (evs : list event) :
  forall s,
  run s (map (fun e => with_output_index (f e) e) evs) = run s evs.
Proof.
  induction evs as [|e evs IH]; intros s; [reflexivity|].
  cbn [map convert_all]. rewrite step_ignores_output_index.
  destruct (step e model s) as [s1 out1]. now rewrite IH.
Qed.

End Slots.


(** * The role rule *)
Section RoleRule.

Lemma role_rule_app (l1 l2 : list chunk) :
  forall sent,
  role_rule sent (l1 ++ l2) =
    match role_rule sent l1 with
    | Some sent' => role_rule sent' l2
    | None => None
    end.
Proof.
  induction l1 as [|c l1 IH]; intros sent; [reflexivity|].
  simpl. destruct (bearing c).
  - destruct (bool_decide _); [apply IH|reflexivity].
  - destruct (has_role c); [reflexivity|apply IH].
Qed.

Lemma role_rule_sent (l : list chunk) (b : bool) :
  role_rule true l = Some b -> b = true /\ roles_in l = O.
Proof.
  unfold roles_in. induction l as [|c l IH]; simpl.
  - intros [= <-]. auto.
  - destruct (bearing c), (has_role c); simpl; try discriminate; exact IH.
Qed.

Lemma role_rule_once (l : list chunk) (b : bool) :
  role_rule false l = Some b -> (roles_in l <= 1)%nat.
Proof.
  unfold roles_in. induction l as [|c l IH]; simpl; [lia|].
  destruct (bearing c), (has_role c); simpl; try discriminate.
  - intros H%role_rule_sent. unfold roles_in in H. lia.
  - exact IH.
Qed.

Lemma role_rule_idle (l : list chunk) (b b' : bool) :
  role_rule b l = Some b' ->
  forall c, c ∈ l -> bearing c = false -> has_role c = false.
Proof.
  revert b. induction l as [|c0 l IH]; intros b H c Hin Hb.
  - now apply elem_of_nil in Hin.
  - simpl in H. apply elem_of_cons in Hin as [->|Hin].
    + rewrite Hb in H. now destruct (has_role c0).
    + destruct (bearing c0).
      * destruct (bool_decide _); [eauto|discriminate].
      * destruct (has_role c0); [discriminate|eauto].
Qed.

Lemma role_rule_first (pre post : list chunk) (c : chunk) (b : bool) :
  role_rule false (pre ++ c :: post) = Some b ->
  Forall (fun x => bearing x = false) pre -> bearing c = true ->
  has_role c = true.
Proof.
  induction pre as [|x pre IH]; simpl; intros H Hpre Hc.
  - rewrite Hc in H. destruct (has_role c); [reflexivity|discriminate].
  - inversion Hpre as [|? ? Hx Hpre']; subst. rewrite Hx in H.
    destruct (has_role x); [discriminate|auto].
Qed.

End RoleRule.

(** * The Gemini converter, frame by frame *)
Section GeminiFrames.
Import Gemini.

Variable now : N.
Variable Date_parse : str -> option Z.
Variable model : str.

Local Abbreviation convert := (_convertGeminiChunkToOpenAI now Date_parse).
Local Abbreviation run := (convert_all now Date_parse model).

Lemma finishes_of_app (k : Z) (l1 l2 : list chunk) :
  finishes_of k (l1 ++ l2) = (finishes_of k l1 + finishes_of k l2)%nat.
Proof. unfold finishes_of. now rewrite List.filter_app, length_app. Qed.

Lemma finishes_of_one (k : Z) (c : chunk) :
  finishes_of k [c] = if terminal_for k c then 1%nat else 0%nat.
Proof. unfold finishes_of. simpl. now destruct (terminal_for k c). Qed.

Lemma part_chunk_not_terminal (k : Z) (s : state) (ci : Z) (d : delta) :
  terminal_for k (part_chunk model s ci d) = false.
Proof. unfold terminal_for. simpl. apply andb_false_r. Qed.

Lemma part_chunk_eq (s : state) (ci : Z) (d : delta) :
  on_choice0 (set_delta d) (on_choice0 (set_index ci) (_makeChunk s model))
  = part_chunk model s ci d.
Proof. reflexivity. Qed.

Lemma part_chunk_rule (sent : bool) (s : state) (ci : Z)
    (fields : delta_body) :
  fields <> NoFields ->
  role_rule sent
    [part_chunk model s ci
       {| role := if sent then None else Some (lit "assistant");
          body := fields |}] = Some true.
Proof.
  intros Hf. destruct sent, fields; try contradiction; reflexivity.
Qed.

Lemma gathered_content (sent0 : bool) (k : Z) (n : nat) (s : state)
    (results : list chunk) (ci : Z) (fields : delta_body) :
  fields <> NoFields ->
  gathered sent0 k n (s, results) ->
  gathered sent0 k n
    (let '(s1, d) := _injectRole s {| role := None; body := fields |} in
     (s1, results ++ [part_chunk model s ci d])).
Proof.
  intros Hf [Hr Hn]. cbn [fst snd] in Hr, Hn. unfold gathered, _injectRole.
  pose proof (part_chunk_rule (roleSent s) s ci fields Hf) as Hc.
  destruct (roleSent s) eqn:Hs; cbn [negb fst snd body] in Hc |- *;
    rewrite role_rule_app, Hr, finishes_of_app, Hn, finishes_of_one,
      part_chunk_not_terminal, Hc; cbn [roleSent with_roleSent];
    rewrite ?Hs; (split; [reflexivity|lia]).
Qed.

Lemma convert_part_gathered (sent0 : bool) (k : Z) (n : nat) (ci : Z)
    (p : part) (acc : state * list chunk) :
  gathered sent0 k n acc ->
  gathered sent0 k n (convert_part now model ci acc p).
Proof.
  destruct acc as [s results]. intros H. unfold convert_part.
  destruct (signature_only p); [assumption|].
  destruct (part_functionCall p) as [f|].
  { destruct H as [Hr Hn]. cbn [fst snd] in Hr, Hn.
    unfold gathered, _injectRole.
    change (roleSent (with_call_of ci s)) with (roleSent s).
    change (_makeChunk s model) with (_makeChunk (with_call_of ci s) model).
    match goal with
    | |- context [ToolCalls ?calls] =>
        pose proof (part_chunk_rule (roleSent s) (with_call_of ci s) ci
                      (ToolCalls calls) ltac:(discriminate)) as Hc
    end.
    destruct (roleSent s) eqn:Hs; cbn [negb fst snd body] in Hc |- *;
      rewrite part_chunk_eq, role_rule_app, Hr, finishes_of_app, Hn,
        finishes_of_one, part_chunk_not_terminal, Hc;
      cbn [roleSent next_function with_call_of with_roleSent];
      rewrite ?Hs; (split; [reflexivity|lia]). }
  destruct (text p) as [t|].
  { apply (gathered_content sent0 k n s results ci
             (if thought p then Reasoning t else Content t));
      [destruct (thought p); discriminate|assumption]. }
  destruct (inline_of p) as [i|]; [|assumption].
  destruct (given (data i)); [|assumption].
  apply (gathered_content sent0 k n s results ci (Images _));
    [discriminate|assumption].
Qed.

Lemma fold_parts_gathered (sent0 : bool) (k : Z) (n : nat) (ci : Z)
    (ps : list part) :
  forall acc, gathered sent0 k n acc ->
  gathered sent0 k n (fold_left (convert_part now model ci) ps acc).
Proof.
  induction ps as [|p ps IH]; intros acc H; [assumption|].
  simpl. apply IH, convert_part_gathered, H.
Qed.

Lemma end_chunk_terminal (k : Z) (s : state) (ci : Z) (r : finish_reason)
    (u : option usageMetadata) :
  terminal_for k (end_chunk model s ci r u) = bool_decide (ci = k).
Proof. destruct u; unfold terminal_for; simpl; apply andb_true_r. Qed.

Lemma end_chunk_rule (sent : bool) (s : state) (ci : Z) (r : finish_reason)
    (u : option usageMetadata) :
  role_rule sent [end_chunk model s ci r u] = Some sent.
Proof. destruct u; reflexivity. Qed.

Lemma convert_candidate_gathered (sent0 : bool) (k : Z) (n : nat)
    (d : response) (i : nat) (c : candidate) (acc : state * list chunk) :
  gathered sent0 k n acc ->
  gathered sent0 k (n + ending_entries k i [c])
    (convert_candidate now model d acc i c).
Proof.
  intros H. unfold convert_candidate.
  set (ci := match cand_index c with Some j => j | None => Z.of_nat i end).
  pose proof (fold_parts_gathered sent0 k n ci (parts c) acc H) as Hp.
  destruct (fold_left _ (parts c) acc) as [s results].
  destruct Hp as [Hr Hn]. simpl in Hr, Hn.
  cbn [ending_entries]. fold ci.
  destruct (given (finishReason c)); cbn [andb].
  - fold (end_chunk model s ci
            (if decide (ci ∈ candidatesWithFunctionCalls s) then tool_calls
             else _mapFinishReason (default [] (finishReason c)))
            (meta d)).
    split; cbn [fst snd].
    + now rewrite role_rule_app, Hr, end_chunk_rule.
    + rewrite finishes_of_app, Hn, finishes_of_one, end_chunk_terminal.
      destruct (bool_decide (ci = k)); lia.
  - split; [assumption|simpl; lia].
Qed.

Lemma ending_entries_cons (k : Z) (i : nat) (c : candidate)
    (cs : list candidate) :
  ending_entries k i (c :: cs) =
    (ending_entries k i [c] + ending_entries k (S i) cs)%nat.
Proof. simpl. lia. Qed.

Lemma for_candidates_gathered (sent0 : bool) (k : Z) (d : response)
    (cs : list candidate) :
  forall i n acc, gathered sent0 k n acc ->
  gathered sent0 k (n + ending_entries k i cs)
    (for_candidates now model d i cs acc).
Proof.
  induction cs as [|c cs IH]; intros i n acc H.
  - simpl. now rewrite Nat.add_0_r.
  - cbn [for_candidates]. rewrite ending_entries_cons, Nat.add_assoc.
    apply IH, convert_candidate_gathered, H.
Qed.

Lemma update_metadata_roleSent (d : response) (s : state) :
  roleSent (update_metadata now Date_parse d s) = roleSent s.
Proof.
  unfold update_metadata.
  destruct (given (responseId d)), (given (modelVersion d)),
    (given (createTime d)); try reflexivity;
    destruct (decide _); reflexivity.
Qed.

Lemma usage_only_terminal (k : Z) (s : state) (u : option usage) :
  terminal_for k
    (set_usage u (on_choice0 (set_finish stop) (_makeChunk s model)))
  = bool_decide (k = 0).
Proof.
  unfold terminal_for. cbn [choices set_usage on_choice0 _makeChunk
    set_finish index finish].
  rewrite (bool_decide_eq_true_2 (is_Some (Some stop))) by eauto.
  rewrite andb_true_r. apply bool_decide_ext. lia.
Qed.

(** One payload. *)
Lemma convert_gathered (g : geminiData) (k : Z) (s : state) :
  gathered (roleSent s) k (endings_in k g) (convert g model s).
Proof.
  unfold _convertGeminiChunkToOpenAI, endings_in.
  pose proof (update_metadata_roleSent (unwrap g) s) as Hu.
  set (s0 := update_metadata now Date_parse (unwrap g) s) in *.
  assert (H0 : gathered (roleSent s) k 0 (s0, [])).
  { split; simpl; [now rewrite Hu|reflexivity]. }
  destruct (candidates (unwrap g)) as [|c cs] eqn:Ec.
  - destruct (meta (unwrap g)); [|exact H0].
    split; cbn [fst snd]; [simpl; now rewrite Hu|].
    rewrite finishes_of_one, usage_only_terminal.
    destruct (bool_decide (k = 0)); reflexivity.
  - apply (for_candidates_gathered (roleSent s) k (unwrap g) (c :: cs) 0 0
             (s0, []) H0).
Qed.

(** A stream of payloads. *)
Lemma run_gathered (gs : list geminiData) (k : Z) :
  forall s,
  role_rule (roleSent s) (run s gs).2 = Some (roleSent (run s gs).1) /\
  finishes_of k (run s gs).2 = sum_list (map (endings_in k) gs).
Proof.
  induction gs as [|g gs IH]; intros s; [split; reflexivity|].
  cbn [convert_all map sum_list].
  destruct (convert_gathered g k s) as [Hr Hn].
  destruct (convert g model s) as [s1 out1]. simpl in Hr, Hn.
  destruct (IH s1) as [IHr IHn].
  destruct (run s1 gs) as [s2 out2]. simpl in IHr, IHn |- *.
  rewrite role_rule_app, Hr, finishes_of_app, Hn, IHn. auto.
Qed.

End GeminiFrames.

(** * The Responses-style converter, event by event *)
Section CodexEvents.
Import Codex.

Variable now : N.
Variable Date_parse : str -> option Z.
Variable rev_map : gmap str str.
Variable model : str.

Local Arguments lit : simpl never.

Local Abbreviation step := (convertStreamChunk now Date_parse rev_map).
Local Abbreviation run := (convert_all now Date_parse rev_map model).

Lemma chunks_of_app (f1 f2 : list frame) :
  chunks_of (f1 ++ f2) = chunks_of f1 ++ chunks_of f2.
Proof. apply omap_app. Qed.

Lemma emit_rule (s : state) (fields : delta_body) :
  fields <> NoFields ->
  role_rule (roleSent s) (chunks_of (_emitChunk now s model fields).2)
  = Some (roleSent (_emitChunk now s model fields).1).
Proof.
  intros Hf. unfold _emitChunk.
  destruct (roleSent s) eqn:Hs; simpl; rewrite ?Hs;
    destruct fields; try contradiction; reflexivity.
Qed.

Lemma terminal_rule (sent : bool) (resp : response) (s : state) :
  role_rule sent [terminal_chunk now resp model s] = Some sent.
Proof.
  unfold terminal_chunk. destruct (_mapUsage (resp_usage resp)); reflexivity.
Qed.

Local Ltac emitted :=
  match goal with
  | |- context [_emitChunk now ?s1 model ?fields] =>
      exact (emit_rule s1 fields ltac:(discriminate))
  end.

Lemma step_rule (e : event) (s : state) :
  role_rule (roleSent s) (chunks_of (step e model s).2)
  = Some (roleSent (step e model s).1).
Proof.
  unfold convertStreamChunk.
  destruct (negb (given (type e))); [reflexivity|].
  repeat (case_decide; [|]); try reflexivity; try emitted.
  - unfold _handleOutputItemAdded.
    destruct (function_call_item e); [emitted|reflexivity].
  - unfold _handleArgumentsDelta. emitted.
  - unfold _handleArgumentsDone.
    destruct (hasReceivedArgumentsDelta s); [reflexivity|emitted].
  - unfold _handleOutputItemDone.
    destruct (function_call_item e); [|reflexivity].
    destruct (hasToolCallAnnounced s); [reflexivity|emitted].
  - apply terminal_rule.
  - unfold _handleResponseError. case_decide; [reflexivity|].
    apply terminal_rule.
Qed.

Lemma run_rule (evs : list event) :
  forall s,
  role_rule (roleSent s) (chunks_of (run s evs).2)
  = Some (roleSent (run s evs).1).
Proof.
  induction evs as [|e evs IH]; intros s; [reflexivity|].
  cbn [convert_all].
  pose proof (step_rule e s) as Hs.
  destruct (step e model s) as [s1 out1]. simpl in Hs.
  specialize (IH s1). destruct (run s1 evs) as [s2 out2]. simpl in IH |- *.
  now rewrite chunks_of_app, role_rule_app, Hs.
Qed.

End CodexEvents.

(** * Usage on the chunks that end a choice *)
Section GeminiUsage.
Import Gemini.

Variable now : N.
Variable Date_parse : str -> option Z.
Variable model : str.

Lemma ends_with_usage_snoc (u : option usage) (chunks : list chunk)
    (c : chunk) :
  ends_with_usage u chunks -> (terminal c = true -> chunk_usage c = u) ->
  ends_with_usage u (chunks ++ [c]).
Proof.
  intros H Hc. apply Forall_app. split; [assumption|].
  constructor; [assumption|constructor].
Qed.

Lemma convert_part_usage (u : option usage) (ci : Z) (p : part)
    (acc : state * list chunk) :
  ends_with_usage u acc.2 ->
  ends_with_usage u (convert_part now model ci acc p).2.
Proof.
  destruct acc as [s results]. simpl. intros H. unfold convert_part.
  destruct (signature_only p); [assumption|].
  destruct (part_functionCall p) as [f|].
  { unfold _injectRole. simpl. destruct (roleSent s); simpl;
      apply ends_with_usage_snoc; auto; discriminate. }
  destruct (text p) as [t|].
  { unfold _injectRole. simpl. destruct (roleSent s); simpl;
      apply ends_with_usage_snoc; auto; discriminate. }
  destruct (inline_of p) as [i|]; [|assumption].
  destruct (given (data i)); [|assumption].
  unfold _injectRole. simpl. destruct (roleSent s); simpl;
    apply ends_with_usage_snoc; auto; discriminate.
Qed.

Lemma fold_parts_usage (u : option usage) (ci : Z) (ps : list part) :
  forall acc, ends_with_usage u acc.2 ->
  ends_with_usage u (fold_left (convert_part now model ci) ps acc).2.
Proof.
  induction ps as [|p ps IH]; intros acc H; [assumption|].
  simpl. apply IH, convert_part_usage, H.
Qed.

Lemma for_candidates_usage (d : response) (cs : list candidate) :
  forall i acc, ends_with_usage (_mapUsage (meta d)) acc.2 ->
  ends_with_usage (_mapUsage (meta d))
    (for_candidates now model d i cs acc).2.
Proof.
  induction cs as [|c cs IH]; intros i acc H; [assumption|].
  cbn [for_candidates]. apply IH. unfold convert_candidate.
  pose proof (fold_parts_usage (_mapUsage (meta d))
                (match cand_index c with Some j => j | None => Z.of_nat i end)
                (parts c) acc H) as Hp.
  destruct (fold_left _ (parts c) acc) as [s results]. simpl in Hp.
  destruct (given (finishReason c)); [|assumption].
  simpl. apply ends_with_usage_snoc; [assumption|].
  intros _. destruct (meta d); reflexivity.
Qed.

Lemma convert_usage (g : geminiData) (s : state) :
  ends_with_usage (_mapUsage (meta (unwrap g)))
    (_convertGeminiChunkToOpenAI now Date_parse g model s).2.
Proof.
  unfold _convertGeminiChunkToOpenAI.
  destruct (candidates (unwrap g)) as [|c cs] eqn:Ec.
  - destruct (meta (unwrap g)) eqn:Em.
    + constructor; [reflexivity|constructor].
    + constructor.
  - apply for_candidates_usage. constructor.
Qed.

End GeminiUsage.

(** ** Streams of chunks *)

(** The strings of this development among all strings. *)
Lemma wide_inj (a b : str) : Buffer.wide a = Buffer.wide b -> a = b.
Proof.
  revert b. induction a as [|x a IH]; intros [|y b] H; try discriminate;
    [reflexivity|].
  unfold Buffer.wide in H. cbn [map] in H. injection H as Hx H.
  apply (f_equal ascii_of_N) in Hx. rewrite !ascii_N_embedding in Hx.
  subst y. f_equal. now apply IH.
Qed.

Lemma wide_concat (l : list str) :
  Buffer.wide (concat l) = concat (map Buffer.wide l).
Proof. unfold Buffer.wide. apply concat_map. Qed.

(** C1. Chunk-boundary invariance, as far as the code has it.  [chunks]
    are the texts of the chunks of a stream and [whole] is the text of
    their concatenation: the chunks are strings or, read by
    [toString()] one by one, Buffers that no character is cut by
    (reading them one by one gives what reading their concatenation
    gives).  When no CR LF pair lies across a chunk boundary
    (normalising chunk by chunk gives the normalised concatenation),
    the Codex-side loop of the router writes the same frames and ends
    in the same state as on the concatenation fed at once;
    [convertStreamChunk] of the Gemini converter does so too when no
    chunk of the sequence is passed through as a heartbeat and no call
    throws.  A separator split over chunks is within both. *)
Theorem chunk_boundary_invariance (now : N) (Date_parse : str -> option Z)
    (rev_map : gmap str str) (parse_event : str -> option Codex.event)
    (parse_gemini : str -> option Gemini.parsed) (model : str)
    (chunks : list str) (whole : str) :
  whole = concat chunks \/
  (exists buffers : list (list byte),
     map Buffer.toString buffers = map Buffer.wide chunks /\
     Buffer.toString (concat buffers) = Buffer.wide whole /\
     Buffer.toString (concat buffers)
     = concat (map Buffer.toString buffers)) ->
  JS.replace_crlf (concat chunks) = concat (map JS.replace_crlf chunks) ->
  Router.codex_feed now Date_parse rev_map parse_event model
    Router.codex_start chunks
  = Router.codex_feed now Date_parse rev_map parse_event model
      Router.codex_start [whole]
  /\
  (Gemini.heartbeats_of
     (snd (Gemini.feed now Date_parse parse_gemini model
             (Gemini.createStreamState now) chunks)) = [] ->
   Gemini.thrown
     (snd (Gemini.feed now Date_parse parse_gemini model
             (Gemini.createStreamState now) chunks)) = false ->
   fst (Gemini.feed now Date_parse parse_gemini model
          (Gemini.createStreamState now) chunks)
   = fst (Gemini.feed now Date_parse parse_gemini model
            (Gemini.createStreamState now) [whole])
   /\
   Gemini.frames_of
     (snd (Gemini.feed now Date_parse parse_gemini model
             (Gemini.createStreamState now) chunks))
   = Gemini.frames_of
       (snd (Gemini.feed now Date_parse parse_gemini model
               (Gemini.createStreamState now) [whole]))
   /\
   Gemini.thrown
     (snd (Gemini.feed now Date_parse parse_gemini model
             (Gemini.createStreamState now) [whole])) = false).
Proof.
  intros Hwhole Hcr.
  assert (E : whole = concat chunks).
  { destruct Hwhole as [E|(buffers & H1 & H2 & H3)]; [exact E|].
    apply wide_inj. now rewrite <- H2, H3, H1, wide_concat. }
  subst whole. split.
  - now apply codex_at_once.
  - intros Hhb Hth. now apply gemini_at_once.
Qed.

Lemma chunk_boundary_invariance_witness :
  map Buffer.toString (map Buffer.bytes_of Examples.split_separator)
  = map Buffer.wide Examples.split_separator
  /\
  Buffer.toString (concat (map Buffer.bytes_of Examples.split_separator))
  = concat (map Buffer.toString
              (map Buffer.bytes_of Examples.split_separator))
  /\
  JS.replace_crlf (concat Examples.split_separator)
  = concat (map JS.replace_crlf Examples.split_separator)
  /\
  Gemini.heartbeats_of
    (snd (Gemini.feed Examples.clock Examples.no_date Examples.not_json
            (lit "m") (Gemini.createStreamState Examples.clock)
            Examples.split_separator)) = []
  /\
  Gemini.thrown
    (snd (Gemini.feed Examples.clock Examples.no_date Examples.not_json
            (lit "m") (Gemini.createStreamState Examples.clock)
            Examples.split_separator)) = false
  /\
  Router.codex_feed Examples.clock Examples.no_date ∅ Examples.not_json
    (lit "m") Router.codex_start Examples.split_separator
  = Router.codex_feed Examples.clock Examples.no_date ∅ Examples.not_json
      (lit "m") Router.codex_start [concat Examples.split_separator]
  /\
  Gemini.frames_of
    (snd (Gemini.feed Examples.clock Examples.no_date Examples.not_json
            (lit "m") (Gemini.createStreamState Examples.clock)
            Examples.split_separator))
  = [Raw (lit "oops"); Raw (lit "more")]
  /\
  Gemini.frames_of
    (snd (Gemini.feed Examples.clock Examples.no_date Examples.not_json
            (lit "m") (Gemini.createStreamState Examples.clock)
            Examples.split_separator))
  = Gemini.frames_of
      (snd (Gemini.feed Examples.clock Examples.no_date Examples.not_json
              (lit "m") (Gemini.createStreamState Examples.clock)
              [concat Examples.split_separator])).
Proof.
  assert (Hb1 : map Buffer.toString
                  (map Buffer.bytes_of Examples.split_separator)
                = map Buffer.wide Examples.split_separator)
    by (vm_compute; reflexivity).
  assert (Hb2 : Buffer.toString
                  (concat (map Buffer.bytes_of Examples.split_separator))
                = Buffer.wide (concat Examples.split_separator))
    by (vm_compute; reflexivity).
  assert (Hb3 : Buffer.toString
                  (concat (map Buffer.bytes_of Examples.split_separator))
                = concat (map Buffer.toString
                            (map Buffer.bytes_of Examples.split_separator)))
    by (vm_compute; reflexivity).
  assert (Hcr : JS.replace_crlf (concat Examples.split_separator)
                = concat (map JS.replace_crlf Examples.split_separator))
    by (vm_compute; reflexivity).
  assert (Hhb : Gemini.heartbeats_of
            (snd (Gemini.feed Examples.clock Examples.no_date
                    Examples.not_json (lit "m")
                    (Gemini.createStreamState Examples.clock)
                    Examples.split_separator)) = [])
    by (vm_compute; reflexivity).
  assert (Hth : Gemini.thrown
            (snd (Gemini.feed Examples.clock Examples.no_date
                    Examples.not_json (lit "m")
                    (Gemini.createStreamState Examples.clock)
                    Examples.split_separator)) = false)
    by (vm_compute; reflexivity).
  split; [exact Hb1|]. split; [exact Hb3|]. split; [exact Hcr|].
  split; [exact Hhb|]. split; [exact Hth|].
  pose proof (chunk_boundary_invariance Examples.clock Examples.no_date ∅
                Examples.not_json Examples.not_json (lit "m")
                Examples.split_separator (concat Examples.split_separator)
                (or_intror
                   (ex_intro _ (map Buffer.bytes_of Examples.split_separator)
                      (conj Hb1 (conj Hb2 Hb3)))) Hcr) as [Hc Hg].
  split; [exact Hc|]. split; [vm_compute; reflexivity|].
  exact (proj1 (proj2 (Hg Hhb Hth))).
Defined.

(** C1 as stated fails in four ways.  A CR LF pair split over two chunks
    is not normalised: fed in two chunks the payload keeps its CR, fed at
    once it does not.  A chunk of white space that reaches the Gemini
    converter with an empty buffer is passed through and never buffered:
    fed apart from the frame that follows, it leaves the frame whole; fed
    with it, it spoils the field name and the frame yields nothing.  A
    payload [null] makes the Gemini converter throw after its frame was
    cut off the buffer: fed apart, the frame that follows is converted by
    the next call; fed with it, the frame stays in the buffer and no
    frame comes out.  A Buffer that ends inside a character is read
    with U+FFFD in its place: the bytes of [data: é], cut inside [é],
    read as U+FFFD twice where the concatenation reads as [é], the
    payload of its frame. *)
Lemma chunk_boundary_counterexample :
  snd (Router.codex_feed Examples.clock Examples.no_date ∅ Examples.not_json
         (lit "m") Router.codex_start Examples.split_crlf)
  = [Router.Send (Raw (lit "oops" ++ [JS.CR]))]
  /\
  snd (Router.codex_feed Examples.clock Examples.no_date ∅ Examples.not_json
         (lit "m") Router.codex_start [concat Examples.split_crlf])
  = [Router.Send (Raw (lit "oops"))]
  /\
  Gemini.frames_of
    (snd (Gemini.feed Examples.clock Examples.no_date Examples.not_json
            (lit "m") (Gemini.createStreamState Examples.clock)
            Examples.heartbeat_then_frame))
  = [Raw (lit "oops")]
  /\
  Gemini.frames_of
    (snd (Gemini.feed Examples.clock Examples.no_date Examples.not_json
            (lit "m") (Gemini.createStreamState Examples.clock)
            [concat Examples.heartbeat_then_frame]))
  = []
  /\
  snd (Gemini.feed Examples.clock Examples.no_date Examples.null_parse
         (lit "m") (Gemini.createStreamState Examples.clock)
         Examples.null_then_hi)
  = [Gemini.TypeError;
     Gemini.Output (firstn 1 (Examples.scenario_chunks Examples.clock
                                (lit "m")))]
  /\
  snd (Gemini.feed Examples.clock Examples.no_date Examples.null_parse
         (lit "m") (Gemini.createStreamState Examples.clock)
         [concat Examples.null_then_hi])
  = [Gemini.TypeError]
  /\
  Gemini.buffer
    (fst (Gemini.feed Examples.clock Examples.no_date Examples.null_parse
            (lit "m") (Gemini.createStreamState Examples.clock)
            [concat Examples.null_then_hi]))
  = lit "data: " ++ Examples.hi_json ++ Examples.LF2
  /\
  concat (map Buffer.toString Examples.e_acute_cut)
  = Buffer.wide (lit "data: ") ++ [65533; 65533; 10; 10]%N
  /\
  Buffer.toString (concat Examples.e_acute_cut)
  = Buffer.wide (lit "data: " ++ [ascii_of_nat 233] ++ Examples.LF2)
  /\
  snd (Router.codex_feed Examples.clock Examples.no_date ∅ Examples.not_json
         (lit "m") Router.codex_start
         [lit "data: " ++ [ascii_of_nat 233] ++ Examples.LF2])
  = [Router.Send (Raw [ascii_of_nat 233])].
Proof. repeat split; vm_compute; reflexivity. Qed.

(** No chunk ends in a CR: then no CR LF pair lies across a boundary. *)
Lemma replace_crlf_two (x y : ascii) (s : str) :
  JS.replace_crlf (x :: y :: s) =
    if decide (x = JS.CR) then
      if decide (y = JS.LF) then JS.LF :: JS.replace_crlf s
      else x :: JS.replace_crlf (y :: s)
    else x :: JS.replace_crlf (y :: s).
Proof. reflexivity. Qed.

Lemma replace_crlf_app (n : nat) :
  forall a b : str, (length a <= n)%nat -> last a <> Some JS.CR ->
  JS.replace_crlf (a ++ b) = JS.replace_crlf a ++ JS.replace_crlf b.
Proof.
  induction n as [n IH] using lt_wf_ind. intros a b Hlen Hlast.
  destruct a as [|x [|y a]].
  - reflexivity.
  - simpl in Hlast. destruct b as [|z b]; [reflexivity|].
    change ([x] ++ z :: b) with (x :: z :: b).
    rewrite replace_crlf_two.
    destruct (decide (x = JS.CR)) as [->|_]; [contradiction|].
    reflexivity.
  - simpl in Hlen.
    assert (Hya : last (y :: a) <> Some JS.CR) by exact Hlast.
    assert (Ha : last a <> Some JS.CR).
    { destruct a; [discriminate|exact Hya]. }
    change ((x :: y :: a) ++ b) with (x :: y :: (a ++ b)).
    rewrite !replace_crlf_two.
    destruct (decide (x = JS.CR)); [destruct (decide (y = JS.LF))|].
    + rewrite (IH (length a)); [reflexivity|lia|lia|exact Ha].
    + change (y :: a ++ b) with ((y :: a) ++ b).
      rewrite (IH (length (y :: a))); [reflexivity|simpl; lia|lia|exact Hya].
    + change (y :: a ++ b) with ((y :: a) ++ b).
      rewrite (IH (length (y :: a))); [reflexivity|simpl; lia|lia|exact Hya].
Qed.

(** X2. When no chunk ends in a carriage return, replacing CR LF chunk
    by chunk gives the text that replacing it in the concatenation of the
    chunks gives. *)
Lemma replace_crlf_concat (chunks : list str) :
  Forall (fun c => last c <> Some JS.CR) chunks ->
  JS.replace_crlf (concat chunks) = concat (map JS.replace_crlf chunks).
Proof.
  induction 1 as [|c chunks Hc _ IH]; [reflexivity|].
  cbn [concat map]. rewrite (replace_crlf_app (length c)) by auto.
  now rewrite IH.
Qed.

(** C4, as the code has it.  Over any stream of Gemini payloads, from any
    state, the chunks that carry a [finish_reason] for choice [k] are as
    many as the candidate entries of that index which carry a finish
    reason, and one more for choice 0 with every payload that has usage
    metadata and no candidate.  Nothing holds the number to one. *)
Theorem finish_chunks_per_choice (now : N) (Date_parse : str -> option Z)
    (model : str) (s : Gemini.state) (gs : list Gemini.geminiData) (k : Z) :
  finishes_of k (snd (Gemini.convert_all now Date_parse model s gs))
  = sum_list (map (endings_in k) gs).
Proof. exact (proj2 (run_gathered now Date_parse model gs k s)). Qed.

(** C4 as stated fails on a frame that ends candidate 0 followed by a
    frame with usage metadata and no candidate: choice 0 gets two chunks
    with [finish_reason] [stop]. *)
Lemma two_finish_chunks_for_one_choice :
  map (fun c => (index <$> head (choices c), finish <$> head (choices c)))
    (snd (Gemini.convert_all Examples.clock Examples.no_date (lit "m")
            (Gemini.createStreamState Examples.clock)
            [Examples.finish_payload; Examples.usage_only_payload]))
  = [ (Some 0, Some (Some stop)); (Some 0, Some (Some stop)) ]
  /\
  finishes_of 0
    (snd (Gemini.convert_all Examples.clock Examples.no_date (lit "m")
            (Gemini.createStreamState Examples.clock)
            [Examples.finish_payload; Examples.usage_only_payload]))
  = 2%nat.
Proof. split; vm_compute; reflexivity. Qed.

(** C5, on the two patched [res.json].  When the conversion throws on a
    payload it is tried on, the Codex branch replies with the payload as
    it came, and the Gemini branch lets the exception out: it replies
    with nothing. *)
Theorem conversion_exception_by_branch {Payload Exn : Type}
    (convertResponse : Payload -> Router.attempt Payload Exn)
    (is_response : Payload -> bool) (statusCode : Z) (data : Payload)
    (e : Exn) :
  statusCode < 400 -> is_response data = true ->
  convertResponse data = Router.Throws e ->
  Router.codex_json convertResponse is_response statusCode data
  = Router.Replied data
  /\
  Router.gemini_json convertResponse is_response statusCode data
  = Router.Thrown e.
Proof.
  intros Hs Hr Hc. unfold Router.codex_json, Router.gemini_json.
  destruct (Z.leb_spec 400 statusCode); [lia|].
  now rewrite Hr, Hc.
Qed.

Lemma conversion_exception_by_branch_witness :
  Router.codex_json Examples.always_throws Examples.any_response 200
    Examples.null_candidate
  = Router.Replied Examples.null_candidate
  /\
  Router.gemini_json Examples.always_throws Examples.any_response 200
    Examples.null_candidate
  = Router.Thrown (lit "TypeError").
Proof.
  apply (conversion_exception_by_branch Examples.always_throws
           Examples.any_response 200 Examples.null_candidate
           (lit "TypeError")).
  - lia.
  - reflexivity.
  - reflexivity.
Defined.

(** C7, as the code has it.  Over every stream of events from a fresh
    state, the slots the converter announces are 0, 1, 2, ... in the
    order of the announcements, the counter ends on the last of them (on
    -1 when there is none), and nothing depends on the index the backend
    gives an item.  An event moves the counter by one, and announces the
    new slot, exactly when it adds a function call, or ends one while
    the flag [hasToolCallAnnounced] is clear; the flag is set by every
    function call added and cleared by the next function call ended,
    whatever call that is.  When the calls of the stream are ended in
    step (a [done] straight after an [added] ends the call of that
    [added], every other [done] is for a call no [added] announced), the
    calls announced and their slots are those of the specification's
    wording: one slot for each [added], and one for each [done] of a
    call that no [added] announced. *)
Theorem slots_in_encounter_order (now : N) (Date_parse : str -> option Z)
    (rev_map : gmap str str) (model : str) (evs : list Codex.event) :
  let out :=
    Codex.convert_all now Date_parse rev_map model
      Codex.createStreamState evs in
  announced_slots (snd out)
  = seqZ 0 (Z.of_nat (length (announced_slots (snd out))))
  /\
  Codex.functionCallIndex (fst out)
  = -1 + Z.of_nat (length (announced_slots (snd out)))
  /\
  (forall e s,
     let next := Codex.convertStreamChunk now Date_parse rev_map e model s in
     Codex.functionCallIndex (fst next)
     = Codex.functionCallIndex s + (if takes_slot e s then 1 else 0)
     /\
     announced_slots (snd next)
     = if takes_slot e s then [Codex.functionCallIndex s + 1] else [])
  /\
  (forall f : Codex.event -> option Z,
     Codex.convert_all now Date_parse rev_map model Codex.createStreamState
       (map (fun e => with_output_index (f e) e) evs)
     = out)
  /\
  (Worded.in_step evs = true ->
   announced_calls (snd out) = Worded.slots evs).
Proof.
  cbv zeta.
  destruct (run_slots now Date_parse rev_map model evs Codex.createStreamState)
    as [H1 H2].
  split; [exact H1|]. split; [exact H2|]. split; [|split].
  - intros e s. apply step_slot.
  - intros f. apply run_ignores_output_index.
  - intros Hstep.
    apply (run_worded now Date_parse rev_map model evs
             Codex.createStreamState None []);
      [reflexivity|discriminate|exact Hstep].
Qed.

(** C7, on a call that is added and ended and a call that is only
    ended. *)
Lemma slots_in_encounter_order_witness :
  Worded.in_step Examples.two_calls = true /\
  announced_calls
    (snd (Codex.convert_all Examples.clock Examples.no_date ∅ (lit "m")
            Codex.createStreamState Examples.two_calls))
  = Worded.slots Examples.two_calls.
Proof.
  split; [reflexivity|].
  pose proof (slots_in_encounter_order Examples.clock Examples.no_date ∅
                (lit "m") Examples.two_calls) as H.
  cbv zeta in H.
  exact (proj2 (proj2 (proj2 (proj2 H))) eq_refl).
Defined.

(** C7 as stated fails where the events of two calls are interleaved,
    and where a call ends while another waits for its end.  After
    [added a; added b; done a; done b] the end of [a] clears the flag
    that [b] set, so the end of [b] announces [b] again, under a third
    slot.  After [added a; done b] the end of [b] finds the flag that
    [a] set, and [b], which no [added] announced, gets no slot. *)
Lemma interleaved_calls_slots :
  announced_calls
    (snd (Codex.convert_all Examples.clock Examples.no_date ∅ (lit "m")
            Codex.createStreamState Samples.interleaved_calls))
  = [(Some (lit "call_a"), 0); (Some (lit "call_b"), 1);
     (Some (lit "call_b"), 2)] /\
  Worded.slots Samples.interleaved_calls
  = [(Some (lit "call_a"), 0); (Some (lit "call_b"), 1)] /\
  announced_calls
    (snd (Codex.convert_all Examples.clock Examples.no_date ∅ (lit "m")
            Codex.createStreamState Samples.unannounced_call))
  = [(Some (lit "call_a"), 0)] /\
  Worded.slots Samples.unannounced_call
  = [(Some (lit "call_a"), 0); (Some (lit "call_b"), 1)] /\
  announced_calls
    (snd (Codex.convert_all Examples.clock Examples.no_date ∅ (lit "m")
            Codex.createStreamState Samples.interleaved_calls))
  <> Worded.slots Samples.interleaved_calls /\
  announced_calls
    (snd (Codex.convert_all Examples.clock Examples.no_date ∅ (lit "m")
            Codex.createStreamState Samples.unannounced_call))
  <> Worded.slots Samples.unannounced_call.
Proof.
  split; [vm_compute; reflexivity|]. split; [vm_compute; reflexivity|].
  split; [vm_compute; reflexivity|]. split; [vm_compute; reflexivity|].
  split; vm_compute; discriminate.
Qed.

(** A call that is added and done, then a call that is only done: the
    slots are 0 and 1, whatever the backend numbered them. *)
Example two_calls_slots :
  announced_slots
    (snd (Codex.convert_all Examples.clock Examples.no_date ∅ (lit "m")
            Codex.createStreamState Examples.two_calls))
  = [0; 1]
  /\
  Codex.counters Examples.clock Examples.no_date ∅ (lit "m")
    Codex.createStreamState Examples.two_calls
  = [0; 0; 1].
Proof. split; vm_compute; reflexivity. Qed.

(** C8. Over every stream handled from a fresh state, in the Gemini
    converter and in the Responses-style converter, at most one chunk
    names the role; it is the first chunk whose delta carries content,
    and no chunk without content names it. *)
Theorem role_in_first_content_delta (now : N) (Date_parse : str -> option Z)
    (rev_map : gmap str str) (model : str)
    (gs : list Gemini.geminiData) (evs : list Codex.event) :
  role_once
    (snd (Gemini.convert_all now Date_parse model
            (Gemini.createStreamState now) gs))
  /\
  role_once
    (chunks_of
       (snd (Codex.convert_all now Date_parse rev_map model
               Codex.createStreamState evs))).
Proof.
  pose proof (proj1 (run_gathered now Date_parse model gs 0
                       (Gemini.createStreamState now))) as Hg.
  pose proof (run_rule now Date_parse rev_map model evs
                Codex.createStreamState) as Hc.
  simpl in Hg, Hc.
  split; (split; [|split]).
  - eapply role_rule_once, Hg.
  - eapply role_rule_idle, Hg.
  - intros pre c post E. rewrite E in Hg. eapply role_rule_first, Hg.
  - eapply role_rule_once, Hc.
  - eapply role_rule_idle, Hc.
  - intros pre c post E. rewrite E in Hc. eapply role_rule_first, Hc.
Qed.

Section Scenario.

Variable now : N.
Variable Date_parse : str -> option Z.
Variable JSON_parse : str -> option Gemini.parsed.
Variable model : str.

(** One chunk that is one frame with one [data:] line, reaching the
    converter with an empty buffer. *)
Lemma convert_one_frame (s : Gemini.state) (text : str)
    (g : Gemini.geminiData) :
  Gemini.buffer s = [] ->
  JS.replace_crlf (lit "data: " ++ text ++ Examples.LF2)
    = lit "data: " ++ text ++ Examples.LF2 ->
  JS.indexOf SSE.separator (lit "data: " ++ text ++ Examples.LF2)
    = Some (length (lit "data: " ++ text)) ->
  JS.split JS.LF (lit "data: " ++ text) = [lit "data: " ++ text] ->
  JS.trim text = text -> JS.nonempty text = true -> text <> lit "[DONE]" ->
  JSON_parse text = Some (Gemini.whole g) -> Gemini.error g = false ->
  Gemini.convertStreamChunk now Date_parse JSON_parse
    (lit "data: " ++ text ++ Examples.LF2) model s
  = (Gemini.with_buffer []
       (fst (Gemini._convertGeminiChunkToOpenAI now Date_parse g model s)),
     Gemini.Output
       (map Chunk
          (snd (Gemini._convertGeminiChunkToOpenAI now Date_parse g model s)))).
Proof.
  intros Hb Hn Hi Hs Ht Hne Hd Hp He.
  unfold Gemini.convertStreamChunk. rewrite Hn, Hb.
  assert (Hblank : JS.blank (lit "data: " ++ text ++ Examples.LF2) = false).
  { rewrite blank_spaces. reflexivity. }
  unfold JS.blank in Hblank. rewrite Hblank. cbn [andb app].
  set (line := Gemini.on_line now Date_parse JSON_parse model).
  set (convert := Gemini._convertGeminiChunkToOpenAI now Date_parse g model s).
  assert (Hev : SSE.events (SSE.marked line) s
                  (lit "data: " ++ text ++ Examples.LF2)
                = (fst convert, [], map Some (map Chunk (snd convert)))).
  { rewrite events_unfold. unfold SSE.round. rewrite Hi.
    assert (Hto : JS.slice_to (length (lit "data: " ++ text))
                    (lit "data: " ++ text ++ Examples.LF2)
                  = lit "data: " ++ text).
    { unfold JS.slice_to. rewrite (app_assoc (lit "data: ")).
      rewrite firstn_app, Nat.sub_diag, firstn_all. apply app_nil_r. }
    assert (Hfrom : JS.slice_from (length (lit "data: " ++ text) + 2)
                      (lit "data: " ++ text ++ Examples.LF2) = []).
    { unfold JS.slice_from. rewrite (app_assoc (lit "data: ")).
      apply skipn_all2. rewrite length_app. simpl. lia. }
    rewrite Hto, Hfrom, Hs.
    assert (Hnb : JS.blank (lit "data: " ++ text) = false).
    { rewrite blank_spaces. reflexivity. }
    unfold JS.blank in Hnb. rewrite Hnb.
    cbn [SSE.for_lines negb].
    assert (Hline : line s (lit "data: " ++ text)
                    = (fst convert, Some (map Chunk (snd convert)))).
    { unfold line.
      rewrite (on_line_whole now Date_parse JSON_parse model s _ g).
      - now rewrite He.
      - reflexivity.
      - change (JS.slice_from 6 (lit "data: " ++ text)) with text.
        rewrite Ht. now destruct text.
      - change (JS.slice_from 6 (lit "data: " ++ text)) with text.
        now rewrite Ht.
      - change (JS.slice_from 6 (lit "data: " ++ text)) with text.
        now rewrite Ht. }
    rewrite marked_eq, Hline.
    rewrite (events_idle _ _ [] eq_refl).
    now rewrite !app_nil_r. }
  rewrite (try_events_unmarked line s _ (map Chunk (snd convert)))
    by (now rewrite Hev).
  rewrite Hev. reflexivity.
Qed.

(** C9. The two frames of the scenario, fed to the Gemini converter in a
    fresh state, yield two chunks: the first with the delta
    [{role: assistant, content: Hi}], the second with [finish_reason]
    [stop] and the usage 5, 2 and 7. *)
Theorem gemini_scenario :
  JSON_parse Examples.hi_json = Some (Gemini.whole Examples.hi_payload) ->
  JSON_parse Examples.stop_json = Some (Gemini.whole Examples.stop_payload) ->
  Gemini.frames_of
    (snd (Gemini.feed now Date_parse JSON_parse model
            (Gemini.createStreamState now) Examples.scenario_stream))
  = Examples.scenario_chunks now model.
Proof.
  intros H1 H2.
  unfold Examples.scenario_stream. cbn [Gemini.feed].
  rewrite (convert_one_frame _ Examples.hi_json Examples.hi_payload);
    [|reflexivity|vm_compute; reflexivity|vm_compute; reflexivity
     |vm_compute; reflexivity|vm_compute; reflexivity|reflexivity
     |vm_compute; discriminate|assumption|reflexivity].
  rewrite (convert_one_frame _ Examples.stop_json Examples.stop_payload);
    [|reflexivity|vm_compute; reflexivity|vm_compute; reflexivity
     |vm_compute; reflexivity|vm_compute; reflexivity|reflexivity
     |vm_compute; discriminate|assumption|reflexivity].
  reflexivity.
Qed.

End Scenario.

Lemma gemini_scenario_witness :
  Examples.scenario_parse Examples.hi_json
  = Some (Gemini.whole Examples.hi_payload) /\
  Examples.scenario_parse Examples.stop_json
  = Some (Gemini.whole Examples.stop_payload) /\
  Gemini.frames_of
    (snd (Gemini.feed Examples.clock Examples.no_date Examples.scenario_parse
            (lit "gemini-x") (Gemini.createStreamState Examples.clock)
            Examples.scenario_stream))
  = Examples.scenario_chunks Examples.clock (lit "gemini-x").
Proof.
  assert (H1 : Examples.scenario_parse Examples.hi_json
               = Some (Gemini.whole Examples.hi_payload))
    by (vm_compute; reflexivity).
  assert (H2 : Examples.scenario_parse Examples.stop_json
               = Some (Gemini.whole Examples.stop_payload))
    by (vm_compute; reflexivity).
  split; [exact H1|]. split; [exact H2|].
  exact (gemini_scenario Examples.clock Examples.no_date
           Examples.scenario_parse (lit "gemini-x") H1 H2).
Defined.

(** The same two payloads, taken as parsed. *)
Example scenario_payloads (now : N) (model : str) :
  map Chunk
    (snd (Gemini.convert_all now Examples.no_date model
            (Gemini.createStreamState now)
            [Examples.hi_payload; Examples.stop_payload]))
  = Examples.scenario_chunks now model.
Proof. reflexivity. Qed.

(** A sum within the 53 bits of a double is exact. *)
Lemma round53_safe (z : Z) : Z.abs z <= 2 ^ 53 -> JS.round53 z = z.
Proof.
  intros H. unfold JS.round53.
  destruct (Z.ltb_spec (Z.abs z) (2 ^ 53)) as [_|Hge]; [reflexivity|].
  assert (Ha : Z.abs z = 2 ^ 53) by lia.
  rewrite Ha. change (Z.log2 (2 ^ 53) - 52) with 1.
  change (2 ^ 53 mod 2 ^ 1) with 0. change (2 ^ 53 / 2 ^ 1) with (2 ^ 52).
  change (2 * 0 <? 2 ^ 1) with true. cbv iota.
  change (2 ^ 52 * 2 ^ 1) with (2 ^ 53). rewrite <- Ha.
  rewrite Z.mul_comm. apply Z.abs_sgn.
Qed.

(** C10, as the code has it.  The usage of a Gemini response: the
    completion count is the sum of the candidates count and the
    thoughts count as the language adds them, a missing count being 0;
    it is their sum as integers when that is 2^53 at most in magnitude.
    The prompt and total counts are copied, a missing one being 0.  The
    non-streaming conversion carries the usage so computed; in the
    streaming conversion the chunks that end a choice are as many as
    the candidates that carry a finish reason (one for a payload of
    usage alone), and each of them carries that usage.  The total need
    not be the sum of the other two. *)
Theorem gemini_usage_mapping (now : N) (Date_parse : str -> option Z)
    (model : str) :
  (forall meta,
     exists u, Gemini._mapUsage (Some meta) = Some u /\
       prompt_tokens u = Gemini.or0 (Gemini.promptTokenCount meta) /\
       completion_tokens u
       = JS.plus (Gemini.or0 (Gemini.candidatesTokenCount meta))
                 (Gemini.or0 (Gemini.thoughtsTokenCount meta)) /\
       (Z.abs (Gemini.or0 (Gemini.candidatesTokenCount meta)
               + Gemini.or0 (Gemini.thoughtsTokenCount meta)) <= 2 ^ 53 ->
        completion_tokens u
        = Gemini.or0 (Gemini.candidatesTokenCount meta)
          + Gemini.or0 (Gemini.thoughtsTokenCount meta)) /\
       total_tokens u = Gemini.or0 (Gemini.totalTokenCount meta))
  /\
  (forall g,
     c_usage (Gemini.convertResponse now Date_parse g model)
     = Gemini._mapUsage (Gemini.meta (Gemini.unwrap g)))
  /\
  (forall g s k,
     ends_with_usage (Gemini._mapUsage (Gemini.meta (Gemini.unwrap g)))
       (snd (Gemini._convertGeminiChunkToOpenAI now Date_parse g model s))
     /\
     finishes_of k
       (snd (Gemini._convertGeminiChunkToOpenAI now Date_parse g model s))
     = endings_in k g)
  /\
  (exists u,
     Gemini._mapUsage
       (Some (Examples.counts (Some 5) (Some 2) (Some 3) (Some 7))) = Some u /\
     prompt_tokens u + completion_tokens u = 10 /\ total_tokens u = 7).
Proof.
  split; [|split; [|split]].
  - intros meta. eexists. split; [reflexivity|].
    cbn [prompt_tokens completion_tokens total_tokens].
    repeat split. intros H. now apply round53_safe.
  - reflexivity.
  - intros g s k. split; [apply convert_usage|].
    exact (proj2 (convert_gathered now Date_parse model g k s)).
  - eexists. split; [reflexivity|]. split; reflexivity.
Qed.

(** C10, at the counts 5, 2 and 3 with the total 7. *)
Lemma gemini_usage_mapping_witness :
  exists u,
    Gemini._mapUsage
      (Some (Examples.counts (Some 5) (Some 2) (Some 3) (Some 7))) = Some u /\
    completion_tokens u = 2 + 3.
Proof.
  destruct (proj1 (gemini_usage_mapping Examples.clock Examples.no_date
                     (lit "m"))
              (Examples.counts (Some 5) (Some 2) (Some 3) (Some 7)))
    as (u & Hu & _ & _ & Hsum & _).
  exists u. split; [exact Hu|]. apply Hsum. vm_compute. discriminate.
Defined.

(** C10 as stated fails where the sum is no double: the counts 2^53 and
    1 give the completion count 2^53. *)
Lemma completion_count_rounded :
  exists u,
    Gemini._mapUsage
      (Some (Examples.counts None (Some (2 ^ 53)) (Some 1) None)) = Some u /\
    completion_tokens u = 2 ^ 53 /\
    completion_tokens u <> 2 ^ 53 + 1.
Proof.
  eexists. split; [reflexivity|]. split; [vm_compute; reflexivity|].
  vm_compute. discriminate.
Qed.

(** C6, at a reason outside the enumeration. *)
Lemma finish_reason_mapping_witness :
  (JS.toLowerCase (lit "SOMETHING_NEW") ∉ Examples.gemini_mapped_apart) /\
  Gemini._mapFinishReason (lit "SOMETHING_NEW") = stop.
Proof.
  assert (H : JS.toLowerCase (lit "SOMETHING_NEW")
              ∉ Examples.gemini_mapped_apart).
  { vm_compute. intros H.
    repeat (apply elem_of_cons in H as [H|H]; [discriminate H|]).
    now apply elem_of_nil in H. }
  split; [exact H|].
  exact (proj1 (proj2 finish_reason_mapping) (lit "SOMETHING_NEW") H).
Defined.

Lemma replace_crlf_concat_witness :
  Forall (fun c => last c <> Some JS.CR) Examples.split_separator /\
  JS.replace_crlf (concat Examples.split_separator)
  = concat (map JS.replace_crlf Examples.split_separator).
Proof.
  assert (H : Forall (fun c => last c <> Some JS.CR) Examples.split_separator).
  { repeat constructor; vm_compute; discriminate. }
  split; [exact H|]. exact (replace_crlf_concat Examples.split_separator H).
Defined.

(** ** Further behaviour of the converters *)

(** The scenario of a call whose arguments stream: the call is announced
    with empty arguments, the fragment follows, and [done] adds nothing;
    with no fragment before it, [done] gives the arguments whole. *)
Example arguments_once :
  Examples.arguments_of
    (snd (Codex.convert_all Examples.clock Examples.no_date ∅ (lit "m")
            Codex.createStreamState Examples.call_with_delta))
  = [ []; lit "x" ]
  /\
  Examples.arguments_of
    (snd (Codex.convert_all Examples.clock Examples.no_date ∅ (lit "m")
            Codex.createStreamState Examples.call_without_delta))
  = [ []; lit "x" ].
Proof. split; vm_compute; reflexivity. Qed.

(** A candidate whose only part carries a signature: no content and no
    tool call in the converted message. *)
Example signature_only_candidate :
  map (fun c => (msg_content (mc_message c), msg_tool_calls (mc_message c),
                 mc_finish c))
    (c_choices (Gemini.convertResponse Examples.clock Examples.no_date
                  Examples.signature_payload (lit "m")))
  = [ (None, None, stop) ].
Proof. vm_compute. reflexivity. Qed.

(** A candidate that called a function ends with [tool_calls], in the
    stream and in the whole response, whatever reason the backend gave. *)
Example tool_call_ends_with_tool_calls :
  map (fun c => finish <$> head (choices c))
    (snd (Gemini.convert_all Examples.clock Examples.no_date (lit "m")
            (Gemini.createStreamState Examples.clock)
            [Examples.call_payload]))
  = [ Some None; Some (Some tool_calls) ]
  /\
  map mc_finish
    (c_choices (Gemini.convertResponse Examples.clock Examples.no_date
                  Examples.call_payload (lit "m")))
  = [ tool_calls ].
Proof. split; vm_compute; reflexivity. Qed.

(** X3. A response with an error status, 400 or above, goes through
    every interception as it came: [res.write] and [res.end] of both
    branches forward the chunk, convert nothing and leave the state. *)
Theorem error_status_passes_through (now : N) (Date_parse : str -> option Z)
    (rev_map : gmap str str) (parse_event : str -> option Codex.event)
    (parse_gemini : str -> option Gemini.parsed) (model : str)
    (n : nat) (chunk : str) (st : Router.codex_stream) (s : Gemini.state) :
  Router.codex_write now Date_parse rev_map parse_event model
    (400 + Z.of_nat n) chunk st = (st, [Router.Forward chunk])
  /\
  Router.gemini_write now Date_parse parse_gemini model
    (400 + Z.of_nat n) chunk s = (s, [Router.Forward chunk])
  /\
  Router.codex_end now Date_parse rev_map parse_event model
    (400 + Z.of_nat n) (Some chunk) st = (st, [Router.End (Some chunk)])
  /\
  Router.gemini_end now Date_parse parse_gemini model
    (400 + Z.of_nat n) (Some chunk) s = (s, [Router.End (Some chunk)]).
Proof.
  unfold Router.codex_write, Router.gemini_write, Router.codex_end,
    Router.gemini_end.
  destruct (Z.leb_spec 400 (400 + Z.of_nat n)); [|lia].
  destruct (Z.ltb_spec (400 + Z.of_nat n) 400); [lia|].
  repeat split.
Qed.

(** The termination token is consumed by both loops, and the router
    writes it once when the exchange ends. *)
Example done_marker_consumed :
  snd (Gemini.convertStreamChunk Examples.clock Examples.no_date
         Examples.not_json (lit "data: [DONE]" ++ Examples.LF2) (lit "m")
         (Gemini.createStreamState Examples.clock))
  = Gemini.Output []
  /\
  snd (Router.codex_write Examples.clock Examples.no_date ∅
         Examples.not_json (lit "m") 200
         (lit "data: [DONE]" ++ Examples.LF2) Router.codex_start)
  = []
  /\
  snd (Router.codex_end Examples.clock Examples.no_date ∅
         Examples.not_json (lit "m") 200 None Router.codex_start)
  = [Router.Done; Router.End None]
  /\
  snd (Router.gemini_end Examples.clock Examples.no_date
         Examples.not_json (lit "m") 200 None
         (Gemini.createStreamState Examples.clock))
  = [Router.Done; Router.End None].
Proof. repeat split; vm_compute; reflexivity. Qed.

(** What is left in the buffer when the exchange ends is taken as one
    last frame before the termination token. *)
Example residual_frame_flushed :
  snd (Router.codex_end Examples.clock Examples.no_date ∅
         Examples.not_json (lit "m") 200 None
         {| Router.streamState := Codex.createStreamState;
            Router.sseBuffer := lit "data: oops" |})
  = [Router.Send (Raw (lit "oops")); Router.Done; Router.End None]
  /\
  snd (Router.gemini_end Examples.clock Examples.no_date
         Examples.not_json (lit "m") 200 None
         (Gemini.with_buffer (lit "data: oops")
            (Gemini.createStreamState Examples.clock)))
  = [Router.Send (Raw (lit "oops")); Router.Done; Router.End None].
Proof. split; vm_compute; reflexivity. Qed.

(** * Further properties of the translation engine *)

(** * The text of a stream, line by line *)
Section Lines.
Import JS.

Lemma split_nonempty (c : ascii) (s : str) : split c s <> [].
Proof.
  induction s as [|a s IH]; simpl; [easy|].
  destruct (decide (a = c)); [easy|]. destruct (split c s); easy.
Qed.

(** The lines of a text around one separator. *)
Lemma split_app_sep (c : ascii) (a r : str) :
  split c (a ++ c :: r) = split c a ++ split c r.
Proof.
  induction a as [|x a IH]; simpl.
  - destruct (decide (c = c)); [reflexivity|congruence].
  - destruct (decide (x = c)); [now rewrite IH|].
    rewrite IH. pose proof (split_nonempty c a).
    destruct (split c a); [congruence|reflexivity].
Qed.

Lemma split_chars (c : ascii) (s : str) :
  forall l, l ∈ split c s -> forall x, x ∈ l -> x ∈ s.
Proof.
  induction s as [|a s IH]; simpl; intros l Hl x Hx.
  - apply list_elem_of_singleton in Hl. subst l. exact Hx.
  - destruct (decide (a = c)).
    + apply elem_of_cons in Hl as [->|Hl]; [inversion Hx|].
      apply list_elem_of_further. eauto.
    + destruct (split c s) as [|l0 ls] eqn:E.
      * apply list_elem_of_singleton in Hl. subst l.
        apply list_elem_of_singleton in Hx. subst x.
        apply list_elem_of_here.
      * apply elem_of_cons in Hl as [->|Hl].
        -- apply elem_of_cons in Hx as [->|Hx];
             [apply list_elem_of_here|].
           apply list_elem_of_further. apply (IH l0); [|assumption].
           apply list_elem_of_here.
        -- apply list_elem_of_further. apply (IH l); [|assumption].
           now apply list_elem_of_further.
Qed.

Lemma startsWith_cut (p s : str) :
  startsWith p s = true -> s = p ++ skipn (length p) s.
Proof.
  revert s. induction p as [|a p IH]; intros [|b s]; simpl; try easy.
  destruct (decide (a = b)) as [->|]; [|easy].
  intros H. f_equal. now apply IH.
Qed.

(** Where [indexOf] finds the pattern, the pattern is. *)
Lemma indexOf_cut (p s : str) (k : nat) :
  indexOf p s = Some k ->
  s = firstn k s ++ p ++ skipn (k + length p) s.
Proof.
  revert k. induction s as [|a s IH]; intros k; rewrite indexOf_unfold.
  - destruct (startsWith p []) eqn:E; [|easy].
    intros [= <-]. now apply startsWith_cut.
  - destruct (startsWith p (a :: s)) eqn:E.
    + intros [= <-]. now apply startsWith_cut.
    + destruct (indexOf p s) as [k'|] eqn:Ei; [|easy].
      intros [= <-]. simpl. f_equal. now apply IH.
Qed.

Lemma startsWith_prefix (p s : str) : startsWith p (p ++ s) = true.
Proof.
  induction p as [|a p IH]; simpl; [reflexivity|].
  destruct (decide (a = a)); [assumption|congruence].
Qed.

(** A pattern that occurs is found. *)
Lemma indexOf_found (p a c : str) : is_Some (indexOf p (a ++ p ++ c)).
Proof.
  induction a as [|x a IH]; rewrite indexOf_unfold.
  - simpl. rewrite startsWith_prefix. eauto.
  - destruct (startsWith p _); [eauto|].
    simpl. destruct IH as [k ->]. simpl. eauto.
Qed.

Lemma space_not_d (l : str) :
  forallb is_space l = true -> startsWith (lit "data: ") l = false.
Proof.
  destruct l as [|x l]; [reflexivity|]. simpl.
  intros H%andb_true_iff. destruct H as [H _].
  unfold lit. simpl. destruct (decide (_ = x)) as [<-|]; [|reflexivity].
  discriminate H.
Qed.

(** No line of a blank event holds data. *)
Lemma blank_lines (event : str) :
  blank event = true ->
  Forall (fun l => startsWith (lit "data: ") l = false) (split LF event).
Proof.
  rewrite blank_spaces. intros H. apply Forall_forall. intros l Hl.
  apply space_not_d. apply forallb_forall. intros x Hx.
  rewrite forallb_forall in H. apply H.
  apply list_elem_of_In. apply (split_chars LF event l Hl).
  now apply list_elem_of_In.
Qed.

End Lines.

Lemma app_tail2 {A : Type} (text c rest : list A) (a b : A) :
  text ++ [a; b] = c ++ rest ->
  rest = [] \/ rest = [b] \/ exists r, rest = r ++ [a; b].
Proof.
  intros H. destruct rest as [|x r1 _] using rev_ind; [now left|].
  right.
  change (text ++ [a; b]) with (text ++ [a] ++ [b]) in H.
  rewrite !app_assoc in H. apply app_inj_tail in H as [H <-].
  destruct r1 as [|y r2 _] using rev_ind; [now left|].
  right. rewrite app_assoc in H. apply app_inj_tail in H as [_ <-].
  exists r2. now rewrite <- app_assoc.
Qed.

Section LineView.

Context {St Out : Type}.
Variable on_line : St -> str -> St * list Out.

(** The handler looks at data lines only. *)
Hypothesis data_only : forall st l,
  JS.startsWith (lit "data: ") l = false -> on_line st l = (st, []).

Lemma for_lines_app (l1 l2 : list str) (st : St) :
  SSE.for_lines on_line st (l1 ++ l2) =
    let '(st1, o1) := SSE.for_lines on_line st l1 in
    let '(st2, o2) := SSE.for_lines on_line st1 l2 in
    (st2, o1 ++ o2).
Proof.
  revert st. induction l1 as [|l l1 IH]; intros st; simpl.
  - destruct (SSE.for_lines on_line st l2). reflexivity.
  - destruct (on_line st l) as [st1 o1]. rewrite IH.
    destruct (SSE.for_lines on_line st1 l1) as [st2 o2].
    destruct (SSE.for_lines on_line st2 l2) as [st3 o3].
    now rewrite app_assoc.
Qed.

Lemma for_lines_quiet (ls : list str) (st : St) :
  Forall (fun l => JS.startsWith (lit "data: ") l = false) ls ->
  SSE.for_lines on_line st ls = (st, []).
Proof.
  induction 1 as [|l ls Hl _ IH]; simpl; [reflexivity|].
  rewrite data_only by assumption. now rewrite IH.
Qed.

(** The loop over the events of a text does what a pass over its lines
    does: the events are handled line by line in the order of the text,
    and the lines of what the loop leaves are those still to come. *)
Lemma events_by_lines (n : nat) :
  forall st buffer, (length buffer <= n)%nat ->
  SSE.for_lines on_line st (JS.split JS.LF buffer) =
    let '(st1, rest, o1) := SSE.events on_line st buffer in
    let '(st2, o2) := SSE.for_lines on_line st1 (JS.split JS.LF rest) in
    (st2, o1 ++ o2).
Proof.
  induction n as [n IH] using lt_wf_ind. intros st buffer Hlen.
  rewrite events_unfold. unfold SSE.round.
  destruct (JS.indexOf SSE.separator buffer) as [idx|] eqn:Ei.
  2:{ destruct (SSE.for_lines on_line st _). reflexivity. }
  pose proof (cut_shorter _ _ Ei) as Hcut.
  pose proof (indexOf_cut _ _ _ Ei) as Hb.
  change (length SSE.separator) with 2%nat in Hb.
  unfold JS.slice_to, JS.slice_from in *.
  set (event := firstn idx buffer) in *.
  set (more := skipn (idx + 2) buffer) in *.
  rewrite Hb at 1.
  change (event ++ SSE.separator ++ more)
    with (event ++ JS.LF :: ([] ++ JS.LF :: more)).
  rewrite split_app_sep, split_app_sep. rewrite for_lines_app.
  change (JS.split JS.LF [] ++ JS.split JS.LF more)
    with ([] :: JS.split JS.LF more).
  specialize (IH (length more) ltac:(lia)).
  fold (JS.blank event). destruct (JS.blank event) eqn:Eb.
  - rewrite (for_lines_quiet _ st (blank_lines _ Eb)).
    cbn [SSE.for_lines]. rewrite data_only by reflexivity.
    rewrite (IH st more (Nat.le_refl _)).
    destruct (SSE.events on_line st more) as [[st2 rest] o2].
    destruct (SSE.for_lines on_line st2 _) as [st3 o3]. reflexivity.
  - destruct (SSE.for_lines on_line st (JS.split JS.LF event)) as [st1 o1].
    cbn [SSE.for_lines]. rewrite data_only by reflexivity.
    rewrite (IH st1 more (Nat.le_refl _)).
    destruct (SSE.events on_line st1 more) as [[st2 rest] o2].
    destruct (SSE.for_lines on_line st2 _) as [st3 o3].
    simpl. now rewrite app_assoc.
Qed.

(** What the loop leaves is the end of the text it was given. *)
Lemma events_suffix (n : nat) :
  forall st buffer, (length buffer <= n)%nat ->
  exists consumed, buffer = consumed ++ (SSE.events on_line st buffer).1.2.
Proof.
  induction n as [n IH] using lt_wf_ind. intros st buffer Hlen.
  rewrite events_unfold. unfold SSE.round.
  destruct (JS.indexOf SSE.separator buffer) as [idx|] eqn:Ei.
  2:{ exists []. reflexivity. }
  pose proof (cut_shorter _ _ Ei) as Hcut.
  pose proof (indexOf_cut _ _ _ Ei) as Hb.
  change (length SSE.separator) with 2%nat in Hb.
  unfold JS.slice_to, JS.slice_from in *.
  set (event := firstn idx buffer) in *.
  set (more := skipn (idx + 2) buffer) in *.
  specialize (IH (length more) ltac:(lia)).
  destruct (negb _).
  - destruct (IH st more (Nat.le_refl _)) as [c Hc].
    exists (event ++ SSE.separator ++ c).
    rewrite Hb at 1. rewrite Hc at 1. now rewrite <- !app_assoc.
  - destruct (SSE.for_lines on_line st _) as [st1 o1].
    destruct (IH st1 more (Nat.le_refl _)) as [c Hc].
    destruct (SSE.events on_line st1 more) as [[st2 rest] o2].
    simpl in *. exists (event ++ SSE.separator ++ c).
    rewrite Hb at 1. rewrite Hc at 1. now rewrite <- !app_assoc.
Qed.

(** After a text that ends with the separator the loop leaves at most
    one line feed. *)
Lemma events_closed (st : St) (text : str) :
  (SSE.events on_line st (text ++ SSE.separator)).1.2 = [] \/
  (SSE.events on_line st (text ++ SSE.separator)).1.2 = [JS.LF].
Proof.
  pose proof (events_drained on_line _ st (text ++ SSE.separator)
                (Nat.le_refl _)) as Hd.
  destruct (events_suffix _ st (text ++ SSE.separator) (Nat.le_refl _))
    as [c Hc].
  destruct (app_tail2 _ _ _ _ _ Hc) as [H|[H|[r H]]]; [now left|now right|].
  rewrite H in Hd.
  destruct (indexOf_found SSE.separator r []) as [k Hk].
  rewrite app_nil_r in Hk. unfold SSE.separator in Hd, Hk. congruence.
Qed.

(** A pass over the lines of a text closed by the separator gives what
    the loop over its events gives. *)
Lemma closed_text_by_lines (st : St) (text : str) :
  SSE.for_lines on_line st (JS.split JS.LF (text ++ SSE.separator)) =
    let '(st1, _, o1) := SSE.events on_line st (text ++ SSE.separator) in
    (st1, o1).
Proof.
  rewrite (events_by_lines _ st _ (Nat.le_refl _)).
  pose proof (events_closed st text) as Hc.
  destruct (SSE.events on_line st (text ++ SSE.separator))
    as [[st1 rest] o1].
  simpl in Hc. destruct Hc as [-> | ->]; cbn [JS.split SSE.for_lines].
  - rewrite data_only by reflexivity. now rewrite app_nil_r.
  - destruct (decide (JS.LF = JS.LF)); [|congruence].
    cbn [SSE.for_lines]. rewrite !data_only by reflexivity.
    now rewrite app_nil_r.
Qed.

(** The separator behind a text adds two lines that hold no data. *)
Lemma lines_of_closed (st : St) (text : str) :
  SSE.for_lines on_line st (JS.split JS.LF (text ++ SSE.separator))
  = SSE.for_lines on_line st (JS.split JS.LF text).
Proof.
  change (text ++ SSE.separator) with (text ++ JS.LF :: [JS.LF]).
  rewrite split_app_sep, for_lines_app.
  destruct (SSE.for_lines on_line st (JS.split JS.LF text)) as [st1 o1].
  cbn [JS.split]. destruct (decide (JS.LF = JS.LF)); [|congruence].
  cbn [SSE.for_lines]. rewrite !data_only by reflexivity.
  now rewrite app_nil_r.
Qed.

(** Over a blank text the loop emits nothing and keeps the state. *)
Lemma events_blank (n : nat) :
  forall st buffer, (length buffer <= n)%nat -> JS.blank buffer = true ->
  (SSE.events on_line st buffer).1.1 = st /\
  (SSE.events on_line st buffer).2 = [].
Proof.
  induction n as [n IH] using lt_wf_ind. intros st buffer Hlen Hb.
  rewrite events_unfold. unfold SSE.round.
  destruct (JS.indexOf SSE.separator buffer) as [idx|] eqn:Ei; [|easy].
  pose proof (cut_shorter _ _ Ei) as Hcut.
  pose proof (indexOf_cut _ _ _ Ei) as Hcutb.
  unfold JS.slice_to, JS.slice_from in *.
  rewrite Hcutb in Hb. rewrite !blank_app in Hb.
  apply andb_true_iff in Hb as [Hb1 Hb2].
  apply andb_true_iff in Hb2 as [_ Hb2].
  fold (JS.blank (firstn idx buffer)). rewrite Hb1. simpl.
  apply (IH (length (skipn (idx + 2) buffer))); [lia|lia|exact Hb2].
Qed.

(** The first cut of a buffer. *)
Lemma first_cut (buffer : str) (idx : nat) :
  JS.indexOf SSE.separator buffer = Some idx ->
  buffer = firstn idx buffer ++ SSE.separator ++ skipn (idx + 2) buffer /\
  JS.indexOf SSE.separator (firstn idx buffer ++ SSE.separator)
  = Some (length (firstn idx buffer)).
Proof.
  intros Ei. pose proof (indexOf_cut _ _ _ Ei) as Hb.
  change (length SSE.separator) with 2%nat in Hb.
  pose proof (indexOf_length _ _ _ Ei) as Hl.
  split; [exact Hb|].
  destruct (indexOf_found SSE.separator (firstn idx buffer) []) as [k Hk].
  rewrite app_nil_r in Hk.
  pose proof (indexOf_app _ _ (skipn (idx + 2) buffer) _ Hk) as Hk'.
  rewrite <- app_assoc, <- Hb, Ei in Hk'. injection Hk' as <-.
  rewrite Hk. f_equal. rewrite length_firstn. lia.
Qed.

Lemma cut_into_cons (event more rest : str) (evs : list str) :
  JS.indexOf SSE.separator (event ++ SSE.separator) = Some (length event) ->
  Transport.cut_into evs rest more ->
  Transport.cut_into (event :: evs) rest (event ++ SSE.separator ++ more).
Proof.
  intros He [Hm Hf]. split; [|now constructor].
  cbn [map concat]. rewrite Hm at 1. now rewrite <- !app_assoc.
Qed.

(** What the loop does to a buffer: it cuts it into events, each at the
    first separator, handles their lines in order, and leaves what is
    behind the last of them. *)
Lemma events_cut (n : nat) :
  forall st buffer, (length buffer <= n)%nat ->
  exists evs,
    Transport.cut_into evs (SSE.events on_line st buffer).1.2 buffer /\
    SSE.for_lines on_line st (concat (map (JS.split JS.LF) evs))
    = ((SSE.events on_line st buffer).1.1, (SSE.events on_line st buffer).2).
Proof.
  induction n as [n IH] using lt_wf_ind. intros st buffer Hlen.
  rewrite events_unfold. unfold SSE.round.
  destruct (JS.indexOf SSE.separator buffer) as [idx|] eqn:Ei.
  2:{ exists []. split; [split; [reflexivity|constructor]|reflexivity]. }
  pose proof (cut_shorter _ _ Ei) as Hcut.
  destruct (first_cut _ _ Ei) as [Hb He].
  unfold JS.slice_to, JS.slice_from in *.
  set (event := firstn idx buffer) in *.
  set (more := skipn (idx + 2) buffer) in *.
  specialize (IH (length more) ltac:(lia)).
  fold (JS.blank event). destruct (JS.blank event) eqn:Eb.
  - destruct (IH st more (Nat.le_refl _)) as (evs & Hc & Hl).
    exists (event :: evs). split.
    + rewrite Hb at 1. now apply cut_into_cons.
    + cbn [map concat]. rewrite for_lines_app.
      rewrite (for_lines_quiet _ st (blank_lines _ Eb)). rewrite Hl.
      reflexivity.
  - destruct (SSE.for_lines on_line st (JS.split JS.LF event))
      as [st1 o1] eqn:E1.
    destruct (IH st1 more (Nat.le_refl _)) as (evs & Hc & Hl).
    destruct (SSE.events on_line st1 more) as [[st2 rest] o2].
    cbn [fst snd] in *. exists (event :: evs). split.
    + rewrite Hb at 1. now apply cut_into_cons.
    + cbn [map concat]. rewrite for_lines_app, E1, Hl. reflexivity.
Qed.

End LineView.

Section LoopOutput.

Context {St Out : Type}.
Variable on_line : St -> str -> St * list Out.
Variable P : Out -> Prop.

(** What holds of every output of the handler holds of every output of
    the loop. *)
Hypothesis line_output : forall st l, Forall P (on_line st l).2.

Lemma for_lines_output (ls : list str) :
  forall st, Forall P (SSE.for_lines on_line st ls).2.
Proof.
  induction ls as [|l ls IH]; intros st; simpl; [constructor|].
  pose proof (line_output st l) as Hl.
  destruct (on_line st l) as [st1 o1].
  specialize (IH st1). destruct (SSE.for_lines on_line st1 ls) as [st2 o2].
  simpl in *. now apply Forall_app.
Qed.

Lemma events_output (n : nat) :
  forall st buffer, (length buffer <= n)%nat ->
  Forall P (SSE.events on_line st buffer).2.
Proof.
  induction n as [n IH] using lt_wf_ind. intros st buffer Hlen.
  rewrite events_unfold. unfold SSE.round.
  destruct (JS.indexOf SSE.separator buffer) as [idx|] eqn:Ei;
    [|constructor].
  pose proof (cut_shorter _ _ Ei) as Hcut.
  destruct (negb _).
  - apply (IH (length (JS.slice_from (idx + 2) buffer))); lia.
  - pose proof (for_lines_output (JS.split JS.LF (JS.slice_to idx buffer)) st)
      as Hl.
    destruct (SSE.for_lines on_line st _) as [st1 o1].
    specialize (IH (length (JS.slice_from (idx + 2) buffer)) ltac:(lia)
                  st1 _ (Nat.le_refl _)).
    destruct (SSE.events on_line st1 _) as [[st2 rest] o2].
    simpl in *. now apply Forall_app.
Qed.

End LoopOutput.

(** * The buffer of a loop that may throw *)
Section ThrowingView.

Context {St Out : Type}.
Variable on_line : St -> str -> St * option (list Out).


End ThrowingView.

(** * The end of a stream *)
Section Flush.
Import Transport.

Variable now : N.
Variable Date_parse : str -> option Z.
Variable rev_map : gmap str str.
Variable parse_event : str -> option Codex.event.
Variable parse_gemini : str -> option Gemini.parsed.
Variable model : str.

Local Abbreviation codex_line :=
  (Router.codex_on_line now Date_parse rev_map parse_event model).
Local Abbreviation codex_write :=
  (Router.codex_write now Date_parse rev_map parse_event model).
Local Abbreviation codex_end :=
  (Router.codex_end now Date_parse rev_map parse_event model).
Local Abbreviation codex_feed :=
  (Router.codex_feed now Date_parse rev_map parse_event model).
Local Abbreviation gemini_line :=
  (Gemini.on_line now Date_parse parse_gemini model).

Lemma codex_data_only (st : Codex.state) (l : str) :
  JS.startsWith (lit "data: ") l = false -> codex_line st l = (st, []).
Proof. intros H. unfold Router.codex_on_line. now rewrite H. Qed.

Lemma gemini_data_only (st : Gemini.state) (l : str) :
  JS.startsWith (lit "data: ") l = false -> gemini_line st l = (st, Some []).
Proof. intros H. unfold Gemini.on_line. now rewrite H. Qed.

Lemma codex_feed_pending (chunk : option str) (st : Router.codex_stream) :
  codex_feed st (pending chunk ++ [SSE.separator]) =
    let '(s', rest, out) :=
      SSE.events codex_line (Router.streamState st)
        ((Router.sseBuffer st ++ concat (map JS.replace_crlf (pending chunk)))
         ++ SSE.separator) in
    ({| Router.streamState := s'; Router.sseBuffer := rest |},
     map Router.Send out).
Proof.
  destruct st as [s buf].
  assert (Hone : forall s0 b,
    codex_feed {| Router.streamState := s0; Router.sseBuffer := b |}
      [SSE.separator] =
    let '(s', rest, out) := SSE.events codex_line s0 (b ++ SSE.separator) in
    ({| Router.streamState := s'; Router.sseBuffer := rest |},
     map Router.Send out)).
  { intros s0 b. cbn [Router.codex_feed]. unfold Router.codex_write.
    change (400 <=? 200) with false.
    cbn [Router.streamState Router.sseBuffer].
    change (JS.replace_crlf SSE.separator) with SSE.separator.
    destruct (SSE.events codex_line s0 _) as [[s' rest] out].
    cbn [app]. now rewrite app_nil_r. }
  unfold pending. destruct chunk as [c|]; [destruct (JS.nonempty c)|].
  - cbn [app map concat Router.streamState Router.sseBuffer].
    rewrite app_nil_r.
    rewrite (events_app codex_line _ s (buf ++ JS.replace_crlf c) _
               (Nat.le_refl _)).
    change (codex_feed {| Router.streamState := s; Router.sseBuffer := buf |}
              [c; SSE.separator])
      with (let '(st1, w1) :=
              codex_write 200 c
                {| Router.streamState := s; Router.sseBuffer := buf |} in
            let '(st2, w2) := codex_feed st1 [SSE.separator] in
            (st2, w1 ++ w2)).
    unfold Router.codex_write at 1.
    change (400 <=? 200) with false.
    cbn [Router.streamState Router.sseBuffer].
    destruct (SSE.events codex_line s (buf ++ JS.replace_crlf c))
      as [[s1 rest1] o1].
    rewrite Hone.
    destruct (SSE.events codex_line s1 _) as [[s2 rest2] o2].
    now rewrite map_app.
  - cbn [app map concat Router.streamState Router.sseBuffer].
    rewrite app_nil_r. apply Hone.
  - cbn [app map concat Router.streamState Router.sseBuffer].
    rewrite app_nil_r. apply Hone.
Qed.

(** The flush at [res.end] does what a last [res.write] of the chunk and
    of a separator does. *)
Lemma codex_end_flush (statusCode : Z) (chunk : option str)
    (st : Router.codex_stream) :
  statusCode < 400 ->
  Router.streamState (codex_end statusCode chunk st).1 =
    Router.streamState
      (codex_feed st (pending chunk ++ [SSE.separator])).1 /\
  (codex_end statusCode chunk st).2 =
    (codex_feed st (pending chunk ++ [SSE.separator])).2
    ++ [Router.Done;
        Router.End (match pending chunk with [] => chunk | _ => None end)].
Proof.
  intros Hs. rewrite codex_feed_pending.
  unfold Router.codex_end.
  replace (statusCode <? 400) with true by (symmetry; apply Z.ltb_lt; lia).
  set (buffered := match chunk with
                   | Some c => if JS.nonempty c
                               then Router.sseBuffer st ++ JS.replace_crlf c
                               else Router.sseBuffer st
                   | None => Router.sseBuffer st
                   end).
  assert (Hb : Router.sseBuffer st
               ++ concat (map JS.replace_crlf (pending chunk)) = buffered).
  { unfold buffered, pending.
    destruct chunk as [c|]; [destruct (JS.nonempty c)|]; simpl;
      now rewrite ?app_nil_r. }
  assert (Ht : match chunk with
               | Some c => if JS.nonempty c then None else chunk
               | None => None
               end = match pending chunk with [] => chunk | _ => None end).
  { unfold pending.
    destruct chunk as [c|]; [destruct (JS.nonempty c)|]; reflexivity. }
  rewrite Hb, Ht.
  destruct (JS.nonempty (JS.trim buffered)) eqn:En.
  - rewrite (closed_text_by_lines codex_line codex_data_only).
    destruct (SSE.events codex_line _ _) as [[s1 rest] o1]. simpl.
    split; reflexivity.
  - assert (Hblank : JS.blank (buffered ++ SSE.separator) = true).
    { rewrite blank_app. unfold JS.blank at 1. rewrite En. reflexivity. }
    destruct (events_blank codex_line _ (Router.streamState st) _
                (Nat.le_refl _) Hblank) as [H1 H2].
    destruct (SSE.events codex_line _ _) as [[s1 rest] o1]. simpl in *.
    subst. split; reflexivity.
Qed.

(** X4. The flush of the Codex interception at [res.end], for a status
    under 400: the last chunk, when it is not empty, and what the buffer
    holds are converted as if the chunk and then a frame separator had
    come through [res.write]; the termination token follows, and the
    stream is ended with no chunk, or with the empty one it was given. *)
Theorem codex_end_as_write (statusCode : Z) (chunk : option str)
    (st : Router.codex_stream) :
  statusCode < 400 ->
  Router.streamState (codex_end statusCode chunk st).1 =
    Router.streamState
      (codex_feed st (pending chunk ++ [SSE.separator])).1 /\
  (codex_end statusCode chunk st).2 =
    (codex_feed st (pending chunk ++ [SSE.separator])).2
    ++ [Router.Done;
        Router.End (match pending chunk with [] => chunk | _ => None end)].
Proof. apply codex_end_flush. Qed.

(** X5. [res.write] of the Codex interception, for a status under 400,
    cuts what the buffer held, followed by the chunk with CR LF
    replaced, into events, each at the first separator behind its
    start; it leaves in the buffer what is behind the last of them,
    which holds no separator, and writes what the lines of the events
    give, handled in order. *)
Theorem codex_buffer_holds_no_frame (statusCode : Z) (chunk : str)
    (st : Router.codex_stream) :
  statusCode < 400 ->
  exists events,
    cut_into events (Router.sseBuffer (codex_write statusCode chunk st).1)
      (Router.sseBuffer st ++ JS.replace_crlf chunk) /\
    JS.indexOf SSE.separator
      (Router.sseBuffer (codex_write statusCode chunk st).1) = None /\
    Router.streamState (codex_write statusCode chunk st).1
    = (SSE.for_lines codex_line (Router.streamState st)
         (concat (map (JS.split JS.LF) events))).1 /\
    (codex_write statusCode chunk st).2
    = map Router.Send
        (SSE.for_lines codex_line (Router.streamState st)
           (concat (map (JS.split JS.LF) events))).2.
Proof.
  intros Hs. unfold Router.codex_write.
  replace (400 <=? statusCode) with false by (symmetry; apply Z.leb_gt; lia).
  pose proof (events_drained codex_line _ (Router.streamState st)
                (Router.sseBuffer st ++ JS.replace_crlf chunk)
                (Nat.le_refl _)) as Hd.
  destruct (events_cut codex_line codex_data_only _ (Router.streamState st)
              (Router.sseBuffer st ++ JS.replace_crlf chunk)
              (Nat.le_refl _)) as (evs & Hc & Hl).
  destruct (SSE.events codex_line _ _) as [[s1 rest] o1].
  cbn [fst snd Router.sseBuffer Router.streamState] in *.
  exists evs. rewrite Hl. split; [exact Hc|]. split; [exact Hd|].
  split; reflexivity.
Qed.


Lemma codex_line_forwardable (st : Codex.state) (l : str) :
  Forall forwardable (codex_line st l).2.
Proof.
  unfold Router.codex_on_line.
  destruct (JS.startsWith _ l); [|constructor].
  destruct (negb (JS.nonempty _) || bool_decide _) eqn:E; [constructor|].
  apply orb_false_iff in E as [E1 E2].
  apply negb_false_iff in E1. apply bool_decide_eq_false in E2.
  assert (Hraw : forwardable (Raw (JS.slice_from 6 l))).
  { split; [|assumption]. intros H. now rewrite H in E1. }
  destruct (parse_event _) as [e|];
    [|simpl; constructor; [assumption|constructor]].
  destruct (Codex.ev_error e);
    [simpl; constructor; [assumption|constructor]|].
  unfold Codex.convertStreamChunk.
  destruct (negb (Codex.given _)); [constructor|].
  repeat (destruct (decide _); [
    first [ constructor
          | unfold Codex._handleResponseCreated; constructor
          | unfold Codex._emitChunk; destruct (negb _); repeat constructor
          | idtac ] |]); try constructor.
  all: unfold Codex._handleOutputItemAdded, Codex._handleArgumentsDelta,
         Codex._handleArgumentsDone, Codex._handleOutputItemDone,
         Codex._handleResponseCompleted, Codex._handleResponseError,
         Codex._handleStreamError, Codex._emitChunk.
  all: repeat match goal with
       | |- context [match ?x with _ => _ end] => destruct x
       end; simpl; repeat constructor.
Qed.

Lemma gemini_line_forwardable (st : Gemini.state) (l : str) :
  match (gemini_line st l).2 with
  | Some frames => Forall (fun f => forwardable f /\ trimmed f) frames
  | None => True
  end.
Proof.
  unfold Gemini.on_line.
  destruct (negb (JS.startsWith _ l)); [constructor|].
  destruct (negb (JS.nonempty _)) eqn:E1; [constructor|].
  destruct (decide _) as [|E2]; [constructor|].
  apply negb_false_iff in E1.
  assert (Hraw : forwardable (Raw (JS.trim (JS.slice_from 6 l)))
                 /\ trimmed (Raw (JS.trim (JS.slice_from 6 l)))).
  { split; [|now eexists]. split; [|assumption].
    intros H. now rewrite H in E1. }
  destruct (parse_gemini _) as [[|e w d]|];
    [exact I| |simpl; constructor; [assumption|constructor]].
  destruct e; [simpl; constructor; [assumption|constructor]|].
  destruct (Gemini.convert_parsed _ _ _ _ _) as [s' [chunks|]]; [|exact I].
  cbn [snd]. apply Forall_fmap, Forall_true. intros c. split; exact I.
Qed.

Lemma gemini_marked_forwardable (st : Gemini.state) (l : str) :
  Forall (fun o => match o with
                   | Some f => forwardable f /\ trimmed f
                   | None => True
                   end)
    (SSE.marked gemini_line st l).2.
Proof.
  rewrite marked_eq.
  pose proof (gemini_line_forwardable st l) as Hl.
  destruct (gemini_line st l) as [st1 [o1|]]; cbn [snd] in *.
  - now apply Forall_fmap.
  - repeat constructor.
Qed.

(** X7. What the two interceptions forward.  What the Codex [res.write]
    writes is a converted frame or a payload as it came, which is not
    empty and is not the text [[DONE]] (or the chunk as it came when
    the status is 400 or above).  A call of the Gemini converter passes
    a heartbeat of white space through, throws, or gives converted
    frames and payloads as they came, which are trimmed, not empty and
    not the text [[DONE]].  The Codex loop does not trim: the
    termination token with a CR behind it, as a CR LF pair cut by a
    chunk boundary leaves it, is forwarded. *)
Theorem termination_token_consumed (statusCode : Z) (chunk : str)
    (st : Router.codex_stream) (s : Gemini.state) :
  Forall (fun w => match w with
                   | Router.Send f => forwardable f
                   | Router.Forward _ => 400 <= statusCode
                   | _ => False
                   end)
    (codex_write statusCode chunk st).2 /\
  match (Gemini.convertStreamChunk now Date_parse parse_gemini
           chunk model s).2 with
  | Gemini.Passthrough heartbeat => JS.blank heartbeat = true
  | Gemini.Output frames =>
      Forall (fun f => forwardable f /\ trimmed f) frames
  | Gemini.TypeError => True
  end /\
  (Router.codex_feed now Date_parse rev_map Examples.not_json model
     Router.codex_start [lit "data: [DONE]" ++ [JS.CR]; SSE.separator]).2
  = [Router.Send (Raw (lit "[DONE]" ++ [JS.CR]))].
Proof.
  split; [|split].
  - unfold Router.codex_write. destruct (400 <=? statusCode) eqn:E.
    + constructor; [|constructor]. now apply Z.leb_le.
    + pose proof (events_output codex_line forwardable codex_line_forwardable
                    _ (Router.streamState st)
                    (Router.sseBuffer st ++ JS.replace_crlf chunk)
                    (Nat.le_refl _)) as Ho.
      destruct (SSE.events codex_line _ _) as [[s1 rest] o1]. simpl in *.
      apply Forall_fmap. exact Ho.
  - unfold Gemini.convertStreamChunk.
    destruct (negb (JS.nonempty (JS.trim _)) && _) eqn:E.
    + apply andb_true_iff in E as [E _]. exact E.
    + destruct (SSE.try_events gemini_line s _) as [[s1 rest] [o1|]] eqn:Et;
        [|exact I].
      cbn [snd].
      pose proof (events_output (SSE.marked gemini_line) _
                    gemini_marked_forwardable _ s
                    (Gemini.buffer s ++ JS.replace_crlf chunk)
                    (Nat.le_refl _)) as Ho.
      rewrite (try_events_returns gemini_line _ _ _ _ _ Et) in Ho.
      cbn [snd] in Ho. apply Forall_fmap in Ho. exact Ho.
  - reflexivity.
Qed.

(** [res.end] leaves white space in the buffer at most. *)
Lemma codex_end_blank (statusCode : Z) (last : option str)
    (st : Router.codex_stream) :
  statusCode < 400 ->
  JS.blank (Router.sseBuffer (codex_end statusCode last st).1) = true.
Proof.
  intros Hs. unfold Router.codex_end.
  replace (statusCode <? 400) with true by (symmetry; apply Z.ltb_lt; lia).
  match goal with
  | |- context [JS.nonempty (JS.trim ?b)] =>
      destruct (JS.nonempty (JS.trim b)) eqn:E
  end.
  - destruct (SSE.for_lines _ _ _) as [s' out]. reflexivity.
  - cbn [fst Router.sseBuffer]. unfold JS.blank. now rewrite E.
Qed.

(** X8. A whole exchange of the Codex branch with a status under 400,
    from the first [res.write] to [res.end]: what is written is what
    the lines of the text of the stream give, handled one after the
    other from a fresh state, and then the termination token; the
    text is the chunks, that of [res.end] with them when it is not
    empty, with CR LF replaced in each.  No line is left out, none is
    handled twice, and the buffer ends blank. *)
Theorem codex_exchange_by_lines (statusCode : Z) (chunks : list str)
    (last : option str) :
  statusCode < 400 ->
  let text := concat (map JS.replace_crlf (chunks ++ pending last)) in
  let lines :=
    SSE.for_lines codex_line Codex.createStreamState (JS.split JS.LF text) in
  let written := codex_feed Router.codex_start chunks in
  let ended := codex_end statusCode last written.1 in
  Router.streamState ended.1 = lines.1 /\
  written.2 ++ ended.2
  = map Router.Send lines.2
    ++ [Router.Done;
        Router.End (match pending last with [] => last | _ => None end)] /\
  JS.blank (Router.sseBuffer ended.1) = true.
Proof.
  intros Hs text lines written ended.
  pose proof (codex_end_blank statusCode last written.1 Hs) as Hblank.
  fold ended in Hblank.
  destruct (codex_end_flush statusCode last written.1 Hs) as [H1 H2].
  fold ended in H1, H2. rewrite H1, H2. clear H1 H2.
  unfold written.
  rewrite (codex_feed_events now Date_parse rev_map parse_event model chunks
             Router.codex_start eq_refl).
  cbn [Router.codex_start Router.streamState Router.sseBuffer app].
  pose proof (events_drained codex_line _ Codex.createStreamState
                (concat (map JS.replace_crlf chunks)) (Nat.le_refl _)) as Hd.
  pose proof (events_app codex_line _ Codex.createStreamState
                (concat (map JS.replace_crlf chunks))
                (concat (map JS.replace_crlf (pending last)) ++ SSE.separator)
                (Nat.le_refl _)) as Happ.
  destruct (SSE.events codex_line Codex.createStreamState
              (concat (map JS.replace_crlf chunks))) as [[s1 rest1] o1].
  cbn [fst snd] in Hd |- *.
  rewrite (codex_feed_events now Date_parse rev_map parse_event model
             (pending last ++ [SSE.separator])
             {| Router.streamState := s1; Router.sseBuffer := rest1 |} Hd).
  cbn [Router.streamState Router.sseBuffer].
  rewrite map_app, concat_app. cbn [map concat].
  change (JS.replace_crlf SSE.separator) with SSE.separator.
  rewrite app_nil_r.
  destruct (SSE.events codex_line s1 _) as [[s2 rest2] o2].
  cbn [fst snd Router.streamState].
  assert (Hlines : lines = (s2, o1 ++ o2)).
  { unfold lines, text.
    rewrite <- (lines_of_closed codex_line codex_data_only).
    rewrite (closed_text_by_lines codex_line codex_data_only).
    rewrite map_app, concat_app, <- app_assoc, Happ. reflexivity. }
  rewrite Hlines. cbn [fst snd].
  split; [reflexivity|]. split; [|exact Hblank].
  now rewrite map_app, <- app_assoc.
Qed.

End Flush.

(** * The tool calls of a Codex stream *)

Section CodexCalls.
Import Codex Entries.

Variable now : N.
Variable Date_parse : str -> option Z.
Variable rev_map : gmap str str.
Variable model : str.

Local Abbreviation step := (convertStreamChunk now Date_parse rev_map).
Local Abbreviation run := (convert_all now Date_parse rev_map model).

Lemma step_added (e : event) (s : state) :
  type e = Some (lit "response.output_item.added") ->
  step e model s = _handleOutputItemAdded now rev_map e model s.
Proof. intros H. unfold convertStreamChunk. rewrite H. reflexivity. Qed.

Lemma step_arguments_delta (e : event) (s : state) :
  type e = Some (lit "response.function_call_arguments.delta") ->
  step e model s = _handleArgumentsDelta now e model s.
Proof. intros H. unfold convertStreamChunk. rewrite H. reflexivity. Qed.

Lemma step_arguments_done (e : event) (s : state) :
  type e = Some (lit "response.function_call_arguments.done") ->
  step e model s = _handleArgumentsDone now e model s.
Proof. intros H. unfold convertStreamChunk. rewrite H. reflexivity. Qed.

Lemma step_completed (e : event) (s : state) :
  type e = Some (lit "response.completed") ->
  step e model s = _handleResponseCompleted now e model s.
Proof. intros H. unfold convertStreamChunk. rewrite H. reflexivity. Qed.

Lemma step_created (e : event) (s : state) :
  type e = Some (lit "response.created") ->
  step e model s = _handleResponseCreated now Date_parse e s.
Proof. intros H. unfold convertStreamChunk. rewrite H. reflexivity. Qed.


Lemma tool_entries_app (f1 f2 : list frame) :
  tool_entries (f1 ++ f2) = tool_entries f1 ++ tool_entries f2.
Proof.
  unfold tool_entries, calls_in, chunks_of.
  now rewrite omap_app, map_app, concat_app.
Qed.

Lemma tool_entries_emit (s : state) (calls : list tool_call) :
  tool_entries (_emitChunk now s model (ToolCalls calls)).2 = calls.
Proof.
  unfold _emitChunk. destruct (negb (roleSent s)); simpl; apply app_nil_r.
Qed.

(** X9. The event [response.completed], after any events from a fresh
    state, gives one chunk; its finish reason is [tool_calls] when the
    stream has announced a tool call, and the reason of the response
    status otherwise. *)
Theorem completed_reason_follows_calls (evs : list event) (e : event) :
  type e = Some (lit "response.completed") ->
  let before := run createStreamState evs in
  exists c,
    (step e model before.1).2 = [Chunk c] /\
    map finish (choices c) =
      [Some (if bool_decide (announced_slots before.2 = [])
             then _mapResponseStatus (default no_response (ev_response e))
             else tool_calls)].
Proof.
  intros He before. rewrite step_completed by assumption.
  destruct (run_slots now Date_parse rev_map model evs createStreamState)
    as [_ Hc].
  fold before in Hc. change (functionCallIndex createStreamState) with (-1) in Hc.
  unfold _handleResponseCompleted. eexists. split; [reflexivity|].
  unfold terminal_chunk. rewrite Hc.
  destruct (announced_slots before.2) as [|k ks]; simpl length.
  - change (0 <=? -1 + Z.of_nat 0) with false.
    destruct (_mapUsage _); reflexivity.
  - replace (0 <=? -1 + Z.of_nat (S (length ks))) with true
      by (symmetry; apply Z.leb_le; lia).
    destruct (_mapUsage _); reflexivity.
Qed.

(** The events that carry the fragments of the arguments leave the slot
    where it is and send one entry each. *)
Lemma run_fragments (deltas : list event) :
  forall s,
  Forall (fun d => type d = Some (lit "response.function_call_arguments.delta"))
    deltas ->
  functionCallIndex (run s deltas).1 = functionCallIndex s /\
  hasReceivedArgumentsDelta (run s deltas).1 =
    match deltas with [] => hasReceivedArgumentsDelta s | _ => true end /\
  map fragment (tool_entries (run s deltas).2) =
    map (fun d => (Some (functionCallIndex s), ev_delta d)) deltas.
Proof.
  induction deltas as [|d deltas IH]; intros s Hd; [easy|].
  apply Forall_cons in Hd as [Hd Hds].
  cbn [convert_all]. rewrite step_arguments_delta by assumption.
  unfold _handleArgumentsDelta.
  set (s1 := {| responseId := responseId s; createdAt := createdAt s;
                st_model := st_model s;
                functionCallIndex := functionCallIndex s;
                hasReceivedArgumentsDelta := true;
                hasToolCallAnnounced := hasToolCallAnnounced s;
                roleSent := roleSent s |}).
  pose proof (tool_entries_emit s1
    [ {| tc_index := Some (functionCallIndex s1); tc_id := None;
         tc_type := None; tc_name := None;
         tc_arguments := ev_delta d |} ]) as He.
  pose proof (emit_counter now model s1) as Hcount.
  assert (Hflag : forall fields,
    hasReceivedArgumentsDelta (_emitChunk now s1 model fields).1 = true).
  { intros fields. unfold _emitChunk. destruct (negb (roleSent s1));
      reflexivity. }
  specialize (Hcount (ToolCalls
    [ {| tc_index := Some (functionCallIndex s1); tc_id := None;
         tc_type := None; tc_name := None;
         tc_arguments := ev_delta d |} ])).
  specialize (Hflag (ToolCalls
    [ {| tc_index := Some (functionCallIndex s1); tc_id := None;
         tc_type := None; tc_name := None;
         tc_arguments := ev_delta d |} ])).
  destruct (_emitChunk now s1 model _) as [s2 o1].
  destruct (IH s2 Hds) as (IH1 & IH2 & IH3).
  destruct (run s2 deltas) as [s3 o2]. simpl in *.
  rewrite tool_entries_app, map_app, He, IH3, IH1, Hcount.
  repeat split. rewrite IH2, Hflag. now destruct deltas.
Qed.

(** X10. The arguments of a call reach the client once.  A function call
    that is added, streams fragments and is done gives, in the next slot,
    an entry with empty arguments and one entry for each fragment; the
    whole arguments of [done] are written only when no fragment came. *)
Theorem arguments_streamed_once (s : state) (added : event)
    (deltas : list event) (done : event) :
  type added = Some (lit "response.output_item.added") ->
  is_Some (function_call_item added) ->
  Forall (fun d => type d = Some (lit "response.function_call_arguments.delta"))
    deltas ->
  type done = Some (lit "response.function_call_arguments.done") ->
  let slot := Some (functionCallIndex s + 1) in
  map fragment (tool_entries (run s (added :: deltas ++ [done])).2) =
    (slot, []) :: map (fun d => (slot, ev_delta d)) deltas
    ++ match deltas with
       | [] => [(slot, or_else (ev_arguments done) (lit "{}"))]
       | _ => []
       end.
Proof.
  intros Ha [it Hit] Hd Hdone slot.
  cbn [convert_all]. rewrite step_added by assumption.
  unfold _handleOutputItemAdded. rewrite Hit.
  set (s1 := {| responseId := responseId s; createdAt := createdAt s;
                st_model := st_model s;
                functionCallIndex := functionCallIndex s + 1;
                hasReceivedArgumentsDelta := false;
                hasToolCallAnnounced := true;
                roleSent := roleSent s |}).
  set (call := {| tc_index := Some (functionCallIndex s1);
                  tc_id := first_given (call_id it) (item_id it);
                  tc_type := Some (lit "function");
                  tc_name := Some (ToolNames._restoreToolName rev_map
                                     (item_name it));
                  tc_arguments := [] |}).
  pose proof (tool_entries_emit s1 [call]) as He.
  pose proof (emit_counter now model s1 (ToolCalls [call])) as Hcount.
  assert (Hflag :
    hasReceivedArgumentsDelta (_emitChunk now s1 model (ToolCalls [call])).1
    = false).
  { unfold _emitChunk. destruct (negb (roleSent s1)); reflexivity. }
  destruct (_emitChunk now s1 model (ToolCalls [call])) as [s2 o1].
  simpl in He, Hcount, Hflag.
  assert (Hrun : forall l1 l2 st,
    run st (l1 ++ l2) =
      let '(st1, out1) := run st l1 in
      let '(st2, out2) := run st1 l2 in (st2, out1 ++ out2)).
  { induction l1 as [|x l1 IH]; intros l2 st; cbn [app convert_all].
    - destruct (run st l2). reflexivity.
    - destruct (step x model st) as [st1 out1]. rewrite IH.
      destruct (run st1 l1) as [st2 out2].
      destruct (run st2 l2) as [st3 out3]. now rewrite app_assoc. }
  rewrite Hrun.
  destruct (run_fragments deltas s2 Hd) as (H1 & H2 & H3).
  destruct (run s2 deltas) as [s3 o2]. simpl in H1, H2, H3.
  cbn [convert_all]. rewrite step_arguments_done by assumption.
  unfold _handleArgumentsDone. rewrite H2, Hflag.
  rewrite Hcount in H1, H3.
  destruct deltas as [|d deltas].
  - pose proof (tool_entries_emit s3
      [ {| tc_index := Some (functionCallIndex s3); tc_id := None;
           tc_type := None; tc_name := None;
           tc_arguments := or_else (ev_arguments done) (lit "{}") |} ])
      as He3.
    destruct (_emitChunk now s3 model _) as [s4 o3].
    simpl in He3 |- *.
    rewrite !tool_entries_app, !map_app, He, H3, app_nil_r, He3, H1.
    reflexivity.
  - simpl. rewrite !tool_entries_app, !map_app, He, H3.
    simpl. now rewrite !app_nil_r.
Qed.

Local Abbreviation made_from := (Entries.made_from now model).

Lemma emit_metadata (s : state) (fields : delta_body) :
  responseId (_emitChunk now s model fields).1 = responseId s /\
  createdAt (_emitChunk now s model fields).1 = createdAt s /\
  st_model (_emitChunk now s model fields).1 = st_model s /\
  Forall (made_from s) (chunks_of (_emitChunk now s model fields).2).
Proof.
  unfold _emitChunk, Entries.made_from.
  destruct (negb (roleSent s)); simpl; repeat split; repeat constructor.
Qed.

Local Ltac by_emit :=
  match goal with
  | |- context [_emitChunk now ?s1 model ?f] =>
      let Hm := fresh in
      pose proof (emit_metadata s1 f) as Hm;
      destruct (_emitChunk now s1 model f); exact Hm
  end.

(** An event that is not [response.created] leaves the identity of the
    response in the state, and every chunk is made from the state. *)
Lemma step_keeps_metadata (e : event) (s : state) :
  type e <> Some (lit "response.created") ->
  responseId (step e model s).1 = responseId s /\
  createdAt (step e model s).1 = createdAt s /\
  st_model (step e model s).1 = st_model s /\
  Forall (made_from s) (chunks_of (step e model s).2).
Proof.
  intros Hne. unfold convertStreamChunk.
  destruct (negb (given (type e))); [simpl; repeat split; constructor|].
  destruct (decide (default [] (type e) = lit "response.created")) as [Hc|_].
  { exfalso. apply Hne. destruct (type e) as [t|]; [now rewrite <- Hc|].
    discriminate Hc. }
  destruct (decide _); [by_emit|].
  destruct (decide _); [simpl; repeat split; constructor|].
  destruct (decide _); [by_emit|].
  destruct (decide _).
  { unfold _handleOutputItemAdded.
    destruct (function_call_item e); [by_emit|].
    simpl; repeat split; constructor. }
  destruct (decide _); [unfold _handleArgumentsDelta; by_emit|].
  destruct (decide _).
  { unfold _handleArgumentsDone.
    destruct (hasReceivedArgumentsDelta s); [|by_emit].
    simpl; repeat split; constructor. }
  destruct (decide _).
  { unfold _handleOutputItemDone.
    destruct (function_call_item e);
      [|simpl; repeat split; constructor].
    destruct (hasToolCallAnnounced s); [|by_emit].
    simpl; repeat split; constructor. }
  assert (Hterm : forall resp, made_from s (terminal_chunk now resp model s)).
  { intros resp. unfold terminal_chunk, Entries.made_from.
    destruct (_mapUsage _); repeat split. }
  destruct (decide _).
  { unfold _handleResponseCompleted. simpl. repeat split.
    constructor; [apply Hterm|constructor]. }
  destruct (decide _).
  { unfold _handleResponseError. destruct (decide _); simpl; repeat split.
    - constructor.
    - constructor; [apply Hterm|constructor]. }
  destruct (decide _); simpl; repeat split; constructor.
Qed.

Lemma run_keeps_metadata (evs : list event) :
  forall s,
  Forall (fun e => type e <> Some (lit "response.created")) evs ->
  Forall (made_from s) (chunks_of (run s evs).2).
Proof.
  induction evs as [|e evs IH]; intros s He; [constructor|].
  apply Forall_cons in He as [He Hes].
  cbn [convert_all].
  destruct (step_keeps_metadata e s He) as (H1 & H2 & H3 & H4).
  destruct (step e model s) as [s1 o1].
  specialize (IH s1 Hes). destruct (run s1 evs) as [s2 o2].
  simpl in *. rewrite chunks_of_app. apply Forall_app. split; [assumption|].
  eapply Forall_impl; [exact IH|].
  intros c. unfold Entries.made_from, _makeChunk. simpl.
  now rewrite H1, H2, H3.
Qed.

(** X11. After [response.created] with an id, a time in seconds that is
    not 0 and a model, every chunk of the stream carries that id and that
    time, and that model, or the requested one when the model of the
    response is the empty string, until another [response.created]
    comes. *)
Theorem chunks_carry_response_metadata (s : state) (e : event)
    (r : response) (i m : str) (n : Z) (evs : list event) :
  type e = Some (lit "response.created") ->
  ev_response e = Some r ->
  resp_id r = Some i -> i <> [] ->
  created_at r = Some (Seconds n) -> n <> 0 ->
  resp_model r = Some m ->
  Forall (fun e' => type e' <> Some (lit "response.created")) evs ->
  Forall (fun c => id c = i /\ created c = n /\
                   Canonical.model c = if JS.nonempty m then m else model)
    (chunks_of (run s (e :: evs)).2).
Proof.
  intros He Hr Hi Hne Hc Hn Hm Hevs.
  cbn [convert_all]. rewrite step_created by assumption.
  unfold _handleResponseCreated. rewrite Hr. simpl.
  rewrite Hi, Hc, Hm.
  set (s1 := {| responseId := _ |}).
  pose proof (run_keeps_metadata evs s1 Hevs) as H.
  destruct (run s1 evs) as [s2 o2]. simpl in *.
  eapply Forall_impl; [exact H|].
  intros c (H1 & H2 & H3). rewrite H1, H2, H3.
  unfold s1, _makeChunk, or_else, _parseCreatedAt. simpl.
  destruct i as [|a i]; [congruence|]. simpl.
  destruct (decide (n = 0)); [congruence|].
  rewrite bool_decide_eq_false_2 by assumption. simpl.
  destruct (decide (n = 0)); [congruence|].
  destruct m; repeat split.
Qed.

End CodexCalls.

(** * The tool calls of a Gemini stream *)

Section GeminiCalls.
Import Gemini Entries.

Variable now : N.
Variable Date_parse : str -> option Z.
Variable model : str.

Local Abbreviation convert := (_convertGeminiChunkToOpenAI now Date_parse).
Local Abbreviation run := (convert_all now Date_parse model).

Lemma call_rule_app (l1 l2 : list chunk) :
  forall called0,
  call_rule called0 (l1 ++ l2) =
    match call_rule called0 l1 with
    | Some called1 => call_rule called1 l2
    | None => None
    end.
Proof.
  induction l1 as [|c l1 IH]; intros called0; simpl; [reflexivity|].
  destruct (choices c) as [|ch chs]; [apply IH|].
  destruct (_ && _ && _); [reflexivity|apply IH].
Qed.

(** What the rule says of a list that keeps it. *)
Lemma call_rule_sound (chunks : list chunk) :
  forall called0 called1,
  call_rule called0 chunks = Some called1 ->
  forall pre c post k,
    chunks = pre ++ c :: post ->
    k ∈ called0 \/ Exists (fun c' => carries_call k c' = true) pre ->
    terminal_for k c = true ->
    finish_of c = Some tool_calls.
Proof.
  induction chunks as [|x chunks IH]; intros called0 called1 Hr pre c post k
    Heq Hk Ht.
  { destruct pre; discriminate Heq. }
  destruct pre as [|y pre]; simpl in Heq; injection Heq as Hx Hrest;
    subst x chunks.
  - (* the chunk at the head *)
    destruct Hk as [Hk|Hk]; [|inversion Hk].
    simpl in Hr. unfold terminal_for in Ht. unfold finish_of.
    destruct (choices c) as [|ch chs] eqn:Ec; [discriminate|].
    apply andb_true_iff in Ht as [Hi Hf].
    apply bool_decide_eq_true in Hi. subst k.
    rewrite Hf in Hr.
    assert (Hin : index ch ∈ (match body (choice_delta ch) with
                              | ToolCalls _ => {[ index ch ]} ∪ called0
                              | _ => called0
                              end)).
    { destruct (body (choice_delta ch)); try assumption.
      apply elem_of_union. now right. }
    rewrite (bool_decide_eq_true_2 _ Hin) in Hr. simpl in Hr.
    destruct (bool_decide (finish ch = Some tool_calls)) eqn:Eb;
      [|discriminate Hr].
    now apply bool_decide_eq_true in Eb.
  - simpl in Hr.
    destruct (choices y) as [|ch chs] eqn:Ex.
    + apply (IH _ _ Hr pre c post k eq_refl); [|assumption].
      destruct Hk as [Hk|Hk]; [now left|].
      apply Exists_cons in Hk as [Hk|Hk]; [|now right].
      unfold carries_call in Hk. rewrite Ex in Hk. discriminate.
    + destruct (_ && _ && _); [discriminate|].
      apply (IH _ _ Hr pre c post k eq_refl); [|assumption].
      destruct Hk as [Hk|Hk].
      * left. destruct (body (choice_delta ch)); try assumption.
        apply elem_of_union. now right.
      * apply Exists_cons in Hk as [Hk|Hk]; [|now right].
        left. unfold carries_call in Hk. rewrite Ex in Hk.
        apply andb_true_iff in Hk as [Hi Hb].
        apply bool_decide_eq_true in Hi. subst k.
        destruct (body (choice_delta ch)); try discriminate.
        apply elem_of_union. left. now apply elem_of_singleton.
Qed.


Lemma call_rule_part (called0 : gset Z) (s : state) (results : list chunk)
    (ci : Z) (d : delta) (sc s1 : state) :
  call_rule called0 results = Some (candidatesWithFunctionCalls s) ->
  candidatesWithFunctionCalls s1 =
    match body d with
    | ToolCalls _ => {[ ci ]} ∪ candidatesWithFunctionCalls s
    | _ => candidatesWithFunctionCalls s
    end ->
  call_rule called0 (results ++ [part_chunk model sc ci d])
  = Some (candidatesWithFunctionCalls s1).
Proof.
  intros Hr Hs. rewrite call_rule_app, Hr. simpl. now rewrite Hs.
Qed.

Lemma inject_calls (s : state) (d : delta) :
  candidatesWithFunctionCalls (_injectRole s d).1
  = candidatesWithFunctionCalls s /\
  functionIndex (_injectRole s d).1 = functionIndex s /\
  body (_injectRole s d).2 = body d.
Proof. unfold _injectRole. destruct (negb (roleSent s)); repeat split. Qed.

Lemma inject_chunk (s : state) (d : delta) :
  _makeChunk (_injectRole s d).1 model = _makeChunk s model.
Proof. unfold _injectRole. destruct (negb (roleSent s)); reflexivity. Qed.

Local Ltac part_cases p :=
  unfold convert_part;
  destruct (signature_only p); [|
  destruct (part_functionCall p) as [f|]; [|
  destruct (text p) as [t|]; [|
  destruct (inline_of p) as [inlined|]; [
  destruct (given (data inlined))|]]]].

Lemma convert_part_calls (called0 : gset Z) (ci : Z) (p : part)
    (acc : state * list chunk) :
  call_rule called0 acc.2 = Some (candidatesWithFunctionCalls acc.1) ->
  let next := convert_part now model ci acc p in
  call_rule called0 next.2 = Some (candidatesWithFunctionCalls next.1).
Proof.
  destruct acc as [s results]. cbn [fst snd]. intros H.
  part_cases p; try exact H.
  - match goal with
    | |- context [_injectRole ?s1 ?d] =>
        pose proof (inject_calls s1 d) as (Hc & _ & Hb);
        destruct (_injectRole s1 d) as [s2 d']
    end.
    cbn [fst snd] in *. rewrite part_chunk_eq.
    apply (call_rule_part called0 s); [assumption|].
    rewrite Hb. cbn [body next_function candidatesWithFunctionCalls].
    rewrite Hc. reflexivity.
  - match goal with
    | |- context [_injectRole ?s1 ?d] =>
        pose proof (inject_calls s1 d) as (Hc & _ & Hb);
        destruct (_injectRole s1 d) as [s2 d']
    end.
    cbn [fst snd] in *. rewrite part_chunk_eq.
    apply (call_rule_part called0 s); [assumption|].
    rewrite Hb, Hc. cbn [body]. now destruct (thought p).
  - match goal with
    | |- context [_injectRole ?s1 ?d] =>
        pose proof (inject_calls s1 d) as (Hc & _ & Hb);
        destruct (_injectRole s1 d) as [s2 d']
    end.
    cbn [fst snd] in *. rewrite part_chunk_eq.
    apply (call_rule_part called0 s); [assumption|].
    rewrite Hb, Hc. reflexivity.
Qed.

Lemma fold_parts_calls (called0 : gset Z) (ci : Z) (ps : list part) :
  forall acc,
  call_rule called0 acc.2 = Some (candidatesWithFunctionCalls acc.1) ->
  let next := fold_left (convert_part now model ci) ps acc in
  call_rule called0 next.2 = Some (candidatesWithFunctionCalls next.1).
Proof.
  induction ps as [|p ps IH]; intros acc H; [assumption|].
  simpl. apply IH, convert_part_calls, H.
Qed.

Lemma convert_candidate_calls (called0 : gset Z) (d : response) (i : nat)
    (c : candidate) (acc : state * list chunk) :
  call_rule called0 acc.2 = Some (candidatesWithFunctionCalls acc.1) ->
  let next := convert_candidate now model d acc i c in
  call_rule called0 next.2 = Some (candidatesWithFunctionCalls next.1).
Proof.
  intros H. unfold convert_candidate.
  set (ci := match cand_index c with Some j => j | None => Z.of_nat i end).
  pose proof (fold_parts_calls called0 ci (parts c) acc H) as Hp.
  destruct (fold_left _ (parts c) acc) as [s results].
  cbn [fst snd] in Hp |- *.
  destruct (given (finishReason c)); [|exact Hp].
  cbn [fst snd]. rewrite call_rule_app, Hp.
  destruct (decide (ci ∈ candidatesWithFunctionCalls s)) as [Hin|Hout].
  - destruct (meta d); simpl;
      rewrite (bool_decide_eq_true_2 _ Hin); reflexivity.
  - destruct (meta d); simpl;
      rewrite (bool_decide_eq_false_2 _ Hout); reflexivity.
Qed.

Lemma for_candidates_calls (called0 : gset Z) (d : response)
    (cs : list candidate) :
  forall i acc,
  call_rule called0 acc.2 = Some (candidatesWithFunctionCalls acc.1) ->
  let next := for_candidates now model d i cs acc in
  call_rule called0 next.2 = Some (candidatesWithFunctionCalls next.1).
Proof.
  induction cs as [|c cs IH]; intros i acc H; [assumption|].
  cbn [for_candidates]. apply IH, convert_candidate_calls, H.
Qed.

Lemma update_metadata_calls (d : response) (s : state) :
  candidatesWithFunctionCalls (update_metadata now Date_parse d s)
  = candidatesWithFunctionCalls s /\
  functionIndex (update_metadata now Date_parse d s) = functionIndex s.
Proof.
  unfold update_metadata.
  destruct (given (responseId d)), (given (modelVersion d)),
    (given (createTime d)); try (split; reflexivity);
    destruct (decide _); split; reflexivity.
Qed.

(** A payload that is not usage alone. *)
Lemma convert_calls (g : geminiData) (s : state) :
  candidates (unwrap g) <> [] \/ meta (unwrap g) = None ->
  call_rule (candidatesWithFunctionCalls s) (convert g model s).2
  = Some (candidatesWithFunctionCalls (convert g model s).1).
Proof.
  intros Hg. unfold _convertGeminiChunkToOpenAI.
  destruct (update_metadata_calls (unwrap g) s) as [Hu _].
  set (s0 := update_metadata now Date_parse (unwrap g) s) in *.
  assert (H0 : call_rule (candidatesWithFunctionCalls s)
                 (s0, @nil chunk).2
               = Some (candidatesWithFunctionCalls (s0, @nil chunk).1)).
  { simpl. now rewrite Hu. }
  destruct (candidates (unwrap g)) as [|c cs] eqn:Ec.
  - destruct Hg as [Hg|Hg]; [congruence|]. rewrite Hg. exact H0.
  - apply (for_candidates_calls _ (unwrap g) (c :: cs) 0 (s0, []) H0).
Qed.

Lemma run_calls (gs : list geminiData) :
  forall s,
  Forall (fun g => candidates (unwrap g) <> [] \/ meta (unwrap g) = None) gs ->
  call_rule (candidatesWithFunctionCalls s) (run s gs).2
  = Some (candidatesWithFunctionCalls (run s gs).1).
Proof.
  induction gs as [|g gs IH]; intros s Hg; [reflexivity|].
  apply Forall_cons in Hg as [Hg Hgs].
  cbn [convert_all].
  pose proof (convert_calls g s Hg) as H1.
  destruct (convert g model s) as [s1 out1].
  specialize (IH s1 Hgs). destruct (run s1 gs) as [s2 out2].
  cbn [fst snd] in *. now rewrite call_rule_app, H1.
Qed.

(** X12. In a Gemini stream from a fresh state, whose payloads have a
    candidate or no usage, a chunk that ends a choice after a chunk of
    that choice carried a tool call has the finish reason [tool_calls],
    whatever reason the backend gave. *)
Theorem called_choice_ends_with_tool_calls (gs : list geminiData)
    (pre post : list chunk) (c : chunk) (k : Z) :
  Forall (fun g => candidates (unwrap g) <> [] \/ meta (unwrap g) = None) gs ->
  (run (createStreamState now) gs).2 = pre ++ c :: post ->
  Exists (fun c' => carries_call k c' = true) pre ->
  terminal_for k c = true ->
  finish_of c = Some tool_calls.
Proof.
  intros Hg Heq Hpre Ht.
  pose proof (run_calls gs (createStreamState now) Hg) as Hr.
  apply (call_rule_sound _ _ _ Hr pre c post k Heq); [now right|assumption].
Qed.

(** The exception: a payload of usage alone ends choice 0 with [stop],
    whatever the choice has called. *)
Lemma usage_alone_ends_with_stop (g : geminiData) (s : state)
    (u : usageMetadata) :
  candidates (unwrap g) = [] -> meta (unwrap g) = Some u ->
  map (fun c => (terminal_for 0 c, finish_of c)) (convert g model s).2
  = [(true, Some stop)].
Proof.
  intros Hc Hm. unfold _convertGeminiChunkToOpenAI. rewrite Hc, Hm.
  reflexivity.
Qed.


(** ** The stream and the message of one candidate *)

Lemma body_of_part_chunk (s : state) (ci : Z) (d : delta) :
  body_of (part_chunk model s ci d) = body d.
Proof. reflexivity. Qed.

Lemma texts_in_snoc (l : list chunk) (c : chunk) :
  texts_in (l ++ [c]) =
    texts_in l ++ match body_of c with Content t => [t] | _ => [] end.
Proof.
  unfold texts_in. rewrite omap_app. simpl. now destruct (body_of c).
Qed.

Lemma thoughts_in_snoc (l : list chunk) (c : chunk) :
  thoughts_in (l ++ [c]) =
    thoughts_in l ++ match body_of c with Reasoning t => [t] | _ => [] end.
Proof.
  unfold thoughts_in. rewrite omap_app. simpl. now destruct (body_of c).
Qed.

Lemma calls_in_snoc (l : list chunk) (c : chunk) :
  calls_in (l ++ [c]) = calls_in l ++ entries_in c.
Proof.
  unfold calls_in. rewrite map_app, concat_app. simpl. now rewrite app_nil_r.
Qed.

Lemma urls_in_snoc (l : list chunk) (c : chunk) :
  urls_in (l ++ [c]) =
    urls_in l ++ match body_of c with
                 | Images imgs => map img_url imgs
                 | _ => []
                 end.
Proof.
  unfold urls_in. rewrite map_app, concat_app. simpl. now rewrite app_nil_r.
Qed.

(** What the chunks gathered so far and the parts collected so far have
    in common, and where the call of choice [ci] is recorded. *)
Lemma convert_part_agrees (called0 : gset Z) (ci : Z) (p : part)
    (acc : state * list chunk) (got : collected) :
  texts_in acc.2 = textParts got /\
  thoughts_in acc.2 = thoughtParts got /\
  map called (calls_in acc.2) = map called (toolCalls got) /\
  urls_in acc.2 = map img_url (images got) /\
  (ci ∈ candidatesWithFunctionCalls acc.1 <->
   ci ∈ called0 \/ toolCalls got <> []) ->
  let next := convert_part now model ci acc p in
  let got' := collect_part now got p in
  texts_in next.2 = textParts got' /\
  thoughts_in next.2 = thoughtParts got' /\
  map called (calls_in next.2) = map called (toolCalls got') /\
  urls_in next.2 = map img_url (images got') /\
  (ci ∈ candidatesWithFunctionCalls next.1 <->
   ci ∈ called0 \/ toolCalls got' <> []).
Proof.
  destruct acc as [s results]. cbn [fst snd].
  intros (H1 & H2 & H3 & H4 & H5).
  unfold collect_part. part_cases p; try (repeat split; tauto).
  - match goal with
    | |- context [_injectRole ?s1 ?d] =>
        pose proof (inject_calls s1 d) as (Hc & _ & Hb);
        destruct (_injectRole s1 d) as [s2 d']
    end.
    cbn [fst snd] in *. rewrite part_chunk_eq.
    rewrite texts_in_snoc, thoughts_in_snoc, calls_in_snoc, urls_in_snoc.
    unfold entries_in. rewrite body_of_part_chunk, Hb. cbn [body].
    cbn [textParts thoughtParts toolCalls images].
    rewrite !app_nil_r, !map_app, H3.
    repeat split; try assumption.
    + intros _. right. now destruct (toolCalls got).
    + intros _. cbn [next_function candidatesWithFunctionCalls].
      rewrite Hc. cbn [with_call_of candidatesWithFunctionCalls].
      apply elem_of_union. left. now apply elem_of_singleton.
  - match goal with
    | |- context [_injectRole ?s1 ?d] =>
        pose proof (inject_calls s1 d) as (Hc & _ & Hb);
        destruct (_injectRole s1 d) as [s2 d']
    end.
    cbn [fst snd] in *. rewrite part_chunk_eq.
    rewrite texts_in_snoc, thoughts_in_snoc, calls_in_snoc, urls_in_snoc.
    unfold entries_in. rewrite body_of_part_chunk, Hb, Hc. cbn [body].
    destruct (thought p); cbn [textParts thoughtParts toolCalls images];
      rewrite ?app_nil_r, ?H1, ?H2; repeat split; tauto.
  - match goal with
    | |- context [_injectRole ?s1 ?d] =>
        pose proof (inject_calls s1 d) as (Hc & _ & Hb);
        destruct (_injectRole s1 d) as [s2 d']
    end.
    cbn [fst snd] in *. rewrite part_chunk_eq.
    rewrite texts_in_snoc, thoughts_in_snoc, calls_in_snoc, urls_in_snoc.
    unfold entries_in. rewrite body_of_part_chunk, Hb, Hc. cbn [body].
    cbn [textParts thoughtParts toolCalls images].
    rewrite ?app_nil_r, !map_app, H4. repeat split; tauto.
Qed.

Lemma fold_parts_agree (called0 : gset Z) (ci : Z) (ps : list part) :
  forall acc got,
  texts_in acc.2 = textParts got /\
  thoughts_in acc.2 = thoughtParts got /\
  map called (calls_in acc.2) = map called (toolCalls got) /\
  urls_in acc.2 = map img_url (images got) /\
  (ci ∈ candidatesWithFunctionCalls acc.1 <->
   ci ∈ called0 \/ toolCalls got <> []) ->
  let next := fold_left (convert_part now model ci) ps acc in
  let got' := fold_left (collect_part now) ps got in
  texts_in next.2 = textParts got' /\
  thoughts_in next.2 = thoughtParts got' /\
  map called (calls_in next.2) = map called (toolCalls got') /\
  urls_in next.2 = map img_url (images got') /\
  (ci ∈ candidatesWithFunctionCalls next.1 <->
   ci ∈ called0 \/ toolCalls got' <> []).
Proof.
  induction ps as [|p ps IH]; intros acc got H; [exact H|].
  simpl. apply IH, convert_part_agrees, H.
Qed.

(** X13. A candidate converted as a stream and as a whole agree: the
    text, the reasoning text, the names and arguments of the tool calls
    and the images of the message are those of the deltas, in order. *)
Theorem stream_agrees_with_message (d : response) (s : state) (i : nat)
    (c : candidate) :
  let out := (convert_candidate now model d (s, []) i c).2 in
  let m := mc_message (convert_choice now i c) in
  msg_content m = unless_empty (texts_in out) (concat (texts_in out)) /\
  msg_reasoning_content m
  = unless_empty (thoughts_in out) (concat (thoughts_in out)) /\
  map called (default [] (msg_tool_calls m)) = map called (calls_in out) /\
  map img_url (default [] (msg_images m)) = urls_in out.
Proof.
  unfold convert_candidate, convert_choice.
  set (ci := match cand_index c with Some j => j | None => Z.of_nat i end).
  set (got0 := {| textParts := []; thoughtParts := []; toolCalls := [];
                  images := []; fnIndex := 0%N |}).
  destruct (fold_parts_agree (candidatesWithFunctionCalls s) ci (parts c)
              (s, []) got0) as (H1 & H2 & H3 & H4 & _).
  { repeat split; try tauto; try (intros [H|H]; [exact H|now destruct H]). }
  destruct (fold_left _ (parts c) (s, [])) as [s1 results].
  set (got := fold_left (collect_part now) (parts c) got0) in *.
  cbn [fst snd] in H1, H2, H3, H4.
  assert (Hout : forall e : chunk, body_of e = NoFields ->
    texts_in (results ++ [e]) = textParts got /\
    thoughts_in (results ++ [e]) = thoughtParts got /\
    map called (calls_in (results ++ [e])) = map called (toolCalls got) /\
    urls_in (results ++ [e]) = map img_url (images got)).
  { intros e He.
    rewrite texts_in_snoc, thoughts_in_snoc, calls_in_snoc, urls_in_snoc.
    unfold entries_in. rewrite He, !app_nil_r. auto. }
  assert (Hm : forall A (l : list A), default [] (unless_empty l l) = l).
  { now intros A [|x l]. }
  cbv zeta. cbn [mc_message msg_content msg_reasoning_content msg_tool_calls
                   msg_images].
  rewrite !Hm.
  destruct (given (finishReason c)); cbn [snd].
  - match goal with
    | |- context [results ++ [?e]] =>
        destruct (Hout e) as (E1 & E2 & E3 & E4);
          [now destruct (meta d)|]
    end.
    rewrite E1, E2, E3, E4. auto.
  - rewrite H1, H2, H3, H4. auto.
Qed.

(** X14. For a candidate with a finish reason, of a choice that has not
    called a tool before, the last chunk of the stream conversion names
    the finish reason of the whole conversion. *)
Theorem finish_agrees_with_message (d : response) (s : state) (i : nat)
    (c : candidate) :
  given (finishReason c) = true ->
  match cand_index c with Some j => j | None => Z.of_nat i end
    ∉ candidatesWithFunctionCalls s ->
  exists e,
    last (convert_candidate now model d (s, []) i c).2 = Some e /\
    finish_of e = Some (mc_finish (convert_choice now i c)).
Proof.
  intros Hf Hs. unfold convert_candidate, convert_choice.
  set (ci := match cand_index c with Some j => j | None => Z.of_nat i end)
    in *.
  set (got0 := {| textParts := []; thoughtParts := []; toolCalls := [];
                  images := []; fnIndex := 0%N |}).
  destruct (fold_parts_agree (candidatesWithFunctionCalls s) ci (parts c)
              (s, []) got0) as (_ & _ & _ & _ & H5).
  { repeat split; try tauto; try (intros [H|H]; [exact H|now destruct H]). }
  destruct (fold_left _ (parts c) (s, [])) as [s1 results].
  set (got := fold_left (collect_part now) (parts c) got0) in *.
  cbn [fst snd] in H5. rewrite Hf. cbn [snd mc_finish].
  eexists. split; [apply last_snoc|].
  destruct (decide (ci ∈ candidatesWithFunctionCalls s1)) as [Hin|Hout].
  - apply H5 in Hin as [Hin|Hin]; [contradiction|].
    destruct (toolCalls got); [congruence|]. now destruct (meta d).
  - destruct (toolCalls got) as [|tc tcs].
    + now destruct (meta d).
    + exfalso. apply Hout, H5. now right.
Qed.

(** X15. A part that carries a signature and no text, call or image
    leaves no trace: with or without such parts a candidate converts to
    the same chunks, the same state and the same message. *)
Theorem signature_parts_leave_no_trace (d : response) (i : nat)
    (c : candidate) (acc : state * list chunk) :
  let kept :=
    {| cand_index := cand_index c;
       parts := List.filter (fun p => negb (signature_only p)) (parts c);
       finishReason := finishReason c |} in
  convert_candidate now model d acc i c
  = convert_candidate now model d acc i kept /\
  convert_choice now i c = convert_choice now i kept.
Proof.
  assert (Hfold : forall A (f : A -> part -> A),
    (forall a p, signature_only p = true -> f a p = a) ->
    forall ps a,
      fold_left f (List.filter (fun p => negb (signature_only p)) ps) a
      = fold_left f ps a).
  { intros A f Hf. induction ps as [|p ps IH]; intros a; [reflexivity|].
    simpl. destruct (signature_only p) eqn:E; simpl.
    - now rewrite Hf.
    - apply IH. }
  cbv zeta. unfold convert_candidate, convert_choice. cbn [parts cand_index
    finishReason].
  rewrite !Hfold; [split; reflexivity| |].
  - intros a p E. unfold collect_part. now rewrite E.
  - intros [s results] p E. unfold convert_part. now rewrite E.
Qed.


(** ** The numbering of the tool calls of a stream *)

Lemma digit_not_hyphen (n : N) : (n < 10)%N -> JS.digit n <> "-"%char.
Proof.
  intros H E. apply (f_equal N_of_ascii) in E.
  unfold JS.digit in E. rewrite N_ascii_embedding in E by lia.
  vm_compute (N_of_ascii "-") in E. lia.
Qed.

Lemma dec_fuel_no_hyphen (f : nat) (n : N) : "-"%char ∉ JS.dec_fuel f n.
Proof.
  revert n. induction f as [|f IH]; intros n; cbn [JS.dec_fuel].
  - intros H%list_elem_of_singleton. symmetry in H. revert H.
    apply digit_not_hyphen, N.mod_lt; lia.
  - destruct (N.ltb_spec n 10).
    + intros E%list_elem_of_singleton. symmetry in E. revert E.
      now apply digit_not_hyphen.
    + intros [E|E%list_elem_of_singleton]%elem_of_app.
      * now apply (IH (n / 10)%N).
      * symmetry in E. revert E. apply digit_not_hyphen, N.mod_lt; lia.
Qed.

Lemma call_id_inj (n1 n2 : str) (k1 k2 : N) :
  n1 ++ lit "-" ++ JS.dec now ++ lit "-" ++ JS.dec k1
  = n2 ++ lit "-" ++ JS.dec now ++ lit "-" ++ JS.dec k2 ->
  k1 = k2.
Proof.
  intros H.
  change (lit "-" ++ JS.dec now ++ lit "-" ++ JS.dec k1)
    with ("-"%char :: JS.dec now ++ "-"%char :: JS.dec k1) in H.
  change (lit "-" ++ JS.dec now ++ lit "-" ++ JS.dec k2)
    with ("-"%char :: JS.dec now ++ "-"%char :: JS.dec k2) in H.
  rewrite !app_comm_cons, !app_assoc in H.
  apply not_elem_of_app_cons_inv_r in H as (_ & _ & H);
    [now apply dec_inj| |]; apply dec_fuel_no_hyphen.
Qed.

Lemma numbered_same (i0 : Z) (k : N) (calls : list tool_call) (k' : N) :
  k' = k -> numbered now i0 k calls -> numbered now i0 k' calls.
Proof. now intros ->. Qed.

Lemma numbered_snoc (i0 : Z) (k : N) (calls : list tool_call) (name : str)
    (tc : tool_call) :
  tc_index tc = Some (Z.of_N k) ->
  tc_id tc = Some (name ++ lit "-" ++ JS.dec now ++ lit "-" ++ JS.dec k) ->
  numbered now i0 k calls ->
  numbered now i0 (k + 1) (calls ++ [tc]).
Proof.
  intros Hi Hid (H1 & H2 & H3). repeat split.
  - rewrite map_app, H1. simpl. rewrite Hi.
    replace (Z.of_N (k + 1) - i0) with ((Z.of_N k - i0) + 1) by lia.
    rewrite seqZ_app by lia. rewrite map_app. simpl.
    do 3 f_equal. lia.
  - lia.
  - apply Forall_app. split; [assumption|].
    constructor; [|constructor]. exists name, k. auto.
Qed.

Lemma convert_part_numbered (i0 : Z) (ci : Z) (p : part)
    (acc : state * list chunk) :
  numbered now i0 (functionIndex acc.1) (calls_in acc.2) ->
  let next := convert_part now model ci acc p in
  numbered now i0 (functionIndex next.1) (calls_in next.2).
Proof.
  destruct acc as [s results]. cbn [fst snd]. intros H.
  part_cases p; try exact H.
  - match goal with
    | |- context [_injectRole ?s1 ?d] =>
        pose proof (inject_calls s1 d) as (_ & Hc & Hb);
        destruct (_injectRole s1 d) as [s2 d']
    end.
    cbn [fst snd] in *. rewrite part_chunk_eq, calls_in_snoc.
    unfold entries_in. rewrite body_of_part_chunk, Hb. cbn [body].
    cbn [next_function functionIndex]. rewrite Hc.
    cbn [with_call_of functionIndex].
    apply (numbered_snoc i0 _ _ (fc_name f)); [reflexivity|reflexivity|exact H].
  - match goal with
    | |- context [_injectRole ?s1 ?d] =>
        pose proof (inject_calls s1 d) as (_ & Hc & Hb);
        destruct (_injectRole s1 d) as [s2 d']
    end.
    cbn [fst snd] in *. rewrite part_chunk_eq, calls_in_snoc.
    unfold entries_in. rewrite body_of_part_chunk, Hb, Hc. cbn [body].
    destruct (thought p); now rewrite app_nil_r.
  - match goal with
    | |- context [_injectRole ?s1 ?d] =>
        pose proof (inject_calls s1 d) as (_ & Hc & Hb);
        destruct (_injectRole s1 d) as [s2 d']
    end.
    cbn [fst snd] in *. rewrite part_chunk_eq, calls_in_snoc.
    unfold entries_in. rewrite body_of_part_chunk, Hb, Hc. cbn [body].
    now rewrite app_nil_r.
Qed.

Lemma fold_parts_numbered (i0 : Z) (ci : Z) (ps : list part) :
  forall acc,
  numbered now i0 (functionIndex acc.1) (calls_in acc.2) ->
  let next := fold_left (convert_part now model ci) ps acc in
  numbered now i0 (functionIndex next.1) (calls_in next.2).
Proof.
  induction ps as [|p ps IH]; intros acc H; [assumption|].
  simpl. apply IH, convert_part_numbered, H.
Qed.

Lemma convert_candidate_numbered (i0 : Z) (d : response) (i : nat)
    (c : candidate) (acc : state * list chunk) :
  numbered now i0 (functionIndex acc.1) (calls_in acc.2) ->
  let next := convert_candidate now model d acc i c in
  numbered now i0 (functionIndex next.1) (calls_in next.2).
Proof.
  intros H. unfold convert_candidate.
  set (ci := match cand_index c with Some j => j | None => Z.of_nat i end).
  pose proof (fold_parts_numbered i0 ci (parts c) acc H) as Hp.
  destruct (fold_left _ (parts c) acc) as [s results].
  cbn [fst snd] in Hp |- *.
  destruct (given (finishReason c)); [|exact Hp].
  cbn [fst snd]. rewrite calls_in_snoc.
  replace (entries_in _) with (@nil tool_call) by (now destruct (meta d)).
  now rewrite app_nil_r.
Qed.

Lemma for_candidates_numbered (i0 : Z) (d : response) (cs : list candidate) :
  forall i acc,
  numbered now i0 (functionIndex acc.1) (calls_in acc.2) ->
  let next := for_candidates now model d i cs acc in
  numbered now i0 (functionIndex next.1) (calls_in next.2).
Proof.
  induction cs as [|c cs IH]; intros i acc H; [assumption|].
  cbn [for_candidates]. apply IH, convert_candidate_numbered, H.
Qed.

Lemma numbered_nil (k : N) : numbered now (Z.of_N k) k [].
Proof.
  repeat split; [|lia|constructor].
  now rewrite Z.sub_diag.
Qed.

Lemma numbered_app (i0 : Z) (k1 k2 : N) (l1 l2 : list tool_call) :
  numbered now i0 k1 l1 -> numbered now (Z.of_N k1) k2 l2 ->
  numbered now i0 k2 (l1 ++ l2).
Proof.
  intros (A1 & A2 & A3) (B1 & B2 & B3). repeat split.
  - rewrite map_app, A1, B1, <- map_app. f_equal.
    replace (Z.of_N k2 - i0) with ((Z.of_N k1 - i0) + (Z.of_N k2 - Z.of_N k1))
      by lia.
    rewrite seqZ_app by lia. do 2 f_equal. lia.
  - lia.
  - now apply Forall_app.
Qed.

Lemma convert_numbered (g : geminiData) (s : state) :
  numbered now (Z.of_N (functionIndex s))
    (functionIndex (convert g model s).1) (calls_in (convert g model s).2).
Proof.
  unfold _convertGeminiChunkToOpenAI.
  destruct (update_metadata_calls (unwrap g) s) as [_ Hu].
  set (s0 := update_metadata now Date_parse (unwrap g) s) in *.
  assert (H0 : numbered now (Z.of_N (functionIndex s))
                 (functionIndex (s0, @nil chunk).1)
                 (calls_in (s0, @nil chunk).2)).
  { cbn [fst snd]. rewrite Hu. apply numbered_nil. }
  destruct (candidates (unwrap g)) as [|c cs] eqn:Ec.
  - destruct (meta (unwrap g)); exact H0.
  - apply (for_candidates_numbered _ (unwrap g) (c :: cs) 0 (s0, []) H0).
Qed.

Lemma run_numbered (gs : list geminiData) :
  forall s,
  numbered now (Z.of_N (functionIndex s))
    (functionIndex (run s gs).1) (calls_in (run s gs).2).
Proof.
  induction gs as [|g gs IH]; intros s; [apply numbered_nil|].
  cbn [convert_all].
  pose proof (convert_numbered g s) as H1.
  destruct (convert g model s) as [s1 out1].
  specialize (IH s1). destruct (run s1 gs) as [s2 out2].
  cbn [fst snd] in *. unfold calls_in. rewrite map_app, concat_app.
  now apply (numbered_app _ (functionIndex s1)).
Qed.

(** X16. The tool calls of a Gemini stream from a fresh state are
    numbered 0, 1, 2, ... in the order they are sent, over all payloads
    and candidates, and no two have the same identifier. *)
Theorem gemini_calls_numbered (gs : list geminiData) :
  let calls := calls_in (run (createStreamState now) gs).2 in
  map tc_index calls = map Some (seqZ 0 (Z.of_nat (length calls))) /\
  NoDup (map tc_id calls).
Proof.
  intros calls.
  destruct (run_numbered gs (createStreamState now)) as (H1 & H2 & H3).
  fold calls in H1, H3.
  change (Z.of_N (functionIndex (createStreamState now))) with 0 in *.
  rewrite Z.sub_0_r in H1.
  assert (Hlen : Z.of_N (functionIndex (run (createStreamState now) gs).1)
                 = Z.of_nat (length calls)).
  { apply (f_equal length) in H1. rewrite !length_map, length_seqZ in H1.
    lia. }
  rewrite Hlen in H1. split; [exact H1|].
  assert (Hnd : NoDup (map tc_index calls)).
  { rewrite H1. apply NoDup_fmap_2; [intros x y [= ->]; reflexivity|].
    apply NoDup_seqZ. }
  clear H1 Hlen H2. induction calls as [|tc calls IH]; [constructor|].
  apply Forall_cons in H3 as [(name & k & Hi & Hid) H3].
  simpl in Hnd. apply NoDup_cons in Hnd as [Hnotin Hnd].
  simpl. constructor; [|now apply IH].
  intros Hin. apply Hnotin.
  apply list_elem_of_fmap in Hin as (tc' & Heq & Hin').
  apply list_elem_of_fmap. exists tc'. split; [|assumption].
  rewrite Forall_forall in H3.
  destruct (H3 tc' Hin') as (name' & k' & Hi' & Hid').
  rewrite Hi, Hi'. rewrite Hid, Hid' in Heq. injection Heq as Heq.
  apply call_id_inj in Heq. now rewrite Heq.
Qed.

End GeminiCalls.

(** * The choice of a backend *)
Section Routes.
Import Dispatch.

Variable hasPermission : str -> bool.

Lemma detect_cases (m : option str) :
  detectBackendFromModel m = lit "claude" \/
  detectBackendFromModel m = lit "gemini" \/
  detectBackendFromModel m = lit "openai".
Proof.
  unfold detectBackendFromModel. destruct m as [m|]; [|now left].
  destruct (negb (JS.nonempty m)); [now left|].
  destruct (JS.startsWith (lit "claude-") _); [now left|].
  destruct (JS.startsWith (lit "gemini-") _); [right; now left|].
  destruct (JS.startsWith (lit "gpt-") _); [right; now right|now left].
Qed.

Lemma nonempty_toLowerCase (m : str) :
  JS.nonempty (JS.toLowerCase m) = JS.nonempty m.
Proof. now destruct m. Qed.

(** X17. The router refuses a request only with 403
    [permission_denied], so that 500 [unsupported_backend] is never
    answered; the case of the model name does not change the route; and
    [/v1/chat/completions] with messages and no model goes to Claude. *)
Theorem routing_of_models :
  (forall m, match routeToBackend hasPermission m with
             | Answer status code =>
                 status = 403 /\ code = lit "permission_denied"
             | _ => True
             end) /\
  (forall m1 m2, JS.toLowerCase m1 = JS.toLowerCase m2 ->
     routeToBackend hasPermission (Some m1)
     = routeToBackend hasPermission (Some m2)) /\
  (forall messages,
     chat_completions hasPermission (Some (S messages)) None
     = if hasPermission (lit "claude") then ToClaude
       else Answer 403 (lit "permission_denied")).
Proof.
  split; [|split].
  - intros m. unfold routeToBackend.
    destruct (detect_cases m) as [-> | [-> | ->]]; cbv zeta.
    + destruct (decide (lit "claude" = lit "claude")); [|congruence].
      now destruct (hasPermission _).
    + destruct (decide (lit "gemini" = lit "claude")); [discriminate|].
      destruct (decide (lit "gemini" = lit "openai")); [discriminate|].
      destruct (decide (lit "gemini" = lit "gemini")); [|congruence].
      now destruct (hasPermission _).
    + destruct (decide (lit "openai" = lit "claude")); [discriminate|].
      destruct (decide (lit "openai" = lit "openai")); [|congruence].
      now destruct (hasPermission _).
  - intros m1 m2 H. unfold routeToBackend, detectBackendFromModel.
    rewrite <- (nonempty_toLowerCase m1), <- (nonempty_toLowerCase m2), H.
    reflexivity.
  - intros messages. unfold chat_completions, routeToBackend.
    change (detectBackendFromModel (Some (lit "claude-3-5-sonnet-20241022")))
      with (lit "claude").
    destruct (decide (lit "claude" = lit "claude")); [|congruence].
    now destruct (hasPermission _).
Qed.

End Routes.

(** * Names that need no shortening *)
Section PlainNames.
Import ToolNames.

Lemma baseCandidate_short (n : str) :
  (length n <= LIMIT)%nat -> baseCandidate n = n.
Proof.
  intros H. unfold baseCandidate.
  now destruct (Nat.leb_spec (length n) LIMIT); [|lia].
Qed.

(** Names whose base candidates are apart: each gets its base
    candidate. *)
Lemma assign_all_base (names : list str) :
  forall used map,
  NoDup names ->
  (forall n1 n2, n1 ∈ names -> n2 ∈ names ->
     baseCandidate n1 = baseCandidate n2 -> n1 = n2) ->
  (forall n, n ∈ names -> baseCandidate n ∉ used) ->
  exists used' map',
    assign_all (used, map) names = Some (used', map') /\
    (forall n, n ∈ names -> n <> lit "__proto__" ->
       map' !! n = Some (baseCandidate n)) /\
    (forall n, n ∉ names \/ n = lit "__proto__" -> map' !! n = map !! n).
Proof.
  induction names as [|n names IH]; intros used map Hnd Hinj Hfresh.
  - exists used, map. split; [reflexivity|]. split; [|reflexivity].
    intros n H. now apply elem_of_nil in H.
  - apply NoDup_cons in Hnd as [Hn Hnd].
    cbn [assign_all]. unfold assign at 1. unfold makeUnique.
    rewrite decide_False by (apply Hfresh, list_elem_of_here).
    cbn [mbind option_bind].
    destruct (IH ({[ baseCandidate n ]} ∪ used)
                (JS.set map n (baseCandidate n)) Hnd)
      as (used' & map' & E & H1 & H2).
    + intros n1 n2 Hn1 Hn2. apply Hinj; now apply list_elem_of_further.
    + intros n' Hn' [Hin|Hin]%elem_of_union.
      * apply elem_of_singleton in Hin.
        apply Hinj in Hin;
          [subst n'; contradiction|now apply list_elem_of_further
          |apply list_elem_of_here].
      * revert Hin. apply Hfresh. now apply list_elem_of_further.
    + exists used', map'. split; [exact E|]. split.
      * intros n' [->|Hn']%elem_of_cons Hp; [|now apply H1].
        rewrite H2 by now left. unfold JS.set.
        rewrite decide_False by assumption. apply lookup_insert_eq.
      * intros n' Hn'. unfold JS.set in H2.
        destruct (decide (n = lit "__proto__")) as [Hp|Hp].
        -- apply H2. destruct Hn' as [Hn'|Hn']; [|now right].
           apply not_elem_of_cons in Hn' as [_ Hn']. now left.
        -- destruct Hn' as [Hn'|Hn'].
           ++ apply not_elem_of_cons in Hn' as [Hne Hn'].
              rewrite H2 by now left. now apply lookup_insert_ne.
           ++ rewrite H2 by now right. apply lookup_insert_ne. congruence.
Qed.

(** A table whose entries are all [n -> n] has an empty reverse. *)
Lemma reverseMap_plain (m : gmap str str) :
  (forall n s, m !! n = Some s -> s = n) -> reverseMap m = ∅.
Proof.
  intros H. unfold reverseMap.
  assert (Hl : Forall (fun e : str * str => e.2 = e.1) (map_to_list m)).
  { apply Forall_forall. intros [n s] Hin%elem_of_map_to_list.
    simpl. eauto. }
  generalize (∅ : gmap str str).
  induction Hl as [|[n s] l Hns _ IH]; intros acc; [reflexivity|].
  simpl in Hns. subst s. cbn [fold_left]. unfold reverse_entry at 2.
  rewrite decide_True by reflexivity. apply IH.
Qed.

(** The table of names that are apart and within the limit. *)
Lemma plain_table (names : list str) :
  NoDup names ->
  Forall (fun n => (length n <= LIMIT)%nat) names ->
  exists m,
    _buildShortNameMap names = Some m /\
    (forall n, n ∈ names -> n <> lit "__proto__" -> m !! n = Some n) /\
    reverseMap m = ∅.
Proof.
  intros Hnd Hlen. rewrite Forall_forall in Hlen.
  destruct (assign_all_base names ∅ ∅ Hnd) as (used' & m & E & H1 & H2).
  - intros n1 n2 Hn1 Hn2.
    now rewrite !baseCandidate_short by auto.
  - intros n _. apply not_elem_of_empty.
  - exists m. unfold _buildShortNameMap. rewrite E.
    split; [reflexivity|]. split.
    + intros n Hn Hp. rewrite (H1 n Hn Hp). f_equal.
      apply baseCandidate_short. auto.
    + apply reverseMap_plain. intros n s Hs.
      destruct (decide (n ∈ names)) as [Hin|Hout].
      * destruct (decide (n = lit "__proto__")) as [->|Hp].
        -- rewrite H2, lookup_empty in Hs by now right. discriminate.
        -- rewrite (H1 n Hin Hp) in Hs. injection Hs as <-.
           apply baseCandidate_short. auto.
      * rewrite H2, lookup_empty in Hs by now left. discriminate.
Qed.

End PlainNames.

(** * The names of the tools in a Codex request *)
Section RequestNames.
Import Chat CodexRequest.

Local Arguments lit : simpl never.

Variable JSON_stringify : list item -> str.

Lemma truncated_eq (n : str) : truncated n = ToolNames.baseCandidate n.
Proof. reflexivity. Qed.

Lemma elem_of_fold_add (xs : list str) :
  forall acc x, x ∈ fold_left add xs acc <-> x ∈ acc \/ x ∈ xs.
Proof.
  induction xs as [|y xs IH]; intros acc x; simpl.
  - split; [now left|]. intros [H|H]; [assumption|].
    now apply elem_of_nil in H.
  - rewrite IH. unfold add. destruct (decide (y ∈ acc)) as [Hy|Hy].
    + rewrite elem_of_cons. split; [tauto|].
      intros [H|[->|H]]; tauto.
    + rewrite elem_of_app, list_elem_of_singleton, elem_of_cons. tauto.
Qed.

Lemma NoDup_fold_add (xs : list str) :
  forall acc, NoDup acc -> NoDup (fold_left add xs acc).
Proof.
  induction xs as [|y xs IH]; intros acc H; [assumption|].
  simpl. apply IH. unfold add. destruct (decide (y ∈ acc)); [assumption|].
  apply NoDup_app. split; [assumption|]. split.
  - intros x Hx Hy%list_elem_of_singleton. now subst.
  - apply NoDup_singleton.
Qed.

Lemma omap_cons {A B : Type} (f : A -> option B) (x : A) (l : list A) :
  omap f (x :: l) =
    match f x with Some y => y :: omap f l | None => omap f l end.
Proof. reflexivity. Qed.

Lemma omap_concat_map {A B C : Type} (f : B -> option C) (g : A -> list B)
    (l : list A) :
  omap f (concat (map g l)) = concat (map (fun a => omap f (g a)) l).
Proof.
  induction l as [|a l IH]; [reflexivity|].
  simpl. now rewrite omap_app, IH.
Qed.

(** The name of a call, through [_shortenToolName] of a converter that
    has no table. *)
Lemma shorten_fresh (name : option str) :
  _shortenToolName fresh name =
    match name with
    | None => JS.VUndefined
    | Some n => JS.VStr (ToolNames.baseCandidate n)
    end.
Proof.
  unfold _shortenToolName. destruct name as [n|]; [|reflexivity].
  destruct n; reflexivity.
Qed.

(** The calls a message replays, by a converter that has no table. *)
Lemma replayed_fresh (msg : message) :
  omap picked_name (items_of JSON_stringify fresh msg) =
    if bool_decide (role msg = Some (lit "assistant")) then
      map (fun tc => JS.VStr (ToolNames.baseCandidate (called_name tc)))
        (List.filter
           (fun tc => bool_decide (call_type tc = Some (lit "function")))
           (default [] (tool_calls msg)))
    else [].
Proof.
  unfold items_of.
  destruct (decide (role msg = Some (lit "system")
                    \/ role msg = Some (lit "developer"))) as [[E|E]|_].
  { rewrite E. reflexivity. }
  { rewrite E. reflexivity. }
  destruct (decide (role msg = Some (lit "user"))) as [E|_].
  { rewrite E. reflexivity. }
  destruct (decide (role msg = Some (lit "assistant"))) as [E|E].
  - rewrite (bool_decide_eq_true_2 _ E). rewrite omap_app.
    replace (omap picked_name
               (if content_truthy (msg_content msg)
                then [Message (lit "assistant")
                        (_wrapContent (msg_content msg) (lit "assistant"))]
                else [])) with (@nil JS.value)
      by (now destruct (content_truthy _)).
    cbn [app]. destruct (tool_calls msg) as [calls|]; [|reflexivity].
    change (default [] (Some calls)) with calls. unfold replayed.
    induction calls as [|tc calls IH]; [reflexivity|].
    rewrite omap_cons. cbn [List.filter].
    destruct (bool_decide (call_type tc = Some (lit "function")));
      [|exact IH].
    rewrite omap_cons. cbn [picked_name map]. rewrite IH. f_equal.
    rewrite shorten_fresh.
    unfold called_name. destruct (call_function tc) as [f|]; [|reflexivity].
    destruct (given (fn_name f)) eqn:Eg; [|reflexivity].
    destruct (fn_name f); [reflexivity|discriminate].
  - rewrite (bool_decide_eq_false_2 _ E).
    destruct (decide (role msg = Some (lit "tool"))); reflexivity.
Qed.

Lemma replayed_as_fresh (chatBody : body) (r : request) :
  input r = concat (map (items_of JSON_stringify fresh) (messages_of chatBody)) ->
  replayed_as r =
    map (fun tc => JS.VStr (ToolNames.baseCandidate (called_name tc)))
      (function_calls chatBody).
Proof.
  intros Hi. unfold replayed_as, function_calls. rewrite Hi. clear Hi.
  fold picked_name. rewrite omap_concat_map.
  induction (messages_of chatBody) as [|msg msgs IH]; [reflexivity|].
  cbn [map concat]. rewrite map_app, IH, replayed_fresh.
  destruct (bool_decide (role msg = Some (lit "assistant"))); reflexivity.
Qed.

(** The names a converter declares, by its table. *)
Lemma declared_by_table (c : converter) (ts : list tool) :
  omap (fun t => match t with
                 | FunctionTool name _ _ _ => Some name
                 | AsGiven _ => None
                 end) (_convertTools c ts)
  = map (fun f => _shortenToolName c (tf_name f))
      (omap (fun t =>
               if bool_decide (tool_type t = Some (lit "function"))
               then tool_function t else None) ts).
Proof.
  unfold _convertTools. induction ts as [|t ts IH]; [reflexivity|].
  rewrite !omap_cons.
  destruct (tool_type t) as [ty|] eqn:Et.
  - destruct (decide (ty = lit "function")) as [->|Hne].
    + change (given (Some (lit "function"))) with true. cbn [negb].
      rewrite !bool_decide_eq_true_2 by reflexivity. cbn [negb].
      destruct (tool_function t) as [f|]; [|exact IH].
      rewrite omap_cons. cbn [map]. now rewrite IH.
    + rewrite !(bool_decide_eq_false_2 (Some ty = Some (lit "function")))
        by congruence.
      cbn [negb]. destruct (negb (given (Some ty))); [exact IH|].
      rewrite omap_cons. exact IH.
  - cbn [given negb]. rewrite bool_decide_eq_false_2 by discriminate.
    exact IH.
Qed.

Lemma declared_as_table (chatBody : body) (r : request) (c : converter) :
  r_tools r = match tools chatBody with
              | Some (t :: ts) => Some (_convertTools c (t :: ts))
              | _ => None
              end ->
  declared_as r =
    map (fun f => _shortenToolName c (tf_name f)) (function_tools chatBody).
Proof.
  intros Ht. unfold declared_as, function_tools. rewrite Ht.
  destruct (tools chatBody) as [[|t ts]|]; try reflexivity.
  apply declared_by_table.
Qed.

Lemma declared_in_names (chatBody : body) (f : tool_fn) (n : str) :
  f ∈ function_tools chatBody -> tf_name f = Some n -> n <> [] ->
  n ∈ allToolNames chatBody.
Proof.
  intros Hf Hn Hne. unfold allToolNames. apply elem_of_fold_add. right.
  apply elem_of_app. left. unfold function_tools in Hf.
  destruct (tools chatBody) as [ts|]; [|now apply elem_of_nil in Hf].
  simpl in *. unfold declared_names.
  apply list_elem_of_omap in Hf as (t & Ht & Hf).
  apply list_elem_of_omap. exists t. split; [assumption|].
  destruct (bool_decide (tool_type t = Some (lit "function")));
    [|discriminate].
  rewrite Hf, Hn. simpl. now destruct n.
Qed.

Lemma called_in_names (chatBody : body) (tc : call) :
  tc ∈ function_calls chatBody -> called_name tc <> [] ->
  called_name tc ∈ allToolNames chatBody.
Proof.
  intros Hc Hne. unfold allToolNames. apply elem_of_fold_add. right.
  apply elem_of_app. right. unfold function_calls, called_names in *.
  induction (messages_of chatBody) as [|msg msgs IH];
    [now apply elem_of_nil in Hc|].
  simpl in *. apply elem_of_app in Hc as [Hc|Hc]; apply elem_of_app;
    [left|right; now apply IH].
  destruct (bool_decide (role msg = Some (lit "assistant")));
    [|now apply elem_of_nil in Hc].
  destruct (tool_calls msg) as [calls|]; [|now apply elem_of_nil in Hc].
  simpl in Hc. apply list_elem_of_In, filter_In in Hc as [Hin Hty].
  apply list_elem_of_In in Hin.
  apply list_elem_of_omap. exists tc. split; [assumption|].
  rewrite Hty. unfold called_name in *.
  destruct (call_function tc) as [f|]; [|congruence].
  destruct (given (fn_name f)); [|congruence].
  now destruct (fn_name f).
Qed.

(** X18. When every tool name of a request is within 64 characters and
    none is [__proto__], a fresh converter builds the request, declares
    each function tool and replays each call under its own name, and has
    nothing to restore. *)
Theorem names_within_limit_pass_unchanged (chatBody : body) :
  Forall (fun n => (length n <= 64)%nat /\ n <> lit "__proto__")
    (allToolNames chatBody) ->
  exists r c',
    buildRequestFromOpenAI JSON_stringify fresh chatBody = Some (r, c') /\
    declared_as r
    = map (fun f => name_value (tf_name f)) (function_tools chatBody) /\
    replayed_as r
    = map (fun tc => JS.VStr (called_name tc)) (function_calls chatBody) /\
    _reverseToolNameMap c' = ∅.
Proof.
  intros Hall. rewrite Forall_forall in Hall.
  assert (Hnd : NoDup (allToolNames chatBody))
    by (apply NoDup_fold_add, NoDup_nil_2).
  destruct (plain_table (allToolNames chatBody) Hnd) as (m & Em & Hm & Hrev).
  { apply Forall_forall. intros n Hn. now apply Hall. }
  assert (Hc : exists c',
    with_tables fresh (allToolNames chatBody) = Some c' /\
    _reverseToolNameMap c' = ∅ /\
    (forall n, n ∈ allToolNames chatBody -> n <> [] ->
       _shortenToolName c' (Some n) = JS.VStr n)).
  { unfold with_tables. destruct (allToolNames chatBody) as [|n0 ns] eqn:En.
    - exists fresh. repeat split. intros n Hn. now apply elem_of_nil in Hn.
    - rewrite Em. simpl. eexists. split; [reflexivity|].
      split; [exact Hrev|]. intros n Hn Hne.
      unfold _shortenToolName. simpl.
      destruct n as [|a n]; [congruence|]. simpl.
      unfold JS.get. rewrite (Hm _ Hn (proj2 (Hall _ Hn))). reflexivity. }
  destruct Hc as (c' & Ec & Hrev' & Hshort).
  unfold buildRequestFromOpenAI. rewrite Ec. simpl.
  eexists _, c'. split; [reflexivity|]. split; [|split; [|exact Hrev']].
  - erewrite declared_as_table by reflexivity.
    apply map_ext_in. intros f Hf%list_elem_of_In.
    destruct (tf_name f) as [n|] eqn:En; [|reflexivity]. simpl.
    destruct n as [|a n]; [reflexivity|].
    apply Hshort; [|discriminate].
    now apply (declared_in_names chatBody f).
  - erewrite replayed_as_fresh by reflexivity.
    apply map_ext_in. intros tc Htc%list_elem_of_In. f_equal.
    destruct (called_name tc) as [|a n] eqn:En; [reflexivity|].
    apply baseCandidate_short.
    assert (Hin : called_name tc ∈ allToolNames chatBody).
    { apply called_in_names; [assumption|]. now rewrite En. }
    rewrite En in Hin. apply (Hall _ Hin).
Qed.

Lemma baseCandidate_nonempty (n : str) :
  n <> [] -> ToolNames.baseCandidate n <> [].
Proof.
  intros Hn. unfold ToolNames.baseCandidate, JS.slice_to, ToolNames.LIMIT.
  destruct (Nat.leb_spec (length n) 64); [assumption|].
  assert (Ht : firstn 64 n <> []).
  { intros E. apply (f_equal length) in E. rewrite length_firstn in E.
    change (length (@nil ascii)) with 0%nat in E. lia. }
  destruct (JS.startsWith _ n); [|assumption].
  destruct (JS.lastIndexOf _ n) as [idx|]; [|assumption].
  destruct (0 <? idx)%nat; [|assumption].
  destruct (_ <? _)%nat; discriminate.
Qed.

(** X19. Two tools whose names have one base candidate, in a request
    that replays a call of the second: a fresh converter declares the
    second tool under a suffixed name, and replays its call under the
    name it declares the first tool with, since the calls are shortened
    before the table of the request is built. *)
Theorem colliding_names_replayed_under_the_other_tool
    (n1 n2 id arguments : str) :
  n1 <> n2 -> n1 <> [] -> n2 <> [] ->
  n1 <> lit "__proto__" -> n2 <> lit "__proto__" ->
  ToolNames.baseCandidate n1 = ToolNames.baseCandidate n2 ->
  exists r c' short2,
    buildRequestFromOpenAI JSON_stringify fresh
      (Shapes.body_with
         (Some [Shapes.function_tool n1; Shapes.function_tool n2])
         [Shapes.assistant_calling [Shapes.call_to id n2 arguments]])
    = Some (r, c') /\
    declared_as r = [JS.VStr (ToolNames.baseCandidate n1); JS.VStr short2] /\
    replayed_as r = [JS.VStr (ToolNames.baseCandidate n1)] /\
    short2 <> ToolNames.baseCandidate n1.
Proof.
  intros Hne H1 H2 Hp1 Hp2 Hb.
  set (chatBody := Shapes.body_with _ _).
  set (b := ToolNames.baseCandidate n1) in *.
  assert (Hnames : allToolNames chatBody = [n1; n2]).
  { assert (Hd : declared_names
                   [Shapes.function_tool n1; Shapes.function_tool n2]
                 = [n1; n2]).
    { destruct n1, n2; try congruence. reflexivity. }
    assert (Hc : called_names
                   [Shapes.assistant_calling [Shapes.call_to id n2 arguments]]
                 = [n2]).
    { destruct n2; [congruence|reflexivity]. }
    unfold allToolNames.
    change (tools chatBody)
      with (Some [Shapes.function_tool n1; Shapes.function_tool n2]).
    change (messages_of chatBody)
      with [Shapes.assistant_calling [Shapes.call_to id n2 arguments]].
    cbn [fmap option_fmap option_map default]. rewrite Hd, Hc.
    unfold Datatypes.id. cbn [app fold_left].
    replace (add [] n1) with [n1]
      by (unfold add; now rewrite decide_False by apply not_elem_of_nil).
    replace (add [n1] n2) with [n1; n2]
      by (unfold add; now rewrite decide_False
            by (intros H%list_elem_of_singleton; congruence)).
    unfold add. rewrite decide_True; [reflexivity|].
    apply list_elem_of_further, list_elem_of_here. }
  destruct (makeUnique_spec {[ b ]} b) as (t & Et & Hfresh & Hshape).
  assert (Htb : t <> b) by (intros ->; apply Hfresh; now apply elem_of_singleton).
  assert (Ht : t <> []).
  { destruct Hshape as [->|(j & _ & ->)]; [congruence|].
    destruct (suffixed_split b j) as [p ->].
    intros E. apply app_eq_nil in E as [_ E]. discriminate E. }
  assert (Hbne : b <> []) by now apply baseCandidate_nonempty.
  assert (Hmap : ToolNames._buildShortNameMap [n1; n2]
                 = Some (<[n2 := t]> (<[n1 := b]> ∅))).
  { assert (E1 : ToolNames.assign (∅, ∅) n1
                 = Some ({[ b ]} ∪ ∅, JS.set ∅ n1 b)).
    { unfold ToolNames.assign, ToolNames.makeUnique. fold b.
      now rewrite decide_False by apply not_elem_of_empty. }
    assert (E2 : ToolNames.assign ({[ b ]} ∪ ∅, JS.set ∅ n1 b) n2
                 = Some ({[ t ]} ∪ ({[ b ]} ∪ ∅),
                         JS.set (JS.set ∅ n1 b) n2 t)).
    { unfold ToolNames.assign. rewrite <- Hb. fold b.
      replace ({[ b ]} ∪ ∅ : gset str) with ({[ b ]} : gset str)
        by (symmetry; apply leibniz_equiv, (right_id ∅ (∪))).
      now rewrite Et. }
    unfold ToolNames._buildShortNameMap. cbn [ToolNames.assign_all].
    rewrite E1. cbn [mbind option_bind]. rewrite E2.
    cbn [mbind option_bind fmap option_fmap option_map snd].
    unfold JS.set. now rewrite !decide_False by assumption. }
  unfold buildRequestFromOpenAI. rewrite Hnames. unfold with_tables.
  rewrite Hmap. cbn [mbind option_bind].
  eexists _, _, t. split; [reflexivity|].
  split; [|split; [|exact Htb]].
  - erewrite declared_as_table by reflexivity.
    change (function_tools chatBody)
      with [ {| tf_name := Some n1; tf_description := None;
                tf_parameters := None; tf_strict := None |};
             {| tf_name := Some n2; tf_description := None;
                tf_parameters := None; tf_strict := None |} ].
    cbn [map tf_name]. unfold _shortenToolName.
    cbn [_toolNameMap]. unfold JS.get.
    rewrite lookup_insert_ne by congruence.
    rewrite !lookup_insert_eq.
    destruct n1 as [|a1 n1]; [congruence|].
    destruct n2 as [|a2 n2]; [congruence|].
    cbn [JS.nonempty negb JS.truthy].
    destruct b as [|ab b']; [congruence|].
    destruct t as [|at' t']; [congruence|]. reflexivity.
  - erewrite replayed_as_fresh by reflexivity.
    change (function_calls chatBody)
      with [Shapes.call_to id n2 arguments].
    assert (Hc : called_name (Shapes.call_to id n2 arguments) = n2)
      by (destruct n2; [congruence|reflexivity]).
    cbn [map]. rewrite Hc. now rewrite <- Hb.
Qed.

End RequestNames.

(** * The whole response of the Responses API *)
Section WholeResponse.
Import Codex CodexResponse Entries.

Variable now : N.
Variable Date_parse : str -> option Z.
Variable rev_map : gmap str str.
Variable model : str.

Local Arguments lit : simpl never.

Local Abbreviation step := (convertStreamChunk now Date_parse rev_map).
Local Abbreviation run := (convert_all now Date_parse rev_map model).
Local Abbreviation whole := (convertResponse now Date_parse rev_map).

Lemma texts_among_cons (type kind : str) (pick : output_item -> list entry)
    (it : output_item) (items : list output_item) :
  texts_among type kind pick (it :: items) =
    (if bool_decide (item_type (base it) = Some type)
     then texts_of kind (pick it) else [])
    ++ texts_among type kind pick items.
Proof. reflexivity. Qed.

Lemma function_calls_cons (it : output_item) (items : list output_item) :
  function_calls (it :: items) =
    (if bool_decide (item_type (base it) = Some (lit "function_call"))
     then [base it] else [])
    ++ function_calls items.
Proof.
  unfold function_calls. rewrite omap_cons.
  now destruct (bool_decide _).
Qed.

Lemma joined_app (x : option str) (a b : list str) :
  joined x (a ++ b) = joined (joined x a) b.
Proof.
  unfold joined. destruct a as [|t ts]; [reflexivity|].
  destruct b as [|u us].
  - now rewrite app_nil_r.
  - cbn [app default]. unfold Datatypes.id.
    change (t :: ts ++ u :: us) with ((t :: ts) ++ u :: us).
    now rewrite concat_app, app_assoc.
Qed.

(** One item of the output. *)
Lemma collect_one (acc : gathered) (it : output_item) :
  g_content (collect rev_map acc it) =
    joined (g_content acc)
      (if bool_decide (item_type (base it) = Some (lit "message"))
       then texts_of (lit "output_text") (content it) else []) /\
  g_reasoning (collect rev_map acc it) =
    joined (g_reasoning acc)
      (if bool_decide (item_type (base it) = Some (lit "reasoning"))
       then texts_of (lit "summary_text") (summary it) else []) /\
  g_calls (collect rev_map acc it) =
    g_calls acc ++
    map (call_of rev_map)
      (if bool_decide (item_type (base it) = Some (lit "function_call"))
       then [base it] else []).
Proof.
  unfold collect.
  destruct (decide (item_type (base it) = Some (lit "reasoning"))) as [E|E].
  { rewrite E.
    rewrite (bool_decide_eq_false_2
               (Some (lit "reasoning") = Some (lit "message")))
      by discriminate.
    rewrite (bool_decide_eq_false_2
               (Some (lit "reasoning") = Some (lit "function_call")))
      by discriminate.
    rewrite (bool_decide_eq_true_2
               (Some (lit "reasoning") = Some (lit "reasoning")))
      by reflexivity.
    cbn [map]. rewrite app_nil_r.
    destruct (texts_of (lit "summary_text") (summary it)); repeat split. }
  rewrite (bool_decide_eq_false_2 _ E).
  destruct (decide (item_type (base it) = Some (lit "message"))) as [E'|E'].
  { rewrite E'.
    rewrite (bool_decide_eq_false_2
               (Some (lit "message") = Some (lit "function_call")))
      by discriminate.
    rewrite (bool_decide_eq_true_2
               (Some (lit "message") = Some (lit "message")))
      by reflexivity.
    cbn [map]. rewrite app_nil_r.
    destruct (texts_of (lit "output_text") (content it)); repeat split. }
  rewrite (bool_decide_eq_false_2 _ E').
  destruct (decide (item_type (base it) = Some (lit "function_call")))
    as [E''|E''].
  - rewrite (bool_decide_eq_true_2 _ E''). repeat split.
  - rewrite (bool_decide_eq_false_2 _ E''). cbn [map].
    rewrite app_nil_r. repeat split.
Qed.

(** The loop over the output, by the items of each type. *)
Lemma collect_all (items : list output_item) :
  forall acc,
  let got := fold_left (collect rev_map) items acc in
  g_content got =
    joined (g_content acc)
      (texts_among (lit "message") (lit "output_text") content items) /\
  g_reasoning got =
    joined (g_reasoning acc)
      (texts_among (lit "reasoning") (lit "summary_text") summary items) /\
  g_calls got = g_calls acc ++ map (call_of rev_map) (function_calls items).
Proof.
  induction items as [|it items IH]; intros acc.
  - simpl. now rewrite app_nil_r.
  - cbn [fold_left]. destruct (IH (collect rev_map acc it)) as (H1 & H2 & H3).
    destruct (collect_one acc it) as (C1 & C2 & C3).
    cbv zeta. rewrite H1, H2, H3, C1, C2, C3.
    rewrite !texts_among_cons, function_calls_cons, !joined_app, map_app.
    now rewrite app_assoc.
Qed.

(** The message of a whole response is read off the items of its
    output. *)
Lemma message_by_items (r : response) :
  status (head r) <> Some (lit "failed") ->
  let texts :=
    texts_among (lit "message") (lit "output_text") content (output r) in
  let thoughts :=
    texts_among (lit "reasoning") (lit "summary_text") summary (output r) in
  let calls := map (call_of rev_map) (function_calls (output r)) in
  exists c choice,
    whole (direct r) model = Some (Completion c) /\
    c_choices c = [choice] /\
    msg_content (mc_message choice)
    = Gemini.unless_empty texts (concat texts) /\
    msg_reasoning_content (mc_message choice)
    = Gemini.unless_empty thoughts (concat thoughts) /\
    msg_tool_calls (mc_message choice) = Gemini.unless_empty calls calls /\
    mc_finish choice = match calls with
                       | [] => _mapResponseStatus (head r)
                       | _ => tool_calls
                       end.
Proof.
  intros Hs texts thoughts calls. unfold convertResponse, direct.
  cbn [rd_type rd_self]. rewrite decide_False by discriminate.
  cbn [mbind option_bind]. rewrite decide_False by assumption.
  destruct (collect_all (output r)
              {| g_content := None; g_reasoning := None; g_calls := [] |})
    as (H1 & H2 & H3).
  cbv zeta in H1, H2, H3. cbn [g_content g_reasoning g_calls app] in H1, H2, H3.
  fold texts in H1. fold thoughts in H2. fold calls in H3.
  eexists _, _. split; [reflexivity|]. split; [reflexivity|].
  cbn [mc_message msg_content msg_reasoning_content msg_tool_calls mc_finish].
  rewrite H1, H2, H3. unfold joined.
  repeat split; try (now destruct texts); now destruct thoughts.
Qed.

(** X20. The message of a whole response that did not fail: its content
    is the [output_text] of the [message] items joined, its reasoning the
    [summary_text] of the [reasoning] items joined, each null when there
    is none; its tool calls are the [function_call] items in order; and it
    ends with [tool_calls] when there is a call and with the reason of the
    status otherwise. *)
Theorem whole_response_by_items (r : response) :
  status (head r) <> Some (lit "failed") ->
  let texts :=
    texts_among (lit "message") (lit "output_text") content (output r) in
  let thoughts :=
    texts_among (lit "reasoning") (lit "summary_text") summary (output r) in
  let calls := map (call_of rev_map) (function_calls (output r)) in
  exists c choice,
    whole (direct r) model = Some (Completion c) /\
    c_choices c = [choice] /\
    msg_content (mc_message choice)
    = Gemini.unless_empty texts (concat texts) /\
    msg_reasoning_content (mc_message choice)
    = Gemini.unless_empty thoughts (concat thoughts) /\
    msg_tool_calls (mc_message choice) = Gemini.unless_empty calls calls /\
    mc_finish choice = match calls with
                       | [] => _mapResponseStatus (head r)
                       | _ => tool_calls
                       end.
Proof. exact (message_by_items r). Qed.

(** The event around a response changes nothing. *)
Lemma whole_response_unwrapped (data : responseData) (r : response) :
  rd_type data = Some (lit "response.completed") ->
  rd_response data = Some r ->
  whole data model = whole (direct r) model.
Proof.
  intros Ht Hr. unfold convertResponse, direct. cbn [rd_type rd_self].
  rewrite Ht, Hr. rewrite decide_True by reflexivity.
  now rewrite decide_False by discriminate.
Qed.

Lemma run_app (l1 l2 : list event) :
  forall s,
  run s (l1 ++ l2) =
    let '(s1, out1) := run s l1 in
    let '(s2, out2) := run s1 l2 in (s2, out1 ++ out2).
Proof.
  induction l1 as [|x l1 IH]; intros s; cbn [app convert_all].
  - destruct (run s l2). reflexivity.
  - destruct (step x model s) as [s1 out1]. rewrite IH.
    destruct (run s1 l1) as [s2 out2].
    destruct (run s2 l2) as [s3 out3]. now rewrite app_assoc.
Qed.

Lemma run_keeps_state (evs : list event) :
  forall s,
  Forall (fun e => type e <> Some (lit "response.created")) evs ->
  responseId (run s evs).1 = responseId s /\
  st_model (run s evs).1 = st_model s.
Proof.
  induction evs as [|e evs IH]; intros s He; [split; reflexivity|].
  apply Forall_cons in He as [He Hes]. cbn [convert_all].
  destruct (step_keeps_metadata now Date_parse rev_map model e s He)
    as (H1 & _ & H3 & _).
  destruct (step e model s) as [s1 o1].
  destruct (IH s1 Hes) as [I1 I3]. destruct (run s1 evs) as [s2 o2].
  simpl in *. split; congruence.
Qed.

(** X21. The stream and the whole response end alike.  A stream is
    opened by [response.created], the response of which has the id and
    the model of the finished response and may differ from it in all
    else (its status, its usage), and is closed by [response.completed]
    with the finished response.  When the id is not empty and the
    response did not fail, the last chunk of the stream has the id, the
    model, the usage and the finish reason of the conversion of the
    finished response as a whole, provided the stream announced a call
    exactly if the output holds one. *)
Theorem whole_response_agrees_with_stream (r : response)
    (opened : Codex.response)
    (created : event) (evs : list event) (completed : event) :
  type created = Some (lit "response.created") ->
  ev_response created = Some opened ->
  resp_id opened = resp_id (head r) ->
  resp_model opened = resp_model (head r) ->
  Forall (fun e => type e <> Some (lit "response.created")) evs ->
  type completed = Some (lit "response.completed") ->
  ev_response completed = Some (head r) ->
  status (head r) <> Some (lit "failed") ->
  given (resp_id (head r)) = true ->
  (announced_slots (run createStreamState (created :: evs)).2 <> []
   <-> function_calls (output r) <> []) ->
  exists c comp choice,
    last (run createStreamState (created :: evs ++ [completed])).2
    = Some (Chunk c) /\
    whole (direct r) model = Some (Completion comp) /\
    c_choices comp = [choice] /\
    id c = c_id comp /\
    Canonical.model c = c_model comp /\
    chunk_usage c = c_usage comp /\
    finish_of c = Some (mc_finish choice).
Proof.
  intros Hc Hcr Hoi Hom Hevs Hd Hdr Hs Hid Hslots.
  destruct (message_by_items r Hs) as (comp & choice & Ew & Ech & _ & _
    & _ & Hfin).
  change (created :: evs ++ [completed])
    with ((created :: evs) ++ [completed]).
  rewrite run_app.
  destruct (run_slots now Date_parse rev_map model (created :: evs)
              createStreamState) as [_ Hcount].
  assert (Hmeta :
    responseId (run createStreamState (created :: evs)).1
    = or_else (resp_id (head r)) [] /\
    st_model (run createStreamState (created :: evs)).1
    = or_else (resp_model (head r)) []).
  { cbn [convert_all].
    rewrite (step_created now Date_parse rev_map model) by assumption.
    unfold _handleResponseCreated. rewrite Hcr.
    change (default no_response (Some opened)) with opened.
    set (s1 := {| responseId := _ |}).
    destruct (run_keeps_state evs s1 Hevs) as [H1 H3].
    destruct (run s1 evs) as [s2 o2]. simpl in *.
    now rewrite H1, H3, Hoi, Hom. }
  destruct (run createStreamState (created :: evs)) as [s out].
  cbn [fst snd] in *. destruct Hmeta as [Hi Hm].
  cbn [convert_all].
  rewrite (step_completed now Date_parse rev_map model) by assumption.
  unfold _handleResponseCompleted. rewrite Hdr.
  change (default no_response (Some (head r))) with (head r). cbn [app].
  exists (terminal_chunk now (head r) model s), comp, choice.
  split; [apply last_snoc|]. split; [exact Ew|]. split; [exact Ech|].
  unfold convertResponse, direct in Ew. cbn [rd_type rd_self] in Ew.
  rewrite decide_False in Ew by discriminate.
  cbn [mbind option_bind] in Ew. rewrite decide_False in Ew by assumption.
  injection Ew as Ew. subst comp. cbn [c_choices] in Ech.
  injection Ech as Ech. subst choice.
  cbn [c_id c_model c_usage mc_finish] in *.
  assert (Hreason :
    (if 0 <=? functionCallIndex s then tool_calls
     else _mapResponseStatus (head r))
    = match map (call_of rev_map) (function_calls (output r)) with
      | [] => _mapResponseStatus (head r)
      | _ => tool_calls
      end).
  { change (functionCallIndex createStreamState) with (-1) in Hcount.
    destruct (function_calls (output r)) as [|fc fcs] eqn:Ef.
    - destruct (announced_slots out) as [|k ks].
      + rewrite Hcount. reflexivity.
      + exfalso. apply (proj1 Hslots); [discriminate|reflexivity].
    - destruct (announced_slots out) as [|k ks].
      + exfalso. apply (proj2 Hslots); [discriminate|reflexivity].
      + rewrite Hcount. simpl length.
        replace (0 <=? -1 + Z.of_nat (S (length ks))) with true
          by (symmetry; apply Z.leb_le; lia).
        reflexivity. }
  unfold terminal_chunk. rewrite Hreason, <- Hfin.
  unfold given in Hid. unfold _makeChunk. rewrite Hi, Hm.
  destruct (resp_id (head r)) as [i|]; [|discriminate].
  cbn [or_else]. rewrite Hid. rewrite Hid.
  destruct (_mapUsage (resp_usage (head r))) as [u|] eqn:Eu;
    cbn [id Canonical.model chunk_usage set_usage on_choice0 finish_of
         choices set_finish finish]; repeat split.
  - unfold or_else. destruct (resp_model (head r)) as [m|]; [|reflexivity].
    destruct (JS.nonempty m) eqn:Em; [now rewrite Em|reflexivity].
  - unfold or_else. destruct (resp_model (head r)) as [m|]; [|reflexivity].
    destruct (JS.nonempty m) eqn:Em; [now rewrite Em|reflexivity].
Qed.

(** X22. A response that failed gives the same error, message, type and
    code, as the event of a stream and as a whole response, and the event
    leaves the state of the stream as it was. *)
Theorem failed_response_same_error (r : response) (e : event) (s : state) :
  type e = Some (lit "response.failed")
  \/ type e = Some (lit "response.incomplete") ->
  ev_response e = Some (head r) ->
  status (head r) = Some (lit "failed") ->
  exists message kind code,
    step e model s = (s, [ErrorEvent message kind code]) /\
    whole (direct r) model = Some (ErrorObject message kind code).
Proof.
  intros Ht He Hs.
  assert (Hstep : step e model s = _handleResponseError now e model s).
  { unfold convertStreamChunk. destruct Ht as [-> | ->]; reflexivity. }
  rewrite Hstep. unfold _handleResponseError, convertResponse, direct.
  rewrite He. cbn [rd_type rd_self].
  change (default no_response (Some (head r))) with (head r).
  destruct (decide (status (head r) = Some (lit "failed"))) as [_|N];
    [|contradiction].
  destruct (decide (None = Some (lit "response.completed"))) as [D|_];
    [discriminate D|].
  cbn [mbind option_bind].
  destruct (decide (status (head r) = Some (lit "failed"))) as [_|N];
    [|contradiction].
  eexists _, _, _. split; reflexivity.
Qed.

End WholeResponse.

(** * The request of the Gemini branch *)
Section GeminiRequests.
Import Chat GeminiRequest.

Variable JSON_valid : str -> bool.
Variable without_strict : str -> str.

Local Arguments lit : simpl never.

Local Abbreviation build :=
  (buildGeminiRequestFromOpenAI JSON_valid without_strict).

(** ** Images *)

Lemma until_semicolon_app (mime rest : str) :
  ";"%char ∉ mime ->
  until_semicolon (mime ++ ";"%char :: rest) = (mime, ";"%char :: rest).
Proof.
  induction mime as [|c mime IH]; intros H; cbn [app until_semicolon].
  - now rewrite decide_True by reflexivity.
  - apply not_elem_of_cons in H as [Hc Hm].
    rewrite decide_False by congruence. now rewrite IH.
Qed.

Lemma mime_of_nonempty (d : Gemini.inlineData) : mime_of d <> [].
Proof.
  unfold mime_of, Gemini.given.
  destruct (Gemini.mimeType d) as [[|a m]|]; simpl;
    try discriminate;
    destruct (Gemini.mime_type d) as [[|a' m']|]; simpl; discriminate.
Qed.

Lemma data_url_eq (d : Gemini.inlineData) (imgData : str) :
  Gemini.data_url d imgData
  = lit "data:" ++ mime_of d ++ lit ";base64," ++ imgData.
Proof. reflexivity. Qed.

(** The address that [data_url] writes is read back into its two
    parts. *)
Lemma match_data_url_written (mime data : str) :
  mime <> [] -> ";"%char ∉ mime ->
  data <> [] -> JS.LF ∉ data -> JS.CR ∉ data ->
  match_data_url (lit "data:" ++ mime ++ lit ";base64," ++ data)
  = Some (mime, data).
Proof.
  intros Hm Hsemi Hd Hlf Hcr. unfold match_data_url.
  rewrite startsWith_prefix.
  change (JS.slice_from 5 (lit "data:" ++ mime ++ lit ";base64," ++ data))
    with (mime ++ ";"%char :: (lit "base64," ++ data)).
  rewrite until_semicolon_app by assumption.
  change (";"%char :: lit "base64," ++ data)
    with (lit ";base64," ++ data).
  rewrite startsWith_prefix.
  change (JS.slice_from 8 (lit ";base64," ++ data)) with data.
  destruct mime as [|c mime]; [congruence|].
  destruct data as [|x data]; [congruence|].
  cbn [JS.nonempty andb].
  replace (forallb (fun c0 => negb (line_terminator c0)) (x :: data))
    with true; [reflexivity|].
  symmetry. apply forallb_forall. intros y Hy%list_elem_of_In.
  unfold line_terminator.
  rewrite !bool_decide_eq_false_2; [reflexivity| |]; intros ->; contradiction.
Qed.

(** X23. An image the response converter writes as a [data:] address is
    read back by the request builder as the same mime type and data, when
    the mime type has no semicolon and the data is not empty and has no
    line end. *)
Theorem image_round_trip (d : Gemini.inlineData) (imgData : str) :
  ";"%char ∉ mime_of d ->
  imgData <> [] -> JS.LF ∉ imgData -> JS.CR ∉ imgData ->
  buildContentParts (Items [image_item (Gemini.data_url d imgData)])
  = [PInlineData (mime_of d) imgData].
Proof.
  intros Hsemi Hd Hlf Hcr. rewrite data_url_eq.
  cbn [buildContentParts map concat]. unfold part_of, image_item.
  cbn [item_type image_url].
  rewrite decide_False by discriminate.
  rewrite decide_True by reflexivity.
  rewrite startsWith_prefix, match_data_url_written;
    auto using mime_of_nonempty.
Qed.

(** ** The names of the tool responses *)

Lemma record_calls_entered (calls : list call) :
  forall m,
  fold_left record_call calls m =
    fold_left enter
      (omap (fun tc =>
               match call_function tc with
               | Some f =>
                   if given (call_id tc) && given (fn_name f)
                   then Some (default [] (call_id tc),
                              default [] (fn_name f))
                   else None
               | None => None
               end) calls) m.
Proof.
  induction calls as [|tc calls IH]; intros m; [reflexivity|].
  cbn [fold_left]. rewrite omap_cons, IH. unfold record_call.
  destruct (call_function tc) as [f|]; [|reflexivity].
  destruct (given (call_id tc) && given (fn_name f)); reflexivity.
Qed.

Lemma toolCallNames_entered (msgs : list message) :
  forall m,
  fold_left record_message msgs m
  = fold_left enter (recorded_calls msgs) m.
Proof.
  unfold recorded_calls.
  induction msgs as [|msg msgs IH]; intros m; [reflexivity|].
  cbn [fold_left map concat]. rewrite fold_left_app, IH.
  f_equal. unfold record_message.
  destruct (bool_decide (role msg = Some (lit "assistant")));
    [|reflexivity].
  destruct (tool_calls msg) as [calls|]; [|reflexivity].
  apply record_calls_entered.
Qed.

Lemma entered_lookup (l : list (str * str)) (i n : str) :
  forall m,
  (i, n) ∈ l \/ m !! i = Some n ->
  (forall n', (i, n') ∈ l -> n' = n) ->
  fold_left enter l m !! i = Some n.
Proof.
  induction l as [|[j k] l IH]; intros m Hin Huniq.
  - destruct Hin as [Hin|Hin]; [now apply elem_of_nil in Hin|exact Hin].
  - cbn [fold_left]. apply IH.
    + destruct (decide (j = i)) as [->|Hne].
      * right. unfold enter. cbn [fst snd].
        rewrite lookup_insert_eq. f_equal. apply Huniq, list_elem_of_here.
      * destruct Hin as [Hin|Hin].
        -- apply elem_of_cons in Hin as [[= <- <-]|Hin];
             [congruence|now left].
        -- right. unfold enter. cbn [fst snd].
           now rewrite lookup_insert_ne.
    + intros n' Hn'. apply Huniq. now apply list_elem_of_further.
Qed.

Lemma entered_missing (l : list (str * str)) (i : str) :
  forall m,
  (forall n, (i, n) ∉ l) -> fold_left enter l m !! i = m !! i.
Proof.
  induction l as [|[j k] l IH]; intros m Hout; [reflexivity|].
  cbn [fold_left]. rewrite IH.
  - unfold enter. cbn [fst snd]. apply lookup_insert_ne.
    intros ->. apply (Hout k), list_elem_of_here.
  - intros n Hn. apply (Hout n). now apply list_elem_of_further.
Qed.

Lemma elem_of_concat {A : Type} (x : A) (ls : list (list A)) :
  x ∈ concat ls -> exists l, x ∈ l /\ l ∈ ls.
Proof.
  induction ls as [|l ls IH]; simpl; intros H.
  - now apply elem_of_nil in H.
  - apply elem_of_app in H as [H|H].
    + exists l. split; [assumption|apply list_elem_of_here].
    + destruct (IH H) as (l' & H1 & H2). exists l'.
      split; [assumption|now apply list_elem_of_further].
Qed.

(** X24. The response of a tool is named after the call it answers:
    the function name the assistant messages give for its [tool_call_id],
    when they give one name for it; its own [name], or [unknown], when
    they give none. *)
Theorem tool_response_named_after_its_call (msgs : list message)
    (msg : message) (i : str) :
  tool_call_id msg = Some i ->
  (forall n,
     (i, n) ∈ recorded_calls msgs ->
     (forall n', (i, n') ∈ recorded_calls msgs -> n' = n) ->
     response_name (toolCallNames msgs) msg = n) /\
  ((forall n, (i, n) ∉ recorded_calls msgs) ->
   response_name (toolCallNames msgs) msg
   = if given (name msg) then default [] (name msg) else lit "unknown").
Proof.
  intros Hi. unfold response_name, toolCallNames. rewrite Hi.
  change (default (lit "undefined") (Some i)) with i.
  rewrite toolCallNames_entered. split.
  - intros n Hin Huniq.
    rewrite (entered_lookup _ i n ∅ (or_introl Hin) Huniq).
    assert (Hn : JS.nonempty n = true).
    { unfold recorded_calls in Hin.
      apply elem_of_concat in Hin as (l & Hin & Hl).
      apply list_elem_of_fmap in Hl as (m & -> & _).
      destruct (bool_decide _); [|now apply elem_of_nil in Hin].
      apply list_elem_of_omap in Hin as (tc & _ & Htc).
      destruct (call_function tc) as [f|]; [|discriminate].
      destruct (given (call_id tc)); [|discriminate].
      destruct (given (fn_name f)) eqn:Ef; [|discriminate].
      injection Htc as _ <-. unfold given in Ef.
      now destruct (fn_name f). }
    now rewrite Hn.
  - intros Hout. rewrite (entered_missing _ i ∅ Hout), lookup_empty.
    reflexivity.
Qed.

(** ** The system text *)

Lemma second_pass_system (names : gmap str str) (msg : message)
    (acc : list part * list content_out) :
  (second_pass JSON_valid names acc msg).1 =
    acc.1 ++ map (fun t => PText (Some t)) (system_texts [msg]) /\
  exists more, (second_pass JSON_valid names acc msg).2 = acc.2 ++ more.
Proof.
  destruct acc as [sys cs]. unfold second_pass, system_texts.
  rewrite omap_cons. cbn [omap fst snd].
  destruct (decide (role msg = Some (lit "system")
                    \/ role msg = Some (lit "developer"))) as [E|E].
  { rewrite (bool_decide_eq_true_2 _ E).
    destruct (JS.nonempty (extractTextContent (msg_content msg)));
      cbn [fst snd map]; rewrite ?app_nil_r; (split; [reflexivity|]);
      exists []; now rewrite app_nil_r. }
  rewrite (bool_decide_eq_false_2 _ E). cbn [map]. rewrite app_nil_r.
  destruct (decide (role msg = Some (lit "user"))).
  { destruct (buildContentParts (msg_content msg)); cbn [fst snd];
      (split; [reflexivity|]); eexists; try reflexivity.
    now rewrite app_nil_r. }
  destruct (decide (role msg = Some (lit "assistant"))).
  { destruct (_ ++ _); cbn [fst snd];
      (split; [reflexivity|]); eexists; try reflexivity.
    now rewrite app_nil_r. }
  destruct (decide (role msg = Some (lit "tool"))); cbn [fst snd];
    (split; [reflexivity|]); eexists; try reflexivity.
  now rewrite app_nil_r.
Qed.

Lemma system_texts_cons (msg : message) (msgs : list message) :
  system_texts (msg :: msgs) = system_texts [msg] ++ system_texts msgs.
Proof.
  unfold system_texts. rewrite !omap_cons.
  now destruct (if bool_decide _ then _ else _).
Qed.

Lemma second_pass_all (names : gmap str str) (msgs : list message) :
  forall acc,
  (fold_left (second_pass JSON_valid names) msgs acc).1 =
    acc.1 ++ map (fun t => PText (Some t)) (system_texts msgs) /\
  exists more,
    (fold_left (second_pass JSON_valid names) msgs acc).2 = acc.2 ++ more.
Proof.
  induction msgs as [|msg msgs IH]; intros acc.
  - cbn [fold_left]. rewrite !app_nil_r. split; [reflexivity|].
    exists []. now rewrite app_nil_r.
  - cbn [fold_left].
    destruct (second_pass_system names msg acc) as [H1 [m1 H2]].
    destruct (IH (second_pass JSON_valid names acc msg)) as [I1 [m2 I2]].
    rewrite I1, I2, H1, H2, (system_texts_cons msg msgs), map_app.
    split; [now rewrite app_assoc|].
    exists (m1 ++ m2). now rewrite app_assoc.
Qed.

(** X25. The text of the [system] and [developer] messages is not
    dropped: with other content in the request it is the
    [system_instruction], and alone it is sent as one [user] content;
    without such text there is no [system_instruction]. *)
Theorem system_text_is_placed (b : body) :
  let texts :=
    map (fun t => PText (Some t)) (system_texts (messages_of b)) in
  match texts with
  | [] => system_instruction (build b) = None
  | _ =>
      contents (build b) <> [] /\
      (system_instruction (build b) = Some texts \/
       (system_instruction (build b) = None /\
        contents (build b)
        = [ {| c_role := lit "user"; c_parts := texts |} ]))
  end.
Proof.
  intros texts. unfold buildGeminiRequestFromOpenAI.
  destruct (second_pass_all (toolCallNames (messages_of b)) (messages_of b)
              ([], [])) as [H1 _].
  destruct (fold_left _ (messages_of b) ([], [])) as [sys cs].
  cbn [fst snd app] in H1. fold texts in H1. subst sys.
  cbn [system_instruction contents].
  destruct texts as [|t ts]; [reflexivity|].
  destruct cs as [|c cs].
  - split; [discriminate|]. right. split; reflexivity.
  - split; [discriminate|]. left. reflexivity.
Qed.

End GeminiRequests.



(** * The theorems at concrete inputs *)

Lemma codex_end_as_write_witness :
  Router.streamState
    (Router.codex_end Examples.clock Examples.no_date ∅ Examples.not_json
       (lit "m") 200 (Some (lit "data: x")) Router.codex_start).1 =
    Router.streamState
      (Router.codex_feed Examples.clock Examples.no_date ∅
         Examples.not_json (lit "m") Router.codex_start
         (Transport.pending (Some (lit "data: x")) ++ [SSE.separator])).1 /\
  (Router.codex_end Examples.clock Examples.no_date ∅ Examples.not_json
     (lit "m") 200 (Some (lit "data: x")) Router.codex_start).2 =
    (Router.codex_feed Examples.clock Examples.no_date ∅
       Examples.not_json (lit "m") Router.codex_start
       (Transport.pending (Some (lit "data: x")) ++ [SSE.separator])).2
    ++ [Router.Done;
        Router.End (match Transport.pending (Some (lit "data: x")) with
                    | [] => Some (lit "data: x")
                    | _ => None
                    end)].
Proof.
  apply (codex_end_as_write Examples.clock Examples.no_date ∅
           Examples.not_json (lit "m") 200 (Some (lit "data: x"))
           Router.codex_start).
  lia.
Defined.

Lemma codex_buffer_holds_no_frame_witness :
  exists events,
    Transport.cut_into events
      (Router.sseBuffer
         (Router.codex_write Examples.clock Examples.no_date ∅
            Examples.not_json (lit "m") 200 Samples.frame_and_a_half
            Router.codex_start).1)
      (Router.sseBuffer Router.codex_start
       ++ JS.replace_crlf Samples.frame_and_a_half) /\
    JS.indexOf SSE.separator
      (Router.sseBuffer
         (Router.codex_write Examples.clock Examples.no_date ∅
            Examples.not_json (lit "m") 200 Samples.frame_and_a_half
            Router.codex_start).1) = None /\
    Router.streamState
      (Router.codex_write Examples.clock Examples.no_date ∅
         Examples.not_json (lit "m") 200 Samples.frame_and_a_half
         Router.codex_start).1
    = (SSE.for_lines
         (Router.codex_on_line Examples.clock Examples.no_date ∅
            Examples.not_json (lit "m"))
         (Router.streamState Router.codex_start)
         (concat (map (JS.split JS.LF) events))).1 /\
    (Router.codex_write Examples.clock Examples.no_date ∅
       Examples.not_json (lit "m") 200 Samples.frame_and_a_half
       Router.codex_start).2
    = map Router.Send
        (SSE.for_lines
           (Router.codex_on_line Examples.clock Examples.no_date ∅
              Examples.not_json (lit "m"))
           (Router.streamState Router.codex_start)
           (concat (map (JS.split JS.LF) events))).2.
Proof.
  apply (codex_buffer_holds_no_frame Examples.clock Examples.no_date ∅
           Examples.not_json (lit "m") 200 Samples.frame_and_a_half
           Router.codex_start).
  lia.
Defined.

Lemma codex_exchange_by_lines_witness :
  (Router.codex_feed Examples.clock Examples.no_date ∅ Examples.not_json
     (lit "m") Router.codex_start Examples.split_separator).2
  ++ (Router.codex_end Examples.clock Examples.no_date ∅ Examples.not_json
        (lit "m") 200 (Some (lit "data: tail"))
        (Router.codex_feed Examples.clock Examples.no_date ∅
           Examples.not_json (lit "m") Router.codex_start
           Examples.split_separator).1).2
  = [Router.Send (Raw (lit "oops")); Router.Send (Raw (lit "more"));
     Router.Send (Raw (lit "tail")); Router.Done; Router.End None].
Proof.
  pose proof (codex_exchange_by_lines Examples.clock Examples.no_date ∅
                Examples.not_json (lit "m") 200 Examples.split_separator
                (Some (lit "data: tail")) ltac:(lia)) as H.
  cbv zeta in H. destruct H as (_ & H & _). rewrite H.
  vm_compute. reflexivity.
Defined.

Lemma completed_reason_follows_calls_witness :
  exists c,
    (Codex.convertStreamChunk Examples.clock Examples.no_date ∅
       Samples.completed_event (lit "m")
       (Codex.convert_all Examples.clock Examples.no_date ∅ (lit "m")
          Codex.createStreamState Examples.call_with_delta).1).2
    = [Chunk c] /\
    map finish (choices c) = [Some tool_calls].
Proof.
  apply (completed_reason_follows_calls Examples.clock Examples.no_date ∅
           (lit "m") Examples.call_with_delta Samples.completed_event).
  reflexivity.
Defined.

Lemma arguments_streamed_once_witness :
  map Entries.fragment
    (Entries.tool_entries
       (Codex.convert_all Examples.clock Examples.no_date ∅ (lit "m")
          Codex.createStreamState Examples.call_with_delta).2)
  = [(Some 0, []); (Some 0, lit "x")].
Proof.
  apply (arguments_streamed_once Examples.clock Examples.no_date ∅ (lit "m")
           Codex.createStreamState
           (Examples.item_event (lit "response.output_item.added")
              (Examples.call_item (lit "call_a") (lit "lookup")) 0)
           [Examples.arguments_event
              (lit "response.function_call_arguments.delta") (lit "x") None]
           (Examples.arguments_event
              (lit "response.function_call_arguments.done") []
              (Some (lit "x")))).
  - reflexivity.
  - eexists. reflexivity.
  - repeat constructor.
  - reflexivity.
Defined.

Lemma chunks_carry_response_metadata_witness :
  Forall (fun c => id c = lit "resp_1" /\ created c = 1700000000 /\
                   Canonical.model c = lit "gpt-5")
    (chunks_of
       (Codex.convert_all Examples.clock Examples.no_date ∅ (lit "m")
          Codex.createStreamState
          (Samples.created_event :: Examples.call_with_delta)).2).
Proof.
  apply (chunks_carry_response_metadata Examples.clock Examples.no_date ∅
           (lit "m") Codex.createStreamState Samples.created_event
           Samples.finished (lit "resp_1") (lit "gpt-5") 1700000000
           Examples.call_with_delta).
  - reflexivity.
  - reflexivity.
  - reflexivity.
  - discriminate.
  - reflexivity.
  - lia.
  - reflexivity.
  - repeat constructor; discriminate.
Defined.

Lemma called_choice_ends_with_tool_calls_witness :
  exists pre c,
    (Gemini.convert_all Examples.clock Examples.no_date (lit "m")
       (Gemini.createStreamState Examples.clock) [Examples.call_payload]).2
    = pre ++ [c] /\
    Entries.finish_of c = Some tool_calls.
Proof.
  eexists [_], _. split; [vm_compute; reflexivity|].
  eapply (called_choice_ends_with_tool_calls Examples.clock Examples.no_date
            (lit "m") [Examples.call_payload] [_] [] _ 0).
  - constructor; [left; discriminate|constructor].
  - vm_compute. reflexivity.
  - constructor. vm_compute. reflexivity.
  - vm_compute. reflexivity.
Defined.

Lemma finish_agrees_with_message_witness :
  exists e,
    last (Gemini.convert_candidate Examples.clock (lit "m")
            (Gemini.direct Examples.hi_payload)
            (Gemini.createStreamState Examples.clock, []) 0
            Samples.hi_candidate).2 = Some e /\
    Entries.finish_of e
    = Some (mc_finish
              (Gemini.convert_choice Examples.clock 0 Samples.hi_candidate)).
Proof.
  apply (finish_agrees_with_message Examples.clock Examples.no_date
           (lit "m")
           (Gemini.direct Examples.hi_payload)
           (Gemini.createStreamState Examples.clock) 0 Samples.hi_candidate).
  - reflexivity.
  - apply not_elem_of_empty.
Defined.

Lemma names_within_limit_pass_unchanged_witness :
  exists r c',
    CodexRequest.buildRequestFromOpenAI (fun _ => []) CodexRequest.fresh
      Samples.lookup_body = Some (r, c') /\
    CodexRequest.declared_as r = [JS.VStr (lit "lookup")] /\
    CodexRequest.replayed_as r = [JS.VStr (lit "lookup")] /\
    CodexRequest._reverseToolNameMap c' = ∅.
Proof.
  apply (names_within_limit_pass_unchanged (fun _ => [])
           Samples.lookup_body).
  repeat constructor; try (simpl; lia); discriminate.
Defined.

Lemma colliding_names_replayed_under_the_other_tool_witness :
  exists r c' short2,
    CodexRequest.buildRequestFromOpenAI (fun _ => []) CodexRequest.fresh
      (Shapes.body_with
         (Some [Shapes.function_tool Samples.long_x;
                Shapes.function_tool Samples.long_y])
         [Shapes.assistant_calling
            [Shapes.call_to (lit "call_1") Samples.long_y (lit "{}")]])
    = Some (r, c') /\
    CodexRequest.declared_as r
    = [JS.VStr (ToolNames.baseCandidate Samples.long_x); JS.VStr short2] /\
    CodexRequest.replayed_as r
    = [JS.VStr (ToolNames.baseCandidate Samples.long_x)] /\
    short2 <> ToolNames.baseCandidate Samples.long_x.
Proof.
  apply (colliding_names_replayed_under_the_other_tool (fun _ => [])
           Samples.long_x Samples.long_y (lit "call_1") (lit "{}")).
  - discriminate.
  - discriminate.
  - discriminate.
  - discriminate.
  - discriminate.
  - reflexivity.
Defined.

Lemma whole_response_by_items_witness :
  exists c choice,
    CodexResponse.convertResponse Examples.clock Examples.no_date ∅
      (CodexResponse.direct Samples.finished_whole) (lit "m")
    = Some (CodexResponse.Completion c) /\
    c_choices c = [choice] /\
    msg_content (mc_message choice) = None /\
    msg_reasoning_content (mc_message choice) = None /\
    msg_tool_calls (mc_message choice)
    = Some [CodexResponse.call_of ∅
              (Examples.call_item (lit "call_a") (lit "lookup"))] /\
    mc_finish choice = tool_calls.
Proof.
  apply (whole_response_by_items Examples.clock Examples.no_date ∅ (lit "m")
           Samples.finished_whole).
  discriminate.
Defined.

Lemma whole_response_agrees_with_stream_witness :
  exists c comp choice,
    last (Codex.convert_all Examples.clock Examples.no_date ∅ (lit "m")
            Codex.createStreamState
            (Samples.opened_event
             :: Examples.call_with_delta ++ [Samples.completed_event])).2
    = Some (Chunk c) /\
    CodexResponse.convertResponse Examples.clock Examples.no_date ∅
      (CodexResponse.direct Samples.finished_whole) (lit "m")
    = Some (CodexResponse.Completion comp) /\
    c_choices comp = [choice] /\
    id c = c_id comp /\
    Canonical.model c = c_model comp /\
    chunk_usage c = c_usage comp /\
    Entries.finish_of c = Some (mc_finish choice).
Proof.
  apply (whole_response_agrees_with_stream Examples.clock Examples.no_date ∅
           (lit "m") Samples.finished_whole Samples.opened
           Samples.opened_event Examples.call_with_delta
           Samples.completed_event).
  - reflexivity.
  - reflexivity.
  - reflexivity.
  - reflexivity.
  - repeat constructor; discriminate.
  - reflexivity.
  - reflexivity.
  - discriminate.
  - reflexivity.
  - vm_compute. split; intros _; discriminate.
Defined.

Lemma failed_response_same_error_witness :
  exists message kind code,
    Codex.convertStreamChunk Examples.clock Examples.no_date ∅
      Samples.failed_event (lit "m") Codex.createStreamState
    = (Codex.createStreamState, [ErrorEvent message kind code]) /\
    CodexResponse.convertResponse Examples.clock Examples.no_date ∅
      (CodexResponse.direct Samples.failed_whole) (lit "m")
    = Some (CodexResponse.ErrorObject message kind code).
Proof.
  apply (failed_response_same_error Examples.clock Examples.no_date ∅
           (lit "m") Samples.failed_whole Samples.failed_event
           Codex.createStreamState).
  - left. reflexivity.
  - reflexivity.
  - reflexivity.
Defined.

Local Ltac absent :=
  let H := fresh in
  intros H; vm_compute in H;
  repeat (apply elem_of_cons in H as [H|H]; [discriminate H|]);
  now apply elem_of_nil in H.

Lemma image_round_trip_witness :
  GeminiRequest.buildContentParts
    (Chat.Items
       [GeminiRequest.image_item (Gemini.data_url Samples.png (lit "aGk="))])
  = [GeminiRequest.PInlineData (lit "image/png") (lit "aGk=")].
Proof.
  apply (image_round_trip Samples.png (lit "aGk=")).
  - absent.
  - discriminate.
  - absent.
  - absent.
Defined.

Lemma tool_response_named_after_its_call_witness :
  GeminiRequest.response_name
    (GeminiRequest.toolCallNames (Chat.messages_of Samples.lookup_body))
    Samples.lookup_answer
  = lit "lookup".
Proof.
  apply (proj1 (tool_response_named_after_its_call
                  (Chat.messages_of Samples.lookup_body)
                  Samples.lookup_answer (lit "call_1") eq_refl)).
  - apply list_elem_of_here.
  - intros n' H. vm_compute in H. apply list_elem_of_singleton in H.
    injection H as ->. reflexivity.
Defined.
